(** * Conversational-AI CloudBase functions: session store, stream relay,
      tool invocation, progressive preamble and retrieval augmentation.

    A shallow embedding of the four cloud functions of the repository
    (llm-context-manager, llm-fast-reply, llm-tools, llm-rag) and the
    properties of their streaming orchestration engine.

    Conventions of the embedding.
    - JavaScript objects with identity (the per-session context objects
      held in the [Map] of [ContextManager]) live in an explicit heap; a
      context is denoted by its location, so aliasing between the value
      returned by [getContext] and the registered entry is visible.
    - [Date.now()] is an explicit argument [now].
    - The completion provider, [JSON.parse] and the random weather mock are
      collaborators passed in an [environment] record.
    - The output channel [sse] is a record with its [closed] flag and the
      log of the actions performed on it; [send] and [end] are total.
    - What happens while the handler is suspended on the provider stream is
      part of the stream: a [Disconnect] event closes the channel, a [Fail]
      event makes the pending await throw. *)

From Stdlib Require Import ZArith String Ascii List Bool Lia.
From Stdlib Require Import Sorting.Sorted Sorting.Permutation.
From stdpp Require Import base option list gmap strings pretty.

Import ListNotations.
Local Open Scope string_scope.
Local Open Scope Z_scope.
Local Open Scope list_scope.

(* ================================================================== *)
(** * JavaScript primitives used by the code *)
(* ================================================================== *)

(** Truthiness of a string ([if (s)]): the empty string is falsy. *)
Definition str_truthy (s : string) : bool := negb (String.eqb s "").

(** Truthiness of a possibly absent string ([undefined], [null]). *)
Definition truthy (o : option string) : bool :=
  match o with
  | Some s => str_truthy s
  | None => false
  end.

(** [o || d] on strings. *)
Definition or_default (o : option string) (d : string) : string :=
  match o with
  | Some s => if str_truthy s then s else d
  | None => d
  end.

(** Relative index of [Array.prototype.slice]: a negative index counts from
    the end, and the result is clamped to [0, len]. *)
Definition js_rel_index (i len : Z) : Z :=
  if i <? 0 then Z.max (len + i) 0 else Z.min i len.

(** [arr.slice(start, stop)]. *)
Definition js_slice {A} (start stop : Z) (l : list A) : list A :=
  let len := Z.of_nat (length l) in
  let k := js_rel_index start len in
  let f := js_rel_index stop len in
  take (Z.to_nat (f - k)) (drop (Z.to_nat k) l).

(** [arr.slice(start)]. *)
Definition js_slice_from {A} (start : Z) (l : list A) : list A :=
  drop (Z.to_nat (js_rel_index start (Z.of_nat (length l)))) l.

(** [arr[0] = x]: overwrites index 0, extending an empty array. *)
Definition js_set0 {A} (x : A) (l : list A) : list A :=
  match l with
  | [] => [x]
  | _ :: t => x :: t
  end.

Definition nl : string := String (ascii_of_nat 10) EmptyString.
Definition dquote : string := String (ascii_of_nat 34) EmptyString.
Definition backslash : string := String (ascii_of_nat 92) EmptyString.

(* ================================================================== *)
(** * Data model *)
(* ================================================================== *)

(** [toolCallData.function] *)
Record tool_function := {
  fn_name : string;
  fn_arguments : string
}.

(** [toolCallData] *)
Record tool_call := {
  tc_id : string;
  tc_type : string;
  tc_function : tool_function
}.

(** A chat message.  [content] is [None] for [content: null]; the other
    optional fields are absent unless the code sets them. *)
Record message := {
  role : string;
  content : option string;
  tool_calls : option (list tool_call);
  tool_call_id : option string;
  sources : option (list string)
}.

Definition plain_message (r : string) (c : string) : message :=
  {| role := r; content := Some c; tool_calls := None;
     tool_call_id := None; sources := None |}.

(** [{ role: 'system', content: DEFAULT_PROMPT }] *)
Definition system_message (prompt : string) : message :=
  plain_message "system" prompt.

(** [{ role: "assistant", content: null, tool_calls: [toolCallData] }] *)
Definition tool_call_message (tc : tool_call) : message :=
  {| role := "assistant"; content := None; tool_calls := Some [tc];
     tool_call_id := None; sources := None |}.

(** [{ role: "tool", tool_call_id: toolCallData.id,
       content: functionResult }] *)
Definition tool_result_message (tc : tool_call) (result : string) : message :=
  {| role := "tool"; content := Some result; tool_calls := None;
     tool_call_id := Some (tc_id tc); sources := None |}.

(** A per-session context object. *)
Record context := {
  messages : list message;
  createdAt : Z;
  lastAccessedAt : Z
}.

Definition set_messages (ms : list message) (c : context) : context :=
  {| messages := ms; createdAt := createdAt c;
     lastAccessedAt := lastAccessedAt c |}.

Definition set_lastAccessedAt (t : Z) (c : context) : context :=
  {| messages := messages c; createdAt := createdAt c;
     lastAccessedAt := t |}.

(** Deployment configuration shared by the four functions; the two limits
    are the integers read by [parseInt]. *)
Record config := {
  MODEL : string;
  DEFAULT_PROMPT : string;
  MAX_CONTEXT_MESSAGES : Z;
  CONTEXT_EXPIRY_HOURS : Z
}.

(* ================================================================== *)
(** * ContextManager *)
(* ================================================================== *)

(** Locations of context objects. *)
Abbreviation loc := nat (only parsing).

(** The manager: every context object ever created lives in [heap]; the
    JavaScript [Map] [this.contexts] holds the registered ones by task id. *)
Record ContextManager := {
  heap : list context;
  contexts : gmap string loc
}.

Definition empty_manager : ContextManager :=
  {| heap := []; contexts := ∅ |}.

(** The messages of the context object at [l] ([contextData.messages]). *)
Definition messages_at (l : loc) (cm : ContextManager) : list message :=
  match heap cm !! l with
  | Some c => messages c
  | None => []
  end.

(** In-place update of the object at [l]. *)
Definition update_at (f : context → context) (l : loc)
    (cm : ContextManager) : ContextManager :=
  {| heap := alter f l (heap cm); contexts := contexts cm |}.

(** The history registered under a task id, if any. *)
Definition history_of (id : string) (cm : ContextManager)
    : option (list message) :=
  match contexts cm !! id with
  | Some l => Some (messages_at l cm)
  | None => None
  end.

Definition new_context (cfg : config) (now : Z) : context :=
  {| messages := [system_message (DEFAULT_PROMPT cfg)];
     createdAt := now; lastAccessedAt := now |}.

(** [getContext(taskId)]: returns the location of the resolved context. *)
Definition getContext (cfg : config) (taskId : option string) (now : Z)
    (cm : ContextManager) : loc * ContextManager :=
  match taskId with
  | Some id =>
      if str_truthy id then
        match contexts cm !! id with
        | None =>
            let l := length (heap cm) in
            (l, {| heap := heap cm ++ [new_context cfg now];
                   contexts := <[id := l]> (contexts cm) |})
        | Some l => (l, update_at (set_lastAccessedAt now) l cm)
        end
      else
        (length (heap cm),
         {| heap := heap cm ++ [new_context cfg now];
            contexts := contexts cm |})
  | None =>
      (length (heap cm),
       {| heap := heap cm ++ [new_context cfg now];
          contexts := contexts cm |})
  end.

(** The bound enforcement of [addMessage], on the message array after the
    push. *)
Definition trim (cfg : config) (ms : list message) : list message :=
  if Z.of_nat (length ms) >? MAX_CONTEXT_MESSAGES cfg + 1 then
    match ms with
    | systemMessage :: _ =>
        systemMessage :: js_slice_from (- MAX_CONTEXT_MESSAGES cfg) ms
    | [] => ms
    end
  else ms.

(** [addMessage(taskId, message)]: returns the context ([None] for the
    [null] result when no task id is given). *)
Definition addMessage (cfg : config) (taskId : option string) (m : message)
    (now : Z) (cm : ContextManager) : option loc * ContextManager :=
  if truthy taskId then
    let '(l, cm1) := getContext cfg taskId now cm in
    (Some l,
     update_at (fun c => set_messages (trim cfg (messages c ++ [m])) c)
               l cm1)
  else (None, cm).

(** [cleanExpiredContexts()]: unregisters the contexts idle for longer than
    the expiry time. *)
Definition expired (cfg : config) (now : Z) (cm : ContextManager)
    (l : loc) : bool :=
  match heap cm !! l with
  | Some c =>
      now - lastAccessedAt c >? CONTEXT_EXPIRY_HOURS cfg * 60 * 60 * 1000
  | None => false
  end.

Definition cleanExpiredContexts (cfg : config) (now : Z)
    (cm : ContextManager) : ContextManager :=
  {| heap := heap cm;
     contexts := filter (fun kv => expired cfg now cm (snd kv) = false)
                        (contexts cm) |}.

(* ================================================================== *)
(** * Provider deltas, output channel and the handler monad *)
(* ================================================================== *)

(** [toolCallDelta.function] *)
Record function_delta := {
  fd_name : option string;
  fd_arguments : option string
}.

(** One entry of [delta.tool_calls]. *)
Record tool_call_delta := {
  tcd_id : option string;
  tcd_type : option string;
  tcd_function : option function_delta
}.

Record delta := {
  delta_content : option string;
  delta_tool_calls : option (list tool_call_delta)
}.

Record choice := {
  choice_delta : option delta;
  finish_reason : option string
}.

(** An incremental chunk of a streamed completion. *)
Record chunk := { choices : list choice }.

(** [chunk.choices[0]?.delta]: optional chaining through the first choice. *)
Definition chunk_delta (c : chunk) : option delta :=
  match choices c with
  | ch :: _ => choice_delta ch
  | [] => None
  end.

(** [chunk.choices[0]?.delta?.content || ''] *)
Definition chunk_content (c : chunk) : string :=
  match chunk_delta c with
  | Some d => or_default (delta_content d) ""
  | None => ""
  end.

(** [chunk.choices[0]?.delta?.tool_calls] *)
Definition chunk_tool_calls (c : chunk) : option (list tool_call_delta) :=
  match chunk_delta c with
  | Some d => delta_tool_calls d
  | None => None
  end.

(** [chunk.choices[0]?.finish_reason] *)
Definition chunk_finish_reason (c : chunk) : option string :=
  match choices c with
  | ch :: _ => finish_reason ch
  | [] => None
  end.

(** [{ choices: [{ delta: { content } }] }] *)
Definition content_chunk (s : string) : chunk :=
  {| choices := [ {| choice_delta :=
                       Some {| delta_content := Some s;
                               delta_tool_calls := None |};
                     finish_reason := None |} ] |}.

(** What the handler observes while it iterates a provider stream: the next
    delta, the client going away during the await, or the await throwing. *)
Inductive stream_event :=
  | Delta (c : chunk)
  | Disconnect
  | Fail (msg : string).

(** The arguments of [openai.chat.completions.create]. *)
Record completion_request := {
  req_model : string;
  req_messages : list message;
  req_stream : bool;
  req_tools : bool;
  req_max_tokens : option Z;
  req_temperature : option string
}.

Definition stream_request (model : string) (ms : list message)
    (tools : bool) : completion_request :=
  {| req_model := model; req_messages := ms; req_stream := true;
     req_tools := tools; req_max_tokens := None; req_temperature := None |}.

(** The result of a non-streaming completion: whether the client went away
    during the await, and either the error message of the failed call or
    [response.choices[0].message.content]. *)
Record completion_result := {
  disconnected_meanwhile : bool;
  completion_outcome : string + option string
}.

(** JSON values ([JNum] keeps the literal text of the number). *)
#[local] Unset Elimination Schemes.
Inductive json :=
  | JNull
  | JBool (b : bool)
  | JNum (text : string)
  | JStr (s : string)
  | JArr (items : list json)
  | JObj (fields : list (string * json)).
#[local] Set Elimination Schemes.

(** The external collaborators. *)
Record environment := {
  (** [await create({..., stream: true})], with what happens during the
      iteration *)
  create_stream : completion_request → list stream_event;
  (** [await create({..., stream: false})] *)
  create_completion : completion_request → completion_result;
  (** [JSON.parse]: the value, or the message of the [SyntaxError] *)
  JSON_parse : string → json + string;
  (** the mock weather service, on a non-null argument *)
  getWeather : json → json
}.

(** Frames written to the output channel. *)
Inductive frame :=
  | FChunk (c : chunk)          (* data: JSON.stringify(chunk) *)
  | FRaw (s : string)           (* data: JSON.stringify(content) *)
  | FDone                       (* data: [DONE] *)
  | FError (msg : string).      (* data: {"error": msg} *)

Inductive action :=
  | Send (f : frame)
  | End.

(** The output channel [sse = context.sse()]. *)
Record channel := {
  available : bool;      (* false when [context.sse()] is null *)
  closed : bool;
  log : list action
}.

Definition open_channel : channel :=
  {| available := true; closed := false; log := [] |}.

(** [!sse || sse.closed] *)
Definition unusable (s : channel) : bool := negb (available s) || closed s.

(** The state a request handler works on. *)
Record world := {
  manager : ContextManager;
  sse : channel;
  requests : list completion_request
}.

Inductive result (A : Type) :=
  | Ok (a : A)
  | Throw (msg : string).
Arguments Ok {A} a.
Arguments Throw {A} msg.

(** Computations of a handler: they update the world and return a value or
    throw; the updates made before a throw persist. *)
Definition M (A : Type) : Type := world → result A * world.

Definition ret {A} (a : A) : M A := fun w => (Ok a, w).

Definition bind {A B} (c : M A) (k : A → M B) : M B :=
  fun w =>
    match c w with
    | (Ok a, w') => k a w'
    | (Throw msg, w') => (Throw msg, w')
    end.

Definition throw {A} (msg : string) : M A := fun w => (Throw msg, w).

Definition try_catch {A} (c : M A) (handler : string → M A) : M A :=
  fun w =>
    match c w with
    | (Ok a, w') => (Ok a, w')
    | (Throw msg, w') => handler msg w'
    end.

Declare Scope handler_scope.
Delimit Scope handler_scope with handler.
Notation "x <- c ;; k" := (bind c (fun x => k))
  (at level 100, c at next level, right associativity) : handler_scope.
Notation "c ;; k" := (bind c (fun _ => k))
  (at level 100, right associativity) : handler_scope.
Local Open Scope handler_scope.

Definition when (b : bool) (c : M unit) : M unit :=
  if b then c else ret tt.

(** [sse.closed] *)
Definition sse_closed : M bool := fun w => (Ok (closed (sse w)), w).

(** [error.message || 'Unknown error'] *)
Definition error_text (msg : string) : string :=
  if str_truthy msg then msg else "Unknown error".

(** [sse.send] and [sse.end] belong to the platform, and they can throw:
    a write of the [try] block that throws reaches the [catch] block, and
    the [catch] block wraps its own writes in an inner [try].  A transport
    says which writes throw: for the state of the channel and the write
    that is attempted, the message of the error that is thrown, or nothing
    when the write succeeds.  A write that throws leaves the channel as it
    is: the frame is not written, the channel is not closed. *)
Definition transport : Type := channel → action → option string.

(** The transport on which every write succeeds. *)
Definition reliable : transport := fun _ _ => None.

(** The writes of the source, on a transport [tr]. *)
Module Transport.
Section Writes.
Variable tr : transport.

(** [sse.send(frame)] *)
Definition sse_send (f : frame) : M unit :=
  fun w =>
    match tr (sse w) (Send f) with
    | Some msg => (Throw msg, w)
    | None =>
        (Ok tt,
         {| manager := manager w;
            sse := {| available := available (sse w);
                      closed := closed (sse w);
                      log := log (sse w) ++ [Send f] |};
            requests := requests w |})
    end.

(** [sse.end()] *)
Definition sse_end : M unit :=
  fun w =>
    match tr (sse w) End with
    | Some msg => (Throw msg, w)
    | None =>
        (Ok tt,
         {| manager := manager w;
            sse := {| available := available (sse w); closed := true;
                      log := log (sse w) ++ [End] |};
            requests := requests w |})
    end.

(** The [catch] block shared by the four handlers:
    [try { if (!sse.closed) { sse.send(error frame); sse.end() } }
     catch (sseError) { console.error(...) }] *)
Definition report_error (msg : string) : M unit :=
  try_catch
    (c <- sse_closed ;;
     when (negb c) (sse_send (FError (error_text msg)) ;; sse_end))
    (fun _ => ret tt).

(** The end of the [try] block shared by the four handlers:
    [if (!sse.closed) { sse.send('data: [DONE]'); sse.end() }] *)
Definition finish_stream : M unit :=
  c <- sse_closed ;;
  when (negb c) (sse_send FDone ;; sse_end).

End Writes.
End Transport.

(** The writes of a request during which none throws: the operations
    above on the reliable transport.  The handlers of the four functions
    are first defined with them, and studied as the handlers of such a
    request; [Throwing] below has the same handlers on any transport. *)
Definition sse_send (f : frame) : M unit := Transport.sse_send reliable f.

Definition sse_end : M unit := Transport.sse_end reliable.

Definition report_error (msg : string) : M unit :=
  Transport.report_error reliable msg.

Definition finish_stream : M unit := Transport.finish_stream reliable.

(** The client goes away: the channel reports itself closed from now on. *)
Definition client_disconnects : M unit :=
  fun w =>
    (Ok tt,
     {| manager := manager w;
        sse := {| available := available (sse w); closed := true;
                  log := log (sse w) |};
        requests := requests w |}).

(** [contextManager.addMessage(taskId, m)] *)
Definition add_message (cfg : config) (now : Z) (taskId : option string)
    (m : message) : M unit :=
  fun w =>
    (Ok tt,
     {| manager := snd (addMessage cfg taskId m now (manager w));
        sse := sse w; requests := requests w |}).

(** [contextData.messages] *)
Definition context_messages (contextData : loc) : M (list message) :=
  fun w => (Ok (messages_at contextData (manager w)), w).

(** [await openai.chat.completions.create({..., stream: true})]: the request
    is recorded and the stream of the provider returned. *)
Definition open_stream (env : environment) (r : completion_request)
    : M (list stream_event) :=
  fun w =>
    (Ok (create_stream env r),
     {| manager := manager w; sse := sse w;
        requests := requests w ++ [r] |}).

(** The request as received by [main]. *)
Record event := {
  ev_taskId : option string;
  ev_messages : option (list message);
  ev_model : option string;
  ev_useProgressiveResponse : option bool
}.

(** [context.httpContext?.headers?.['x-task-id'] || event.taskId || null] *)
Definition resolve_taskId (header : option string) (e : event)
    : option string :=
  if truthy header then header
  else if truthy (ev_taskId e) then ev_taskId e
  else None.

(** [const { messages = [] } = event] *)
Definition event_messages (e : event) : list message :=
  default [] (ev_messages e).

(** The folding of the supplied messages into the context done by [main];
    returns [contextData]. *)
Definition fold_messages (cfg : config) (now : Z) (taskId : option string)
    (ms : list message) (cm : ContextManager) : loc * ContextManager :=
  let '(contextData, cm1) := getContext cfg taskId now cm in
  match ms with
  | [] => (contextData, cm1)
  | first :: rest =>
      if String.eqb (role first) "system" then
        let cm2 :=
          update_at (fun c => set_messages (js_set0 first (messages c)) c)
                    contextData cm1 in
        (contextData,
         fold_left (fun cm m => snd (addMessage cfg taskId m now cm)) rest cm2)
      else
        (contextData,
         fold_left
           (fun cm m =>
              if truthy taskId then snd (addMessage cfg taskId m now cm)
              else update_at (fun c => set_messages (messages c ++ [m]) c)
                             contextData cm)
           ms cm1)
  end.

(** The loop that forwards content deltas, as written in the basic,
    fast-reply and retrieval handlers and for the follow-up stream of the
    tools handler:
    [for await (const chunk of stream) { const content = ...;
       if (content) { assistantResponse += content;
         if (!sse.closed) sse.send(chunk) else break } }] *)
Fixpoint relay_content (stream : list stream_event)
    (assistantResponse : string) : M string :=
  match stream with
  | [] => ret assistantResponse
  | Disconnect :: rest =>
      client_disconnects ;; relay_content rest assistantResponse
  | Fail msg :: _ => throw msg
  | Delta c :: rest =>
      let content := chunk_content c in
      if str_truthy content then
        let assistantResponse := assistantResponse +:+ content in
        cl <- sse_closed ;;
        if cl then ret assistantResponse
        else sse_send (FChunk c) ;; relay_content rest assistantResponse
      else relay_content rest assistantResponse
  end.

(** [if (!model) throw new Error(...)] *)
Definition require_model (model : string) : M unit :=
  if str_truthy model then ret tt
  else throw "Model parameter is required but was not provided".

(** [if (assistantResponse && taskId) contextManager.addMessage(...)] *)
Definition save_response (cfg : config) (now : Z) (taskId : option string)
    (assistantResponse : string) : M unit :=
  when (str_truthy assistantResponse && truthy taskId)
       (add_message cfg now taskId
          (plain_message "assistant" assistantResponse)).

(** [model || MODEL] *)
Definition modelToUse (cfg : config) (e : event) : string :=
  or_default (ev_model e) (MODEL cfg).

(** The world in which a handler starts. *)
Definition initial_world (cm : ContextManager) (s : channel) : world :=
  {| manager := cm; sse := s; requests := [] |}.

(* ================================================================== *)
(** * llm-context-manager *)
(* ================================================================== *)

Module LlmContextManager.

Definition handleStreamingRequest (cfg : config) (env : environment)
    (now : Z) (taskId : option string) (model : string)
    (contextData : loc) (w : world) : world :=
  if unusable (sse w) then w
  else
    snd (try_catch
           (require_model model ;;
            ms <- context_messages contextData ;;
            stream <- open_stream env (stream_request model ms false) ;;
            assistantResponse <- relay_content stream "" ;;
            save_response cfg now taskId assistantResponse ;;
            finish_stream)
           report_error w).

Definition main (cfg : config) (env : environment) (now : Z)
    (header : option string) (e : event) (s : channel)
    (cm : ContextManager) : world :=
  let taskId := resolve_taskId header e in
  let '(contextData, cm1) :=
    fold_messages cfg now taskId (event_messages e) cm in
  handleStreamingRequest cfg env now taskId (modelToUse cfg e)
    contextData (initial_world cm1 s).

End LlmContextManager.

(* ================================================================== *)
(** * llm-tools *)
(* ================================================================== *)

Module LlmTools.

Definition hex_digit (n : nat) : string :=
  String.substring n 1 "0123456789abcdef".

(** The escape of one character inside a JSON string literal. *)
Definition escape_char (a : ascii) : string :=
  let n := nat_of_ascii a in
  if Nat.eqb n 34 then "\" +:+ dquote
  else if Nat.eqb n 92 then "\\"
  else if Nat.eqb n 8 then "\b"
  else if Nat.eqb n 9 then "\t"
  else if Nat.eqb n 10 then "\n"
  else if Nat.eqb n 12 then "\f"
  else if Nat.eqb n 13 then "\r"
  else if Nat.ltb n 32 then
    "\u00" +:+ hex_digit (Nat.div n 16) +:+ hex_digit (Nat.modulo n 16)
  else String a EmptyString.

Fixpoint escape_string (s : string) : string :=
  match s with
  | EmptyString => EmptyString
  | String a rest => escape_char a +:+ escape_string rest
  end.

Definition quote (s : string) : string :=
  dquote +:+ escape_string s +:+ dquote.

(** [JSON.stringify] *)
Fixpoint JSON_stringify (v : json) : string :=
  match v with
  | JNull => "null"
  | JBool true => "true"
  | JBool false => "false"
  | JNum text => text
  | JStr s => quote s
  | JArr items =>
      "[" +:+
      (fix elements (l : list json) : string :=
         match l with
         | [] => ""
         | [x] => JSON_stringify x
         | x :: rest => JSON_stringify x +:+ "," +:+ elements rest
         end) items
      +:+ "]"
  | JObj fields =>
      "{" +:+
      (fix members (l : list (string * json)) : string :=
         match l with
         | [] => ""
         | [(k, x)] => quote k +:+ ":" +:+ JSON_stringify x
         | (k, x) :: rest =>
             quote k +:+ ":" +:+ JSON_stringify x +:+ "," +:+ members rest
         end) fields
      +:+ "}"
  end.

(** [{ error: msg }] *)
Definition error_result (msg : string) : json :=
  JObj [("error", JStr msg)].

(** The message of the [TypeError] raised by [args.location] on [null]. *)
Definition null_args_error : string :=
  "Cannot read properties of null (reading 'location')".

(** [handleFunctionCall(functionCall, sse, requestId)] *)
Definition handleFunctionCall (env : environment)
    (functionCall : tool_function) : string :=
  let functionResult :=
    if String.eqb (fn_name functionCall) "get_weather" then
      match JSON_parse env (fn_arguments functionCall) with
      | inl JNull =>
          error_result ("Error parsing arguments: " +:+ null_args_error)
      | inl args => getWeather env args
      | inr msg => error_result ("Error parsing arguments: " +:+ msg)
      end
    else error_result "Function not implemented"
  in
  JSON_stringify functionResult.

(** The local variables of the streaming loop. *)
Record relay_state := {
  assistantResponse : string;
  collectingToolCall : bool;
  toolCallData : option tool_call;
  accumulatedArguments : string
}.

Definition initial_state : relay_state :=
  {| assistantResponse := ""; collectingToolCall := false;
     toolCallData := None; accumulatedArguments := "" |}.

Definition set_response (r : string) (st : relay_state) : relay_state :=
  {| assistantResponse := r;
     collectingToolCall := collectingToolCall st;
     toolCallData := toolCallData st;
     accumulatedArguments := accumulatedArguments st |}.

(** [toolCallDelta.function?.name] *)
Definition delta_function_name (d : tool_call_delta) : option string :=
  match tcd_function d with
  | Some f => fd_name f
  | None => None
  end.

(** [toolCallDelta.function?.arguments] *)
Definition delta_function_arguments (d : tool_call_delta)
    : option string :=
  match tcd_function d with
  | Some f => fd_arguments f
  | None => None
  end.

(** The first fragment of an invocation: [collectingToolCall = true] and
    [toolCallData] is captured with empty arguments. *)
Definition start_tool_call (d : tool_call_delta) (st : relay_state)
    : relay_state :=
  {| assistantResponse := assistantResponse st;
     collectingToolCall := true;
     toolCallData :=
       Some {| tc_id := or_default (tcd_id d) "";
               tc_type := or_default (tcd_type d) "";
               tc_function :=
                 {| fn_name := or_default (delta_function_name d) "";
                    fn_arguments := "" |} |};
     accumulatedArguments := accumulatedArguments st |}.

(** [if (toolCallDelta.function?.arguments) accumulatedArguments += ...] *)
Definition collect_arguments (d : tool_call_delta) (st : relay_state)
    : relay_state :=
  match delta_function_arguments d with
  | Some a =>
      if str_truthy a then
        {| assistantResponse := assistantResponse st;
           collectingToolCall := collectingToolCall st;
           toolCallData := toolCallData st;
           accumulatedArguments := accumulatedArguments st +:+ a |}
      else st
  | None => st
  end.

(** One delta carrying [tool_calls]: the branch that ends in [continue]. *)
Definition tool_call_fragment (d : tool_call_delta) (st : relay_state)
    : relay_state :=
  collect_arguments d
    (if collectingToolCall st then st else start_tool_call d st).

(** [toolCallData.function.arguments = accumulatedArguments] *)
Definition with_arguments (args : string) (tc : tool_call) : tool_call :=
  {| tc_id := tc_id tc; tc_type := tc_type tc;
     tc_function := {| fn_name := fn_name (tc_function tc);
                       fn_arguments := args |} |}.

Section Handler.
Variable cfg : config.
Variable env : environment.
Variable now : Z.
Variable taskId : option string.
Variable model : string.
Variable contextData : loc.

(** The completion of a tool invocation: execute, record, continue the
    conversation and relay the follow-up stream. *)
Definition complete_tool_call (st : relay_state) : M relay_state :=
  match toolCallData st with
  | None => throw "Cannot read properties of null (reading 'function')"
  | Some tc0 =>
      let tc := with_arguments (accumulatedArguments st) tc0 in
      let functionResult := handleFunctionCall env (tc_function tc) in
      when (truthy taskId)
           (add_message cfg now taskId (tool_call_message tc) ;;
            add_message cfg now taskId
              (tool_result_message tc functionResult)) ;;
      ms <- context_messages contextData ;;
      followUpResponse <-
        open_stream env
          (stream_request model
             (ms ++ [tool_call_message tc;
                     tool_result_message tc functionResult])
             false) ;;
      r <- relay_content followUpResponse (assistantResponse st) ;;
      save_response cfg now taskId r ;;
      ret {| assistantResponse := r;
             collectingToolCall := collectingToolCall st;
             toolCallData := Some tc;
             accumulatedArguments := accumulatedArguments st |}
  end.

(** [for await (const chunk of stream) { ... }] *)
Fixpoint relay (stream : list stream_event) (st : relay_state)
    : M relay_state :=
  match stream with
  | [] => ret st
  | Disconnect :: rest => client_disconnects ;; relay rest st
  | Fail msg :: _ => throw msg
  | Delta c :: rest =>
      match chunk_tool_calls c with
      | Some [] =>
          throw (if collectingToolCall st
                 then "Cannot read properties of undefined (reading 'function')"
                 else "Cannot read properties of undefined (reading 'id')")
      | Some (toolCallDelta :: _) =>
          relay rest (tool_call_fragment toolCallDelta st)
      | None =>
          if collectingToolCall st &&
             bool_decide (chunk_finish_reason c = Some "tool_calls")
          then complete_tool_call st
          else
            let content := chunk_content c in
            if str_truthy content then
              let st := set_response (assistantResponse st +:+ content) st in
              cl <- sse_closed ;;
              if cl then ret st
              else sse_send (FChunk c) ;; relay rest st
            else relay rest st
      end
  end.

Definition handleStreamingRequest (w : world) : world :=
  if unusable (sse w) then w
  else
    snd (try_catch
           (require_model model ;;
            ms <- context_messages contextData ;;
            stream <- open_stream env (stream_request model ms true) ;;
            st <- relay stream initial_state ;;
            when (negb (collectingToolCall st))
                 (save_response cfg now taskId (assistantResponse st)) ;;
            finish_stream)
           report_error w).
End Handler.

Definition main (cfg : config) (env : environment) (now : Z)
    (header : option string) (e : event) (s : channel)
    (cm : ContextManager) : world :=
  let taskId := resolve_taskId header e in
  let '(contextData, cm1) :=
    fold_messages cfg now taskId (event_messages e) cm in
  handleStreamingRequest cfg env now taskId (modelToUse cfg e)
    contextData (initial_world cm1 s).

End LlmTools.

(* ================================================================== *)
(** * llm-fast-reply *)
(* ================================================================== *)

Module LlmFastReply.

(** [PROGRESSIVE_RESPONSE] and [SMALL_MODEL_PROMPT]; the temperature is
    kept as the text it is configured with. *)
Record progressive_config := {
  enabled : bool;
  smallModel : string;
  maxTokens : Z;
  temperature : string;
  SMALL_MODEL_PROMPT : string
}.

(** [sendSSEContent(sse, content, isChunk = true)] *)
Definition sendSSEContent (content : string) (isChunk : bool) : M unit :=
  cl <- sse_closed ;;
  if negb (str_truthy content) || cl then ret tt
  else if isChunk then sse_send (FChunk (content_chunk content))
  else sse_send (FRaw content).

(** [await openai.chat.completions.create({..., stream: false})] *)
Definition complete (env : environment) (r : completion_request)
    : M (option string) :=
  fun w =>
    let res := create_completion env r in
    let w1 := {| manager := manager w; sse := sse w;
                 requests := requests w ++ [r] |} in
    let w2 := if disconnected_meanwhile res
              then snd (client_disconnects w1) else w1 in
    match completion_outcome res with
    | inl msg => (Throw msg, w2)
    | inr c => (Ok c, w2)
    end.

Definition small_model_request (pc : progressive_config)
    (userContent : option string) : completion_request :=
  {| req_model := smallModel pc;
     req_messages :=
       [ system_message (SMALL_MODEL_PROMPT pc);
         {| role := "user"; content := userContent; tool_calls := None;
            tool_call_id := None; sources := None |} ];
     req_stream := false;
     req_tools := false;
     req_max_tokens := Some (maxTokens pc);
     req_temperature := Some (temperature pc) |}.

(** [smallModelContent + "\n\n"], where a [null] content prints as
    "null". *)
Definition with_blank_line (c : option string) : string :=
  default "null" c +:+ nl +:+ nl.

(** [getSmallModelResponse(userContent, sse, requestId)] *)
Definition getSmallModelResponse (pc : progressive_config)
    (env : environment) (userContent : option string) : M bool :=
  try_catch
    (smallModelContent <- complete env (small_model_request pc userContent) ;;
     sendSSEContent (with_blank_line smallModelContent) true ;;
     ret true)
    (fun _ => ret false).

(** [(event.useProgressiveResponse === true) ||
     (PROGRESSIVE_RESPONSE.enabled && event.useProgressiveResponse !== false)] *)
Definition enableProgressiveResponse (pc : progressive_config)
    (e : event) : bool :=
  bool_decide (ev_useProgressiveResponse e = Some true)
  || (enabled pc
      && negb (bool_decide (ev_useProgressiveResponse e = Some false))).

(** [event.messages[event.messages.length - 1]]; throws when the event has
    no [messages]. *)
Definition lastMessage (e : event) : M (option message) :=
  match ev_messages e with
  | None => throw "Cannot read properties of undefined (reading 'length')"
  | Some ms => ret (last ms)
  end.

(** [lastMessage?.role === 'user'] *)
Definition is_user (m : option message) : bool :=
  match m with
  | Some m => String.eqb (role m) "user"
  | None => false
  end.

Definition message_content (m : option message) : option string :=
  match m with
  | Some m => content m
  | None => None
  end.

Definition handleStreamingRequest (cfg : config) (pc : progressive_config)
    (env : environment) (now : Z) (taskId : option string)
    (model : string) (contextData : loc) (e : event) (w : world) : world :=
  if unusable (sse w) then w
  else
    snd (try_catch
           (last_message <- lastMessage e ;;
            when (enableProgressiveResponse pc e && is_user last_message)
                 (getSmallModelResponse pc env
                    (message_content last_message) ;; ret tt) ;;
            require_model model ;;
            ms <- context_messages contextData ;;
            stream <- open_stream env (stream_request model ms false) ;;
            assistantResponse <- relay_content stream "" ;;
            save_response cfg now taskId assistantResponse ;;
            finish_stream)
           report_error w).

Definition main (cfg : config) (pc : progressive_config)
    (env : environment) (now : Z) (header : option string) (e : event)
    (s : channel) (cm : ContextManager) : world :=
  let taskId := resolve_taskId header e in
  let '(contextData, cm1) :=
    fold_messages cfg now taskId (event_messages e) cm in
  handleStreamingRequest cfg pc env now taskId (modelToUse cfg e)
    contextData e (initial_world cm1 s).

End LlmFastReply.

(* ================================================================== *)
(** * llm-rag: the retrieval augmenter *)
(* ================================================================== *)

Module LlmRag.

Section Retrieval.
(** Embedding vectors and the non-NaN numbers that scoring produces.
    [num_leb] is [<=] on those numbers; a [NaN] result is [None]. *)
Variables vector num : Type.
Variable num_leb : num → num → bool.

(** A stored reference document. *)
Record document := {
  doc_id : string;
  title : string;
  doc_content : string;
  embedding : vector
}.

(** [{ ...doc, similarity }] *)
Record scored_document := {
  doc : document;
  similarity : option num
}.

(** [RAG_CONFIG]: the threshold is [None] when it is [NaN]. *)
Record rag_config := {
  USE_RAG : option string;
  similarityThreshold : option num;
  maxDocuments : Z
}.

(** [enabled: process.env.USE_RAG === 'true' || true] *)
Definition rag_enabled (rc : rag_config) : bool :=
  bool_decide (USE_RAG rc = Some "true") || true.

(** The scoring collaborators: [getEmbedding] may throw. *)
Record scoring := {
  getEmbedding : string → vector + string;
  cosineSimilarity : vector → vector → option num
}.

(** [a >= b] on JavaScript numbers: false as soon as one side is NaN. *)
Definition js_ge (a b : option num) : bool :=
  match a, b with
  | Some x, Some y => num_leb y x
  | _, _ => false
  end.

(** The sign of [b.similarity - a.similarity], the value returned by
    the comparator of the sort: [Lt] when negative ([a] goes first),
    [Gt] when positive, [Eq] when zero or NaN. *)
Definition by_similarity_desc (a b : scored_document) : comparison :=
  match similarity a, similarity b with
  | Some x, Some y =>
      if num_leb y x then (if num_leb x y then Eq else Lt) else Gt
  | _, _ => Eq
  end.

(** [Array.prototype.sort(compare)] is a stable sort: an element is
    placed after the elements that compare equal to it and came
    earlier.  [insert_sorted x l] places [x], which came before every
    element of [l], in front of the first element it does not have to
    follow. *)
Fixpoint insert_sorted {A} (compare : A → A → comparison) (x : A)
    (l : list A) : list A :=
  match l with
  | [] => [x]
  | y :: rest =>
      match compare x y with
      | Gt => y :: insert_sorted compare x rest
      | _ => x :: y :: rest
      end
  end.

Fixpoint js_sort {A} (compare : A → A → comparison) (l : list A)
    : list A :=
  match l with
  | [] => []
  | x :: rest => insert_sorted compare x (js_sort compare rest)
  end.

(** [this.documents.map(doc => ({ ...doc, similarity }))] *)
Definition score_documents (sc : scoring) (queryEmbedding : vector)
    (documents : list document) : list scored_document :=
  map (fun d => {| doc := d;
                   similarity := cosineSimilarity sc queryEmbedding
                                   (embedding d) |})
      documents.

(** [scoredDocs.filter(...).sort(...).slice(0, maxDocuments)] *)
Definition select_relevant (rc : rag_config)
    (scoredDocs : list scored_document) : list scored_document :=
  js_slice 0 (maxDocuments rc)
    (js_sort by_similarity_desc
       (List.filter
          (fun d => js_ge (similarity d) (similarityThreshold rc))
          scoredDocs)).

(** [retrieveRelevantDocuments(query)]: [None] is [null]. *)
Definition retrieveRelevantDocuments (rc : rag_config) (sc : scoring)
    (documents : list document) (query : string)
    : option (list scored_document) :=
  match getEmbedding sc query with
  | inr _ => None
  | inl queryEmbedding =>
      let relevantDocs :=
        select_relevant rc (score_documents sc queryEmbedding documents) in
      if (0 <? Z.of_nat (length relevantDocs)) then Some relevantDocs
      else None
  end.

(** The body of the [forEach] of [createContext]. *)
Fixpoint context_entries (index : nat) (documents : list scored_document)
    : string :=
  match documents with
  | [] => ""
  | d :: rest =>
      "[文档" +:+ pretty (S index) +:+ "：" +:+ title (doc d) +:+ "]"
      +:+ nl +:+ doc_content (doc d) +:+ nl +:+ nl
      +:+ context_entries (S index) rest
  end.

(** [createContext(documents)] *)
Definition createContext (documents : option (list scored_document))
    : option string :=
  match documents with
  | None | Some [] => None
  | Some ds =>
      Some ("以下是相关信息：" +:+ nl +:+ nl
            +:+ context_entries 0 ds
            +:+ "根据上述提供的信息来回答问题。如果信息不足，可以使用你自己的知识，但要明确指出哪些是来自文档的内容，哪些是你自己的补充。")
  end.

(** [enhanceSystemMessage(query, systemMessage)].  The log line of the
    enhanced branch reads [systemMessage.content.length]: on a [null]
    content it throws and the [catch] returns the original message. *)
Definition enhanceSystemMessage (rc : rag_config) (sc : scoring)
    (documents : list document) (query : string)
    (systemMessage : message) : message :=
  if negb (rag_enabled rc) then systemMessage
  else
    match retrieveRelevantDocuments rc sc documents query with
    | None | Some [] => systemMessage
    | Some relevantDocs =>
        match createContext (Some relevantDocs) with
        | None => systemMessage
        | Some ragContext =>
            if negb (str_truthy ragContext) then systemMessage
            else
              match content systemMessage with
              | None => systemMessage
              | Some c =>
                  {| role := "system";
                     content := Some (c +:+ nl +:+ nl +:+ ragContext);
                     tool_calls := None;
                     tool_call_id := None;
                     sources :=
                       Some (map (fun d => title (doc d)) relevantDocs) |}
              end
        end
    end.

(** [findLatestUserQuery(messages)]: [None] is [null]. *)
Fixpoint findLatestUserQuery_rev (reversed : list message)
    : option string :=
  match reversed with
  | [] => None
  | m :: rest =>
      if String.eqb (role m) "user" && truthy (content m)
      then content m
      else findLatestUserQuery_rev rest
  end.

Definition findLatestUserQuery (ms : list message) : option string :=
  findLatestUserQuery_rev (rev ms).
End Retrieval.

Arguments doc_id {vector} _.
Arguments title {vector} _.
Arguments doc_content {vector} _.
Arguments embedding {vector} _.
Arguments doc {vector num} _.
Arguments similarity {vector num} _.
Arguments USE_RAG {num} _.
Arguments similarityThreshold {num} _.
Arguments maxDocuments {num} _.
Arguments getEmbedding {vector num} _ _.
Arguments cosineSimilarity {vector num} _ _ _.
Arguments rag_enabled {num} rc.
Arguments js_ge {num} num_leb a b.
Arguments by_similarity_desc {vector num} num_leb a b.
Arguments score_documents {vector num} sc queryEmbedding documents.
Arguments select_relevant {vector num} num_leb rc scoredDocs.
Arguments retrieveRelevantDocuments {vector num} num_leb rc sc documents query.
Arguments context_entries {vector num} index documents.
Arguments createContext {vector num} documents.
Arguments enhanceSystemMessage {vector num} num_leb rc sc documents query
  systemMessage.

(** [sendSSEContent(sse, content, isChunk = true)], the copy of
    llm-rag. *)
Definition sendSSEContent (content : string) (isChunk : bool) : M unit :=
  cl <- sse_closed ;;
  if negb (str_truthy content) || cl then ret tt
  else if isChunk then sse_send (FChunk (content_chunk content))
  else sse_send (FRaw content).

(** The notice sent while the documents are being retrieved. *)
Definition retrieval_notice : string :=
  "正在检索相关信息以提供更准确的回答..." +:+ nl.

(** [`\n\nReferences: ${sources.join(', ')}`] *)
Definition sourcesText (srcs : list string) : string :=
  nl +:+ nl +:+ "References: " +:+ String.concat ", " srcs.

(** [contextData.messages[0] = m] *)
Definition set_system_message (contextData : loc) (m : message) : M unit :=
  fun w =>
    (Ok tt,
     {| manager :=
          update_at (fun c => set_messages (js_set0 m (messages c)) c)
                    contextData (manager w);
        sse := sse w; requests := requests w |}).

(** The message of the [TypeError] raised by reading [sources] of a
    missing first message. *)
Definition no_first_message : string :=
  "Cannot read properties of undefined (reading 'sources')".

Section Handler.
Context {vector num : Type}.
Variable num_leb : num → num → bool.
Variable cfg : config.
Variable rc : rag_config num.
Variable sc : scoring vector num.
Variable documents : list (document vector).
Variable env : environment.
Variable now : Z.
Variable taskId : option string.
Variable model : string.
Variable contextData : loc.

(** [if (RAG_CONFIG.enabled && userQuery) { ...
       contextData.messages[0] = enhancedSystemMsg; ... }] *)
Definition enhance_context (userQuery : option string) : M unit :=
  when (rag_enabled rc && truthy userQuery)
       (ms <- context_messages contextData ;;
        match ms with
        | [] => throw no_first_message
        | originalSystemMsg :: _ =>
            set_system_message contextData
              (enhanceSystemMessage num_leb rc sc documents
                 (default "" userQuery) originalSystemMsg)
        end).

(** [if (RAG_CONFIG.enabled && enhancedSystemMsg.sources &&
         enhancedSystemMsg.sources.length > 0) { assistantResponse +=
         sourcesText; if (!sse.closed) sendSSEContent(...) }] *)
Definition append_references (assistantResponse : string) : M string :=
  if rag_enabled rc then
    ms <- context_messages contextData ;;
    match ms with
    | [] => throw no_first_message
    | enhancedSystemMsg :: _ =>
        match sources enhancedSystemMsg with
        | Some (s :: rest) =>
            cl <- sse_closed ;;
            when (negb cl) (sendSSEContent (sourcesText (s :: rest)) true) ;;
            ret (assistantResponse +:+ sourcesText (s :: rest))
        | _ => ret assistantResponse
        end
    end
  else ret assistantResponse.

Definition handleStreamingRequest (w : world) : world :=
  if unusable (sse w) then w
  else
    snd (try_catch
           (ms <- context_messages contextData ;;
            let userQuery := findLatestUserQuery ms in
            enhance_context userQuery ;;
            require_model model ;;
            when (rag_enabled rc && truthy userQuery)
                 (sendSSEContent retrieval_notice true) ;;
            ms <- context_messages contextData ;;
            stream <- open_stream env (stream_request model ms false) ;;
            assistantResponse <- relay_content stream "" ;;
            assistantResponse <- append_references assistantResponse ;;
            save_response cfg now taskId assistantResponse ;;
            finish_stream)
           report_error w).
End Handler.

Definition main {vector num : Type} (num_leb : num → num → bool)
    (cfg : config) (rc : rag_config num) (sc : scoring vector num)
    (documents : list (document vector)) (env : environment) (now : Z)
    (header : option string) (e : event) (s : channel)
    (cm : ContextManager) : world :=
  let taskId := resolve_taskId header e in
  let '(contextData, cm1) :=
    fold_messages cfg now taskId (event_messages e) cm in
  handleStreamingRequest num_leb cfg rc sc documents env now taskId
    (modelToUse cfg e) contextData (initial_world cm1 s).

(** The document store of [class RAGSystem]. *)
Module RAGSystem.

(** A document as given to [addDocument]. *)
Record source_document := {
  sd_id : string;
  sd_title : string;
  sd_content : string
}.

(** The sample documents of [initialize]. *)
Definition sampleDocuments : list source_document :=
  [ {| sd_id := "1";
       sd_title := "机器学习基础";
       sd_content :=
         ("机器学习是人工智能的一个分支，主要研究如何使计算机系统从数据中自动" +:+ dquote +:+ "学习" +:+ dquote +:+ "。机器学习算法可分为监督学习、无监督学习和强化学习三大类。监督学习需要标记数据，无监督学习不需要标记，而强化学习通过与环境互动来学习最优策略。") |};
    {| sd_id := "2";
       sd_title := "深度学习简介";
       sd_content :=
         "深度学习是机器学习的一个子领域，专注于使用神经网络进行特征学习。深度神经网络包含多个隐藏层，每一层学习不同层次的抽象特征。深度学习在计算机视觉、自然语言处理和语音识别等领域取得了突破性成果。" |};
    {| sd_id := "3";
       sd_title := "自然语言处理技术";
       sd_content :=
         "自然语言处理(NLP)是研究计算机与人类语言交互的领域。主要任务包括文本分类、情感分析、机器翻译、问答系统等。近年来，Transformer架构和大型语言模型如BERT、GPT等推动了NLP技术的快速发展。" |};
    {| sd_id := "4";
       sd_title := "大型语言模型";
       sd_content :=
         "大型语言模型(LLM)是基于Transformer架构训练的大规模语言模型，如GPT、PaLM、Llama等。这些模型通过自监督学习从互联网规模的文本中学习语言规律和知识。LLM能够执行多种任务，如文本生成、翻译、问答和编程辅助等。" |};
    {| sd_id := "5";
       sd_title := "向量数据库";
       sd_content :=
         "向量数据库是一种专为高维向量数据设计的数据库系统，用于存储和检索嵌入向量。在RAG系统中，向量数据库存储文档嵌入，支持高效的相似性搜索，常见实现有Pinecone、Faiss、Milvus等。" |} ].

Section System.
Context {vector num : Type}.
Variable sc : scoring vector num.

(** [this.documents] and [this.initialized] *)
Record state := {
  stored : list (document vector);
  initialized : bool
}.

(** The state set up by the constructor. *)
Definition constructed : state := {| stored := []; initialized := false |}.

(** [addDocument(document)]: the document is stored with its embedding;
    [false] when the embedding fails. *)
Definition addDocument (d : source_document) (rs : state) : bool * state :=
  match getEmbedding sc (sd_content d) with
  | inl e =>
      (true,
       {| stored := stored rs ++ [ {| doc_id := sd_id d;
                                      title := sd_title d;
                                      doc_content := sd_content d;
                                      embedding := e |} ];
          initialized := initialized rs |})
  | inr _ => (false, rs)
  end.

(** [initialize()] *)
Definition initialize (rs : state) : state :=
  if initialized rs then rs
  else
    let rs' := fold_left (fun rs d => snd (addDocument d rs))
                         sampleDocuments rs in
    {| stored := stored rs'; initialized := true |}.
End System.

Arguments state vector : clear implicits.
Arguments stored {vector} _.
Arguments initialized {vector} _.
Arguments constructed {vector}.

Section Cosine.
(** The numbers of JavaScript with their arithmetic. *)
Variable number : Type.
Variable zero : number.
Variables add mul div : number → number → number.
Variable sqrt : number → number.

(** The loop of [cosineSimilarity] over the common indices, on
    [(dotProduct, normA, normB)]. *)
Fixpoint accumulate (vecA vecB : list number)
    (sums : number * number * number) : number * number * number :=
  match vecA, vecB with
  | a :: vecA', b :: vecB' =>
      let '(dotProduct, normA, normB) := sums in
      accumulate vecA' vecB'
        (add dotProduct (mul a b), add normA (mul a a), add normB (mul b b))
  | _, _ => sums
  end.

(** [cosineSimilarity(vecA, vecB)] *)
Definition cosineSimilarity (vecA vecB : list number) : number :=
  let '(dotProduct, normA, normB) :=
    accumulate vecA vecB (zero, zero, zero) in
  div dotProduct (mul (sqrt normA) (sqrt normB)).
End Cosine.

End RAGSystem.

End LlmRag.

(* ================================================================== *)
(** * The handlers on a channel whose writes can throw *)
(* ================================================================== *)

(** The loops and the four handlers of the source, on a transport [tr]:
    the definitions above, with the writes of [Transport].  What does not
    write to the channel is shared. *)
Module Throwing.

Section Writes.
Variable tr : transport.

(** The loop that forwards content deltas. *)
Fixpoint relay_content (stream : list stream_event)
    (assistantResponse : string) : M string :=
  match stream with
  | [] => ret assistantResponse
  | Disconnect :: rest =>
      client_disconnects ;; relay_content rest assistantResponse
  | Fail msg :: _ => throw msg
  | Delta c :: rest =>
      let content := chunk_content c in
      if str_truthy content then
        let assistantResponse := assistantResponse +:+ content in
        cl <- sse_closed ;;
        if cl then ret assistantResponse
        else Transport.sse_send tr (FChunk c) ;;
             relay_content rest assistantResponse
      else relay_content rest assistantResponse
  end.

(** [sendSSEContent(sse, content, isChunk = true)], of llm-fast-reply and
    of llm-rag. *)
Definition sendSSEContent (content : string) (isChunk : bool) : M unit :=
  cl <- sse_closed ;;
  if negb (str_truthy content) || cl then ret tt
  else if isChunk
       then Transport.sse_send tr (FChunk (content_chunk content))
  else Transport.sse_send tr (FRaw content).

End Writes.

(** ** llm-context-manager *)
Module LlmContextManager.

Definition handleStreamingRequest (tr : transport) (cfg : config)
    (env : environment) (now : Z) (taskId : option string) (model : string)
    (contextData : loc) (w : world) : world :=
  if unusable (sse w) then w
  else
    snd (try_catch
           (require_model model ;;
            ms <- context_messages contextData ;;
            stream <- open_stream env (stream_request model ms false) ;;
            assistantResponse <- relay_content tr stream "" ;;
            save_response cfg now taskId assistantResponse ;;
            Transport.finish_stream tr)
           (Transport.report_error tr) w).

End LlmContextManager.

(** ** llm-tools *)
Module LlmTools.

Section Handler.
Variable tr : transport.
Variable cfg : config.
Variable env : environment.
Variable now : Z.
Variable taskId : option string.
Variable model : string.
Variable contextData : loc.

(** The completion of a tool invocation: execute, record, continue the
    conversation and relay the follow-up stream. *)
Definition complete_tool_call (st : LlmTools.relay_state)
    : M LlmTools.relay_state :=
  match LlmTools.toolCallData st with
  | None => throw "Cannot read properties of null (reading 'function')"
  | Some tc0 =>
      let tc :=
        LlmTools.with_arguments (LlmTools.accumulatedArguments st) tc0 in
      let functionResult :=
        LlmTools.handleFunctionCall env (tc_function tc) in
      when (truthy taskId)
           (add_message cfg now taskId (tool_call_message tc) ;;
            add_message cfg now taskId
              (tool_result_message tc functionResult)) ;;
      ms <- context_messages contextData ;;
      followUpResponse <-
        open_stream env
          (stream_request model
             (ms ++ [tool_call_message tc;
                     tool_result_message tc functionResult])
             false) ;;
      r <- relay_content tr followUpResponse
             (LlmTools.assistantResponse st) ;;
      save_response cfg now taskId r ;;
      ret {| LlmTools.assistantResponse := r;
             LlmTools.collectingToolCall := LlmTools.collectingToolCall st;
             LlmTools.toolCallData := Some tc;
             LlmTools.accumulatedArguments :=
               LlmTools.accumulatedArguments st |}
  end.

(** [for await (const chunk of stream) { ... }] *)
Fixpoint relay (stream : list stream_event) (st : LlmTools.relay_state)
    : M LlmTools.relay_state :=
  match stream with
  | [] => ret st
  | Disconnect :: rest => client_disconnects ;; relay rest st
  | Fail msg :: _ => throw msg
  | Delta c :: rest =>
      match chunk_tool_calls c with
      | Some [] =>
          throw (if LlmTools.collectingToolCall st
                 then "Cannot read properties of undefined (reading 'function')"
                 else "Cannot read properties of undefined (reading 'id')")
      | Some (toolCallDelta :: _) =>
          relay rest (LlmTools.tool_call_fragment toolCallDelta st)
      | None =>
          if LlmTools.collectingToolCall st &&
             bool_decide (chunk_finish_reason c = Some "tool_calls")
          then complete_tool_call st
          else
            let content := chunk_content c in
            if str_truthy content then
              let st :=
                LlmTools.set_response
                  (LlmTools.assistantResponse st +:+ content) st in
              cl <- sse_closed ;;
              if cl then ret st
              else Transport.sse_send tr (FChunk c) ;; relay rest st
            else relay rest st
      end
  end.

Definition handleStreamingRequest (w : world) : world :=
  if unusable (sse w) then w
  else
    snd (try_catch
           (require_model model ;;
            ms <- context_messages contextData ;;
            stream <- open_stream env (stream_request model ms true) ;;
            st <- relay stream LlmTools.initial_state ;;
            when (negb (LlmTools.collectingToolCall st))
                 (save_response cfg now taskId
                    (LlmTools.assistantResponse st)) ;;
            Transport.finish_stream tr)
           (Transport.report_error tr) w).
End Handler.

End LlmTools.

(** ** llm-fast-reply *)
Module LlmFastReply.

(** [getSmallModelResponse(userContent, sse, requestId)]: the write of
    the preamble is inside its [try]. *)
Definition getSmallModelResponse (tr : transport)
    (pc : LlmFastReply.progressive_config) (env : environment)
    (userContent : option string) : M bool :=
  try_catch
    (smallModelContent <-
       LlmFastReply.complete env
         (LlmFastReply.small_model_request pc userContent) ;;
     sendSSEContent tr (LlmFastReply.with_blank_line smallModelContent)
       true ;;
     ret true)
    (fun _ => ret false).

Definition handleStreamingRequest (tr : transport) (cfg : config)
    (pc : LlmFastReply.progressive_config) (env : environment) (now : Z)
    (taskId : option string) (model : string) (contextData : loc)
    (e : event) (w : world) : world :=
  if unusable (sse w) then w
  else
    snd (try_catch
           (last_message <- LlmFastReply.lastMessage e ;;
            when (LlmFastReply.enableProgressiveResponse pc e
                  && LlmFastReply.is_user last_message)
                 (getSmallModelResponse tr pc env
                    (LlmFastReply.message_content last_message) ;; ret tt) ;;
            require_model model ;;
            ms <- context_messages contextData ;;
            stream <- open_stream env (stream_request model ms false) ;;
            assistantResponse <- relay_content tr stream "" ;;
            save_response cfg now taskId assistantResponse ;;
            Transport.finish_stream tr)
           (Transport.report_error tr) w).

End LlmFastReply.

(** ** llm-rag *)
Module LlmRag.

Section Handler.
Context {vector num : Type}.
Variable tr : transport.
Variable num_leb : num → num → bool.
Variable cfg : config.
Variable rc : LlmRag.rag_config num.
Variable sc : LlmRag.scoring vector num.
Variable documents : list (LlmRag.document vector).
Variable env : environment.
Variable now : Z.
Variable taskId : option string.
Variable model : string.
Variable contextData : loc.

(** [if (RAG_CONFIG.enabled && enhancedSystemMsg.sources &&
         enhancedSystemMsg.sources.length > 0) { assistantResponse +=
         sourcesText; if (!sse.closed) sendSSEContent(...) }] *)
Definition append_references (assistantResponse : string) : M string :=
  if LlmRag.rag_enabled rc then
    ms <- context_messages contextData ;;
    match ms with
    | [] => throw LlmRag.no_first_message
    | enhancedSystemMsg :: _ =>
        match sources enhancedSystemMsg with
        | Some (s :: rest) =>
            cl <- sse_closed ;;
            when (negb cl)
                 (sendSSEContent tr (LlmRag.sourcesText (s :: rest)) true) ;;
            ret (assistantResponse +:+ LlmRag.sourcesText (s :: rest))
        | _ => ret assistantResponse
        end
    end
  else ret assistantResponse.

Definition handleStreamingRequest (w : world) : world :=
  if unusable (sse w) then w
  else
    snd (try_catch
           (ms <- context_messages contextData ;;
            let userQuery := LlmRag.findLatestUserQuery ms in
            LlmRag.enhance_context num_leb rc sc documents contextData
              userQuery ;;
            require_model model ;;
            when (LlmRag.rag_enabled rc && truthy userQuery)
                 (sendSSEContent tr LlmRag.retrieval_notice true) ;;
            ms <- context_messages contextData ;;
            stream <- open_stream env (stream_request model ms false) ;;
            assistantResponse <- relay_content tr stream "" ;;
            assistantResponse <- append_references assistantResponse ;;
            save_response cfg now taskId assistantResponse ;;
            Transport.finish_stream tr)
           (Transport.report_error tr) w).
End Handler.

End LlmRag.

End Throwing.

(* ================================================================== *)
(** * Vocabulary of the properties *)
(* ================================================================== *)

(** ** Session store *)

(** What a request handler can do to the store: the three operations of
    the manager, and an in-place change of the messages of a context
    object by whoever holds it ([contextData.messages[0] = m],
    [contextData.messages.push(m)]). *)
Inductive store_op :=
  | Resolve (taskId : option string) (now : Z)
  | Append (taskId : option string) (m : message) (now : Z)
  | Sweep (now : Z)
  | Mutate (l : loc) (f : list message → list message).

Definition apply_op (cfg : config) (cm : ContextManager) (op : store_op)
    : ContextManager :=
  match op with
  | Resolve taskId now => snd (getContext cfg taskId now cm)
  | Append taskId m now => snd (addMessage cfg taskId m now cm)
  | Sweep now => cleanExpiredContexts cfg now cm
  | Mutate l f => update_at (fun c => set_messages (f (messages c)) c) l cm
  end.

Definition run_ops (cfg : config) (ops : list store_op)
    (cm : ContextManager) : ContextManager :=
  fold_left (apply_op cfg) ops cm.

(** The calls on the manager itself. *)
Definition manager_call (op : store_op) : bool :=
  match op with
  | Mutate _ _ => false
  | _ => true
  end.

(** Every registered context object exists. *)
Definition registered_in_heap (cm : ContextManager) : Prop :=
  ∀ id l, contexts cm !! id = Some l → (l < length (heap cm))%nat.

(** The location [l] is held by no task id. *)
Definition unregistered (l : loc) (cm : ContextManager) : Prop :=
  ∀ id, contexts cm !! id ≠ Some l.

(** The context object at [l] exists, is held by no task id, and every
    registered object exists: what makes [l] private to its holder. *)
Definition private (l : loc) (cm : ContextManager) : Prop :=
  (l < length (heap cm))%nat ∧ unregistered l cm ∧ registered_in_heap cm.

(** The bound of a history: the instruction message first, then at most
    [MAX_CONTEXT_MESSAGES] messages. *)
Definition within_bound (cfg : config) (h : list message) : Prop :=
  Z.of_nat (length h) <= MAX_CONTEXT_MESSAGES cfg + 1
  ∧ ∃ rest, h = system_message (DEFAULT_PROMPT cfg) :: rest.

(** A session registered at [l] with history [h]. *)
Definition session_at (id : string) (l : loc) (h : list message)
    (cm : ContextManager) : Prop :=
  contexts cm !! id = Some l
  ∧ ∃ c, heap cm !! l = Some c ∧ messages c = h.

(** Every registered history is within the bound. *)
Definition bounded_store (cfg : config) (cm : ContextManager) : Prop :=
  ∀ id l, contexts cm !! id = Some l →
    ∃ c, heap cm !! l = Some c ∧ within_bound cfg (messages c).

(** The last [n] elements of a list. *)
Definition last_n {A} (n : nat) (l : list A) : list A :=
  drop (length l - n) l.

(** A sequence of [addMessage] calls for one session. *)
Definition append_all (cfg : config) (id : string)
    (ms : list (message * Z)) (cm : ContextManager) : ContextManager :=
  run_ops cfg (map (fun mt => Append (Some id) (fst mt) (snd mt)) ms) cm.

Definition sample_config (limit : Z) : config :=
  {| MODEL := "gpt-4o"; DEFAULT_PROMPT := "You are a helpful assistant";
     MAX_CONTEXT_MESSAGES := limit; CONTEXT_EXPIRY_HOURS := 10 |}.

(** ** Handlers *)

(** Partial correctness of a handler computation, with one postcondition
    for a normal return and one for a throw.  Computations are total
    functions, so a triple also says that the computation ends. *)
Definition hoare {A} (P : world → Prop) (c : M A)
    (Q : A → world → Prop) (E : string → world → Prop) : Prop :=
  ∀ w, P w →
    match c w with
    | (Ok a, w') => Q a w'
    | (Throw msg, w') => E msg w'
    end.

(** [P] holds after [c] whenever it held before, however [c] ends. *)
Definition stable {A} (P : world → Prop) (c : M A) : Prop :=
  hoare P c (fun _ => P) (fun _ => P).

(** A computation that leaves a component of the world alone. *)
Definition keeps {X A} (component : world → X) (c : M A) : Prop :=
  ∀ w, component (snd (c w)) = component w.

(** A computation that leaves the output channel alone. *)
Definition keeps_channel {A} (c : M A) : Prop := keeps sse c.

(** ** Output channel *)

(** The frames that carry a delta. *)
Definition is_data (a : action) : bool :=
  match a with
  | Send (FChunk _) | Send (FRaw _) => true
  | _ => false
  end.

(** The three ways a request ends on the output channel. *)
Inductive terminal_action :=
  | Completed                 (* sentinel, then the channel is closed *)
  | Failed (msg : string)     (* error frame, then the channel is closed *)
  | Abandoned.                (* nothing: the client is gone *)

Definition terminal_trace (t : terminal_action) : list action :=
  match t with
  | Completed => [Send FDone; End]
  | Failed msg => [Send (FError msg); End]
  | Abandoned => []
  end.

(** Since the log was [before], only deltas have been written. *)
Definition streaming (before : list action) (w : world) : Prop :=
  ∃ data, forallb is_data data = true ∧ log (sse w) = before ++ data.

(** Since the log was [before], deltas have been written and then the
    request has ended with [t]. *)
Definition ended_with (before : list action) (t : terminal_action)
    (w : world) : Prop :=
  ∃ data, forallb is_data data = true
          ∧ log (sse w) = before ++ data ++ terminal_trace t.

(** The request has ended in exactly one of the three ways; when the
    channel was abandoned it is because it is closed or unavailable. *)
Definition ended_once (before : list action) (w : world) : Prop :=
  (∃ t, ended_with before t w ∧ ∀ t', ended_with before t' w → t' = t)
  ∧ (ended_with before Abandoned w → unusable (sse w) = true).

(** How the [try] block of a handler ends: with the sentinel, or silently
    on a closed channel. *)
Definition ends_try (before : list action) (w : world) : Prop :=
  ended_with before Completed w
  ∨ (ended_with before Abandoned w ∧ closed (sse w) = true).

(** How the [catch] block of a handler ends. *)
Definition ends_catch (before : list action) (w : world) : Prop :=
  (∃ msg, ended_with before (Failed msg) w)
  ∨ (ended_with before Abandoned w ∧ closed (sse w) = true).

(** ** Streams *)

(** The world after the actions [acts] have been logged on the channel. *)
Definition logged (acts : list action) (w : world) : world :=
  {| manager := manager w;
     sse := {| available := available (sse w); closed := closed (sse w);
               log := log (sse w) ++ acts |};
     requests := requests w |}.

(** The world after the client has gone away. *)
Definition disconnected (w : world) : world := snd (client_disconnects w).

(** A delta with text to forward. *)
Definition has_content (c : chunk) : bool := str_truthy (chunk_content c).

(** The frames by which the content loop forwards the deltas [pre] to an
    open channel. *)
Definition forwarded (pre : list chunk) : list action :=
  map (fun c => Send (FChunk c))
      (filter (fun c => has_content c = true) pre).

(** A provider that answers every streaming request with [stream]. *)
Definition with_stream (env : environment) (stream : list stream_event)
    : environment :=
  {| create_stream := fun _ => stream;
     create_completion := create_completion env;
     JSON_parse := JSON_parse env;
     getWeather := getWeather env |}.

(** A provider that answers the primary request of the tools handler (the
    one that declares the tools) with [stream], and a follow-up request
    with [followUp]. *)
Definition with_streams (env : environment)
    (stream followUp : list stream_event) : environment :=
  {| create_stream := fun r => if req_tools r then stream else followUp;
     create_completion := create_completion env;
     JSON_parse := JSON_parse env;
     getWeather := getWeather env |}.


(** A collaborator set whose parser rejects everything. *)
Definition sample_environment : environment :=
  {| create_stream := fun _ => [];
     create_completion :=
       fun _ => {| disconnected_meanwhile := false;
                   completion_outcome := inr (Some "OK") |};
     JSON_parse := fun _ => inr "Unexpected end of JSON input";
     getWeather := fun _ => JNull |}.

(** [delta.tool_calls] is absent. *)
Definition no_tool_calls (c : chunk) : bool :=
  match chunk_tool_calls c with
  | None => true
  | Some _ => false
  end.

(** [delta.tool_calls] is an empty array. *)
Definition empty_tool_calls (c : chunk) : bool :=
  match chunk_tool_calls c with
  | Some [] => true
  | _ => false
  end.

(** [finish_reason === 'tool_calls'] *)
Definition finishes_tool_call (c : chunk) : bool :=
  bool_decide (chunk_finish_reason c = Some "tool_calls").

(** The deltas of the tools loop that neither throw nor complete an
    invocation. *)
Definition plain_delta (c : chunk) : bool :=
  negb (empty_tool_calls c) && negb (finishes_tool_call c).


(** The effect of a plain delta on the local variables of the tools loop. *)
Definition absorb (st : LlmTools.relay_state) (c : chunk)
    : LlmTools.relay_state :=
  match chunk_tool_calls c with
  | Some (d :: _) => LlmTools.tool_call_fragment d st
  | _ =>
      if has_content c
      then LlmTools.set_response
             (LlmTools.assistantResponse st +:+ chunk_content c) st
      else st
  end.

(** The frames by which the tools loop forwards plain deltas. *)
Definition tools_forwarded (pre : list chunk) : list action :=
  map (fun c => Send (FChunk c))
      (filter (fun c => has_content c && no_tool_calls c = true) pre).

(** The channel is in state [s]. *)
Definition frozen (s : channel) (w : world) : Prop := sse w = s.

(** ** Sample requests *)

(** A request of session [s1] (given in the header) with one user turn. *)
Definition sample_event : event :=
  {| ev_taskId := None;
     ev_messages := Some [plain_message "user" "hi"];
     ev_model := Some "m";
     ev_useProgressiveResponse := None |}.

Definition sample_world : world :=
  initial_world empty_manager open_channel.

(** ** Tool invocations *)

(** The text of one argument fragment ([function.arguments], absent in a
    fragment that carries none). *)
Definition fragment_text (d : tool_call_delta) : string :=
  default "" (LlmTools.delta_function_arguments d).

(** The argument fragments a delta carries. *)
Definition fragments (c : chunk) : list string :=
  match chunk_tool_calls c with
  | Some ds => map fragment_text ds
  | None => []
  end.

(** The argument fragments received with the events [evs], in arrival
    order. *)
Definition received (evs : list stream_event) : list string :=
  flat_map (fun ev => match ev with
                      | Delta c => fragments c
                      | _ => []
                      end) evs.

Definition concat_strings (l : list string) : string :=
  fold_right String.append "" l.

(** A delta carries the fragment of at most one invocation. *)
Definition single_invocation (ev : stream_event) : bool :=
  match ev with
  | Delta c =>
      match chunk_tool_calls c with
      | Some (_ :: _ :: _) => false
      | _ => true
      end
  | _ => true
  end.

(** The recording of a completed invocation in the session. *)
Definition record_tool_call (cfg : config) (now : Z)
    (taskId : option string) (tc : tool_call) (result : string) : M unit :=
  when (truthy taskId)
       (add_message cfg now taskId (tool_call_message tc) ;;
        add_message cfg now taskId (tool_result_message tc result)).

(** A delta that carries one argument fragment. *)
Definition fragment_chunk (id name : option string) (args : string)
    : chunk :=
  {| choices :=
       [ {| choice_delta :=
              Some {| delta_content := None;
                      delta_tool_calls :=
                        Some [ {| tcd_id := id;
                                  tcd_type := Some "function";
                                  tcd_function :=
                                    Some {| fd_name := name;
                                            fd_arguments := Some args |} |} ]
                   |};
            finish_reason := None |} ] |}.

(** A delta that only carries a finish reason. *)
Definition finish_chunk (reason : string) : chunk :=
  {| choices :=
       [ {| choice_delta :=
              Some {| delta_content := None; delta_tool_calls := None |};
            finish_reason := Some reason |} ] |}.

(** The three fragments of the weather invocation and the payload they
    spell. *)
Definition beijing_fragments : list string :=
  [ "{" +:+ dquote +:+ "loc";
    "ation" +:+ dquote +:+ ":" +:+ dquote;
    "Beijing" +:+ dquote +:+ "}" ].

Definition beijing_arguments : string :=
  "{" +:+ dquote +:+ "location" +:+ dquote +:+ ":"
  +:+ dquote +:+ "Beijing" +:+ dquote +:+ "}".

Definition weather_stream : list stream_event :=
  match beijing_fragments with
  | [a; b; c] =>
      [ Delta (fragment_chunk (Some "call_1") (Some "get_weather") a);
        Delta (fragment_chunk None None b);
        Delta (fragment_chunk None None c);
        Delta (finish_chunk "tool_calls") ]
  | _ => []
  end.

Definition beijing_weather : json :=
  JObj [("location", JStr "Beijing"); ("description", JStr "sunny")].

(** A provider that asks for the weather of Beijing and then answers
    "Sunny"; the parser knows the one payload. *)
Definition weather_environment : environment :=
  {| create_stream :=
       fun r => if req_tools r then weather_stream
                else [Delta (content_chunk "Sunny")];
     create_completion :=
       fun _ => {| disconnected_meanwhile := false;
                   completion_outcome := inr (Some "OK") |};
     JSON_parse :=
       fun s => if String.eqb s beijing_arguments
                then inl (JObj [("location", JStr "Beijing")])
                else inr "Unexpected token";
     getWeather := fun _ => beijing_weather |}.

Definition weather_call : tool_call :=
  {| tc_id := "call_1"; tc_type := "function";
     tc_function := {| fn_name := "get_weather";
                       fn_arguments := beijing_arguments |} |}.

(** [{"error":"Function not implemented"}] *)
Definition not_implemented_payload : string :=
  "{" +:+ dquote +:+ "error" +:+ dquote +:+ ":"
  +:+ dquote +:+ "Function not implemented" +:+ dquote +:+ "}".

(** [{"error":"Error parsing arguments: ..."}], the text of the error in
    its JSON spelling. *)
Definition parse_error_payload (msg : string) : string :=
  "{" +:+ (LlmTools.quote "error" +:+ ":"
           +:+ LlmTools.quote ("Error parsing arguments: " +:+ msg))
  +:+ "}".


(** No delta of the stream carries text. *)
Definition silent (stream : list stream_event) : bool :=
  forallb (fun ev => match ev with
                     | Delta c => negb (has_content c)
                     | _ => true
                     end) stream.

(** ** Progressive preamble *)




Definition sample_progressive (on : bool)
    : LlmFastReply.progressive_config :=
  {| LlmFastReply.enabled := on;
     LlmFastReply.smallModel := "Qwen/Qwen2.5-7B-Instruct";
     LlmFastReply.maxTokens := 100;
     LlmFastReply.temperature := "0.4";
     LlmFastReply.SMALL_MODEL_PROMPT := "Acknowledge briefly" |}.

(** ** Retrieval *)

Section RetrievalVocabulary.
Context {vector num : Type}.
Variable num_leb : num → num → bool.

(** The score of the document is a number. *)
Definition has_score (d : LlmRag.scored_document vector num) : Prop :=
  LlmRag.similarity d ≠ None.

(** [a] scores at least as much as [b]: it may stand before [b]. *)
Definition not_below (a b : LlmRag.scored_document vector num) : Prop :=
  LlmRag.js_ge num_leb (LlmRag.similarity a) (LlmRag.similarity b) = true.

(** The document scores exactly [s]. *)
Definition same_score (s : num) (d : LlmRag.scored_document vector num)
    : bool :=
  match LlmRag.similarity d with
  | Some x => num_leb x s && num_leb s x
  | None => false
  end.

(** The document scores at or above the configured threshold. *)
Definition relevant (rc : LlmRag.rag_config num)
    (d : LlmRag.scored_document vector num) : bool :=
  LlmRag.js_ge num_leb (LlmRag.similarity d) (LlmRag.similarityThreshold rc).

End RetrievalVocabulary.

(** A corpus of four documents whose embedding is their score (in
    hundredths), a threshold of 0.70 and at most two documents. *)
Definition sample_scoring : LlmRag.scoring Z Z :=
  {| LlmRag.getEmbedding := fun _ => inl 0;
     LlmRag.cosineSimilarity := fun _ e => Some e |}.

Definition sample_document (id : string) (score : Z) : LlmRag.document Z :=
  {| LlmRag.doc_id := id; LlmRag.title := "Document " +:+ id;
     LlmRag.doc_content := "Content of document " +:+ id;
     LlmRag.embedding := score |}.

Definition sample_corpus : list (LlmRag.document Z) :=
  [ sample_document "1" 70; sample_document "2" 90;
    sample_document "3" 90; sample_document "4" 50 ].

Definition sample_rag_config : LlmRag.rag_config Z :=
  {| LlmRag.USE_RAG := None; LlmRag.similarityThreshold := Some 70;
     LlmRag.maxDocuments := 2 |}.



(** ** Persistence *)

(** What the tools handler stores: the record of an invocation, its
    result, or an assistant message with a text that is not empty. *)
Definition worth_storing (m : message) : Prop :=
  (∃ tc, m = tool_call_message tc)
  ∨ (∃ tc result, m = tool_result_message tc result)
  ∨ (∃ text, text ≠ "" ∧ m = plain_message "assistant" text).

(** The store after the messages [ms] have been appended to the session of
    [taskId]. *)
Definition appended (cfg : config) (now : Z) (taskId : option string)
    (ms : list message) (cm : ContextManager) : ContextManager :=
  fold_left (fun cm m => snd (addMessage cfg taskId m now cm)) ms cm.

(** Since the store was [before], the handler has appended messages worth
    storing, and none without a session identifier. *)
Definition only_appended (cfg : config) (now : Z) (taskId : option string)
    (before : ContextManager) (w : world) : Prop :=
  ∃ ms, Forall worth_storing ms
        ∧ (truthy taskId = false → ms = [])
        ∧ manager w = appended cfg now taskId ms before.

(* ================================================================== *)
(** * Vocabulary of the properties of whole requests *)
(* ================================================================== *)

(** ** Store *)

(** Distinct task ids hold distinct context objects. *)
Definition distinct_sessions (cm : ContextManager) : Prop :=
  ∀ id id' l,
    contexts cm !! id = Some l → contexts cm !! id' = Some l → id = id'.

(** The shape of a store that the manager has built. *)
Definition well_formed (cm : ContextManager) : Prop :=
  registered_in_heap cm ∧ distinct_sessions cm.

(** [CONTEXT_EXPIRY_HOURS * 60 * 60 * 1000] *)
Definition expiryTime (cfg : config) : Z :=
  CONTEXT_EXPIRY_HOURS cfg * 60 * 60 * 1000.

(** An access to the session [id] at time [t]: a resolve or an append. *)
Definition accesses (id : string) (t : Z) (op : store_op) : Prop :=
  op = Resolve (Some id) t ∨ ∃ m, op = Append (Some id) m t.

(** Every registered history has between one and
    [MAX_CONTEXT_MESSAGES + 1] messages. *)
Definition sized_store (cfg : config) (cm : ContextManager) : Prop :=
  ∀ id l, contexts cm !! id = Some l →
    ∃ c, heap cm !! l = Some c
         ∧ (1 <= length (messages c))%nat
         ∧ Z.of_nat (length (messages c)) <= MAX_CONTEXT_MESSAGES cfg + 1.

(** The property [P] holds of the store of the world. *)
Definition of_store (P : ContextManager → Prop) (w : world) : Prop :=
  P (manager w).

(** The session [id] is registered and was last accessed at [t]. *)
Definition accessed_at (id : string) (t : Z) (cm : ContextManager) : Prop :=
  ∃ l c, contexts cm !! id = Some l ∧ heap cm !! l = Some c
         ∧ lastAccessedAt c = t.

(** ** Worlds *)

(** The world after the request [r] has been sent to the provider. *)
Definition requested (r : completion_request) (w : world) : world :=
  {| manager := manager w; sse := sse w; requests := requests w ++ [r] |}.

(** The world with the list of the requests sent so far replaced. *)
Definition with_requests (rs : list completion_request) (w : world)
    : world :=
  {| manager := manager w; sse := sse w; requests := rs |}.

(** A computation that neither reads nor writes the list of the requests
    sent to the provider. *)
Definition blind_to_requests {A} (c : M A) : Prop :=
  ∀ rs w, c (with_requests rs w)
          = (fst (c w), with_requests rs (snd (c w))).

(** The channel after the actions [acts] and its closing. *)
Definition closed_with (acts : list action) (s : channel) : channel :=
  {| available := available s; closed := true; log := log s ++ acts |}.

(** The text of the deltas [pre], in order. *)
Definition text_of (pre : list chunk) : string :=
  concat_strings (map chunk_content pre).

(** No delta of the stream carries a [tool_calls] field. *)
Definition without_tool_calls (stream : list stream_event) : bool :=
  forallb (fun ev => match ev with
                     | Delta c => no_tool_calls c
                     | _ => true
                     end) stream.

(** The delta carries a fragment of a tool invocation. *)
Definition has_tool_calls (c : chunk) : bool := negb (no_tool_calls c).

(** ** Requests *)

(** The history with which the session [id] enters a request: the
    registered one, or the default instruction for a new session. *)
Definition opening_history (cfg : config) (id : string)
    (cm : ContextManager) : list message :=
  default [system_message (DEFAULT_PROMPT cfg)] (history_of id cm).

(** The history [h] after the messages [ms] of a request have been taken
    in: an instruction message that comes first replaces the one of the
    history; the other messages follow the history, of which only the last
    [MAX_CONTEXT_MESSAGES] messages after the instruction are kept. *)
Definition folded (cfg : config) (h ms : list message) : list message :=
  match h, ms with
  | s :: t, first :: rest =>
      if String.eqb (role first) "system"
      then first :: last_n (Z.to_nat (MAX_CONTEXT_MESSAGES cfg)) (t ++ rest)
      else s :: last_n (Z.to_nat (MAX_CONTEXT_MESSAGES cfg)) (t ++ ms)
  | _, _ => h
  end.

(** The messages sent to the provider for a request without session. *)
Definition anonymous_messages (cfg : config) (ms : list message)
    : list message :=
  match ms with
  | [] => [system_message (DEFAULT_PROMPT cfg)]
  | first :: rest =>
      if String.eqb (role first) "system" then [first]
      else system_message (DEFAULT_PROMPT cfg) :: first :: rest
  end.

(** A store property that the appends of the session [taskId] keep. *)
Definition kept_by_appends (cfg : config) (now : Z)
    (taskId : option string) (P : ContextManager → Prop) : Prop :=
  ∀ m cm, P cm → P (snd (addMessage cfg taskId m now cm)).

(** A store property that a change of the first message of the context
    object at [l] keeps. *)
Definition kept_by_instruction (l : loc) (P : ContextManager → Prop)
    : Prop :=
  ∀ m cm, P cm →
    P (update_at (fun c => set_messages (js_set0 m (messages c)) c) l cm).

(** The session [id] is as it was in [before], in a well-formed store
    where it does not hold the context object at [l]. *)
Definition untouched (id : string) (before : ContextManager) (l : loc)
    (cm : ContextManager) : Prop :=
  well_formed cm
  ∧ contexts cm !! id = contexts before !! id
  ∧ history_of id cm = history_of id before
  ∧ contexts cm !! id ≠ Some l.

(** A request that supplies the messages [ms] and nothing else. *)
Definition request_with (ms : list message) : event :=
  {| ev_taskId := None; ev_messages := Some ms; ev_model := None;
     ev_useProgressiveResponse := None |}.

(** ** Preamble *)

(** The frame by which the answer of the small model is forwarded, if the
    call has not failed. *)
Definition preamble_frames (answer : completion_result) : list action :=
  match completion_outcome answer with
  | inr c => [Send (FChunk (content_chunk (LlmFastReply.with_blank_line c)))]
  | inl _ => []
  end.

(** ** Retrieval *)

(** A user message with a text that is not empty: what
    [findLatestUserQuery] looks for. *)
Definition is_query (m : message) : bool :=
  String.eqb (role m) "user" && truthy (content m).

(** No message of the list is a query. *)
Definition no_query (ms : list message) : bool :=
  forallb (fun m => negb (is_query m)) ms.

(** The sample documents stored with their embedding, those whose
    embedding fails left out. *)
Definition embedded {vector num : Type} (sc : LlmRag.scoring vector num)
    (ds : list LlmRag.RAGSystem.source_document)
    : list (LlmRag.document vector) :=
  omap (fun d =>
          match LlmRag.getEmbedding sc (LlmRag.RAGSystem.sd_content d) with
          | inl e => Some {| LlmRag.doc_id := LlmRag.RAGSystem.sd_id d;
                             LlmRag.title := LlmRag.RAGSystem.sd_title d;
                             LlmRag.doc_content :=
                               LlmRag.RAGSystem.sd_content d;
                             LlmRag.embedding := e |}
          | inr _ => None
          end) ds.

(** The instruction message with which the retrieval handler calls the
    provider when the context holds [m0 :: tl]: [m0] enhanced for the
    latest query, or [m0] itself when there is no query. *)
Definition instruction_sent {vector num : Type}
    (num_leb : num → num → bool) (rc : LlmRag.rag_config num)
    (sc : LlmRag.scoring vector num)
    (documents : list (LlmRag.document vector)) (m0 : message)
    (tl : list message) : message :=
  match LlmRag.findLatestUserQuery (m0 :: tl) with
  | Some query =>
      LlmRag.enhanceSystemMessage num_leb rc sc documents query m0
  | None => m0
  end.

(** The notice frame, sent when there is a query. *)
Definition notice_frames (userQuery : option string) : list action :=
  match userQuery with
  | Some _ => [Send (FChunk (content_chunk LlmRag.retrieval_notice))]
  | None => []
  end.

(** The text that lists the sources of an instruction message; empty when
    the message has none. *)
Definition references_of (m : message) : string :=
  match sources m with
  | Some (s :: rest) => LlmRag.sourcesText (s :: rest)
  | _ => ""
  end.

(** The frame that carries the references. *)
Definition reference_frames (m : message) : list action :=
  match sources m with
  | Some (s :: rest) =>
      [Send (FChunk (content_chunk (LlmRag.sourcesText (s :: rest))))]
  | _ => []
  end.

(** The store after the first message of the context object at [l] has
    been replaced by [m]. *)
Definition with_instruction (l : loc) (m : message) (cm : ContextManager)
    : ContextManager :=
  update_at (fun c => set_messages (js_set0 m (messages c)) c) l cm.

(** The world with the store replaced. *)
Definition with_manager (cm : ContextManager) (w : world) : world :=
  {| manager := cm; sse := sse w; requests := requests w |}.

(** The first message of the context object at [l] is [m]. *)
Definition instruction_is (l : loc) (m : message) (cm : ContextManager)
    : Prop :=
  ∃ tl, messages_at l cm = m :: tl.

(** The world of a request without session, before any message has been
    taken in: the context object at location 0 holds the default
    instruction. *)
Definition anonymous_world : world :=
  initial_world (snd (getContext (sample_config 10) None 0 empty_manager))
    open_channel.

(** The world of a request of session [s1] with the query [hi]: the
    context object at location 0 holds the default instruction and the
    query. *)
Definition query_world : world :=
  initial_world
    (snd (fold_messages (sample_config 10) 0 (Some "s1")
            [plain_message "user" "hi"] empty_manager))
    open_channel.

(** The configuration [rc] with another value of [USE_RAG]. *)
Definition with_USE_RAG {num : Type} (flag : option string)
    (rc : LlmRag.rag_config num) : LlmRag.rag_config num :=
  {| LlmRag.USE_RAG := flag;
     LlmRag.similarityThreshold := LlmRag.similarityThreshold rc;
     LlmRag.maxDocuments := LlmRag.maxDocuments rc |}.

(** ** Invocations *)

(** The invocation as the first fragment [d] names it, before any
    argument. *)
Definition started_by (d : tool_call_delta) : tool_call :=
  {| tc_id := or_default (tcd_id d) "";
     tc_type := or_default (tcd_type d) "";
     tc_function :=
       {| fn_name := or_default (LlmTools.delta_function_name d) "";
          fn_arguments := "" |} |}.

(** The argument text that the tools loop reads in a delta: that of the
    first entry of [tool_calls]. *)
Definition first_fragment (c : chunk) : string :=
  match chunk_tool_calls c with
  | Some (d :: _) => fragment_text d
  | _ => ""
  end.

(** The store after the invocation [tc] and its result have been recorded
    in the session of [taskId]. *)
Definition recorded_store (cfg : config) (now : Z) (taskId : option string)
    (tc : tool_call) (result : string) (cm : ContextManager)
    : ContextManager :=
  if truthy taskId then
    snd (addMessage cfg taskId (tool_result_message tc result) now
           (snd (addMessage cfg taskId (tool_call_message tc) now cm)))
  else cm.

(** A provider that asks for the weather of Beijing and whose
    continuation fails at once. *)
Definition failing_continuation : environment :=
  with_streams weather_environment weather_stream [Fail "overloaded"].

(** The text that the tools loop accumulates from the deltas [pre]: that
    of the deltas without [tool_calls], in order. *)
Definition plain_text (pre : list chunk) : string :=
  text_of (filter (fun c => has_content c && no_tool_calls c = true) pre).

(** ** Transports *)

(** Closing the channel never throws. *)
Definition closing_succeeds (tr : transport) : Prop :=
  ∀ s, tr s End = None.

(** An error frame can always be written. *)
Definition error_frames_pass (tr : transport) : Prop :=
  ∀ s msg, tr s (Send (FError msg)) = None.

(** A transport on which [end] throws and every frame is written. *)
Definition closing_throws : transport :=
  fun _ a => match a with
             | End => Some "write after end"
             | Send _ => None
             end.

(** A transport on which every write throws. *)
Definition nothing_passes : transport :=
  fun _ _ => Some "socket hang up".

(** A transport on which the deltas and the sentinel cannot be written,
    error frames and the closing can. *)
Definition only_errors_pass : transport :=
  fun _ a => match a with
             | Send (FError _) | End => None
             | Send _ => Some "socket hang up"
             end.

(** ** Retrieval: the corpus *)

Section CorpusVocabulary.
Context {vector num : Type}.
Variable num_leb : num → num → bool.

(** A document of the corpus with its score against the embedding of the
    query. *)
Definition scored_for (sc : LlmRag.scoring vector num)
    (queryEmbedding : vector) (d : LlmRag.document vector)
    : LlmRag.scored_document vector num :=
  {| LlmRag.doc := d;
     LlmRag.similarity :=
       LlmRag.cosineSimilarity sc queryEmbedding (LlmRag.embedding d) |}.

(** The score is a number at or above the threshold, itself a number. *)
Definition at_or_above (score threshold : option num) : bool :=
  match score, threshold with
  | Some s, Some t => num_leb t s
  | _, _ => false
  end.

(** The documents of the corpus that score at or above the threshold, in
    the order of the corpus, each with its score. *)
Definition candidates_of (rc : LlmRag.rag_config num)
    (sc : LlmRag.scoring vector num) (queryEmbedding : vector)
    (documents : list (LlmRag.document vector))
    : list (LlmRag.scored_document vector num) :=
  map (scored_for sc queryEmbedding)
      (List.filter
         (fun d => at_or_above
                     (LlmRag.cosineSimilarity sc queryEmbedding
                        (LlmRag.embedding d))
                     (LlmRag.similarityThreshold rc))
         documents).

(** Both documents have a score, and the score of [a] is at least that of
    [b]: in a descending order of scores [a] may stand before [b]. *)
Definition scores_descend (a b : LlmRag.scored_document vector num)
    : Prop :=
  match LlmRag.similarity a, LlmRag.similarity b with
  | Some x, Some y => num_leb y x = true
  | _, _ => False
  end.

(** The instruction message that cites the documents [kept]: the text [c]
    of the original one, a blank line and the context made of the
    documents; the titles of the documents as sources. *)
Definition citing (c ragContext : string)
    (kept : list (LlmRag.scored_document vector num)) : message :=
  {| role := "system";
     content := Some (c +:+ nl +:+ nl +:+ ragContext);
     tool_calls := None;
     tool_call_id := None;
     sources := Some (map (fun d => LlmRag.title (LlmRag.doc d)) kept) |}.

End CorpusVocabulary.

(** ** The fragments of one invocation *)

(** All the fragments that the deltas [pre] carry, in arrival order. *)
Definition entries (pre : list chunk) : list tool_call_delta :=
  flat_map (fun c => default [] (chunk_tool_calls c)) pre.

(** The argument texts of the fragments received for the invocation
    [id], in arrival order.  A fragment that carries an identifier is for
    the invocation that it names; a fragment that carries none continues
    the invocation of the fragment before it.  [other] says that the
    fragments being read are those of another invocation. *)
Fixpoint fragments_for (id : string) (other : bool)
    (ds : list tool_call_delta) : list string :=
  match ds with
  | [] => []
  | d :: rest =>
      let other :=
        if truthy (tcd_id d) then negb (bool_decide (tcd_id d = Some id))
        else other in
      (if other then [] else [fragment_text d])
      ++ fragments_for id other rest
  end.

Definition received_for (id : string) (pre : list chunk) : list string :=
  fragments_for id false (entries pre).

(** The deltas [pre] hold the fragments of the invocation [id] and of no
    other: each carries at most one fragment, and no fragment names
    another invocation (the single invocation of a turn that the
    specification assumes). *)
Definition one_invocation (id : string) (pre : list chunk) : bool :=
  forallb (fun c => match chunk_tool_calls c with
                    | Some [d] =>
                        negb (truthy (tcd_id d))
                        || bool_decide (tcd_id d = Some id)
                    | Some (_ :: _ :: _) => false
                    | _ => true
                    end) pre.

(** The invocations that a request hands back to the provider. *)
Definition invocations_of (r : completion_request) : list tool_call :=
  flat_map (fun m => default [] (tool_calls m)) (req_messages r).

(** Two deltas, each with the first fragment of an invocation of its
    own, and the delta that completes the turn. *)
Definition two_invocations : list chunk :=
  [ fragment_chunk (Some "call_1") (Some "get_weather") "{";
    fragment_chunk (Some "call_2") (Some "get_time") "}" ].

(* ================================================================== *)
(** * The session store *)
(* ================================================================== *)

Section StoreFacts.
Variable cfg : config.

Lemma messages_at_update f l cm c :
  heap cm !! l = Some c →
  messages_at l (update_at f l cm) = messages (f c).
Proof.
  intros Hl. unfold messages_at, update_at. simpl.
  rewrite list_lookup_alter_eq, Hl. reflexivity.
Qed.

Lemma messages_at_update_ne f l l' cm :
  l ≠ l' → messages_at l' (update_at f l cm) = messages_at l' cm.
Proof.
  intros Hne. unfold messages_at, update_at. simpl.
  rewrite list_lookup_alter_ne by congruence. reflexivity.
Qed.

Lemma update_at_length f l cm :
  length (heap (update_at f l cm)) = length (heap cm).
Proof. unfold update_at. simpl. apply length_alter. Qed.

(** [slice(-n)] keeps the last [n] elements when [n] is positive. *)
Lemma js_slice_from_last {A} (n : Z) (l : list A) :
  1 <= n →
  js_slice_from (- n) l = last_n (Z.to_nat n) l.
Proof.
  intros Hn. unfold js_slice_from, js_rel_index, last_n.
  destruct (Z.ltb_spec (- n) 0) as [_|H]; [|lia].
  f_equal. lia.
Qed.

(** [slice(-0)] is [slice(0)]: a copy of the whole array. *)
Lemma js_slice_from_zero {A} (l : list A) : js_slice_from (- 0) l = l.
Proof. unfold js_slice_from, js_rel_index. simpl. destruct l; reflexivity. Qed.

Lemma last_n_all {A} (n : nat) (l : list A) :
  (length l <= n)%nat → last_n n l = l.
Proof.
  intros H. unfold last_n. replace (length l - n)%nat with 0%nat by lia.
  reflexivity.
Qed.

Lemma last_n_cons {A} (n : nat) (x : A) (l : list A) :
  (n <= length l)%nat → last_n n (x :: l) = last_n n l.
Proof.
  intros H. unfold last_n. simpl length.
  replace (S (length l) - n)%nat with (S (length l - n)) by lia.
  reflexivity.
Qed.

Lemma last_n_length {A} (n : nat) (l : list A) :
  length (last_n n l) = Nat.min n (length l).
Proof. unfold last_n. rewrite length_drop. lia. Qed.

Lemma last_n_snoc {A} (n : nat) (l : list A) (x : A) :
  (1 <= n)%nat → last_n n (last_n n l ++ [x]) = last_n n (l ++ [x]).
Proof.
  intros Hn. unfold last_n. rewrite !length_app, length_drop. simpl.
  destruct (Nat.le_gt_cases (length l) n) as [Hle|Hgt].
  - replace (length l - n)%nat with 0%nat by lia. simpl.
    f_equal. lia.
  - rewrite drop_app_le by (rewrite length_drop; lia).
    rewrite drop_drop.
    rewrite (drop_app_le l) by lia.
    f_equal. f_equal. lia.
Qed.

(** With a positive limit, the enforcement keeps the first message and the
    last [MAX_CONTEXT_MESSAGES] of the others. *)
Lemma trim_cons (s : message) (t : list message) :
  1 <= MAX_CONTEXT_MESSAGES cfg →
  trim cfg (s :: t) = s :: last_n (Z.to_nat (MAX_CONTEXT_MESSAGES cfg)) t.
Proof.
  intros HM. unfold trim.
  destruct (Z.gtb_spec (Z.of_nat (length (s :: t)))
              (MAX_CONTEXT_MESSAGES cfg + 1)) as [Hgt|Hle].
  - rewrite js_slice_from_last by lia. f_equal.
    apply last_n_cons. simpl length in Hgt. lia.
  - f_equal. symmetry. apply last_n_all. simpl length in Hle. lia.
Qed.

Lemma trim_within_bound (h : list message) (m : message) :
  1 <= MAX_CONTEXT_MESSAGES cfg →
  within_bound cfg h → within_bound cfg (trim cfg (h ++ [m])).
Proof.
  intros HM [Hlen [rest ->]]. simpl app. rewrite trim_cons by lia.
  split; [|eauto].
  simpl length. rewrite last_n_length. lia.
Qed.

Lemma session_at_history id l h cm :
  session_at id l h cm → history_of id cm = Some h.
Proof.
  intros [Hid [c [Hc <-]]]. unfold history_of, messages_at.
  rewrite Hid, Hc. reflexivity.
Qed.

Lemma addMessage_existing id l h m now cm :
  str_truthy id = true →
  session_at id l h cm →
  session_at id l (trim cfg (h ++ [m]))
    (snd (addMessage cfg (Some id) m now cm)).
Proof.
  intros Hid [Hreg [c [Hc Hh]]].
  unfold addMessage, getContext. simpl truthy. rewrite Hid, Hreg.
  unfold session_at, update_at. simpl. split; [exact Hreg|].
  rewrite !list_lookup_alter_eq, Hc. simpl.
  eexists. split; [reflexivity|]. simpl. rewrite Hh. reflexivity.
Qed.

Lemma addMessage_new id m now cm :
  str_truthy id = true →
  contexts cm !! id = None →
  session_at id (length (heap cm))
    (trim cfg ([system_message (DEFAULT_PROMPT cfg)] ++ [m]))
    (snd (addMessage cfg (Some id) m now cm)).
Proof.
  intros Hid Hreg.
  unfold addMessage, getContext. simpl truthy. rewrite Hid, Hreg.
  unfold session_at, update_at. simpl. split.
  - apply lookup_insert_eq.
  - rewrite list_lookup_alter_eq, lookup_app_r by lia.
    rewrite Nat.sub_diag. simpl. eexists. split; reflexivity.
Qed.

(** The history of a session after a sequence of appends, when the limit
    is positive: the instruction message and the last
    [MAX_CONTEXT_MESSAGES] appended messages. *)
Lemma append_all_existing id l s t ms cm :
  1 <= MAX_CONTEXT_MESSAGES cfg →
  str_truthy id = true →
  session_at id l (s :: last_n (Z.to_nat (MAX_CONTEXT_MESSAGES cfg)) t) cm →
  session_at id l
    (s :: last_n (Z.to_nat (MAX_CONTEXT_MESSAGES cfg)) (t ++ map fst ms))
    (append_all cfg id ms cm).
Proof.
  intros HM Hid. revert t cm.
  induction ms as [|[m now] ms IH]; intros t cm Hs.
  - simpl. rewrite app_nil_r. exact Hs.
  - unfold append_all. simpl.
    change (session_at id l
              (s :: last_n (Z.to_nat (MAX_CONTEXT_MESSAGES cfg))
                      (t ++ m :: map fst ms))
              (append_all cfg id ms
                 (snd (addMessage cfg (Some id) m now cm)))).
    replace (t ++ m :: map fst ms) with ((t ++ [m]) ++ map fst ms)
      by (rewrite <- app_assoc; reflexivity).
    apply IH.
    pose proof (addMessage_existing id l _ m now cm Hid Hs) as H.
    simpl app in H. rewrite trim_cons in H by lia.
    rewrite last_n_snoc in H by lia. exact H.
Qed.

Lemma append_all_history id m now ms cm :
  1 <= MAX_CONTEXT_MESSAGES cfg →
  str_truthy id = true →
  contexts cm !! id = None →
  history_of id (append_all cfg id ((m, now) :: ms) cm)
  = Some (system_message (DEFAULT_PROMPT cfg)
            :: last_n (Z.to_nat (MAX_CONTEXT_MESSAGES cfg))
                 (m :: map fst ms)).
Proof.
  intros HM Hid Hnone.
  apply (session_at_history id (length (heap cm))).
  unfold append_all. simpl.
  change (session_at id (length (heap cm))
            (system_message (DEFAULT_PROMPT cfg)
               :: last_n (Z.to_nat (MAX_CONTEXT_MESSAGES cfg))
                    ([m] ++ map fst ms))
            (append_all cfg id ms
               (snd (addMessage cfg (Some id) m now cm)))).
  apply append_all_existing; [lia|exact Hid|].
  pose proof (addMessage_new id m now cm Hid Hnone) as H.
  simpl app in H. rewrite trim_cons in H by lia. exact H.
Qed.

(** *** The bound as an invariant of the store *)

Lemma bounded_store_empty : bounded_store cfg empty_manager.
Proof. intros id l H. simpl in H. rewrite lookup_empty in H. discriminate. Qed.

Lemma new_context_within_bound now :
  0 <= MAX_CONTEXT_MESSAGES cfg →
  within_bound cfg (messages (new_context cfg now)).
Proof. intros HM. split; [simpl; lia|eexists; reflexivity]. Qed.

Lemma getContext_bounded taskId now cm :
  0 <= MAX_CONTEXT_MESSAGES cfg →
  bounded_store cfg cm →
  bounded_store cfg (snd (getContext cfg taskId now cm)).
Proof.
  intros HM Hb. unfold getContext.
  assert (Hfresh : bounded_store cfg
            {| heap := heap cm ++ [new_context cfg now];
               contexts := contexts cm |}).
  { intros id l Hl. simpl in *. destruct (Hb id l Hl) as [c [Hc Hw]].
    exists c. split; [|exact Hw]. rewrite lookup_app_l; [exact Hc|].
    eapply lookup_lt_Some; eauto. }
  destruct taskId as [id|]; [|exact Hfresh].
  destruct (str_truthy id); [|exact Hfresh].
  destruct (contexts cm !! id) as [l|] eqn:Hreg; simpl.
  - intros id' l' Hl'. simpl in *. destruct (Hb id' l' Hl') as [c [Hc Hw]].
    destruct (decide (l = l')) as [->|Hne].
    + rewrite list_lookup_alter_eq, Hc. simpl. eexists. split; [reflexivity|].
      exact Hw.
    + rewrite list_lookup_alter_ne by congruence. eauto.
  - intros id' l' Hl'. simpl in *.
    destruct (decide (id = id')) as [->|Hne].
    + rewrite lookup_insert_eq in Hl'. inversion Hl'; subst l'.
      rewrite lookup_app_r, Nat.sub_diag by lia. simpl.
      eexists. split; [reflexivity|]. apply new_context_within_bound, HM.
    + rewrite lookup_insert_ne in Hl' by congruence.
      destruct (Hb id' l' Hl') as [c [Hc Hw]].
      exists c. split; [|exact Hw]. rewrite lookup_app_l; [exact Hc|].
      eapply lookup_lt_Some; eauto.
Qed.

Lemma getContext_registered id now cm :
  str_truthy id = true →
  contexts (snd (getContext cfg (Some id) now cm)) !! id
  = Some (fst (getContext cfg (Some id) now cm)).
Proof.
  intros Hid. unfold getContext. rewrite Hid.
  destruct (contexts cm !! id) as [l|] eqn:Hreg; simpl.
  - exact Hreg.
  - apply lookup_insert_eq.
Qed.

Lemma addMessage_bounded taskId m now cm :
  1 <= MAX_CONTEXT_MESSAGES cfg →
  bounded_store cfg cm →
  bounded_store cfg (snd (addMessage cfg taskId m now cm)).
Proof.
  intros HM Hb. unfold addMessage.
  destruct (truthy taskId) eqn:Ht; [|exact Hb].
  destruct taskId as [id|]; [|discriminate]. simpl in Ht.
  pose proof (getContext_bounded (Some id) now cm ltac:(lia) Hb) as Hb1.
  pose proof (getContext_registered id now cm Ht) as Hreg.
  destruct (getContext cfg (Some id) now cm) as [l cm1]. simpl in *.
  intros id' l' Hl'. simpl in *.
  destruct (Hb1 id' l' Hl') as [c [Hc Hw]].
  destruct (decide (l = l')) as [->|Hne].
  - rewrite list_lookup_alter_eq, Hc. simpl. eexists. split; [reflexivity|].
    simpl. apply trim_within_bound; assumption.
  - rewrite list_lookup_alter_ne by congruence. eauto.
Qed.

Lemma cleanExpiredContexts_bounded now cm :
  bounded_store cfg cm → bounded_store cfg (cleanExpiredContexts cfg now cm).
Proof.
  intros Hb id l Hl. simpl in *.
  apply map_lookup_filter_Some in Hl. destruct Hl as [Hl _].
  exact (Hb id l Hl).
Qed.

Lemma run_ops_bounded ops cm :
  1 <= MAX_CONTEXT_MESSAGES cfg →
  forallb manager_call ops = true →
  bounded_store cfg cm →
  bounded_store cfg (run_ops cfg ops cm).
Proof.
  intros HM. revert cm. induction ops as [|op ops IH]; intros cm Hops Hb.
  - exact Hb.
  - simpl in Hops. apply andb_true_iff in Hops. destruct Hops as [Hop Hops].
    unfold run_ops. simpl. apply IH; [exact Hops|].
    destruct op as [taskId now|taskId m now|now|l f]; simpl.
    + apply getContext_bounded; [lia|exact Hb].
    + apply addMessage_bounded; assumption.
    + apply cleanExpiredContexts_bounded, Hb.
    + discriminate.
Qed.

(** With a positive limit, whatever the calls made on the manager, every
    registered history starts with the instruction message and holds at
    most [MAX_CONTEXT_MESSAGES] more. *)
Lemma history_within_bound ops id h :
  1 <= MAX_CONTEXT_MESSAGES cfg →
  forallb manager_call ops = true →
  history_of id (run_ops cfg ops empty_manager) = Some h →
  within_bound cfg h.
Proof.
  intros HM Hops Hh.
  pose proof (run_ops_bounded ops empty_manager HM Hops bounded_store_empty)
    as Hb.
  unfold history_of in Hh.
  destruct (contexts (run_ops cfg ops empty_manager) !! id) as [l|] eqn:Hl;
    [|discriminate].
  destruct (Hb id l Hl) as [c [Hc Hw]].
  unfold messages_at in Hh. rewrite Hc in Hh. inversion Hh; subst h.
  exact Hw.
Qed.

(** *** Contexts resolved without a task id *)

Lemma registered_in_heap_empty : registered_in_heap empty_manager.
Proof. intros id l H. simpl in H. rewrite lookup_empty in H. discriminate. Qed.

Lemma getContext_cases taskId now cm :
  let r := getContext cfg taskId now cm in
  (∃ id, taskId = Some id ∧ str_truthy id = true
         ∧ contexts cm !! id = Some (fst r)
         ∧ snd r = update_at (set_lastAccessedAt now) (fst r) cm)
  ∨ (∃ id, taskId = Some id ∧ str_truthy id = true
           ∧ contexts cm !! id = None
           ∧ fst r = length (heap cm)
           ∧ snd r = {| heap := heap cm ++ [new_context cfg now];
                        contexts := <[id := length (heap cm)]> (contexts cm) |})
  ∨ (truthy taskId = false
     ∧ fst r = length (heap cm)
     ∧ snd r = {| heap := heap cm ++ [new_context cfg now];
                  contexts := contexts cm |}).
Proof.
  unfold getContext. destruct taskId as [id|]; simpl.
  - destruct (str_truthy id) eqn:Hid; simpl.
    + destruct (contexts cm !! id) as [l|] eqn:Hreg; simpl.
      * left. exists id. auto.
      * right. left. exists id. auto.
    + right. right. auto.
  - right. right. auto.
Qed.

Lemma getContext_private l taskId now cm :
  private l cm → private l (snd (getContext cfg taskId now cm)).
Proof.
  intros (Hl & Hun & Hreg).
  destruct (getContext_cases taskId now cm)
    as [(id & _ & _ & _ & ->)|[(id & _ & _ & Hnone & _ & ->)|(_ & _ & ->)]].
  - split; [rewrite update_at_length; exact Hl|]. split.
    + exact Hun.
    + intros id' l' H. rewrite update_at_length. exact (Hreg id' l' H).
  - split; [simpl; rewrite length_app; lia|]. split.
    + intros id' H. simpl in H.
      destruct (decide (id = id')) as [->|Hne].
      * rewrite lookup_insert_eq in H. inversion H. lia.
      * rewrite lookup_insert_ne in H by congruence. exact (Hun id' H).
    + intros id' l' H. simpl in *. rewrite length_app. simpl.
      destruct (decide (id = id')) as [->|Hne].
      * rewrite lookup_insert_eq in H. inversion H. lia.
      * rewrite lookup_insert_ne in H by congruence.
        pose proof (Hreg id' l' H). lia.
  - split; [simpl; rewrite length_app; lia|]. split.
    + exact Hun.
    + intros id' l' H. simpl in *. rewrite length_app.
      pose proof (Hreg id' l' H). lia.
Qed.

Lemma update_at_private l f l' cm :
  private l cm → private l (update_at f l' cm).
Proof.
  intros (Hl & Hun & Hreg).
  split; [rewrite update_at_length; exact Hl|]. split.
  - exact Hun.
  - intros id' l'' H. rewrite update_at_length. exact (Hreg id' l'' H).
Qed.

Lemma apply_op_private l op cm :
  private l cm → private l (apply_op cfg cm op).
Proof.
  intros Hp. destruct op as [taskId now|taskId m now|now|l' f]; simpl.
  - apply getContext_private, Hp.
  - unfold addMessage. destruct (truthy taskId); [|exact Hp].
    pose proof (getContext_private l taskId now cm Hp) as H.
    destruct (getContext cfg taskId now cm) as [l1 cm1]. simpl in *.
    apply update_at_private, H.
  - destruct Hp as (Hl & Hun & Hreg). split; [exact Hl|]. split.
    + intros id H. simpl in H. apply map_lookup_filter_Some in H.
      destruct H as [H _]. exact (Hun id H).
    + intros id l' H. simpl in *. apply map_lookup_filter_Some in H.
      destruct H as [H _]. exact (Hreg id l' H).
  - apply update_at_private, Hp.
Qed.

Lemma run_ops_private l ops cm :
  private l cm → private l (run_ops cfg ops cm).
Proof.
  revert cm. induction ops as [|op ops IH]; intros cm Hp; [exact Hp|].
  unfold run_ops. simpl. apply IH, apply_op_private, Hp.
Qed.

Lemma run_ops_registered_in_heap ops :
  registered_in_heap (run_ops cfg ops empty_manager).
Proof.
  assert (H : ∀ cm, registered_in_heap cm →
                    registered_in_heap (run_ops cfg ops cm)).
  { induction ops as [|op ops IH]; intros cm Hreg; [exact Hreg|].
    unfold run_ops. simpl. apply IH.
    destruct op as [taskId now|taskId m now|now|l' f]; simpl.
    - destruct (getContext_cases taskId now cm)
        as [(id & _ & _ & _ & ->)|[(id & _ & _ & Hnone & _ & ->)|(_ & _ & ->)]].
      + intros id' l' H. rewrite update_at_length. exact (Hreg id' l' H).
      + intros id' l' H. simpl in *. rewrite length_app. simpl.
        destruct (decide (id = id')) as [->|Hne].
        * rewrite lookup_insert_eq in H. inversion H. lia.
        * rewrite lookup_insert_ne in H by congruence.
          pose proof (Hreg id' l' H). lia.
      + intros id' l' H. simpl in *. rewrite length_app.
        pose proof (Hreg id' l' H). lia.
    - unfold addMessage. destruct (truthy taskId); [|exact Hreg].
      destruct (getContext_cases taskId now cm)
        as [(id & _ & _ & _ & Hs)|[(id & _ & _ & Hnone & _ & Hs)|(_ & _ & Hs)]];
        destruct (getContext cfg taskId now cm) as [l1 cm1]; simpl in *;
        subst cm1; intros id' l' H; rewrite update_at_length; simpl in *.
      + rewrite length_alter. exact (Hreg id' l' H).
      + rewrite length_app. simpl.
        destruct (decide (id = id')) as [->|Hne].
        * rewrite lookup_insert_eq in H. inversion H. lia.
        * rewrite lookup_insert_ne in H by congruence.
          pose proof (Hreg id' l' H). lia.
      + rewrite length_app. pose proof (Hreg id' l' H). lia.
    - intros id l' H. simpl in *. apply map_lookup_filter_Some in H.
      destruct H as [H _]. exact (Hreg id l' H).
    - intros id l'' H. rewrite update_at_length. exact (Hreg id l'' H). }
  apply H, registered_in_heap_empty.
Qed.

(** Resolving without a task id allocates a private context seeded with
    the instruction message, and leaves the registrations alone. *)
Lemma getContext_anonymous taskId now cm :
  truthy taskId = false →
  registered_in_heap cm →
  let r := getContext cfg taskId now cm in
  heap cm !! fst r = None
  ∧ messages_at (fst r) (snd r) = [system_message (DEFAULT_PROMPT cfg)]
  ∧ contexts (snd r) = contexts cm
  ∧ private (fst r) (snd r).
Proof.
  intros Ht Hreg.
  destruct (getContext_cases taskId now cm)
    as [(id & -> & Hid & _)|[(id & -> & Hid & _)|(_ & Hl & Hs)]];
    [simpl in Ht; congruence|simpl in Ht; congruence|].
  simpl. rewrite Hl, Hs. simpl. split; [|split; [|split]].
  - apply lookup_ge_None. lia.
  - unfold messages_at. simpl.
    rewrite lookup_app_r, Nat.sub_diag by lia. reflexivity.
  - reflexivity.
  - split; [simpl; rewrite length_app; simpl; lia|]. split.
    + intros id H. simpl in H. pose proof (Hreg id _ H). lia.
    + intros id l' H. simpl in *. rewrite length_app.
      pose proof (Hreg id l' H). lia.
Qed.

(** No resolve returns a private context. *)
Lemma getContext_not_private l taskId now cm :
  private l cm → fst (getContext cfg taskId now cm) ≠ l.
Proof.
  intros (Hl & Hun & Hreg).
  destruct (getContext_cases taskId now cm)
    as [(id & _ & _ & H & _)|[(id & _ & _ & _ & H & _)|(_ & H & _)]].
  - intros Heq. rewrite Heq in H. exact (Hun id H).
  - lia.
  - lia.
Qed.

End StoreFacts.

(** C2 (the code departs from the specification when the limit is zero).
    After any sequence of appends the history should hold at most
    [MAX_CONTEXT_MESSAGES + 1] messages, the instruction message followed
    by the most recent [MAX_CONTEXT_MESSAGES] appended ones.  With
    [MAX_CONTEXT_MESSAGES = 0] the first append leaves three messages, the
    instruction message twice and the appended one, and the second append
    five: [slice(-0)] copies the whole array instead of keeping nothing.
    For a limit of one or more the code keeps the bound
    ([append_all_history], [history_within_bound]). *)
Theorem addMessage_limit_zero_exceeds_bound :
  let cfg := sample_config 0 in
  let sys := system_message (DEFAULT_PROMPT cfg) in
  let hi := plain_message "user" "hi" in
  let again := plain_message "user" "again" in
  history_of "s1" (append_all cfg "s1" [(hi, 0)] empty_manager)
  = Some [sys; sys; hi]
  ∧ history_of "s1" (append_all cfg "s1" [(hi, 0); (again, 1)] empty_manager)
    = Some [sys; sys; sys; hi; again]
  ∧ ¬ within_bound cfg [sys; sys; hi].
Proof.
  split; [vm_compute; reflexivity|].
  split; [vm_compute; reflexivity|].
  intros [Hlen _]. vm_compute in Hlen. apply Hlen. reflexivity.
Qed.

(** C8.  A context resolved with no task id is a new object holding only
    the instruction message; the resolve leaves the registrations of the
    store as they were; whatever is done to the store afterwards, no
    resolve with any task id returns that object; and a second caller
    resolving with no task id gets a different object, so that a change
    made through one of the two is not seen through the other. *)
Theorem anonymous_context_is_private
    (cfg : config) (before : list store_op) (taskId : option string)
    (now : Z) :
  truthy taskId = false →
  let cm := run_ops cfg before empty_manager in
  let l := fst (getContext cfg taskId now cm) in
  let cm1 := snd (getContext cfg taskId now cm) in
  heap cm !! l = None
  ∧ messages_at l cm1 = [system_message (DEFAULT_PROMPT cfg)]
  ∧ contexts cm1 = contexts cm
  ∧ (∀ (later : list store_op) (taskId' : option string) (now' : Z),
       fst (getContext cfg taskId' now' (run_ops cfg later cm1)) ≠ l)
  ∧ (∀ (later : list store_op) (taskId' : option string) (now' : Z)
       (f : context → context),
       truthy taskId' = false →
       let cm2 := run_ops cfg later cm1 in
       let l' := fst (getContext cfg taskId' now' cm2) in
       let cm3 := snd (getContext cfg taskId' now' cm2) in
       l' ≠ l
       ∧ messages_at l (update_at f l' cm3) = messages_at l cm3
       ∧ messages_at l' (update_at f l cm3) = messages_at l' cm3).
Proof.
  intros Ht cm l cm1.
  pose proof (run_ops_registered_in_heap cfg before) as Hreg.
  destruct (getContext_anonymous cfg taskId now cm Ht Hreg)
    as (Hnew & Hseed & Hsame & Hpriv).
  fold l in Hnew, Hseed, Hpriv. fold cm1 in Hseed, Hsame, Hpriv.
  split; [exact Hnew|]. split; [exact Hseed|]. split; [exact Hsame|]. split.
  - intros later taskId' now'.
    apply getContext_not_private, run_ops_private, Hpriv.
  - intros later taskId' now' f Ht' cm2 l' cm3.
    assert (Hne : l' ≠ l)
      by (apply getContext_not_private, run_ops_private, Hpriv).
    split; [exact Hne|]. split.
    + apply messages_at_update_ne. exact Hne.
    + apply messages_at_update_ne. congruence.
Qed.

Lemma anonymous_context_is_private_witness :
  truthy None = false
  ∧ ∀ (later : list store_op) (taskId' : option string) (now' : Z),
      fst (getContext (sample_config 10) taskId' now'
             (run_ops (sample_config 10) later
                (snd (getContext (sample_config 10) None 0
                        (run_ops (sample_config 10) [] empty_manager)))))
      ≠ fst (getContext (sample_config 10) None 0
               (run_ops (sample_config 10) [] empty_manager)).
Proof.
  split; [reflexivity|].
  exact (proj1 (proj2 (proj2 (proj2
           (anonymous_context_is_private (sample_config 10) [] None 0
              eq_refl))))).
Defined.

(* ================================================================== *)
(** * Reasoning about handler computations *)
(* ================================================================== *)

Section HoareRules.
Context {A B : Type}.

Lemma hoare_ret (P : world → Prop) (a : A) (Q : A → world → Prop) E :
  (∀ w, P w → Q a w) → hoare P (ret a) Q E.
Proof. intros H w Hw. simpl. auto. Qed.

Lemma hoare_throw (P : world → Prop) msg (Q : A → world → Prop)
    (E : string → world → Prop) :
  (∀ w, P w → E msg w) → hoare P (throw msg) Q E.
Proof. intros H w Hw. simpl. auto. Qed.

Lemma hoare_bind (P : world → Prop) (c : M A) (k : A → M B)
    (R : A → world → Prop) (Q : B → world → Prop) E :
  hoare P c R E →
  (∀ a, hoare (R a) (k a) Q E) →
  hoare P (bind c k) Q E.
Proof.
  intros Hc Hk w Hw. unfold bind. specialize (Hc w Hw).
  destruct (c w) as [[a|msg] w']; [|exact Hc].
  exact (Hk a w' Hc).
Qed.

Lemma hoare_try_catch (P : world → Prop) (c : M A) (h : string → M A)
    (Q : A → world → Prop) (E' E : string → world → Prop) :
  hoare P c Q E' →
  (∀ msg, hoare (E' msg) (h msg) Q E) →
  hoare P (try_catch c h) Q E.
Proof.
  intros Hc Hh w Hw. unfold try_catch. specialize (Hc w Hw).
  destruct (c w) as [[a|msg] w']; [exact Hc|].
  exact (Hh msg w' Hc).
Qed.

Lemma hoare_consequence (P P' : world → Prop) (c : M A)
    (Q Q' : A → world → Prop) (E E' : string → world → Prop) :
  hoare P' c Q' E' →
  (∀ w, P w → P' w) →
  (∀ a w, Q' a w → Q a w) →
  (∀ msg w, E' msg w → E msg w) →
  hoare P c Q E.
Proof.
  intros Hc HP HQ HE w Hw. specialize (Hc w (HP w Hw)).
  destruct (c w) as [[a|msg] w']; auto.
Qed.

Lemma hoare_pre (P P' : world → Prop) (c : M A)
    (Q : A → world → Prop) (E : string → world → Prop) :
  (∀ w, P w → P' w) → hoare P' c Q E → hoare P c Q E.
Proof. intros HP Hc w Hw. exact (Hc w (HP w Hw)). Qed.

Lemma hoare_post (P : world → Prop) (c : M A)
    (Q Q' : A → world → Prop) (E E' : string → world → Prop) :
  hoare P c Q' E' →
  (∀ a w, Q' a w → Q a w) →
  (∀ msg w, E' msg w → E msg w) →
  hoare P c Q E.
Proof.
  intros Hc HQ HE w Hw. specialize (Hc w Hw).
  destruct (c w) as [[a|msg] w']; auto.
Qed.

End HoareRules.

Lemma hoare_when (P : world → Prop) (b : bool) (c : M unit)
    (Q : unit → world → Prop) E :
  (b = true → hoare P c Q E) →
  (b = false → ∀ w, P w → Q tt w) →
  hoare P (when b c) Q E.
Proof.
  intros Hc Hskip. destruct b; simpl.
  - auto.
  - apply hoare_ret. auto.
Qed.

Lemma stable_bind {A B} (P : world → Prop) (c : M A) (k : A → M B) :
  stable P c → (∀ a, stable P (k a)) → stable P (bind c k).
Proof. intros Hc Hk. eapply hoare_bind; [exact Hc|exact Hk]. Qed.

Lemma stable_ret {A} (P : world → Prop) (a : A) : stable P (ret a).
Proof. apply hoare_ret. auto. Qed.

Lemma stable_throw {A} (P : world → Prop) msg : stable P (@throw A msg).
Proof. apply hoare_throw. auto. Qed.

Lemma stable_when (P : world → Prop) b c :
  stable P c → stable P (when b c).
Proof. intros H. destruct b; [exact H|apply stable_ret]. Qed.

Lemma stable_try_catch {A} (P : world → Prop) (c : M A) h :
  stable P c → (∀ msg, stable P (h msg)) → stable P (try_catch c h).
Proof. intros Hc Hh. eapply hoare_try_catch; [exact Hc|exact Hh]. Qed.


Lemma keeps_ret {X A} (p : world → X) (a : A) : keeps p (ret a).
Proof. intros w. reflexivity. Qed.

Lemma keeps_throw {X A} (p : world → X) msg : keeps p (@throw A msg).
Proof. intros w. reflexivity. Qed.

Lemma keeps_bind {X A B} (p : world → X) (c : M A) (k : A → M B) :
  keeps p c → (∀ a, keeps p (k a)) → keeps p (bind c k).
Proof.
  intros Hc Hk w. unfold bind. specialize (Hc w).
  destruct (c w) as [[a|msg] w']; simpl in *; [|exact Hc].
  rewrite Hk. exact Hc.
Qed.

Lemma keeps_when {X} (p : world → X) b c : keeps p c → keeps p (when b c).
Proof. intros H. destruct b; [exact H|apply keeps_ret]. Qed.

Lemma keeps_try_catch {X A} (p : world → X) (c : M A) h :
  keeps p c → (∀ msg, keeps p (h msg)) → keeps p (try_catch c h).
Proof.
  intros Hc Hh w. unfold try_catch. specialize (Hc w).
  destruct (c w) as [[a|msg] w']; simpl in *; [exact Hc|].
  rewrite Hh. exact Hc.
Qed.

Lemma keeps_channel_stable {A} (P : world → Prop) (c : M A) :
  keeps_channel c →
  (∀ w w', sse w' = sse w → P w → P w') →
  stable P c.
Proof.
  intros Hk HP w Hw. specialize (Hk w).
  destruct (c w) as [[a|msg] w']; simpl in Hk; eauto.
Qed.

Lemma add_message_keeps_channel cfg now taskId m :
  keeps_channel (add_message cfg now taskId m).
Proof. intros w. reflexivity. Qed.

Lemma context_messages_keeps_channel l : keeps_channel (context_messages l).
Proof. intros w. reflexivity. Qed.

Lemma open_stream_keeps_channel env r : keeps_channel (open_stream env r).
Proof. intros w. reflexivity. Qed.

Lemma require_model_keeps_channel model : keeps_channel (require_model model).
Proof. intros w. unfold require_model. destruct (str_truthy model); reflexivity. Qed.

Lemma save_response_keeps_channel cfg now taskId r :
  keeps_channel (save_response cfg now taskId r).
Proof.
  intros w. unfold save_response, when.
  destruct (str_truthy r && truthy taskId); reflexivity.
Qed.

(** The loops and the bookkeeping leave the requests alone; the loops and
    the channel operations leave the store alone. *)
Lemma relay_content_keeps {X} (p : world → X) stream r :
  keeps p sse_closed →
  (∀ f, keeps p (sse_send f)) →
  keeps p client_disconnects →
  keeps p (relay_content stream r).
Proof.
  intros Hc Hs Hd. revert r.
  induction stream as [|ev stream IH]; intros r; simpl.
  - apply keeps_ret.
  - destruct ev as [c| |msg].
    + destruct (str_truthy (chunk_content c)); [|apply IH].
      apply keeps_bind; [exact Hc|]. intros cl. destruct cl.
      * apply keeps_ret.
      * apply keeps_bind; [apply Hs|]. intros u. apply IH.
    + apply keeps_bind; [exact Hd|]. intros u. apply IH.
    + apply keeps_throw.
Qed.

Lemma relay_content_keeps_requests stream r :
  keeps requests (relay_content stream r).
Proof. apply relay_content_keeps; intros; intros w; reflexivity. Qed.

Lemma relay_content_keeps_manager stream r :
  keeps manager (relay_content stream r).
Proof. apply relay_content_keeps; intros; intros w; reflexivity. Qed.

Lemma save_response_keeps_requests cfg now taskId r :
  keeps requests (save_response cfg now taskId r).
Proof. apply keeps_when. intros w. reflexivity. Qed.

Lemma finish_stream_keeps {X} (p : world → X) :
  keeps p sse_closed → (∀ f, keeps p (sse_send f)) → keeps p sse_end →
  keeps p finish_stream.
Proof.
  intros Hc Hs He. unfold finish_stream, Transport.finish_stream.
  apply keeps_bind; [exact Hc|]. intros cl.
  apply keeps_when, keeps_bind; [apply Hs|]. intros u. exact He.
Qed.

Lemma report_error_keeps {X} (p : world → X) msg :
  keeps p sse_closed → (∀ f, keeps p (sse_send f)) → keeps p sse_end →
  keeps p (report_error msg).
Proof.
  intros Hc Hs He. unfold report_error, Transport.report_error.
  apply keeps_try_catch; [|intros msg'; apply keeps_ret].
  apply keeps_bind; [exact Hc|]. intros cl.
  apply keeps_when, keeps_bind; [apply Hs|]. intros u. exact He.
Qed.

(* ================================================================== *)
(** * One terminal action per request *)
(* ================================================================== *)

Section Termination.
Variable before : list action.

Lemma streaming_same_channel w w' :
  sse w' = sse w → streaming before w → streaming before w'.
Proof. intros Heq [data H]. exists data. rewrite Heq. exact H. Qed.

Lemma streaming_keeps_channel {A} (c : M A) :
  keeps_channel c → stable (streaming before) c.
Proof.
  intros Hk. apply keeps_channel_stable; [exact Hk|].
  intros w w'. apply streaming_same_channel.
Qed.

Lemma streaming_closed :
  hoare (streaming before) sse_closed
    (fun b w => streaming before w ∧ closed (sse w) = b)
    (fun _ => streaming before).
Proof. intros w Hw. simpl. auto. Qed.

Lemma streaming_send_chunk c :
  stable (streaming before) (sse_send (FChunk c)).
Proof.
  intros w [data [Hd Hl]]. simpl. exists (data ++ [Send (FChunk c)]).
  split.
  - rewrite forallb_app, Hd. reflexivity.
  - rewrite Hl, app_assoc. reflexivity.
Qed.

Lemma streaming_send_raw s :
  stable (streaming before) (sse_send (FRaw s)).
Proof.
  intros w [data [Hd Hl]]. simpl. exists (data ++ [Send (FRaw s)]).
  split.
  - rewrite forallb_app, Hd. reflexivity.
  - rewrite Hl, app_assoc. reflexivity.
Qed.

Lemma streaming_disconnect :
  stable (streaming before) client_disconnects.
Proof. intros w [data H]. simpl. exists data. exact H. Qed.

Lemma streaming_relay_content stream r :
  stable (streaming before) (relay_content stream r).
Proof.
  revert r. induction stream as [|ev stream IH]; intros r; simpl.
  - apply stable_ret.
  - destruct ev as [c| |msg].
    + destruct (str_truthy (chunk_content c)); [|apply IH].
      eapply hoare_bind; [apply streaming_closed|].
      intros cl. destruct cl.
      * apply hoare_ret. tauto.
      * eapply hoare_bind.
        -- eapply hoare_pre; [|apply streaming_send_chunk]. tauto.
        -- intros u. apply IH.
    + apply stable_bind; [apply streaming_disconnect|]. intros _. apply IH.
    + apply stable_throw.
Qed.

Lemma finish_stream_ends :
  hoare (streaming before) finish_stream
    (fun _ => ends_try before) (fun _ _ => False).
Proof.
  intros w [data [Hd Hl]]. unfold finish_stream, Transport.finish_stream, bind, sse_closed. simpl.
  destruct (closed (sse w)) eqn:Hc; simpl.
  - right. split; [|exact Hc]. exists data. split; [exact Hd|].
    simpl. rewrite app_nil_r. exact Hl.
  - left. exists data. split; [exact Hd|]. simpl.
    rewrite Hl, <- !app_assoc. reflexivity.
Qed.

Lemma report_error_ends msg :
  hoare (streaming before) (report_error msg)
    (fun _ => ends_catch before) (fun _ _ => False).
Proof.
  intros w [data [Hd Hl]]. unfold report_error, Transport.report_error, try_catch, bind, sse_closed.
  simpl.
  destruct (closed (sse w)) eqn:Hc; simpl.
  - right. split; [|exact Hc]. exists data. split; [exact Hd|].
    simpl. rewrite app_nil_r. exact Hl.
  - left. exists (error_text msg), data. split; [exact Hd|]. simpl.
    rewrite Hl, <- !app_assoc. reflexivity.
Qed.

(** The terminal action can be read off the log. *)
Lemma terminal_trace_not_data t :
  filter (fun a => negb (is_data a)) (terminal_trace t) = terminal_trace t.
Proof. destruct t; reflexivity. Qed.

Lemma data_filtered data :
  forallb is_data data = true →
  filter (fun a => negb (is_data a)) data = [].
Proof.
  induction data as [|a data IH]; simpl; [reflexivity|].
  intros H. apply andb_true_iff in H. destruct H as [Ha Hd].
  rewrite filter_cons, Ha. simpl. auto.
Qed.

Lemma terminal_trace_inj t t' :
  terminal_trace t = terminal_trace t' → t = t'.
Proof. destruct t, t'; simpl; intros H; congruence. Qed.

Lemma ended_with_unique t t' w :
  ended_with before t w → ended_with before t' w → t = t'.
Proof.
  intros [d [Hd Hl]] [d' [Hd' Hl']]. rewrite Hl in Hl'.
  apply app_inv_head in Hl'.
  apply (f_equal (filter (fun a => negb (is_data a)))) in Hl'.
  rewrite !filter_app, !terminal_trace_not_data in Hl'.
  rewrite (data_filtered d Hd), (data_filtered d' Hd') in Hl'.
  apply terminal_trace_inj. exact Hl'.
Qed.

Lemma ended_once_intro t w :
  ended_with before t w →
  (t = Abandoned → unusable (sse w) = true) →
  ended_once before w.
Proof.
  intros Ht Hab. split.
  - exists t. split; [exact Ht|]. intros t' Ht'.
    exact (ended_with_unique t' t w Ht' Ht).
  - intros Ha. apply Hab. exact (ended_with_unique t Abandoned w Ht Ha).
Qed.

Lemma closed_unusable (s : channel) : closed s = true → unusable s = true.
Proof. intros H. unfold unusable. rewrite H. apply orb_true_r. Qed.

Lemma ends_try_once w : ends_try before w → ended_once before w.
Proof.
  intros [H|[H Hc]].
  - apply (ended_once_intro Completed); [exact H|discriminate].
  - apply (ended_once_intro Abandoned); [exact H|].
    intros _. apply closed_unusable, Hc.
Qed.

Lemma ends_catch_once w : ends_catch before w → ended_once before w.
Proof.
  intros [[msg H]|[H Hc]].
  - apply (ended_once_intro (Failed msg)); [exact H|discriminate].
  - apply (ended_once_intro Abandoned); [exact H|].
    intros _. apply closed_unusable, Hc.
Qed.

(** A [try] block that only streams and then finishes, with the shared
    [catch] block, ends the request once. *)
Lemma try_catch_ended_once (body : M unit) :
  hoare (streaming before) body (fun _ => ends_try before)
        (fun _ => streaming before) →
  hoare (streaming before) (try_catch body report_error)
        (fun _ => ended_once before) (fun _ _ => False).
Proof.
  intros Hbody. eapply hoare_try_catch.
  - eapply hoare_post; [exact Hbody| |intros msg w H; exact H].
    intros u w. apply ends_try_once.
  - intros msg. eapply hoare_post; [apply report_error_ends| |auto].
    intros u w. apply ends_catch_once.
Qed.

Lemma streaming_complete_tool_call cfg env now taskId model contextData st :
  stable (streaming before)
    (LlmTools.complete_tool_call cfg env now taskId model contextData st).
Proof.
  unfold LlmTools.complete_tool_call.
  destruct (LlmTools.toolCallData st) as [tc0|]; [|apply stable_throw].
  apply stable_bind.
  { apply stable_when, stable_bind; [|intros u];
      apply streaming_keeps_channel, add_message_keeps_channel. }
  intros u. apply stable_bind.
  { apply streaming_keeps_channel, context_messages_keeps_channel. }
  intros ms. apply stable_bind.
  { apply streaming_keeps_channel, open_stream_keeps_channel. }
  intros followUp. apply stable_bind; [apply streaming_relay_content|].
  intros r. apply stable_bind.
  { apply streaming_keeps_channel, save_response_keeps_channel. }
  intros u'. apply stable_ret.
Qed.

Lemma streaming_tools_relay cfg env now taskId model contextData stream st :
  stable (streaming before)
    (LlmTools.relay cfg env now taskId model contextData stream st).
Proof.
  revert st. induction stream as [|ev stream IH]; intros st; simpl.
  - apply stable_ret.
  - destruct ev as [c| |msg].
    + destruct (chunk_tool_calls c) as [[|d ds]|].
      * apply stable_throw.
      * apply IH.
      * destruct (LlmTools.collectingToolCall st
                  && bool_decide (chunk_finish_reason c = Some "tool_calls")).
        -- apply streaming_complete_tool_call.
        -- destruct (str_truthy (chunk_content c)); [|apply IH].
           eapply hoare_bind; [apply streaming_closed|].
           intros cl. destruct cl.
           ++ apply hoare_ret. tauto.
           ++ eapply hoare_bind.
              ** eapply hoare_pre; [|apply streaming_send_chunk]. tauto.
              ** intros u. apply IH.
    + apply stable_bind; [apply streaming_disconnect|]. intros u. apply IH.
    + apply stable_throw.
Qed.

Lemma basic_try_block cfg env now taskId model contextData :
  hoare (streaming before)
    (require_model model ;;
     ms <- context_messages contextData ;;
     stream <- open_stream env (stream_request model ms false) ;;
     assistantResponse <- relay_content stream "" ;;
     save_response cfg now taskId assistantResponse ;;
     finish_stream)
    (fun _ => ends_try before) (fun _ => streaming before).
Proof.
  eapply hoare_bind.
  { apply streaming_keeps_channel, require_model_keeps_channel. }
  intros u. eapply hoare_bind.
  { apply streaming_keeps_channel, context_messages_keeps_channel. }
  intros ms. eapply hoare_bind.
  { apply streaming_keeps_channel, open_stream_keeps_channel. }
  intros stream. eapply hoare_bind; [apply streaming_relay_content|].
  intros r. eapply hoare_bind.
  { apply streaming_keeps_channel, save_response_keeps_channel. }
  intros u'. eapply hoare_post; [apply finish_stream_ends|auto|].
  intros msg w [].
Qed.

Lemma tools_try_block cfg env now taskId model contextData :
  hoare (streaming before)
    (require_model model ;;
     ms <- context_messages contextData ;;
     stream <- open_stream env (stream_request model ms true) ;;
     st <- LlmTools.relay cfg env now taskId model contextData stream
             LlmTools.initial_state ;;
     when (negb (LlmTools.collectingToolCall st))
          (save_response cfg now taskId (LlmTools.assistantResponse st)) ;;
     finish_stream)
    (fun _ => ends_try before) (fun _ => streaming before).
Proof.
  eapply hoare_bind.
  { apply streaming_keeps_channel, require_model_keeps_channel. }
  intros u. eapply hoare_bind.
  { apply streaming_keeps_channel, context_messages_keeps_channel. }
  intros ms. eapply hoare_bind.
  { apply streaming_keeps_channel, open_stream_keeps_channel. }
  intros stream. eapply hoare_bind; [apply streaming_tools_relay|].
  intros st. eapply hoare_bind.
  { apply stable_when, streaming_keeps_channel, save_response_keeps_channel. }
  intros u'. eapply hoare_post; [apply finish_stream_ends|auto|].
  intros msg w [].
Qed.

End Termination.

Lemma streaming_start w : streaming (log (sse w)) w.
Proof. exists []. split; [reflexivity|]. rewrite app_nil_r. reflexivity. Qed.

Lemma unusable_ended_once w :
  unusable (sse w) = true → ended_once (log (sse w)) w.
Proof.
  intros Hu. apply (ended_once_intro _ Abandoned); [|auto].
  exists []. split; [reflexivity|]. simpl. rewrite app_nil_r. reflexivity.
Qed.

(** When no write throws, every request handled by the basic handler and
    by the tools handler ends on the output channel in exactly one of
    three ways: deltas then the sentinel and the end of the channel;
    deltas then an error frame and the end of the channel; or deltas and
    nothing else, the channel being closed or unavailable.  What holds
    when writes can throw is stated with the handlers of [Throwing]. *)
Lemma one_terminal_action
    (cfg : config) (env : environment) (now : Z) (taskId : option string)
    (model : string) (contextData : loc) (w : world) :
  ended_once (log (sse w))
    (LlmContextManager.handleStreamingRequest cfg env now taskId model
       contextData w)
  ∧ ended_once (log (sse w))
      (LlmTools.handleStreamingRequest cfg env now taskId model
         contextData w).
Proof.
  split.
  - unfold LlmContextManager.handleStreamingRequest.
    destruct (unusable (sse w)) eqn:Hu; [apply unusable_ended_once, Hu|].
    pose proof (try_catch_ended_once (log (sse w)) _
                  (basic_try_block (log (sse w)) cfg env now taskId model
                     contextData) w (streaming_start w)) as H.
    destruct (try_catch _ report_error w) as [[u|msg] w']; [exact H|elim H].
  - unfold LlmTools.handleStreamingRequest.
    destruct (unusable (sse w)) eqn:Hu; [apply unusable_ended_once, Hu|].
    pose proof (try_catch_ended_once (log (sse w)) _
                  (tools_try_block (log (sse w)) cfg env now taskId model
                     contextData) w (streaming_start w)) as H.
    destruct (try_catch _ report_error w) as [[u|msg] w']; [exact H|elim H].
Qed.

(* ================================================================== *)
(** * Client disconnection *)
(* ================================================================== *)

Section Frozen.
(** Once the channel reports itself closed, nothing is written to it. *)
Variable s : channel.
Hypothesis s_closed : closed s = true.

Lemma frozen_keeps_channel {A} (c : M A) :
  keeps_channel c → stable (frozen s) c.
Proof.
  intros Hk. apply keeps_channel_stable; [exact Hk|].
  unfold frozen. intros w w' Heq Hw. congruence.
Qed.

Lemma frozen_closed :
  hoare (frozen s) sse_closed
    (fun b w => frozen s w ∧ b = true) (fun _ => frozen s).
Proof.
  intros w Hw. simpl. split; [exact Hw|]. unfold frozen in Hw.
  rewrite Hw. exact s_closed.
Qed.

Lemma frozen_disconnect : stable (frozen s) client_disconnects.
Proof.
  intros w Hw. unfold frozen in *. simpl. rewrite Hw.
  destruct s as [av cl lg]. simpl in *. subst cl. reflexivity.
Qed.

Lemma frozen_relay_content stream r :
  stable (frozen s) (relay_content stream r).
Proof.
  revert r. induction stream as [|ev stream IH]; intros r; simpl.
  - apply stable_ret.
  - destruct ev as [c| |msg].
    + destruct (str_truthy (chunk_content c)); [|apply IH].
      eapply hoare_bind; [apply frozen_closed|].
      intros cl. destruct cl.
      * apply hoare_ret. tauto.
      * apply hoare_pre with (P' := fun _ => False); [intros w [_ H]; discriminate|].
        intros w [].
    + apply stable_bind; [apply frozen_disconnect|]. intros u. apply IH.
    + apply stable_throw.
Qed.

Lemma frozen_finish_stream :
  hoare (frozen s) finish_stream (fun _ => frozen s) (fun _ _ => False).
Proof.
  intros w Hw. unfold finish_stream, Transport.finish_stream, bind, sse_closed. simpl.
  unfold frozen in Hw. rewrite Hw, s_closed. simpl. exact Hw.
Qed.

Lemma frozen_report_error msg :
  hoare (frozen s) (report_error msg) (fun _ => frozen s) (fun _ _ => False).
Proof.
  intros w Hw. unfold report_error, Transport.report_error, try_catch, bind, sse_closed.
  simpl.
  unfold frozen in Hw. rewrite Hw, s_closed. simpl. exact Hw.
Qed.



(** The rest of a handler, from a point of its streaming loop on. *)
Lemma frozen_try_catch {A} (loop : M A) (rest : A → M unit) :
  stable (frozen s) loop →
  (∀ a, stable (frozen s) (rest a)) →
  hoare (frozen s)
    (try_catch (a <- loop ;; rest a ;; finish_stream) report_error)
    (fun _ => frozen s) (fun _ _ => False).
Proof.
  intros Hloop Hrest. eapply hoare_try_catch with (E' := fun _ => frozen s).
  - eapply hoare_bind; [exact Hloop|]. intros a.
    eapply hoare_bind; [apply Hrest|]. intros u.
    eapply hoare_post; [apply frozen_finish_stream|auto|]. intros msg w [].
  - intros msg. apply frozen_report_error.
Qed.

End Frozen.

(** ** Equations of the handler monad *)

Lemma bind_ok {A B} (c : M A) (k : A → M B) w a w' :
  c w = (Ok a, w') → bind c k w = k a w'.
Proof. intros H. unfold bind. rewrite H. reflexivity. Qed.



Lemma try_catch_bind_ok {A B} (c : M A) (k : A → M B) h w a w' :
  c w = (Ok a, w') → try_catch (bind c k) h w = try_catch (k a) h w'.
Proof. intros H. unfold try_catch, bind. rewrite H. reflexivity. Qed.


Lemma try_catch_ext {A} (c c' : M A) h w :
  c w = c' w → try_catch c h w = try_catch c' h w.
Proof. intros H. unfold try_catch. rewrite H. reflexivity. Qed.

Lemma logged_nil w : logged [] w = w.
Proof.
  destruct w as [cm [av cl lg] rq]. unfold logged. simpl.
  rewrite app_nil_r. reflexivity.
Qed.

Lemma logged_app a b w : logged b (logged a w) = logged (a ++ b) w.
Proof. unfold logged. simpl. rewrite app_assoc. reflexivity. Qed.

Lemma not_truthy_empty s : str_truthy s = false → s = "".
Proof.
  unfold str_truthy. intros H. apply negb_false_iff in H.
  apply String.eqb_eq in H. exact H.
Qed.

Lemma append_empty_r s : s +:+ "" = s.
Proof.
  induction s as [|a s IH]; [reflexivity|].
  change (String a (s +:+ "") = String a s). f_equal. exact IH.
Qed.

(** ** The content loop *)

(** While the channel is open the loop forwards every delta with text and
    accumulates it. *)
Lemma relay_content_open pre rest r w :
  closed (sse w) = false →
  relay_content (map Delta pre ++ rest) r w
  = relay_content rest
      (fold_left (fun r c => r +:+ chunk_content c) pre r)
      (logged (forwarded pre) w).
Proof.
  revert r w. induction pre as [|c pre IH]; intros r w Hopen.
  - simpl. unfold forwarded. simpl. rewrite logged_nil. reflexivity.
  - change (map Delta (c :: pre) ++ rest)
      with (Delta c :: (map Delta pre ++ rest)).
    simpl relay_content. simpl fold_left. unfold forwarded.
    destruct (str_truthy (chunk_content c)) eqn:Hc.
    + rewrite filter_cons_True by exact Hc.
      unfold bind at 1. unfold sse_closed at 1. rewrite Hopen.
      unfold bind at 1.
      change (sse_send (FChunk c) w) with (Ok tt, logged [Send (FChunk c)] w).
      cbv beta iota.
      rewrite (IH (r +:+ chunk_content c) (logged [Send (FChunk c)] w) Hopen).
      rewrite logged_app. reflexivity.
    + rewrite filter_cons_False
        by (unfold has_content; rewrite Hc; discriminate).
      rewrite (not_truthy_empty _ Hc), append_empty_r. apply IH, Hopen.
Qed.



(** ** The loop of the tools handler *)

Section ToolsLoop.
Variable cfg : config.
Variable env : environment.
Variable now : Z.
Variable taskId : option string.
Variable model : string.
Variable contextData : loc.

Lemma tools_forwarded_cons c pre :
  tools_forwarded (c :: pre)
  = (if has_content c && no_tool_calls c then [Send (FChunk c)] else [])
    ++ tools_forwarded pre.
Proof.
  unfold tools_forwarded. rewrite filter_cons.
  destruct (decide (has_content c && no_tool_calls c = true)) as [H|H].
  - rewrite H. reflexivity.
  - apply not_true_is_false in H. rewrite H. reflexivity.
Qed.

Lemma tools_relay_open pre rest st w :
  closed (sse w) = false →
  forallb plain_delta pre = true →
  LlmTools.relay cfg env now taskId model contextData
    (map Delta pre ++ rest) st w
  = LlmTools.relay cfg env now taskId model contextData rest
      (fold_left absorb pre st) (logged (tools_forwarded pre) w).
Proof.
  revert st w. induction pre as [|c pre IH]; intros st w Hopen Hplain.
  - simpl. unfold tools_forwarded. simpl. rewrite logged_nil. reflexivity.
  - simpl in Hplain. apply andb_true_iff in Hplain.
    destruct Hplain as [Hc Hplain].
    unfold plain_delta, empty_tool_calls, finishes_tool_call in Hc.
    apply andb_true_iff in Hc. destruct Hc as [Hne Hfin].
    apply negb_true_iff in Hfin.
    change (map Delta (c :: pre) ++ rest)
      with (Delta c :: (map Delta pre ++ rest)).
    simpl LlmTools.relay. simpl fold_left.
    rewrite tools_forwarded_cons, <- logged_app.
    unfold absorb at 2. unfold no_tool_calls, has_content.
    destruct (chunk_tool_calls c) as [[|d ds]|] eqn:Htc.
    + discriminate.
    + rewrite andb_false_r, logged_nil. apply IH; assumption.
    + rewrite Hfin, andb_false_r, andb_true_r.
      destruct (str_truthy (chunk_content c)) eqn:Hcont.
      * unfold bind at 1. unfold sse_closed at 1. rewrite Hopen.
        unfold bind at 1.
        change (sse_send (FChunk c) w)
          with (Ok tt, logged [Send (FChunk c)] w).
        cbv beta iota.
        apply IH; assumption.
      * rewrite logged_nil. apply IH; assumption.
Qed.



End ToolsLoop.

(** ** The handlers, when the client goes away during the stream *)

Lemma usable_open (s : channel) : unusable s = false → closed s = false.
Proof.
  unfold unusable. intros H. apply orb_false_iff in H. tauto.
Qed.


Lemma tools_relay_disconnect cfg env now taskId model contextData suf st w :
  LlmTools.relay cfg env now taskId model contextData (Disconnect :: suf) st w
  = LlmTools.relay cfg env now taskId model contextData suf st
      (disconnected w).
Proof. reflexivity. Qed.











(* ================================================================== *)
(** * Tool invocations *)
(* ================================================================== *)

Lemma append_assoc (a b c : string) : (a +:+ b) +:+ c = a +:+ (b +:+ c).
Proof.
  induction a as [|x a IH]; [reflexivity|].
  change (String x ((a +:+ b) +:+ c) = String x (a +:+ (b +:+ c))).
  f_equal. exact IH.
Qed.

Lemma concat_strings_app l l' :
  concat_strings (l ++ l') = concat_strings l +:+ concat_strings l'.
Proof.
  induction l as [|s l IH]; [reflexivity|].
  simpl. rewrite IH, append_assoc. reflexivity.
Qed.

Lemma received_app l l' : received (l ++ l') = received l ++ received l'.
Proof. unfold received. apply flat_map_app. Qed.

(** A fragment adds its text at the end of the buffer. *)
Lemma tool_call_fragment_arguments d st :
  LlmTools.accumulatedArguments (LlmTools.tool_call_fragment d st)
  = LlmTools.accumulatedArguments st +:+ fragment_text d.
Proof.
  unfold LlmTools.tool_call_fragment, LlmTools.collect_arguments,
    fragment_text.
  assert (Hstart : LlmTools.accumulatedArguments
                     (if LlmTools.collectingToolCall st then st
                      else LlmTools.start_tool_call d st)
                   = LlmTools.accumulatedArguments st)
    by (destruct (LlmTools.collectingToolCall st); reflexivity).
  destruct (LlmTools.delta_function_arguments d) as [a|]; simpl.
  - destruct (str_truthy a) eqn:Ha; simpl.
    + rewrite Hstart. reflexivity.
    + rewrite (not_truthy_empty a Ha), append_empty_r. exact Hstart.
  - rewrite append_empty_r. exact Hstart.
Qed.

(** The first fragment captures the identifier and the name, none changes
    them afterwards. *)
Lemma tool_call_fragment_collecting d st :
  LlmTools.collectingToolCall (LlmTools.tool_call_fragment d st) = true.
Proof.
  unfold LlmTools.tool_call_fragment, LlmTools.collect_arguments.
  destruct (LlmTools.collectingToolCall st) eqn:Hc;
    destruct (LlmTools.delta_function_arguments d) as [a|];
    try destruct (str_truthy a); simpl; auto.
Qed.

Section Invocation.
Variable cfg : config.
Variable env : environment.
Variable now : Z.
Variable taskId : option string.
Variable model : string.
Variable contextData : loc.

Lemma record_tool_call_ok tc result w :
  record_tool_call cfg now taskId tc result w
  = (Ok tt,
     {| manager := manager (snd (record_tool_call cfg now taskId tc result w));
        sse := sse w; requests := requests w |}).
Proof.
  unfold record_tool_call, when. destruct (truthy taskId).
  - reflexivity.
  - destruct w. reflexivity.
Qed.

(** The completion of an invocation: the result of the tool is computed
    from the buffer, the two messages are recorded, and one follow-up
    request is issued; the completion throws only if the follow-up stream
    does. *)
Lemma complete_tool_call_request st tc0 w :
  LlmTools.toolCallData st = Some tc0 →
  let tc := LlmTools.with_arguments (LlmTools.accumulatedArguments st) tc0 in
  let result := LlmTools.handleFunctionCall env (tc_function tc) in
  let recorded := snd (record_tool_call cfg now taskId tc result w) in
  requests
    (snd (LlmTools.complete_tool_call cfg env now taskId model contextData
            st w))
  = requests w
    ++ [stream_request model
          (messages_at contextData (manager recorded)
           ++ [tool_call_message tc; tool_result_message tc result])
          false].
Proof.
  intros Htc tc result recorded. unfold LlmTools.complete_tool_call.
  rewrite Htc. fold tc. fold result.
  change (when (truthy taskId)
            (add_message cfg now taskId (tool_call_message tc);;
             add_message cfg now taskId (tool_result_message tc result)))
    with (record_tool_call cfg now taskId tc result).
  rewrite (bind_ok _ _ _ _ _ (record_tool_call_ok tc result w)).
  fold recorded.
  erewrite bind_ok by reflexivity.
  erewrite bind_ok by reflexivity.
  match goal with
  | |- requests (snd (bind ?c ?k ?w2)) = _ =>
      assert (Hk : keeps requests (bind c k))
  end.
  { apply keeps_bind; [apply relay_content_keeps_requests|]. intros r.
    apply keeps_bind; [apply save_response_keeps_requests|]. intros u.
    apply keeps_ret. }
  rewrite Hk. reflexivity.
Qed.

(** The steps of the loop. *)
Lemma relay_step_fragment c d ds stream st w :
  chunk_tool_calls c = Some (d :: ds) →
  LlmTools.relay cfg env now taskId model contextData (Delta c :: stream) st w
  = LlmTools.relay cfg env now taskId model contextData stream
      (LlmTools.tool_call_fragment d st) w.
Proof. intros H. simpl. rewrite H. reflexivity. Qed.

Lemma relay_step_no_entry c stream st w :
  chunk_tool_calls c = Some [] →
  ∃ msg,
    LlmTools.relay cfg env now taskId model contextData (Delta c :: stream)
      st w = (Throw msg, w).
Proof. intros H. simpl. rewrite H. eexists. reflexivity. Qed.

Lemma relay_step_complete c stream st w :
  chunk_tool_calls c = None →
  LlmTools.collectingToolCall st && finishes_tool_call c = true →
  LlmTools.relay cfg env now taskId model contextData (Delta c :: stream) st w
  = LlmTools.complete_tool_call cfg env now taskId model contextData st w.
Proof.
  intros H Hfin. unfold finishes_tool_call in Hfin. simpl.
  rewrite H, Hfin. reflexivity.
Qed.

Lemma relay_step_content c stream st w :
  chunk_tool_calls c = None →
  LlmTools.collectingToolCall st && finishes_tool_call c = false →
  has_content c = true →
  let st' := LlmTools.set_response
               (LlmTools.assistantResponse st +:+ chunk_content c) st in
  LlmTools.relay cfg env now taskId model contextData (Delta c :: stream) st w
  = if closed (sse w) then (Ok st', w)
    else LlmTools.relay cfg env now taskId model contextData stream st'
           (logged [Send (FChunk c)] w).
Proof.
  intros H Hfin Hc. unfold finishes_tool_call in Hfin.
  unfold has_content in Hc. simpl.
  rewrite H, Hfin, Hc. unfold bind, sse_closed.
  destruct (closed (sse w)); reflexivity.
Qed.

Lemma relay_step_skip c stream st w :
  chunk_tool_calls c = None →
  LlmTools.collectingToolCall st && finishes_tool_call c = false →
  has_content c = false →
  LlmTools.relay cfg env now taskId model contextData (Delta c :: stream) st w
  = LlmTools.relay cfg env now taskId model contextData stream st w.
Proof.
  intros H Hfin Hc. unfold finishes_tool_call in Hfin.
  unfold has_content in Hc. simpl.
  rewrite H, Hfin, Hc. reflexivity.
Qed.

(** The buffer handed to the tool is the concatenation, in arrival order,
    of the fragments received before the completion. *)
Lemma relay_reconstructs_arguments stream st w :
  forallb single_invocation stream = true →
  requests (snd (LlmTools.relay cfg env now taskId model contextData
                   stream st w))
  = requests w
  ∨ ∃ pre fin rest tc ms,
      stream = pre ++ Delta fin :: rest
      ∧ fn_arguments (tc_function tc)
        = LlmTools.accumulatedArguments st +:+ concat_strings (received pre)
      ∧ requests (snd (LlmTools.relay cfg env now taskId model contextData
                         stream st w))
        = requests w
          ++ [stream_request model
                (ms ++ [tool_call_message tc;
                        tool_result_message tc
                          (LlmTools.handleFunctionCall env (tc_function tc))])
                false].
Proof.
  revert st w. induction stream as [|ev stream IH]; intros st w Hsingle.
  - left. reflexivity.
  - simpl in Hsingle. apply andb_true_iff in Hsingle.
    destruct Hsingle as [Hev Hsingle].
    assert (Hcons : ∀ st' w' ev,
              received [ev] = [] →
              LlmTools.accumulatedArguments st'
              = LlmTools.accumulatedArguments st →
              requests w' = requests w →
              LlmTools.relay cfg env now taskId model contextData
                (ev :: stream) st w
              = LlmTools.relay cfg env now taskId model contextData
                  stream st' w' →
              requests (snd (LlmTools.relay cfg env now taskId model
                               contextData (ev :: stream) st w))
              = requests w
              ∨ ∃ pre fin rest tc ms,
                  ev :: stream = pre ++ Delta fin :: rest
                  ∧ fn_arguments (tc_function tc)
                    = LlmTools.accumulatedArguments st
                      +:+ concat_strings (received pre)
                  ∧ requests (snd (LlmTools.relay cfg env now taskId model
                                     contextData (ev :: stream) st w))
                    = requests w
                      ++ [stream_request model
                            (ms ++ [tool_call_message tc;
                                    tool_result_message tc
                                      (LlmTools.handleFunctionCall env
                                         (tc_function tc))])
                            false]).
    { intros st' w' ev' Hnone Hacc Hrq Hstep. rewrite Hstep.
      destruct (IH st' w' Hsingle)
        as [Hsame|(pre & fin & rest & tc & ms & Hs & Hargs & Hreq)].
      - left. rewrite Hsame. exact Hrq.
      - right. exists (ev' :: pre), fin, rest, tc, ms.
        split; [rewrite Hs; reflexivity|]. split.
        + rewrite Hargs, Hacc. f_equal.
          change (ev' :: pre) with ([ev'] ++ pre).
          rewrite received_app, Hnone. reflexivity.
        + rewrite Hreq, Hrq. reflexivity. }
    destruct ev as [c| |msg].
    + simpl in Hev. destruct (chunk_tool_calls c) as [[|d ds]|] eqn:Htc.
      * left. destruct (relay_step_no_entry c stream st w Htc) as [msg ->].
        reflexivity.
      * destruct ds as [|d' ds]; [|discriminate].
        rewrite (relay_step_fragment c d [] stream st w Htc).
        destruct (IH (LlmTools.tool_call_fragment d st) w Hsingle)
          as [Hsame|(pre & fin & rest & tc & ms & Hs & Hargs & Hreq)].
        -- left. exact Hsame.
        -- right. exists (Delta c :: pre), fin, rest, tc, ms.
           split; [rewrite Hs; reflexivity|]. split; [|exact Hreq].
           rewrite Hargs, tool_call_fragment_arguments, append_assoc.
           f_equal. simpl. unfold fragments. rewrite Htc. reflexivity.
      * assert (Hnone : received [Delta c] = [])
          by (simpl; unfold fragments; rewrite Htc; reflexivity).
        destruct (LlmTools.collectingToolCall st && finishes_tool_call c)
          eqn:Hfin.
        -- rewrite (relay_step_complete c stream st w Htc Hfin).
           destruct (LlmTools.toolCallData st) as [tc0|] eqn:Hdata.
           ++ right.
              exists [], c, stream,
                (LlmTools.with_arguments (LlmTools.accumulatedArguments st) tc0).
              eexists. split; [reflexivity|]. split.
              ** simpl. rewrite append_empty_r. reflexivity.
              ** apply complete_tool_call_request. exact Hdata.
           ++ left. unfold LlmTools.complete_tool_call. rewrite Hdata.
              reflexivity.
        -- destruct (has_content c) eqn:Hc.
           ++ pose proof (relay_step_content c stream st w Htc Hfin Hc)
                as Hstep. cbv zeta in Hstep.
              destruct (closed (sse w)).
              ** left. rewrite Hstep. reflexivity.
              ** eapply Hcons; [exact Hnone| | |exact Hstep]; reflexivity.
           ++ eapply Hcons; [exact Hnone| | |];
                [| |apply (relay_step_skip c stream st w Htc Hfin Hc)];
                reflexivity.
    + eapply (Hcons st (disconnected w)); reflexivity.
    + left. reflexivity.
Qed.

End Invocation.

(** With a session identifier, [contextData] is the stored session: the
    follow-up request is built from a history that already ends with the
    two messages, and carries them twice. *)
Lemma last_n_app_short {A} (n : nat) (l l' : list A) :
  (length l' <= n)%nat →
  last_n n (l ++ l') = last_n (n - length l') l ++ l'.
Proof.
  intros Hn. unfold last_n. rewrite length_app.
  rewrite drop_app_le by lia. f_equal. f_equal. lia.
Qed.

Lemma session_at_messages id l h cm :
  session_at id l h cm → messages_at l cm = h.
Proof.
  intros [_ [c [Hc Hh]]]. unfold messages_at. rewrite Hc. exact Hh.
Qed.

Lemma record_tool_call_session cfg now id l s t tc result w :
  2 <= MAX_CONTEXT_MESSAGES cfg →
  str_truthy id = true →
  session_at id l (s :: t) (manager w) →
  messages_at l
    (manager (snd (record_tool_call cfg now (Some id) tc result w)))
  = s :: last_n (Z.to_nat (MAX_CONTEXT_MESSAGES cfg) - 2) t
      ++ [tool_call_message tc; tool_result_message tc result].
Proof.
  intros HM Hid Hs. unfold record_tool_call.
  change (truthy (Some id)) with (str_truthy id). rewrite Hid.
  unfold when, bind, add_message. simpl.
  pose proof (addMessage_existing cfg id l _ (tool_call_message tc) now _
                Hid Hs) as H1.
  simpl app in H1. rewrite trim_cons in H1 by lia.
  pose proof (addMessage_existing cfg id l _
                (tool_result_message tc result) now _ Hid H1) as H2.
  simpl app in H2. rewrite trim_cons in H2 by lia.
  rewrite last_n_snoc in H2 by lia.
  rewrite (session_at_messages _ _ _ _ H2).
  rewrite <- app_assoc. simpl app.
  rewrite last_n_app_short by (simpl; lia). reflexivity.
Qed.

Lemma continuation_with_session_repeats cfg env now model id l s t st tc0 w :
  2 <= MAX_CONTEXT_MESSAGES cfg →
  str_truthy id = true →
  session_at id l (s :: t) (manager w) →
  LlmTools.toolCallData st = Some tc0 →
  let tc := LlmTools.with_arguments (LlmTools.accumulatedArguments st) tc0 in
  let result := LlmTools.handleFunctionCall env (tc_function tc) in
  requests
    (snd (LlmTools.complete_tool_call cfg env now (Some id) model l st w))
  = requests w
    ++ [stream_request model
          ((s :: last_n (Z.to_nat (MAX_CONTEXT_MESSAGES cfg) - 2) t)
           ++ [tool_call_message tc; tool_result_message tc result]
           ++ [tool_call_message tc; tool_result_message tc result])
          false].
Proof.
  intros HM Hid Hs Htc tc result.
  rewrite (complete_tool_call_request cfg env now (Some id) model l st tc0 w
             Htc).
  fold tc. fold result.
  rewrite (record_tool_call_session cfg now id l s t tc result w HM Hid Hs).
  simpl app. rewrite <- app_assoc. reflexivity.
Qed.

Lemma continuation_without_session cfg env now taskId model contextData st
    tc0 w :
  truthy taskId = false →
  LlmTools.toolCallData st = Some tc0 →
  let tc := LlmTools.with_arguments (LlmTools.accumulatedArguments st) tc0 in
  let result := LlmTools.handleFunctionCall env (tc_function tc) in
  requests
    (snd (LlmTools.complete_tool_call cfg env now taskId model contextData
            st w))
  = requests w
    ++ [stream_request model
          (messages_at contextData (manager w)
           ++ [tool_call_message tc; tool_result_message tc result])
          false].
Proof.
  intros Ht Htc tc result.
  rewrite (complete_tool_call_request cfg env now taskId model contextData
             st tc0 w Htc).
  unfold record_tool_call. rewrite Ht. reflexivity.
Qed.


Lemma try_catch_bind_keeps {X A B} (p : world → X) (c : M A)
    (k : A → M B) h w :
  (∀ a, keeps p (k a)) → (∀ msg, keeps p (h msg)) →
  p (snd (try_catch (bind c k) h w)) = p (snd (c w)).
Proof.
  intros Hk Hh. unfold try_catch, bind.
  destruct (c w) as [[a|msg] w1]; simpl.
  - specialize (Hk a w1). destruct (k a w1) as [[b|msg] w2]; simpl in *.
    + exact Hk.
    + rewrite Hh. exact Hk.
  - apply Hh.
Qed.



(** The three fragments of the weather invocation, relayed by the handler,
    are executed and recorded as the payload they spell in arrival order;
    another order spells another text. *)
Lemma beijing_fragments_reconstructed :
  let w := LlmTools.main (sample_config 10) weather_environment 0
             (Some "s1") sample_event open_channel empty_manager in
  (∃ h, history_of "s1" (manager w)
        = Some (h ++ [tool_call_message weather_call;
                      tool_result_message weather_call
                        (LlmTools.JSON_stringify beijing_weather);
                      plain_message "assistant" "Sunny"]))
  ∧ concat_strings beijing_fragments = beijing_arguments
  ∧ concat_strings (rev beijing_fragments) ≠ beijing_arguments.
Proof.
  split; [|split].
  - eexists [_; _]. vm_compute. reflexivity.
  - reflexivity.
  - vm_compute. discriminate.
Qed.

(** C3 (the code departs from the specification on the continuation
    request).  For the request of session [s1] that asks for the weather of
    Beijing: the two messages are recorded in the session in order, the
    assistant message with the invocation and null content, then the result
    message that refers to the invocation; the client receives the
    continuation text and the sentinel only.  But the continuation request
    carries the two messages twice: [contextData] is the stored session,
    which already holds them when the request is built as
    [[...contextData.messages, assistant, tool]]
    ([continuation_with_session_repeats]).  Without a session identifier
    the continuation request is the original history plus the two messages,
    as specified ([continuation_without_session]). *)
Theorem continuation_repeats_tool_messages :
  let cfg := sample_config 10 in
  let sys := system_message (DEFAULT_PROMPT cfg) in
  let user := plain_message "user" "hi" in
  let result := LlmTools.JSON_stringify beijing_weather in
  let invocation := tool_call_message weather_call in
  let outcome := tool_result_message weather_call result in
  let w := LlmTools.main cfg weather_environment 0 (Some "s1") sample_event
             open_channel empty_manager in
  let anonymous := LlmTools.main cfg weather_environment 0 None sample_event
                     open_channel empty_manager in
  history_of "s1" (manager w)
  = Some [sys; user; invocation; outcome; plain_message "assistant" "Sunny"]
  ∧ log (sse w) = [Send (FChunk (content_chunk "Sunny")); Send FDone; End]
  ∧ map req_messages (requests w)
    = [ [sys; user];
        [sys; user; invocation; outcome; invocation; outcome] ]
  ∧ map req_messages (requests anonymous)
    = [ [sys; user]; [sys; user; invocation; outcome] ].
Proof.
  repeat split; vm_compute; reflexivity.
Qed.

Section Failures.
Variable cfg : config.
Variable env : environment.
Variable now : Z.
Variable taskId : option string.
Variable model : string.
Variable contextData : loc.




End Failures.



(** A turn whose invocation names an unknown tool, or carries arguments
    that do not parse, runs to the sentinel. *)
Lemma malformed_invocations_complete_the_turn :
  let unknown :=
    [ Delta (fragment_chunk (Some "call_1") (Some "get_time") "{}");
      Delta (finish_chunk "tool_calls") ] in
  let malformed :=
    [ Delta (fragment_chunk (Some "call_1") (Some "get_weather") "{");
      Delta (finish_chunk "tool_calls") ] in
  let run stream :=
    LlmTools.main (sample_config 10)
      (with_streams sample_environment stream [Delta (content_chunk "Sorry")])
      0 (Some "s1") sample_event open_channel empty_manager in
  log (sse (run unknown))
  = [Send (FChunk (content_chunk "Sorry")); Send FDone; End]
  ∧ log (sse (run malformed))
    = [Send (FChunk (content_chunk "Sorry")); Send FDone; End]
  ∧ (∃ h tc, history_of "s1" (manager (run unknown))
             = Some (h ++ [tool_result_message tc not_implemented_payload;
                           plain_message "assistant" "Sorry"]))
  ∧ (∃ h tc, history_of "s1" (manager (run malformed))
             = Some (h ++ [tool_result_message tc
                             (parse_error_payload
                                "Unexpected end of JSON input");
                           plain_message "assistant" "Sorry"])).
Proof.
  split; [vm_compute; reflexivity|]. split; [vm_compute; reflexivity|].
  split.
  - eexists [_; _; _], {| tc_id := _; tc_type := ""; tc_function :=
                            {| fn_name := ""; fn_arguments := "" |} |}.
    vm_compute. reflexivity.
  - eexists [_; _; _], {| tc_id := _; tc_type := ""; tc_function :=
                            {| fn_name := ""; fn_arguments := "" |} |}.
    vm_compute. reflexivity.
Qed.

(* ================================================================== *)
(** * Persistence of the assistant message *)
(* ================================================================== *)

Lemma str_truthy_nonempty s : str_truthy s = true ↔ s ≠ "".
Proof.
  unfold str_truthy. rewrite negb_true_iff. split.
  - intros H Heq. apply String.eqb_neq in H. contradiction.
  - intros H. apply String.eqb_neq. exact H.
Qed.

Section Persistence.
Variable cfg : config.
Variable env : environment.
Variable now : Z.
Variable taskId : option string.

Lemma save_response_ok text w :
  save_response cfg now taskId text w
  = (Ok tt, snd (save_response cfg now taskId text w)).
Proof.
  unfold save_response, when.
  destruct (str_truthy text && truthy taskId); reflexivity.
Qed.

(** The persistence step. *)
Lemma save_response_spec text w :
  (text = "" ∨ truthy taskId = false →
   snd (save_response cfg now taskId text w) = w)
  ∧ (text ≠ "" → truthy taskId = true →
     manager (snd (save_response cfg now taskId text w))
     = snd (addMessage cfg taskId (plain_message "assistant" text) now
              (manager w))).
Proof.
  unfold save_response, when. split.
  - intros [->|Ht].
    + reflexivity.
    + rewrite Ht, andb_false_r. reflexivity.
  - intros Htext Ht. apply str_truthy_nonempty in Htext.
    rewrite Htext, Ht. reflexivity.
Qed.

Lemma addMessage_anonymous m cm :
  truthy taskId = false → snd (addMessage cfg taskId m now cm) = cm.
Proof. intros Ht. unfold addMessage. rewrite Ht. reflexivity. Qed.

Lemma add_message_anonymous m :
  truthy taskId = false → keeps manager (add_message cfg now taskId m).
Proof. intros Ht w. simpl. apply addMessage_anonymous, Ht. Qed.

Lemma save_response_anonymous text :
  truthy taskId = false → keeps manager (save_response cfg now taskId text).
Proof.
  intros Ht w. unfold save_response. rewrite Ht, andb_false_r. reflexivity.
Qed.

Lemma finish_stream_keeps_manager : keeps manager finish_stream.
Proof. apply finish_stream_keeps; intros; intros w; reflexivity. Qed.

Lemma report_error_keeps_manager msg : keeps manager (report_error msg).
Proof. apply report_error_keeps; intros; intros w; reflexivity. Qed.

(** A stream without text leaves the accumulated text as it is. *)
Lemma relay_content_silent stream r w r' w' :
  silent stream = true →
  relay_content stream r w = (Ok r', w') → r' = r.
Proof.
  revert r w. induction stream as [|ev stream IH]; intros r w Hs Hrun.
  - simpl in Hrun. unfold ret in Hrun. inversion Hrun. reflexivity.
  - simpl in Hs. apply andb_true_iff in Hs. destruct Hs as [Hev Hs].
    simpl in Hrun. destruct ev as [c| |msg].
    + apply negb_true_iff in Hev. unfold has_content in Hev.
      rewrite Hev in Hrun. exact (IH r w Hs Hrun).
    + unfold bind in Hrun. simpl in Hrun. exact (IH r _ Hs Hrun).
    + discriminate.
Qed.

(** What the basic handler does to the store. *)
Lemma basic_handler_manager model contextData w :
  let w' := LlmContextManager.handleStreamingRequest cfg env now taskId
              model contextData w in
  manager w' = manager w
  ∨ ∃ text w1 w2,
      relay_content
        (create_stream env
           (stream_request model (messages_at contextData (manager w)) false))
        "" w1 = (Ok text, w2)
      ∧ manager w2 = manager w
      ∧ manager w' = manager (snd (save_response cfg now taskId text w2)).
Proof.
  intros w'. subst w'. unfold LlmContextManager.handleStreamingRequest.
  destruct (unusable (sse w)); [left; reflexivity|].
  destruct (str_truthy model) eqn:Hmodel.
  - erewrite try_catch_bind_ok
      by (unfold require_model; rewrite Hmodel; reflexivity).
    erewrite try_catch_bind_ok by reflexivity.
    erewrite try_catch_bind_ok by reflexivity.
    match goal with
    | |- context [try_catch (bind (relay_content ?s ?r) ?k) ?h ?w1] =>
        pose proof (relay_content_keeps_manager s r w1) as Hkeep;
        destruct (relay_content s r w1) as [[text|msg] w2] eqn:Hrun
    end.
    + right. exists text. eexists _, w2. split; [exact Hrun|].
      split; [exact Hkeep|].
      erewrite try_catch_bind_ok by exact Hrun.
      erewrite try_catch_bind_ok by apply save_response_ok.
      apply (keeps_try_catch manager).
      * apply finish_stream_keeps_manager.
      * apply report_error_keeps_manager.
    + left. unfold try_catch, bind. rewrite Hrun.
      rewrite report_error_keeps_manager. exact Hkeep.
  - left. unfold try_catch, bind, require_model. rewrite Hmodel. simpl.
    apply report_error_keeps_manager.
Qed.

(** Without a task id the tools handler leaves the store alone. *)
Lemma tools_relay_anonymous model contextData stream st :
  truthy taskId = false →
  keeps manager
    (LlmTools.relay cfg env now taskId model contextData stream st).
Proof.
  intros Ht. revert st. induction stream as [|ev stream IH]; intros st; simpl.
  - apply keeps_ret.
  - destruct ev as [c| |msg].
    + destruct (chunk_tool_calls c) as [[|d ds]|].
      * apply keeps_throw.
      * apply IH.
      * destruct (LlmTools.collectingToolCall st
                  && bool_decide (chunk_finish_reason c = Some "tool_calls")).
        -- unfold LlmTools.complete_tool_call.
           destruct (LlmTools.toolCallData st) as [tc0|]; [|apply keeps_throw].
           apply keeps_bind.
           { apply keeps_when, keeps_bind; [|intros u];
               apply add_message_anonymous, Ht. }
           intros u. apply keeps_bind; [intros w; reflexivity|].
           intros ms. apply keeps_bind; [intros w; reflexivity|].
           intros followUp.
           apply keeps_bind; [apply relay_content_keeps_manager|].
           intros r. apply keeps_bind; [apply save_response_anonymous, Ht|].
           intros u'. apply keeps_ret.
        -- destruct (str_truthy (chunk_content c)); [|apply IH].
           apply keeps_bind; [intros w; reflexivity|]. intros cl.
           destruct cl; [apply keeps_ret|].
           apply keeps_bind; [intros w; reflexivity|]. intros u. apply IH.
    + apply keeps_bind; [intros w; reflexivity|]. intros u. apply IH.
    + apply keeps_throw.
Qed.

Lemma tools_handler_anonymous model contextData w :
  truthy taskId = false →
  manager (LlmTools.handleStreamingRequest cfg env now taskId model
             contextData w) = manager w.
Proof.
  intros Ht. unfold LlmTools.handleStreamingRequest.
  destruct (unusable (sse w)); [reflexivity|].
  apply (keeps_try_catch manager).
  - apply keeps_bind.
    { intros x. unfold require_model. destruct (str_truthy model); reflexivity. }
    intros u. apply keeps_bind; [intros x; reflexivity|].
    intros ms. apply keeps_bind; [intros x; reflexivity|].
    intros stream. apply keeps_bind; [apply tools_relay_anonymous, Ht|].
    intros st. apply keeps_bind.
    { apply keeps_when, save_response_anonymous, Ht. }
    intros u'. apply finish_stream_keeps_manager.
  - intros msg. apply report_error_keeps_manager.
Qed.

(** What the tools handler stores. *)
Section Appended.
Variable before : ContextManager.

Lemma only_appended_keeps {A} (c : M A) :
  keeps manager c → stable (only_appended cfg now taskId before) c.
Proof.
  intros Hk w (ms & Hms & Hnone & Hm). specialize (Hk w).
  destruct (c w) as [[a|msg] w']; simpl in Hk;
    exists ms; rewrite Hk; auto.
Qed.

Lemma only_appended_add m :
  worth_storing m →
  stable (only_appended cfg now taskId before) (add_message cfg now taskId m).
Proof.
  intros Hworth w (ms & Hms & Hnone & Hm). simpl.
  destruct (truthy taskId) eqn:Ht.
  - exists (ms ++ [m]). split; [|split].
    + apply Forall_app. split; [exact Hms|]. constructor; [exact Hworth|].
      constructor.
    + intros H. congruence.
    + unfold appended. rewrite fold_left_app. simpl.
      fold (appended cfg now taskId ms before). rewrite <- Hm. reflexivity.
  - exists ms. split; [exact Hms|]. split; [intros _; apply Hnone; reflexivity|].
    rewrite addMessage_anonymous by exact Ht. exact Hm.
Qed.

Lemma only_appended_save text :
  stable (only_appended cfg now taskId before)
    (save_response cfg now taskId text).
Proof.
  unfold save_response.
  destruct (str_truthy text && truthy taskId) eqn:Hb; simpl.
  - apply only_appended_add. right. right. exists text. split; [|reflexivity].
    apply andb_true_iff in Hb. apply str_truthy_nonempty. tauto.
  - apply stable_ret.
Qed.

Lemma only_appended_relay_content stream r :
  stable (only_appended cfg now taskId before) (relay_content stream r).
Proof. apply only_appended_keeps, relay_content_keeps_manager. Qed.

Lemma only_appended_complete model contextData st :
  stable (only_appended cfg now taskId before)
    (LlmTools.complete_tool_call cfg env now taskId model contextData st).
Proof.
  unfold LlmTools.complete_tool_call.
  destruct (LlmTools.toolCallData st) as [tc0|]; [|apply stable_throw].
  apply stable_bind.
  { apply stable_when, stable_bind; [|intros u]; apply only_appended_add.
    - left. eexists. reflexivity.
    - right. left. eexists _, _. reflexivity. }
  intros u. apply stable_bind.
  { apply only_appended_keeps. intros w. reflexivity. }
  intros ms. apply stable_bind.
  { apply only_appended_keeps. intros w. reflexivity. }
  intros followUp. apply stable_bind; [apply only_appended_relay_content|].
  intros r. apply stable_bind; [apply only_appended_save|].
  intros u'. apply stable_ret.
Qed.

Lemma only_appended_tools_relay model contextData stream st :
  stable (only_appended cfg now taskId before)
    (LlmTools.relay cfg env now taskId model contextData stream st).
Proof.
  revert st. induction stream as [|ev stream IH]; intros st; simpl.
  - apply stable_ret.
  - destruct ev as [c| |msg].
    + destruct (chunk_tool_calls c) as [[|d ds]|].
      * apply stable_throw.
      * apply IH.
      * destruct (LlmTools.collectingToolCall st
                  && bool_decide (chunk_finish_reason c = Some "tool_calls")).
        -- apply only_appended_complete.
        -- destruct (str_truthy (chunk_content c)); [|apply IH].
           apply stable_bind.
           { apply only_appended_keeps. intros w. reflexivity. }
           intros cl. destruct cl; [apply stable_ret|].
           apply stable_bind.
           { apply only_appended_keeps. intros w. reflexivity. }
           intros u. apply IH.
    + apply stable_bind.
      { apply only_appended_keeps. intros w. reflexivity. }
      intros u. apply IH.
    + apply stable_throw.
Qed.

Lemma only_appended_tools_handler model contextData w :
  manager w = before →
  only_appended cfg now taskId before
    (LlmTools.handleStreamingRequest cfg env now taskId model contextData w).
Proof.
  intros Hw.
  assert (Hstart : only_appended cfg now taskId before w).
  { exists []. split; [constructor|]. split; [reflexivity|exact Hw]. }
  unfold LlmTools.handleStreamingRequest.
  destruct (unusable (sse w)); [exact Hstart|].
  assert (Hrun : stable (only_appended cfg now taskId before)
            (try_catch
               (require_model model ;;
                ms <- context_messages contextData ;;
                stream <- open_stream env (stream_request model ms true) ;;
                st <- LlmTools.relay cfg env now taskId model contextData
                        stream LlmTools.initial_state ;;
                when (negb (LlmTools.collectingToolCall st))
                     (save_response cfg now taskId
                        (LlmTools.assistantResponse st)) ;;
                finish_stream)
               report_error)).
  { apply stable_try_catch.
    - apply stable_bind.
      { apply only_appended_keeps. intros x. unfold require_model.
        destruct (str_truthy model); reflexivity. }
      intros u. apply stable_bind.
      { apply only_appended_keeps. intros x. reflexivity. }
      intros ms. apply stable_bind.
      { apply only_appended_keeps. intros x. reflexivity. }
      intros stream. apply stable_bind; [apply only_appended_tools_relay|].
      intros st. apply stable_bind; [apply stable_when, only_appended_save|].
      intros u'. apply only_appended_keeps, finish_stream_keeps_manager.
    - intros msg. apply only_appended_keeps, report_error_keeps_manager. }
  specialize (Hrun w Hstart).
  destruct (try_catch _ report_error w) as [[u|msg] w']; exact Hrun.
Qed.

End Appended.

End Persistence.

(** C10.  The persistence step stores the assistant message only when the
    accumulated text is not empty and a session identifier was given, and
    otherwise changes nothing.  A request handled by the basic handler
    either leaves the store as it was or, with a session identifier and a
    non-empty text, adds that one assistant message to the session; with a
    stream that carries no text the store is left as it was.  What the
    tools handler does to the store is to append to the session messages
    that are the record of an invocation, its result, or an assistant
    message with a text that is not empty, and none of them without a
    session identifier: then it leaves the store as it was, whatever the
    stream. *)
Theorem assistant_message_needs_session_and_text
    (cfg : config) (env : environment) (now : Z) (taskId : option string)
    (model : string) (contextData : loc) (w : world) :
  (∀ text,
     (text = "" ∨ truthy taskId = false →
      snd (save_response cfg now taskId text w) = w)
     ∧ (text ≠ "" → truthy taskId = true →
        manager (snd (save_response cfg now taskId text w))
        = snd (addMessage cfg taskId (plain_message "assistant" text) now
                 (manager w))))
  ∧ (let w' := LlmContextManager.handleStreamingRequest cfg env now taskId
                 model contextData w in
     manager w' = manager w
     ∨ (truthy taskId = true
        ∧ ∃ text, text ≠ ""
                  ∧ manager w'
                    = snd (addMessage cfg taskId
                             (plain_message "assistant" text) now
                             (manager w))))
  ∧ (∀ stream, silent stream = true →
       manager (LlmContextManager.handleStreamingRequest cfg
                  (with_stream env stream) now taskId model contextData w)
       = manager w)
  ∧ only_appended cfg now taskId (manager w)
      (LlmTools.handleStreamingRequest cfg env now taskId model
         contextData w)
  ∧ (truthy taskId = false →
     manager (LlmTools.handleStreamingRequest cfg env now taskId model
                contextData w) = manager w).
Proof.
  split; [|split; [|split; [|split]]].
  - intros text. apply save_response_spec.
  - intros w'.
    destruct (basic_handler_manager cfg env now taskId model contextData w)
      as [Hsame|(text & w1 & w2 & Hrun & Hkeep & Hfinal)];
      [left; exact Hsame|].
    fold w' in Hfinal.
    destruct (save_response_spec cfg now taskId text w2) as [Hskip Hsave].
    destruct (String.eqb_spec text "") as [Hempty|Htext].
    { left. rewrite Hfinal, Hskip by (left; exact Hempty). exact Hkeep. }
    destruct (truthy taskId) eqn:Ht.
    + right. split; [reflexivity|]. exists text. split; [exact Htext|].
      rewrite Hfinal, Hsave by (exact Htext || reflexivity).
      rewrite Hkeep. reflexivity.
    + left. rewrite Hfinal, Hskip by (right; reflexivity). exact Hkeep.
  - intros stream Hsilent.
    destruct (basic_handler_manager cfg (with_stream env stream) now taskId
                model contextData w)
      as [Hsame|(text & w1 & w2 & Hrun & Hkeep & Hfinal)];
      [exact Hsame|].
    simpl create_stream in Hrun.
    pose proof (relay_content_silent stream "" w1 text w2 Hsilent Hrun)
      as Htext.
    destruct (save_response_spec cfg now taskId text w2) as [Hskip _].
    rewrite Hfinal, Hskip by (left; exact Htext). exact Hkeep.
  - apply only_appended_tools_handler. reflexivity.
  - apply tools_handler_anonymous.
Qed.

Lemma assistant_message_needs_session_and_text_witness :
  silent [Delta (finish_chunk "stop")] = true
  ∧ manager (LlmContextManager.handleStreamingRequest (sample_config 10)
               (with_stream sample_environment [Delta (finish_chunk "stop")])
               0 (Some "s1") "m" 0%nat sample_world)
    = manager sample_world.
Proof.
  split; [reflexivity|].
  exact (proj1 (proj2 (proj2
           (assistant_message_needs_session_and_text (sample_config 10)
              sample_environment 0 (Some "s1") "m" 0%nat sample_world)))
           [Delta (finish_chunk "stop")] eq_refl).
Defined.

(* ================================================================== *)
(** * Progressive preamble *)
(* ================================================================== *)


Section Preamble.
Variable cfg : config.
Variable pc : LlmFastReply.progressive_config.
Variable env : environment.
Variable now : Z.
Variable taskId : option string.
Variable model : string.
Variable contextData : loc.


Section Tail.
Variable before : list completion_request.





End Tail.



End Preamble.



(* ================================================================== *)
(** * Retrieval augmentation *)
(* ================================================================== *)

Lemma js_slice_prefix {A} (n : Z) (l : list A) :
  0 <= n → js_slice 0 n l = take (Z.to_nat n) l.
Proof.
  intros Hn. unfold js_slice, js_rel_index.
  destruct (Z.ltb_spec n 0) as [H|_]; [lia|].
  change (0 <? 0) with false. cbv iota.
  assert (H0 : Z.to_nat (Z.min 0 (Z.of_nat (length l))) = 0%nat) by lia.
  rewrite H0. change (drop 0 l) with l.
  destruct (Z.le_gt_cases n (Z.of_nat (length l))) as [Hle|Hgt].
  - f_equal. lia.
  - rewrite !take_ge by lia. reflexivity.
Qed.

Section Sorting.
(** The sort of the model, for any comparator. *)
Context {A : Type}.
Variable compare : A → A → comparison.

Lemma insert_sorted_perm x l :
  Permutation (LlmRag.insert_sorted compare x l) (x :: l).
Proof.
  induction l as [|y l IH]; simpl; [reflexivity|].
  destruct (compare x y); try reflexivity.
  rewrite IH. apply perm_swap.
Qed.

Lemma js_sort_perm l : Permutation (LlmRag.js_sort compare l) l.
Proof.
  induction l as [|x l IH]; simpl; [reflexivity|].
  rewrite insert_sorted_perm, IH. reflexivity.
Qed.

Lemma insert_sorted_Forall (P : A → Prop) x l :
  P x → Forall P l → Forall P (LlmRag.insert_sorted compare x l).
Proof.
  intros Hx Hl. induction Hl as [|y l Hy Hl IH]; simpl.
  - constructor; [exact Hx|constructor].
  - destruct (compare x y); repeat constructor; assumption.
Qed.

Lemma js_sort_Forall (P : A → Prop) l :
  Forall P l → Forall P (LlmRag.js_sort compare l).
Proof.
  intros Hl. induction Hl as [|x l Hx Hl IH]; simpl; [constructor|].
  apply insert_sorted_Forall; assumption.
Qed.

End Sorting.

Section RetrievalFacts.
Context {vector num : Type}.
Variable num_leb : num → num → bool.
Hypothesis leb_total : ∀ x y, num_leb x y = true ∨ num_leb y x = true.
Hypothesis leb_trans :
  ∀ x y z, num_leb x y = true → num_leb y z = true → num_leb x z = true.

Abbreviation scored := (LlmRag.scored_document vector num).
Abbreviation by_score := (LlmRag.by_similarity_desc num_leb).

Lemma relevant_has_score rc (d : scored) :
  relevant num_leb rc d = true → has_score d.
Proof.
  unfold relevant, LlmRag.js_ge, has_score.
  destruct (LlmRag.similarity d); [discriminate|]. discriminate.
Qed.

(** The comparator puts [x] after [y] only when [y] scores strictly
    more. *)
Lemma by_score_Gt (x y : scored) :
  by_score x y = Gt →
  ∃ a b, LlmRag.similarity x = Some a ∧ LlmRag.similarity y = Some b
         ∧ num_leb b a = false.
Proof.
  unfold LlmRag.by_similarity_desc.
  destruct (LlmRag.similarity x) as [a|]; [|discriminate].
  destruct (LlmRag.similarity y) as [b|]; [|discriminate].
  destruct (num_leb b a) eqn:Hba.
  - destruct (num_leb a b); discriminate.
  - intros _. exists a, b. auto.
Qed.

Lemma by_score_not_Gt (x y : scored) :
  has_score x → has_score y → by_score x y ≠ Gt → not_below num_leb x y.
Proof.
  unfold has_score, not_below, LlmRag.by_similarity_desc, LlmRag.js_ge.
  destruct (LlmRag.similarity x) as [a|]; [|congruence].
  destruct (LlmRag.similarity y) as [b|]; [|congruence].
  intros _ _. destruct (num_leb b a); [reflexivity|congruence].
Qed.

Lemma not_below_trans (x y z : scored) :
  not_below num_leb x y → not_below num_leb y z → not_below num_leb x z.
Proof.
  unfold not_below, LlmRag.js_ge.
  destruct (LlmRag.similarity x) as [a|]; [|discriminate].
  destruct (LlmRag.similarity y) as [b|]; [|discriminate].
  destruct (LlmRag.similarity z) as [c|]; [|discriminate].
  intros Hba Hcb. exact (leb_trans c b a Hcb Hba).
Qed.

(** *** The result is in descending order of score *)

Lemma insert_sorted_sorted (x : scored) l :
  has_score x → Forall has_score l →
  StronglySorted (not_below num_leb) l →
  StronglySorted (not_below num_leb) (LlmRag.insert_sorted by_score x l).
Proof.
  intros Hx Hl Hs. induction Hs as [|y l Hs IH Hy]; simpl.
  - repeat constructor.
  - inversion Hl as [|? ? Hys Hls]; subst.
    destruct (by_score x y) eqn:Hc.
    + assert (Hxy : not_below num_leb x y)
        by (apply by_score_not_Gt; [assumption|assumption|congruence]).
      constructor; [constructor; assumption|]. constructor; [exact Hxy|].
      eapply Forall_impl; [exact Hy|].
      intros z Hyz. exact (not_below_trans x y z Hxy Hyz).
    + assert (Hxy : not_below num_leb x y)
        by (apply by_score_not_Gt; [assumption|assumption|congruence]).
      constructor; [constructor; assumption|]. constructor; [exact Hxy|].
      eapply Forall_impl; [exact Hy|].
      intros z Hyz. exact (not_below_trans x y z Hxy Hyz).
    + constructor; [apply IH; assumption|].
      apply insert_sorted_Forall; [|exact Hy].
      destruct (by_score_Gt x y Hc) as (a & b & Ha & Hb & Hba).
      unfold not_below, LlmRag.js_ge. rewrite Ha, Hb.
      destruct (leb_total a b) as [H|H]; [exact H|congruence].
Qed.

Lemma js_sort_sorted (l : list scored) :
  Forall has_score l →
  StronglySorted (not_below num_leb) (LlmRag.js_sort by_score l).
Proof.
  intros Hl. induction Hl as [|x l Hx Hl IH]; simpl; [constructor|].
  apply insert_sorted_sorted; [exact Hx| |exact IH].
  apply js_sort_Forall, Hl.
Qed.

(** *** Documents of equal score keep the order of the corpus *)

Lemma insert_sorted_stable s (x : scored) l :
  List.filter (same_score num_leb s) (LlmRag.insert_sorted by_score x l)
  = List.filter (same_score num_leb s) (x :: l).
Proof.
  induction l as [|y l IH]; [reflexivity|]. simpl LlmRag.insert_sorted.
  destruct (by_score x y) eqn:Hc; try reflexivity.
  simpl List.filter. rewrite IH. simpl List.filter.
  destruct (same_score num_leb s x) eqn:Hsx;
    destruct (same_score num_leb s y) eqn:Hsy; try reflexivity.
  exfalso. destruct (by_score_Gt x y Hc) as (a & b & Ha & Hb & Hba).
  unfold same_score in Hsx, Hsy. rewrite Ha in Hsx. rewrite Hb in Hsy.
  apply andb_true_iff in Hsx. apply andb_true_iff in Hsy.
  destruct Hsx as [_ Hsa]. destruct Hsy as [Hbs _].
  rewrite (leb_trans b s a Hbs Hsa) in Hba. discriminate.
Qed.

Lemma js_sort_stable s (l : list scored) :
  List.filter (same_score num_leb s) (LlmRag.js_sort by_score l)
  = List.filter (same_score num_leb s) l.
Proof.
  induction l as [|x l IH]; [reflexivity|]. simpl LlmRag.js_sort.
  rewrite insert_sorted_stable. simpl. rewrite IH. reflexivity.
Qed.

End RetrievalFacts.

Lemma rag_always_enabled {num} (rc : LlmRag.rag_config num) :
  LlmRag.rag_enabled rc = true.
Proof. unfold LlmRag.rag_enabled. apply orb_true_r. Qed.

Lemma retrieve_selected {vector num} (num_leb : num → num → bool)
    (rc : LlmRag.rag_config num) (sc : LlmRag.scoring vector num)
    (documents : list (LlmRag.document vector)) (query : string)
    queryEmbedding :
  LlmRag.getEmbedding sc query = inl queryEmbedding →
  LlmRag.retrieveRelevantDocuments num_leb rc sc documents query
  = match LlmRag.select_relevant num_leb rc
            (LlmRag.score_documents sc queryEmbedding documents) with
    | [] => None
    | d :: ds => Some (d :: ds)
    end.
Proof.
  intros Hq. unfold LlmRag.retrieveRelevantDocuments. rewrite Hq.
  destruct (LlmRag.select_relevant num_leb rc _); reflexivity.
Qed.

Lemma enhance_without_documents {vector num} (num_leb : num → num → bool)
    (rc : LlmRag.rag_config num) (sc : LlmRag.scoring vector num)
    (documents : list (LlmRag.document vector)) (query : string)
    (systemMessage : message) :
  LlmRag.retrieveRelevantDocuments num_leb rc sc documents query = None →
  LlmRag.enhanceSystemMessage num_leb rc sc documents query systemMessage
  = systemMessage.
Proof.
  intros Hnone. unfold LlmRag.enhanceSystemMessage.
  rewrite Hnone. destruct (negb (LlmRag.rag_enabled rc)); reflexivity.
Qed.

Lemma candidates_of_scored {vector num : Type} (num_leb : num → num → bool)
    (rc : LlmRag.rag_config num) (sc : LlmRag.scoring vector num)
    (queryEmbedding : vector) (documents : list (LlmRag.document vector)) :
  List.filter (relevant num_leb rc)
    (LlmRag.score_documents sc queryEmbedding documents)
  = candidates_of num_leb rc sc queryEmbedding documents.
Proof.
  unfold candidates_of, LlmRag.score_documents.
  induction documents as [|d ds IH]; [reflexivity|].
  simpl. unfold relevant at 1. simpl.
  change (LlmRag.js_ge num_leb
            (LlmRag.cosineSimilarity sc queryEmbedding (LlmRag.embedding d))
            (LlmRag.similarityThreshold rc))
    with (at_or_above num_leb
            (LlmRag.cosineSimilarity sc queryEmbedding (LlmRag.embedding d))
            (LlmRag.similarityThreshold rc)).
  destruct (at_or_above num_leb
              (LlmRag.cosineSimilarity sc queryEmbedding (LlmRag.embedding d))
              (LlmRag.similarityThreshold rc)); simpl; rewrite IH;
    reflexivity.
Qed.

Lemma not_below_descend {vector num : Type} (num_leb : num → num → bool)
    (a b : LlmRag.scored_document vector num) :
  not_below num_leb a b → scores_descend num_leb a b.
Proof.
  unfold not_below, scores_descend, LlmRag.js_ge.
  destruct (LlmRag.similarity a); [|discriminate].
  destruct (LlmRag.similarity b); [|discriminate]. auto.
Qed.

Lemma StronglySorted_weaken {A} (R R' : A → A → Prop) l :
  (∀ x y, R x y → R' x y) → StronglySorted R l → StronglySorted R' l.
Proof.
  intros HR Hs. induction Hs as [|x l Hs IH Hx]; constructor; [exact IH|].
  eapply Forall_impl; [exact Hx|]. intros y. apply HR.
Qed.

Lemma str_truthy_append_l (a b : string) :
  str_truthy a = true → str_truthy (a +:+ b) = true.
Proof. destruct a; [discriminate|reflexivity]. Qed.

Lemma createContext_kept {vector num : Type}
    (d : LlmRag.scored_document vector num) ds :
  ∃ ragContext,
    LlmRag.createContext (Some (d :: ds)) = Some ragContext
    ∧ str_truthy ragContext = true.
Proof.
  eexists. split; [reflexivity|]. apply str_truthy_append_l. reflexivity.
Qed.

Lemma enhance_with_documents {vector num} (num_leb : num → num → bool)
    (rc : LlmRag.rag_config num) (sc : LlmRag.scoring vector num)
    (documents : list (LlmRag.document vector)) (query : string)
    (systemMessage : message) d ds :
  LlmRag.retrieveRelevantDocuments num_leb rc sc documents query
  = Some (d :: ds) →
  (∀ c, content systemMessage = Some c →
     ∃ ragContext,
       LlmRag.createContext (Some (d :: ds)) = Some ragContext
       ∧ LlmRag.enhanceSystemMessage num_leb rc sc documents query
           systemMessage
         = citing c ragContext (d :: ds))
  ∧ (content systemMessage = None →
     LlmRag.enhanceSystemMessage num_leb rc sc documents query systemMessage
     = systemMessage).
Proof.
  intros Hret.
  destruct (createContext_kept d ds) as (ragContext & Hctx & Htruthy).
  unfold LlmRag.enhanceSystemMessage.
  rewrite rag_always_enabled, Hret. cbv beta iota. simpl negb. cbv iota.
  rewrite Hctx, Htruthy. simpl negb. cbv iota.
  split.
  - intros c Hc. exists ragContext. split; [reflexivity|].
    rewrite Hc. reflexivity.
  - intros Hc. rewrite Hc. reflexivity.
Qed.

(** C4.  Scores being totally ordered, and the maximum count not negative:
    when scoring fails nothing is retrieved and the instruction message is
    returned unchanged; and when it succeeds, the documents that the
    augmenter retrieves, followed by those it drops for the count, are
    exactly the documents of the corpus that score at or above the
    threshold, each with its score, in descending order of score,
    documents of equal score standing in the order of the corpus; the
    retrieved ones are the first [maxDocuments] of them (all of them if
    there are fewer).  When none is retrieved the instruction message is
    returned unchanged; otherwise the message returned cites the retrieved
    documents: its text is the original text followed by the context made
    of them, its sources are their titles, in their order (an instruction
    message without text is returned unchanged). *)
Theorem augment_keeps_best_documents
    {vector num : Type} (num_leb : num → num → bool)
    (rc : LlmRag.rag_config num) (sc : LlmRag.scoring vector num)
    (documents : list (LlmRag.document vector)) (query : string)
    (systemMessage : message) :
  (∀ x y, num_leb x y = true ∨ num_leb y x = true) →
  (∀ x y z, num_leb x y = true → num_leb y z = true → num_leb x z = true) →
  0 <= LlmRag.maxDocuments rc →
  (∀ msg, LlmRag.getEmbedding sc query = inr msg →
     LlmRag.retrieveRelevantDocuments num_leb rc sc documents query = None
     ∧ LlmRag.enhanceSystemMessage num_leb rc sc documents query
         systemMessage = systemMessage)
  ∧ (∀ queryEmbedding,
       LlmRag.getEmbedding sc query = inl queryEmbedding →
       let candidates :=
         candidates_of num_leb rc sc queryEmbedding documents in
       ∃ kept dropped,
         LlmRag.retrieveRelevantDocuments num_leb rc sc documents query
         = match kept with
           | [] => None
           | d :: ds => Some (d :: ds)
           end
         ∧ Permutation (kept ++ dropped) candidates
         ∧ StronglySorted (scores_descend num_leb) (kept ++ dropped)
         ∧ (∀ s, List.filter (same_score num_leb s) (kept ++ dropped)
                 = List.filter (same_score num_leb s) candidates)
         ∧ length kept
           = Nat.min (Z.to_nat (LlmRag.maxDocuments rc)) (length candidates)
         ∧ (kept = [] →
            LlmRag.enhanceSystemMessage num_leb rc sc documents query
              systemMessage = systemMessage)
         ∧ (kept ≠ [] → ∀ c, content systemMessage = Some c →
            ∃ ragContext,
              LlmRag.createContext (Some kept) = Some ragContext
              ∧ LlmRag.enhanceSystemMessage num_leb rc sc documents query
                  systemMessage
                = citing c ragContext kept)
         ∧ (kept ≠ [] → content systemMessage = None →
            LlmRag.enhanceSystemMessage num_leb rc sc documents query
              systemMessage = systemMessage)).
Proof.
  intros Htotal Htrans Hmax. split.
  - intros msg Hfail.
    assert (Hnone : LlmRag.retrieveRelevantDocuments num_leb rc sc documents
                      query = None)
      by (unfold LlmRag.retrieveRelevantDocuments; rewrite Hfail;
          reflexivity).
    split; [exact Hnone|]. apply enhance_without_documents, Hnone.
  - intros queryEmbedding Hq candidates.
    pose proof (retrieve_selected num_leb rc sc documents query
                  queryEmbedding Hq) as Hret.
    set (kept := LlmRag.select_relevant num_leb rc
                   (LlmRag.score_documents sc queryEmbedding documents))
      in Hret.
    assert (Hkept : kept
                    = take (Z.to_nat (LlmRag.maxDocuments rc))
                        (LlmRag.js_sort (LlmRag.by_similarity_desc num_leb)
                           candidates)).
    { unfold kept, LlmRag.select_relevant.
      rewrite js_slice_prefix by exact Hmax.
      change (List.filter
                (fun d => LlmRag.js_ge num_leb (LlmRag.similarity d)
                            (LlmRag.similarityThreshold rc))
                (LlmRag.score_documents sc queryEmbedding documents))
        with (List.filter (relevant num_leb rc)
                (LlmRag.score_documents sc queryEmbedding documents)).
      rewrite candidates_of_scored. reflexivity. }
    clearbody kept.
    exists kept,
      (drop (Z.to_nat (LlmRag.maxDocuments rc))
         (LlmRag.js_sort (LlmRag.by_similarity_desc num_leb) candidates)).
    assert (Hall : kept
                   ++ drop (Z.to_nat (LlmRag.maxDocuments rc))
                        (LlmRag.js_sort (LlmRag.by_similarity_desc num_leb)
                           candidates)
                   = LlmRag.js_sort (LlmRag.by_similarity_desc num_leb)
                       candidates)
      by (rewrite Hkept; apply take_drop).
    rewrite Hall.
    split; [exact Hret|].
    split; [apply js_sort_perm|]. split.
    { apply (StronglySorted_weaken (not_below num_leb));
        [apply not_below_descend|].
      apply js_sort_sorted; [exact Htotal|exact Htrans|].
      apply List.Forall_forall. intros d Hd.
      unfold candidates in Hd. rewrite <- candidates_of_scored in Hd.
      apply List.filter_In in Hd.
      eapply relevant_has_score. exact (proj2 Hd). }
    split; [intros s; apply js_sort_stable, Htrans|]. split.
    { rewrite Hkept, length_take.
      rewrite (Permutation_length
                 (js_sort_perm (LlmRag.by_similarity_desc num_leb) candidates)).
      reflexivity. }
    split.
    { intros Hempty. apply enhance_without_documents.
      rewrite Hret, Hempty. reflexivity. }
    destruct kept as [|d ds].
    { split; intros Hne; elim Hne; reflexivity. }
    destruct (enhance_with_documents num_leb rc sc documents query
                systemMessage d ds Hret) as [Hsome Hnull].
    split; intros _; assumption.
Qed.

Lemma augment_keeps_best_documents_witness :
  (∀ x y, Z.leb x y = true ∨ Z.leb y x = true)
  ∧ (∀ x y z, Z.leb x y = true → Z.leb y z = true → Z.leb x z = true)
  ∧ 0 <= LlmRag.maxDocuments sample_rag_config
  ∧ LlmRag.getEmbedding sample_scoring "query" = inl 0
  ∧ ∃ kept dropped,
      LlmRag.retrieveRelevantDocuments Z.leb sample_rag_config
        sample_scoring sample_corpus "query"
      = match kept with
        | [] => None
        | d :: ds => Some (d :: ds)
        end
      ∧ Permutation (kept ++ dropped)
          (candidates_of Z.leb sample_rag_config sample_scoring 0
             sample_corpus)
      ∧ length kept
        = Nat.min (Z.to_nat (LlmRag.maxDocuments sample_rag_config))
            (length (candidates_of Z.leb sample_rag_config sample_scoring 0
                       sample_corpus)).
Proof.
  assert (Htotal : ∀ x y, Z.leb x y = true ∨ Z.leb y x = true)
    by (intros x y; rewrite !Z.leb_le; lia).
  assert (Htrans : ∀ x y z,
            Z.leb x y = true → Z.leb y z = true → Z.leb x z = true)
    by (intros x y z; rewrite !Z.leb_le; lia).
  assert (Hmax : 0 <= LlmRag.maxDocuments sample_rag_config)
    by (simpl; lia).
  split; [exact Htotal|]. split; [exact Htrans|]. split; [exact Hmax|].
  split; [reflexivity|].
  destruct (proj2 (augment_keeps_best_documents Z.leb sample_rag_config
                     sample_scoring sample_corpus "query"
                     (system_message "You are a helpful assistant")
                     Htotal Htrans Hmax) 0 eq_refl)
    as (kept & dropped & Hret & Hperm & _ & _ & Hlen & _).
  exists kept, dropped. auto.
Defined.

(** On the sample corpus (scores 0.70, 0.90, 0.90, 0.50; threshold 0.70;
    at most two documents) the two documents that score 0.90 are kept, the
    first registered first, and cited in that order. *)
Lemma retrieval_ties_follow_corpus_order :
  map (fun d => LlmRag.doc_id (LlmRag.doc d))
      (LlmRag.select_relevant Z.leb sample_rag_config
         (LlmRag.score_documents sample_scoring 0 sample_corpus))
  = ["2"; "3"]
  ∧ sources (LlmRag.enhanceSystemMessage Z.leb sample_rag_config
               sample_scoring sample_corpus "query"
               (system_message "You are a helpful assistant"))
    = Some ["Document 2"; "Document 3"].
Proof. split; vm_compute; reflexivity. Qed.

(* ================================================================== *)
(** * Sessions: shape of the store, interference and lifetime *)
(* ================================================================== *)

Section Sessions.
Variable cfg : config.

Lemma well_formed_empty : well_formed empty_manager.
Proof.
  split.
  - apply registered_in_heap_empty.
  - intros id id' l H. simpl in H. rewrite lookup_empty in H. discriminate.
Qed.

Lemma update_at_well_formed f l cm :
  well_formed cm → well_formed (update_at f l cm).
Proof.
  intros [Hr Hd]. split.
  - intros id l' H. rewrite update_at_length. exact (Hr id l' H).
  - exact Hd.
Qed.

Lemma getContext_well_formed taskId now cm :
  well_formed cm → well_formed (snd (getContext cfg taskId now cm)).
Proof.
  intros [Hr Hd].
  pose proof (getContext_cases cfg taskId now cm) as H. cbv zeta in H.
  destruct H as [(id & -> & Hid & Hl & ->)
                | [(id & -> & Hid & Hnone & Hfst & ->) | (Hno & Hfst & ->)]].
  - apply update_at_well_formed. split; assumption.
  - split.
    + intros id0 l0. simpl. rewrite length_app. simpl.
      destruct (decide (id = id0)) as [->|Hne].
      * rewrite lookup_insert_eq. intros [= <-]. lia.
      * rewrite lookup_insert_ne by exact Hne. intros H.
        specialize (Hr id0 l0 H). lia.
    + intros id1 id2 l0. simpl.
      destruct (decide (id = id1)) as [E1|Hne1];
        destruct (decide (id = id2)) as [E2|Hne2];
        try rewrite <- E1; try rewrite <- E2;
        rewrite ?lookup_insert_eq, ?lookup_insert_ne by assumption.
      * reflexivity.
      * intros Hl0 H. injection Hl0 as <-.
        pose proof (Hr _ _ H). lia.
      * intros H Hl0. injection Hl0 as <-.
        pose proof (Hr _ _ H). lia.
      * apply Hd.
  - split.
    + intros id0 l0 H. simpl in *. rewrite length_app. simpl.
      specialize (Hr id0 l0 H). lia.
    + exact Hd.
Qed.

Lemma addMessage_well_formed taskId m now cm :
  well_formed cm → well_formed (snd (addMessage cfg taskId m now cm)).
Proof.
  intros Hwf. unfold addMessage.
  destruct (truthy taskId); [|exact Hwf].
  pose proof (getContext_well_formed taskId now cm Hwf) as H.
  destruct (getContext cfg taskId now cm) as [l cm1]. simpl in *.
  apply update_at_well_formed. exact H.
Qed.

Lemma cleanExpiredContexts_well_formed now cm :
  well_formed cm → well_formed (cleanExpiredContexts cfg now cm).
Proof.
  intros [Hr Hd]. split.
  - intros id l H. simpl in *.
    apply map_lookup_filter_Some in H as [H _]. exact (Hr id l H).
  - intros id id' l H H'. simpl in *.
    apply map_lookup_filter_Some in H as [H _].
    apply map_lookup_filter_Some in H' as [H' _].
    exact (Hd id id' l H H').
Qed.

Lemma apply_op_well_formed op cm :
  well_formed cm → well_formed (apply_op cfg cm op).
Proof.
  intros Hwf. destruct op; simpl.
  - apply getContext_well_formed, Hwf.
  - apply addMessage_well_formed, Hwf.
  - apply cleanExpiredContexts_well_formed, Hwf.
  - apply update_at_well_formed, Hwf.
Qed.

Lemma run_ops_well_formed ops cm :
  well_formed cm → well_formed (run_ops cfg ops cm).
Proof.
  revert cm. induction ops as [|op ops IH]; intros cm Hwf; [exact Hwf|].
  apply IH, apply_op_well_formed, Hwf.
Qed.

(** ** What an operation leaves of the histories *)

Lemma messages_at_keeps f l l' cm :
  (∀ c, messages (f c) = messages c) →
  messages_at l' (update_at f l cm) = messages_at l' cm.
Proof.
  intros Hf. destruct (decide (l = l')) as [<-|Hne].
  - unfold messages_at, update_at. simpl. rewrite list_lookup_alter_eq.
    destruct (heap cm !! l); simpl; [apply Hf|reflexivity].
  - apply messages_at_update_ne, Hne.
Qed.

Lemma messages_at_alloc l c (cs : gmap string loc) cm :
  (l < length (heap cm))%nat →
  messages_at l {| heap := heap cm ++ [c]; contexts := cs |}
  = messages_at l cm.
Proof.
  intros Hl. unfold messages_at. simpl.
  rewrite lookup_app_l by exact Hl. reflexivity.
Qed.

Lemma history_of_update_at f l id cm :
  contexts cm !! id ≠ Some l ∨ (∀ c, messages (f c) = messages c) →
  history_of id (update_at f l cm) = history_of id cm.
Proof.
  intros H. unfold history_of. simpl.
  destruct (contexts cm !! id) as [l'|] eqn:Hid; [|reflexivity].
  f_equal. destruct H as [H|H].
  - apply messages_at_update_ne. congruence.
  - apply messages_at_keeps, H.
Qed.

(** A resolve changes the history of no session; it only creates the
    session it is asked for. *)
Lemma getContext_history taskId now cm id' :
  registered_in_heap cm →
  contexts cm !! id' ≠ None ∨ taskId ≠ Some id' →
  history_of id' (snd (getContext cfg taskId now cm)) = history_of id' cm
  ∧ contexts (snd (getContext cfg taskId now cm)) !! id'
    = contexts cm !! id'.
Proof.
  intros Hr Hid'.
  pose proof (getContext_cases cfg taskId now cm) as H. cbv zeta in H.
  destruct H as [(id & -> & Hid & Hl & ->)
                | [(id & -> & Hid & Hnone & Hfst & ->) | (Hno & Hfst & ->)]].
  - split; [|reflexivity].
    apply history_of_update_at. right. reflexivity.
  - assert (id ≠ id') as Hne.
    { intros <-. destruct Hid' as [H|H]; [apply H, Hnone|apply H; reflexivity]. }
    unfold history_of. simpl. rewrite lookup_insert_ne by exact Hne.
    split; [|reflexivity].
    destruct (contexts cm !! id') as [l'|] eqn:Hl'; [|reflexivity].
    f_equal. apply messages_at_alloc. exact (Hr id' l' Hl').
  - unfold history_of. simpl. split; [|reflexivity].
    destruct (contexts cm !! id') as [l'|] eqn:Hl'; [|reflexivity].
    f_equal. apply messages_at_alloc. exact (Hr id' l' Hl').
Qed.

(** An append changes the history of no other session. *)
Lemma addMessage_other taskId m now cm id' :
  well_formed cm →
  taskId ≠ Some id' →
  history_of id' (snd (addMessage cfg taskId m now cm)) = history_of id' cm
  ∧ contexts (snd (addMessage cfg taskId m now cm)) !! id'
    = contexts cm !! id'.
Proof.
  intros Hwf Hne. unfold addMessage.
  destruct (truthy taskId) eqn:Ht; [|split; reflexivity].
  destruct taskId as [id|]; [|discriminate]. simpl in Ht.
  pose proof (getContext_well_formed (Some id) now cm Hwf) as [_ Hd].
  pose proof (getContext_registered cfg id now cm Ht) as Hreg.
  destruct (getContext_history (Some id) now cm id' (proj1 Hwf))
    as [Hh Hc]; [right; exact Hne|].
  destruct (getContext cfg (Some id) now cm) as [l cm1]. simpl in *.
  rewrite <- Hh, <- Hc. split; [|reflexivity].
  apply history_of_update_at. left. intros Hl.
  apply Hne. f_equal. exact (Hd id id' l Hreg Hl).
Qed.

(** ** Last access *)

Lemma getContext_accessed id now cm :
  str_truthy id = true →
  registered_in_heap cm →
  accessed_at id now (snd (getContext cfg (Some id) now cm)).
Proof.
  intros Hid Hr. unfold getContext. rewrite Hid.
  destruct (contexts cm !! id) as [l|] eqn:Hl.
  - destruct (lookup_lt_is_Some_2 (heap cm) l (Hr id l Hl)) as [c Hc].
    exists l, (set_lastAccessedAt now c). simpl.
    rewrite list_lookup_alter_eq, Hc. auto.
  - exists (length (heap cm)), (new_context cfg now). simpl.
    rewrite lookup_insert_eq, lookup_app_r by lia.
    rewrite Nat.sub_diag. auto.
Qed.

Lemma addMessage_accessed id m now cm :
  str_truthy id = true →
  registered_in_heap cm →
  accessed_at id now (snd (addMessage cfg (Some id) m now cm)).
Proof.
  intros Hid Hr. unfold addMessage. simpl truthy. rewrite Hid.
  pose proof (getContext_accessed id now cm Hid Hr) as (l & c & Hl & Hc & Ht).
  pose proof (getContext_registered cfg id now cm Hid) as Hreg.
  destruct (getContext cfg (Some id) now cm) as [l0 cm1]. simpl in *.
  assert (l0 = l) as -> by congruence.
  eexists l, _. simpl. rewrite list_lookup_alter_eq, Hc. simpl.
  split; [exact Hl|]. split; [reflexivity|]. exact Ht.
Qed.

Lemma accesses_accessed id t op cm :
  str_truthy id = true →
  registered_in_heap cm →
  accesses id t op →
  accessed_at id t (apply_op cfg cm op).
Proof.
  intros Hid Hr [->|[m ->]]; simpl.
  - apply getContext_accessed; assumption.
  - apply addMessage_accessed; assumption.
Qed.

(** ** The sweep *)

Lemma cleanExpiredContexts_messages now cm l :
  messages_at l (cleanExpiredContexts cfg now cm) = messages_at l cm.
Proof. reflexivity. Qed.

Lemma cleanExpiredContexts_kept id t now cm :
  accessed_at id t cm →
  now - t <= expiryTime cfg →
  history_of id (cleanExpiredContexts cfg now cm) = history_of id cm
  ∧ history_of id cm ≠ None.
Proof.
  intros (l & c & Hl & Hc & Ht) Hle.
  unfold history_of. simpl. rewrite Hl.
  assert (filter (λ kv : string * nat, expired cfg now cm kv.2 = false)
            (contexts cm) !! id = Some l) as ->.
  { apply map_lookup_filter_Some. split; [exact Hl|]. simpl.
    unfold expired. rewrite Hc, Ht. unfold expiryTime in Hle.
    destruct (Z.gtb_spec (now - t)
                (CONTEXT_EXPIRY_HOURS cfg * 60 * 60 * 1000)); [lia|reflexivity]. }
  split; [reflexivity|discriminate].
Qed.

Lemma cleanExpiredContexts_removed id t now cm :
  accessed_at id t cm →
  expiryTime cfg < now - t →
  contexts (cleanExpiredContexts cfg now cm) !! id = None.
Proof.
  intros (l & c & Hl & Hc & Ht) Hlt. simpl.
  apply map_lookup_filter_None. right. intros l' Hl'. simpl.
  assert (l' = l) as -> by congruence.
  unfold expired. rewrite Hc, Ht. unfold expiryTime in Hlt.
  destruct (Z.gtb_spec (now - t)
              (CONTEXT_EXPIRY_HOURS cfg * 60 * 60 * 1000)); [discriminate|lia].
Qed.

End Sessions.

(** X1.  A session lives for [CONTEXT_EXPIRY_HOURS] after its last access.
    After a resolve or an append for [id] at time [t], a sweep at [t']
    leaves every context object as it is; it keeps the session and its
    history when [t' - t] is at most the expiry time, and forgets it
    when [t' - t] is larger: the next append then starts a new history
    from the default instruction. *)
Theorem session_lifetime
    (cfg : config) (ops : list store_op) (op : store_op) (id : string)
    (t t' : Z) :
  str_truthy id = true →
  accesses id t op →
  let cm := apply_op cfg (run_ops cfg ops empty_manager) op in
  let swept := cleanExpiredContexts cfg t' cm in
  (∀ l, messages_at l swept = messages_at l cm)
  ∧ (t' - t <= expiryTime cfg →
     history_of id swept = history_of id cm ∧ history_of id cm ≠ None)
  ∧ (expiryTime cfg < t' - t →
     history_of id swept = None
     ∧ ∀ m t'', 1 <= MAX_CONTEXT_MESSAGES cfg →
         history_of id (snd (addMessage cfg (Some id) m t'' swept))
         = Some [system_message (DEFAULT_PROMPT cfg); m]).
Proof.
  intros Hid Hop cm swept.
  assert (accessed_at id t cm) as Hacc.
  { apply accesses_accessed; [exact Hid| |exact Hop].
    apply run_ops_registered_in_heap. }
  split; [reflexivity|]. split.
  - intros Hle. apply (cleanExpiredContexts_kept cfg id t t' cm Hacc Hle).
  - intros Hlt.
    pose proof (cleanExpiredContexts_removed cfg id t t' cm Hacc Hlt) as Hn.
    split.
    + unfold history_of. fold swept in Hn. rewrite Hn. reflexivity.
    + intros m t'' HM.
      pose proof (addMessage_new cfg id m t'' swept Hid Hn) as Hs.
      apply session_at_history in Hs. rewrite Hs. f_equal.
      simpl app. rewrite trim_cons by exact HM. f_equal.
      apply last_n_all. simpl. lia.
Qed.

Lemma session_lifetime_witness :
  str_truthy "s1" = true
  ∧ accesses "s1" 0 (Resolve (Some "s1") 0)
  ∧ history_of "s1"
      (cleanExpiredContexts (sample_config 10) 36000001
         (apply_op (sample_config 10)
            (run_ops (sample_config 10) [] empty_manager)
            (Resolve (Some "s1") 0)))
    = None.
Proof.
  split; [reflexivity|]. split; [left; reflexivity|].
  refine (proj1 (proj2 (proj2
    (session_lifetime (sample_config 10) [] (Resolve (Some "s1") 0)
       "s1" 0 36000001 eq_refl (or_introl eq_refl))) _)).
  vm_compute. reflexivity.
Defined.

(* ================================================================== *)
(** * Whole runs of the basic and tools handlers *)
(* ================================================================== *)

Lemma world_eta w :
  {| manager := manager w; sse := sse w; requests := requests w |} = w.
Proof. destruct w. reflexivity. Qed.

Lemma append_empty_l (s : string) : "" +:+ s = s.
Proof. reflexivity. Qed.

Lemma text_of_cons c pre :
  text_of (c :: pre) = chunk_content c +:+ text_of pre.
Proof. reflexivity. Qed.

Lemma text_of_fold pre r :
  fold_left (fun r c => r +:+ chunk_content c) pre r = r +:+ text_of pre.
Proof.
  revert r. induction pre as [|c pre IH]; intros r.
  - simpl. unfold text_of. simpl. rewrite append_empty_r. reflexivity.
  - simpl fold_left. rewrite IH, text_of_cons, append_assoc. reflexivity.
Qed.

(** ** The ends of the [try] and [catch] blocks on an open channel *)

Lemma finish_stream_open w :
  closed (sse w) = false →
  finish_stream w
  = (Ok tt, {| manager := manager w;
               sse := closed_with [Send FDone; End] (sse w);
               requests := requests w |}).
Proof.
  intros Hopen. unfold finish_stream, Transport.finish_stream, bind,
    sse_closed. rewrite Hopen.
  unfold when, negb, bind, Transport.sse_send, Transport.sse_end, reliable,
    closed_with. simpl.
  rewrite <- app_assoc. reflexivity.
Qed.

Lemma report_error_open msg w :
  closed (sse w) = false →
  report_error msg w
  = (Ok tt, {| manager := manager w;
               sse := closed_with [Send (FError (error_text msg)); End]
                        (sse w);
               requests := requests w |}).
Proof.
  intros Hopen. unfold report_error, Transport.report_error, try_catch, bind,
    sse_closed. rewrite Hopen.
  unfold when, negb, bind, Transport.sse_send, Transport.sse_end, reliable,
    closed_with. simpl.
  rewrite <- app_assoc. reflexivity.
Qed.

Lemma save_response_run cfg now taskId text w :
  save_response cfg now taskId text w
  = (Ok tt,
     {| manager :=
          if str_truthy text && truthy taskId
          then snd (addMessage cfg taskId (plain_message "assistant" text)
                      now (manager w))
          else manager w;
        sse := sse w; requests := requests w |}).
Proof.
  unfold save_response, when.
  destruct (str_truthy text && truthy taskId).
  - reflexivity.
  - unfold ret. rewrite world_eta. reflexivity.
Qed.

Lemma closed_with_logged acts more w :
  closed_with more (sse (logged acts w))
  = closed_with (acts ++ more) (sse w).
Proof. unfold closed_with, logged. simpl. rewrite app_assoc. reflexivity. Qed.

(** ** The basic handler up to the provider call *)

Lemma basic_handler_run cfg env now taskId model contextData w :
  unusable (sse w) = false →
  str_truthy model = true →
  let request :=
    stream_request model (messages_at contextData (manager w)) false in
  LlmContextManager.handleStreamingRequest cfg env now taskId model
    contextData w
  = snd (try_catch
           (text <- relay_content (create_stream env request) "" ;;
            save_response cfg now taskId text ;;
            finish_stream)
           report_error (requested request w)).
Proof.
  intros Hu Hmodel request.
  unfold LlmContextManager.handleStreamingRequest. rewrite Hu.
  erewrite try_catch_bind_ok
    by (unfold require_model; rewrite Hmodel; reflexivity).
  erewrite try_catch_bind_ok by reflexivity.
  erewrite try_catch_bind_ok by reflexivity.
  reflexivity.
Qed.

Lemma tools_handler_run cfg env now taskId model contextData w :
  unusable (sse w) = false →
  str_truthy model = true →
  let request :=
    stream_request model (messages_at contextData (manager w)) true in
  LlmTools.handleStreamingRequest cfg env now taskId model contextData w
  = snd (try_catch
           (st <- LlmTools.relay cfg env now taskId model contextData
                    (create_stream env request) LlmTools.initial_state ;;
            when (negb (LlmTools.collectingToolCall st))
                 (save_response cfg now taskId
                    (LlmTools.assistantResponse st)) ;;
            finish_stream)
           report_error (requested request w)).
Proof.
  intros Hu Hmodel request.
  unfold LlmTools.handleStreamingRequest. rewrite Hu.
  erewrite try_catch_bind_ok
    by (unfold require_model; rewrite Hmodel; reflexivity).
  erewrite try_catch_bind_ok by reflexivity.
  erewrite try_catch_bind_ok by reflexivity.
  reflexivity.
Qed.

Lemma try_catch_throw {A} (c : M A) h w msg w' :
  c w = (Throw msg, w') → try_catch c h w = h msg w'.
Proof. intros H. unfold try_catch. rewrite H. reflexivity. Qed.

Lemma try_catch_bind_throw {A B} (c : M A) (k : A → M B) h w msg w' :
  c w = (Throw msg, w') → try_catch (bind c k) h w = h msg w'.
Proof. intros H. unfold try_catch, bind. rewrite H. reflexivity. Qed.

Lemma try_catch_ok {A} (c : M A) h w a w' :
  c w = (Ok a, w') → try_catch c h w = (Ok a, w').
Proof. intros H. unfold try_catch. rewrite H. reflexivity. Qed.

(** X2.  A stream that delivers the deltas [pre] and ends: every delta with
    text is forwarded in order, the sentinel follows and the channel is
    closed; the text of the deltas, concatenated in order, is what is
    stored as the assistant message (when it is not empty and the request
    has a session). *)
Theorem reply_is_forwarded_and_stored
    (cfg : config) (env : environment) (now : Z) (taskId : option string)
    (model : string) (contextData : loc) (w : world) (pre : list chunk) :
  unusable (sse w) = false →
  str_truthy model = true →
  let request :=
    stream_request model (messages_at contextData (manager w)) false in
  create_stream env request = map Delta pre →
  let w' := LlmContextManager.handleStreamingRequest cfg env now taskId
              model contextData w in
  sse w' = closed_with (forwarded pre ++ [Send FDone; End]) (sse w)
  ∧ requests w' = requests w ++ [request]
  ∧ manager w'
    = if str_truthy (text_of pre) && truthy taskId
      then snd (addMessage cfg taskId
                  (plain_message "assistant" (text_of pre)) now (manager w))
      else manager w.
Proof.
  intros Hu Hmodel request Hstream w'. subst w'.
  rewrite basic_handler_run by assumption. fold request. rewrite Hstream.
  assert (closed (sse (requested request w)) = false) as Hopen
    by (apply usable_open, Hu).
  erewrite try_catch_bind_ok.
  2: { rewrite <- (app_nil_r (map Delta pre)).
       rewrite relay_content_open by exact Hopen.
       rewrite text_of_fold, append_empty_l. reflexivity. }
  erewrite try_catch_bind_ok by apply save_response_run.
  erewrite try_catch_ok by (apply finish_stream_open; exact Hopen).
  simpl. unfold closed_with. simpl. rewrite <- app_assoc. auto.
Qed.

Lemma reply_is_forwarded_and_stored_witness :
  unusable (sse sample_world) = false
  ∧ str_truthy "m" = true
  ∧ history_of "s1"
      (manager
         (LlmContextManager.handleStreamingRequest (sample_config 10)
            (with_stream sample_environment
               (map Delta [content_chunk "Hel"; content_chunk "lo"]))
            0 (Some "s1") "m" 0%nat sample_world))
    = Some [system_message "You are a helpful assistant";
            plain_message "assistant" "Hello"].
Proof.
  split; [reflexivity|]. split; [reflexivity|].
  rewrite (proj2 (proj2
    (reply_is_forwarded_and_stored (sample_config 10)
       (with_stream sample_environment
          (map Delta [content_chunk "Hel"; content_chunk "lo"]))
       0 (Some "s1") "m" 0%nat sample_world
       [content_chunk "Hel"; content_chunk "lo"]
       eq_refl eq_refl eq_refl))).
  reflexivity.
Defined.

(** X3.  A stream that fails after the deltas [pre]: what was forwarded stays
    forwarded, the client gets one error frame with the message of the
    failure and the channel is closed; nothing is stored, not even the
    text already forwarded. *)
Theorem provider_failure_is_reported
    (cfg : config) (env : environment) (now : Z) (taskId : option string)
    (model : string) (contextData : loc) (w : world) (pre : list chunk)
    (msg : string) (rest : list stream_event) :
  unusable (sse w) = false →
  str_truthy model = true →
  let request :=
    stream_request model (messages_at contextData (manager w)) false in
  create_stream env request = map Delta pre ++ Fail msg :: rest →
  let w' := LlmContextManager.handleStreamingRequest cfg env now taskId
              model contextData w in
  sse w'
  = closed_with (forwarded pre ++ [Send (FError (error_text msg)); End])
      (sse w)
  ∧ requests w' = requests w ++ [request]
  ∧ manager w' = manager w.
Proof.
  intros Hu Hmodel request Hstream w'. subst w'.
  rewrite basic_handler_run by assumption. fold request. rewrite Hstream.
  assert (closed (sse (requested request w)) = false) as Hopen
    by (apply usable_open, Hu).
  erewrite try_catch_bind_throw.
  2: { rewrite relay_content_open by exact Hopen. reflexivity. }
  rewrite report_error_open by exact Hopen.
  simpl. unfold closed_with. simpl. rewrite <- app_assoc. auto.
Qed.

Lemma provider_failure_is_reported_witness :
  unusable (sse sample_world) = false
  ∧ str_truthy "m" = true
  ∧ log (sse
      (LlmContextManager.handleStreamingRequest (sample_config 10)
         (with_stream sample_environment
            (map Delta [content_chunk "Hel"] ++ Fail "" :: []))
         0 (Some "s1") "m" 0%nat sample_world))
    = [Send (FChunk (content_chunk "Hel"));
       Send (FError "Unknown error"); End].
Proof.
  split; [reflexivity|]. split; [reflexivity|].
  rewrite (proj1
    (provider_failure_is_reported (sample_config 10)
       (with_stream sample_environment
          (map Delta [content_chunk "Hel"] ++ Fail "" :: []))
       0 (Some "s1") "m" 0%nat sample_world
       [content_chunk "Hel"] "" [] eq_refl eq_refl eq_refl)).
  reflexivity.
Defined.

(** ** Computations that ignore the list of requests *)

Lemma blind_ret {A} (a : A) : blind_to_requests (ret a).
Proof. intros rs w. reflexivity. Qed.

Lemma blind_throw {A} msg : blind_to_requests (@throw A msg).
Proof. intros rs w. reflexivity. Qed.

Lemma blind_bind {A B} (c : M A) (k : A → M B) :
  blind_to_requests c → (∀ a, blind_to_requests (k a)) →
  blind_to_requests (bind c k).
Proof.
  intros Hc Hk rs w. unfold bind. rewrite Hc.
  destruct (c w) as [[a|msg] w1]; simpl.
  - apply Hk.
  - reflexivity.
Qed.

Lemma blind_try_catch {A} (c : M A) h :
  blind_to_requests c → (∀ msg, blind_to_requests (h msg)) →
  blind_to_requests (try_catch c h).
Proof.
  intros Hc Hh rs w. unfold try_catch. rewrite Hc.
  destruct (c w) as [[a|msg] w1]; simpl.
  - reflexivity.
  - apply Hh.
Qed.

Lemma blind_when b c : blind_to_requests c → blind_to_requests (when b c).
Proof. intros Hc. destruct b; [exact Hc|apply blind_ret]. Qed.

Lemma blind_sse_closed : blind_to_requests sse_closed.
Proof. intros rs w. reflexivity. Qed.

Lemma blind_sse_send f : blind_to_requests (sse_send f).
Proof. intros rs w. reflexivity. Qed.

Lemma blind_sse_end : blind_to_requests sse_end.
Proof. intros rs w. reflexivity. Qed.

Lemma blind_client_disconnects : blind_to_requests client_disconnects.
Proof. intros rs w. reflexivity. Qed.

Lemma blind_add_message cfg now taskId m :
  blind_to_requests (add_message cfg now taskId m).
Proof. intros rs w. reflexivity. Qed.

Lemma blind_save_response cfg now taskId text :
  blind_to_requests (save_response cfg now taskId text).
Proof. apply blind_when, blind_add_message. Qed.

Lemma blind_finish_stream : blind_to_requests finish_stream.
Proof.
  apply blind_bind; [apply blind_sse_closed|]. intros c.
  apply blind_when, blind_bind; [apply blind_sse_send|].
  intros u. apply blind_sse_end.
Qed.

Lemma blind_report_error msg : blind_to_requests (report_error msg).
Proof.
  unfold report_error, Transport.report_error.
  apply blind_try_catch; [|intros msg'; apply blind_ret].
  apply blind_bind; [apply blind_sse_closed|]. intros c.
  apply blind_when, blind_bind; [apply blind_sse_send|].
  intros u. apply blind_sse_end.
Qed.

Lemma blind_relay_content stream r :
  blind_to_requests (relay_content stream r).
Proof.
  revert r. induction stream as [|[c| |msg] rest IH]; intros r.
  - apply blind_ret.
  - simpl. destruct (str_truthy (chunk_content c)); [|apply IH].
    apply blind_bind; [apply blind_sse_closed|]. intros cl.
    destruct cl; [apply blind_ret|].
    apply blind_bind; [apply blind_sse_send|]. intros u. apply IH.
  - simpl. apply blind_bind; [apply blind_client_disconnects|].
    intros u. apply IH.
  - apply blind_throw.
Qed.

(** The part of the basic handler that follows the provider call. *)
Lemma blind_basic_tail cfg now taskId stream :
  blind_to_requests
    (try_catch
       (text <- relay_content stream "" ;;
        save_response cfg now taskId text ;;
        finish_stream)
       report_error).
Proof.
  apply blind_try_catch; [|apply blind_report_error].
  apply blind_bind; [apply blind_relay_content|]. intros text.
  apply blind_bind; [apply blind_save_response|]. intros u.
  apply blind_finish_stream.
Qed.

(** ** The tools loop on a stream without invocation *)

Lemma set_response_same st :
  LlmTools.set_response (LlmTools.assistantResponse st) st = st.
Proof. destruct st. reflexivity. Qed.

Lemma no_tool_calls_None c :
  no_tool_calls c = true → chunk_tool_calls c = None.
Proof.
  unfold no_tool_calls. destruct (chunk_tool_calls c); [discriminate|].
  reflexivity.
Qed.

Section WithoutInvocation.
Variable cfg : config.
Variable env : environment.
Variable now : Z.
Variable taskId : option string.
Variable model : string.
Variable contextData : loc.

(** As long as no delta carries [tool_calls], the loop of the tools
    handler is the loop that forwards content. *)
Lemma relay_without_invocation stream st w :
  without_tool_calls stream = true →
  LlmTools.collectingToolCall st = false →
  LlmTools.relay cfg env now taskId model contextData stream st w
  = (match fst (relay_content stream (LlmTools.assistantResponse st) w) with
     | Ok text => Ok (LlmTools.set_response text st)
     | Throw msg => Throw msg
     end,
     snd (relay_content stream (LlmTools.assistantResponse st) w)).
Proof.
  revert st w. induction stream as [|[c| |msg] rest IH]; intros st w Hno Hst.
  - simpl. rewrite set_response_same. reflexivity.
  - simpl in Hno. apply andb_true_iff in Hno as [Hc Hno].
    simpl. rewrite (no_tool_calls_None c Hc), Hst. simpl.
    destruct (str_truthy (chunk_content c)) eqn:Hcont.
    + unfold bind at 1 3 5. unfold sse_closed.
      destruct (closed (sse w)).
      * reflexivity.
      * unfold bind. simpl.
        rewrite IH by (try exact Hno; destruct st; exact Hst).
        destruct st; reflexivity.
    + apply IH; assumption.
  - simpl in Hno. simpl. unfold bind. simpl. apply IH; assumption.
  - reflexivity.
Qed.

End WithoutInvocation.

(** X4.  When the provider answers the request that declares the tools like
    the one that does not, and no delta of the answer carries
    [tool_calls], the tools handler does to the channel and to the store
    what the basic handler does. *)
Theorem tools_handler_without_invocation
    (cfg : config) (env : environment) (now : Z) (taskId : option string)
    (model : string) (contextData : loc) (w : world) :
  let ms := messages_at contextData (manager w) in
  create_stream env (stream_request model ms true)
  = create_stream env (stream_request model ms false) →
  without_tool_calls (create_stream env (stream_request model ms true))
  = true →
  let tools := LlmTools.handleStreamingRequest cfg env now taskId model
                 contextData w in
  let basic := LlmContextManager.handleStreamingRequest cfg env now taskId
                 model contextData w in
  sse tools = sse basic
  ∧ manager tools = manager basic
  ∧ map req_messages (requests tools) = map req_messages (requests basic)
  ∧ length (requests tools) = length (requests basic).
Proof.
  intros ms Hsame Hno tools basic. subst tools basic.
  destruct (unusable (sse w)) eqn:Hu.
  { unfold LlmTools.handleStreamingRequest,
      LlmContextManager.handleStreamingRequest. rewrite Hu. auto. }
  destruct (str_truthy model) eqn:Hmodel.
  2: { unfold LlmTools.handleStreamingRequest,
         LlmContextManager.handleStreamingRequest. rewrite Hu.
       rewrite !(try_catch_bind_throw _ _ _ w
                   "Model parameter is required but was not provided" w)
         by (unfold require_model; rewrite Hmodel; reflexivity).
       auto. }
  rewrite tools_handler_run, basic_handler_run by assumption.
  fold ms. rewrite <- Hsame.
  set (stream := create_stream env (stream_request model ms true)) in *.
  assert (∀ w1,
    try_catch
      (st <- LlmTools.relay cfg env now taskId model contextData stream
               LlmTools.initial_state ;;
       when (negb (LlmTools.collectingToolCall st))
            (save_response cfg now taskId (LlmTools.assistantResponse st)) ;;
       finish_stream) report_error w1
    = try_catch
        (text <- relay_content stream "" ;;
         save_response cfg now taskId text ;;
         finish_stream) report_error w1) as Heq.
  { intros w1. apply try_catch_ext. unfold bind at 1 3.
    rewrite relay_without_invocation by (try exact Hno; reflexivity).
    simpl LlmTools.assistantResponse.
    destruct (relay_content stream "" w1) as [[text|msg] w2]; reflexivity. }
  rewrite Heq.
  change (requested (stream_request model ms true) w)
    with (with_requests (requests w ++ [stream_request model ms true]) w).
  change (requested (stream_request model ms false) w)
    with (with_requests (requests w ++ [stream_request model ms false]) w).
  rewrite !blind_basic_tail. simpl.
  rewrite !map_app, !length_app. auto.
Qed.

Lemma tools_handler_without_invocation_witness :
  without_tool_calls [Delta (content_chunk "Hi")] = true
  ∧ sse (LlmTools.handleStreamingRequest (sample_config 10)
           (with_stream sample_environment [Delta (content_chunk "Hi")])
           0 (Some "s1") "m" 0%nat sample_world)
    = sse (LlmContextManager.handleStreamingRequest (sample_config 10)
             (with_stream sample_environment [Delta (content_chunk "Hi")])
             0 (Some "s1") "m" 0%nat sample_world).
Proof.
  split; [reflexivity|].
  exact (proj1
    (tools_handler_without_invocation (sample_config 10)
       (with_stream sample_environment [Delta (content_chunk "Hi")])
       0 (Some "s1") "m" 0%nat sample_world eq_refl eq_refl)).
Defined.

(** ** The provider calls of the tools handler *)

Section ProviderCalls.
Variable cfg : config.
Variable env : environment.
Variable now : Z.
Variable taskId : option string.
Variable model : string.
Variable contextData : loc.

(** The loop sends at most one request: the continuation of a completed
    invocation, which declares no tools. *)
Lemma relay_requests stream st w :
  let w' := snd (LlmTools.relay cfg env now taskId model contextData
                   stream st w) in
  requests w' = requests w
  ∨ ∃ ms, requests w' = requests w ++ [stream_request model ms false].
Proof.
  revert st w. induction stream as [|[c| |msg] rest IH]; intros st w; cbv zeta.
  - left. reflexivity.
  - destruct (chunk_tool_calls c) as [[|d ds]|] eqn:Htc.
    + destruct (relay_step_no_entry cfg env now taskId model contextData
                  c rest st w Htc) as [msg ->].
      left. reflexivity.
    + rewrite (relay_step_fragment cfg env now taskId model contextData
                 c d ds rest st w Htc).
      apply IH.
    + destruct (LlmTools.collectingToolCall st && finishes_tool_call c)
        eqn:Hfin.
      * rewrite (relay_step_complete cfg env now taskId model contextData
                   c rest st w Htc Hfin).
        destruct (LlmTools.toolCallData st) as [tc0|] eqn:Htcd.
        -- right. eexists.
           apply (complete_tool_call_request cfg env now taskId model
                    contextData st tc0 w Htcd).
        -- left. unfold LlmTools.complete_tool_call. rewrite Htcd.
           reflexivity.
      * destruct (has_content c) eqn:Hcont.
        -- pose proof (relay_step_content cfg env now taskId model
                         contextData c rest st w Htc Hfin Hcont) as Hstep.
           cbv zeta in Hstep. rewrite Hstep.
           destruct (closed (sse w)); [left; reflexivity|].
           apply (IH _ (logged [Send (FChunk c)] w)).
        -- rewrite (relay_step_skip cfg env now taskId model contextData
                      c rest st w Htc Hfin Hcont).
           apply IH.
  - rewrite tools_relay_disconnect. apply (IH st (disconnected w)).
  - left. reflexivity.
Qed.

End ProviderCalls.

(** X5.  The tools handler contacts the provider at most twice for a request:
    once with the tools declared and, when an invocation completes, once
    more without them.  Whatever the answer to the second request asks
    for, no third request follows it. *)
Theorem at_most_one_continuation
    (cfg : config) (env : environment) (now : Z) (taskId : option string)
    (model : string) (contextData : loc) (w : world) :
  let w' := LlmTools.handleStreamingRequest cfg env now taskId model
              contextData w in
  let primary :=
    stream_request model (messages_at contextData (manager w)) true in
  requests w' = requests w
  ∨ requests w' = requests w ++ [primary]
  ∨ ∃ ms, requests w'
          = requests w ++ [primary; stream_request model ms false].
Proof.
  intros w' primary. subst w'.
  destruct (unusable (sse w)) eqn:Hu.
  { left. unfold LlmTools.handleStreamingRequest. rewrite Hu. reflexivity. }
  destruct (str_truthy model) eqn:Hmodel.
  2: { left. unfold LlmTools.handleStreamingRequest. rewrite Hu.
       rewrite (try_catch_bind_throw _ _ _ w
                  "Model parameter is required but was not provided" w)
         by (unfold require_model; rewrite Hmodel; reflexivity).
       apply report_error_keeps; intros; intros x; reflexivity. }
  right. rewrite tools_handler_run by assumption. fold primary.
  rewrite (try_catch_bind_keeps requests).
  2: { intros st. apply keeps_bind.
       - apply keeps_when, save_response_keeps_requests.
       - intros u. apply finish_stream_keeps; intros; intros x; reflexivity. }
  2: { intros msg. apply report_error_keeps; intros; intros x; reflexivity. }
  destruct (relay_requests cfg env now taskId model contextData
              (create_stream env primary) LlmTools.initial_state
              (requested primary w)) as [H|[ms H]]; cbv zeta in H.
  - left. rewrite H. reflexivity.
  - right. exists ms. rewrite H. simpl. rewrite <- app_assoc. reflexivity.
Qed.

(** ** An invocation that is never completed *)

Lemma absorb_collecting st c :
  LlmTools.collectingToolCall st = true →
  LlmTools.collectingToolCall (absorb st c) = true.
Proof.
  intros Hst. unfold absorb.
  destruct (chunk_tool_calls c) as [[|d ds]|].
  - destruct (has_content c); [|exact Hst]. destruct st; exact Hst.
  - apply tool_call_fragment_collecting.
  - destruct (has_content c); [|exact Hst]. destruct st; exact Hst.
Qed.

Lemma absorb_all_collecting pre st :
  LlmTools.collectingToolCall st = true →
  LlmTools.collectingToolCall (fold_left absorb pre st) = true.
Proof.
  revert st. induction pre as [|c pre IH]; intros st Hst; [exact Hst|].
  simpl. apply IH, absorb_collecting, Hst.
Qed.

Lemma absorb_starts_collecting pre st :
  forallb plain_delta pre = true →
  existsb has_tool_calls pre = true →
  LlmTools.collectingToolCall (fold_left absorb pre st) = true.
Proof.
  revert st. induction pre as [|c pre IH]; intros st Hplain Hex;
    [discriminate|].
  simpl in *. apply andb_true_iff in Hplain as [Hc Hplain].
  destruct (has_tool_calls c) eqn:Htc.
  - apply absorb_all_collecting.
    unfold has_tool_calls, no_tool_calls in Htc.
    unfold plain_delta, empty_tool_calls in Hc.
    unfold absorb.
    destruct (chunk_tool_calls c) as [[|d ds]|]; try discriminate.
    apply tool_call_fragment_collecting.
  - apply IH; assumption.
Qed.

(** X6.  A stream that starts a tool invocation and ends without the delta
    that completes it: the text of its deltas is forwarded and the
    request ends with the sentinel, but no tool is executed, no second
    request is sent and nothing is stored, not even the text that was
    forwarded. *)
Theorem unfinished_invocation_is_dropped
    (cfg : config) (env : environment) (now : Z) (taskId : option string)
    (model : string) (contextData : loc) (w : world) (pre : list chunk) :
  unusable (sse w) = false →
  str_truthy model = true →
  let primary :=
    stream_request model (messages_at contextData (manager w)) true in
  create_stream env primary = map Delta pre →
  forallb plain_delta pre = true →
  existsb has_tool_calls pre = true →
  let w' := LlmTools.handleStreamingRequest cfg env now taskId model
              contextData w in
  sse w' = closed_with (tools_forwarded pre ++ [Send FDone; End]) (sse w)
  ∧ requests w' = requests w ++ [primary]
  ∧ manager w' = manager w.
Proof.
  intros Hu Hmodel primary Hstream Hplain Hex w'. subst w'.
  rewrite tools_handler_run by assumption. fold primary. rewrite Hstream.
  assert (closed (sse (requested primary w)) = false) as Hopen
    by (apply usable_open, Hu).
  erewrite try_catch_bind_ok.
  2: { rewrite <- (app_nil_r (map Delta pre)).
       rewrite tools_relay_open by assumption. reflexivity. }
  rewrite (absorb_starts_collecting pre _ Hplain Hex).
  erewrite try_catch_bind_ok by reflexivity.
  erewrite try_catch_ok by (apply finish_stream_open; exact Hopen).
  simpl. unfold closed_with. simpl. rewrite <- app_assoc. auto.
Qed.

Lemma unfinished_invocation_is_dropped_witness :
  unusable (sse sample_world) = false
  ∧ str_truthy "m" = true
  ∧ manager
      (LlmTools.handleStreamingRequest (sample_config 10)
         (with_stream sample_environment
            (map Delta [content_chunk "Let me check";
                        fragment_chunk (Some "call_1") (Some "get_weather")
                          "{";
                        finish_chunk "length"]))
         0 (Some "s1") "m" 0%nat sample_world)
    = manager sample_world.
Proof.
  split; [reflexivity|]. split; [reflexivity|].
  exact (proj2 (proj2
    (unfinished_invocation_is_dropped (sample_config 10)
       (with_stream sample_environment
          (map Delta [content_chunk "Let me check";
                      fragment_chunk (Some "call_1") (Some "get_weather")
                        "{";
                      finish_chunk "length"]))
       0 (Some "s1") "m" 0%nat sample_world
       [content_chunk "Let me check";
        fragment_chunk (Some "call_1") (Some "get_weather") "{";
        finish_chunk "length"]
       eq_refl eq_refl eq_refl eq_refl eq_refl))).
Defined.

(** ** A completed invocation *)

Lemma record_tool_call_run cfg now taskId tc result w :
  record_tool_call cfg now taskId tc result w
  = (Ok tt, with_manager (recorded_store cfg now taskId tc result (manager w))
              w).
Proof.
  unfold record_tool_call, recorded_store, with_manager, when.
  destruct (truthy taskId).
  - reflexivity.
  - unfold ret. rewrite world_eta. reflexivity.
Qed.

Lemma has_tool_calls_None c :
  has_tool_calls c = false → chunk_tool_calls c = None.
Proof.
  unfold has_tool_calls. intros H. apply negb_false_iff in H.
  apply no_tool_calls_None, H.
Qed.

(** Deltas without [tool_calls] leave the invocation state alone. *)
Lemma absorb_text_only pre st :
  existsb has_tool_calls pre = false →
  LlmTools.collectingToolCall (fold_left absorb pre st)
  = LlmTools.collectingToolCall st
  ∧ LlmTools.toolCallData (fold_left absorb pre st)
    = LlmTools.toolCallData st
  ∧ LlmTools.accumulatedArguments (fold_left absorb pre st)
    = LlmTools.accumulatedArguments st.
Proof.
  revert st. induction pre as [|c pre IH]; intros st H; [auto|].
  simpl in H. apply orb_false_iff in H as [Hc Hpre].
  simpl fold_left. destruct (IH (absorb st c) Hpre) as (H1 & H2 & H3).
  rewrite H1, H2, H3. unfold absorb.
  rewrite (has_tool_calls_None c Hc).
  destruct (has_content c); destruct st; auto.
Qed.

(** Once an invocation is being collected, the later deltas do not
    rename it. *)
Lemma absorb_keeps_call pre st :
  LlmTools.collectingToolCall st = true →
  LlmTools.toolCallData (fold_left absorb pre st) = LlmTools.toolCallData st.
Proof.
  revert st. induction pre as [|c pre IH]; intros st Hst; [reflexivity|].
  simpl fold_left. rewrite IH by (apply absorb_collecting, Hst).
  unfold absorb.
  destruct (chunk_tool_calls c) as [[|d ds]|].
  - destruct (has_content c); destruct st; reflexivity.
  - unfold LlmTools.tool_call_fragment. rewrite Hst.
    unfold LlmTools.collect_arguments.
    destruct (LlmTools.delta_function_arguments d) as [a|]; [|reflexivity].
    destruct (str_truthy a); reflexivity.
  - destruct (has_content c); destruct st; reflexivity.
Qed.

Lemma concat_strings_cons s l :
  concat_strings (s :: l) = s +:+ concat_strings l.
Proof. reflexivity. Qed.

(** The buffer holds the argument texts read so far, in order. *)
Lemma absorb_arguments pre st :
  LlmTools.accumulatedArguments (fold_left absorb pre st)
  = LlmTools.accumulatedArguments st
    +:+ concat_strings (map first_fragment pre).
Proof.
  revert st. induction pre as [|c pre IH]; intros st.
  - simpl. unfold concat_strings. simpl. rewrite append_empty_r. reflexivity.
  - simpl fold_left. rewrite IH. simpl map.
    rewrite concat_strings_cons, <- append_assoc. f_equal.
    unfold absorb, first_fragment.
    destruct (chunk_tool_calls c) as [[|d ds]|].
    + rewrite append_empty_r. destruct (has_content c); destruct st; reflexivity.
    + apply tool_call_fragment_arguments.
    + rewrite append_empty_r. destruct (has_content c); destruct st; reflexivity.
Qed.

Lemma tool_call_fragment_starts d st :
  LlmTools.collectingToolCall st = false →
  LlmTools.toolCallData (LlmTools.tool_call_fragment d st)
  = Some (started_by d).
Proof.
  intros Hst. unfold LlmTools.tool_call_fragment. rewrite Hst.
  unfold LlmTools.collect_arguments.
  destruct (LlmTools.delta_function_arguments d) as [a|]; [|reflexivity].
  destruct (str_truthy a); reflexivity.
Qed.

(** The invocation state when the delta that completes the invocation
    arrives. *)
Lemma absorb_invocation pre0 c d ds pre1 :
  existsb has_tool_calls pre0 = false →
  chunk_tool_calls c = Some (d :: ds) →
  let st := fold_left absorb (pre0 ++ c :: pre1) LlmTools.initial_state in
  LlmTools.collectingToolCall st = true
  ∧ LlmTools.toolCallData st = Some (started_by d)
  ∧ LlmTools.accumulatedArguments st
    = concat_strings (map first_fragment (pre0 ++ c :: pre1)).
Proof.
  intros Hpre0 Hc st. subst st.
  split; [|split].
  - rewrite fold_left_app. simpl fold_left.
    apply absorb_all_collecting. unfold absorb at 1. rewrite Hc.
    apply tool_call_fragment_collecting.
  - rewrite fold_left_app. simpl fold_left.
    rewrite absorb_keeps_call.
    + unfold absorb at 1. rewrite Hc. apply tool_call_fragment_starts.
      apply (absorb_text_only pre0 LlmTools.initial_state Hpre0).
    + unfold absorb at 1. rewrite Hc. apply tool_call_fragment_collecting.
  - rewrite absorb_arguments. reflexivity.
Qed.

Section CompletedInvocation.
Variable cfg : config.
Variable env : environment.
Variable now : Z.
Variable taskId : option string.
Variable model : string.
Variable contextData : loc.

(** The completion of an invocation up to the continuation request. *)
Lemma complete_tool_call_run st tc0 w :
  LlmTools.toolCallData st = Some tc0 →
  let tc := LlmTools.with_arguments (LlmTools.accumulatedArguments st) tc0 in
  let result := LlmTools.handleFunctionCall env (tc_function tc) in
  let recorded := recorded_store cfg now taskId tc result (manager w) in
  let followUp :=
    stream_request model
      (messages_at contextData recorded
       ++ [tool_call_message tc; tool_result_message tc result]) false in
  LlmTools.complete_tool_call cfg env now taskId model contextData st w
  = (r <- relay_content (create_stream env followUp)
            (LlmTools.assistantResponse st) ;;
     save_response cfg now taskId r ;;
     ret {| LlmTools.assistantResponse := r;
            LlmTools.collectingToolCall := LlmTools.collectingToolCall st;
            LlmTools.toolCallData := Some tc;
            LlmTools.accumulatedArguments :=
              LlmTools.accumulatedArguments st |})
      (requested followUp (with_manager recorded w)).
Proof.
  intros Htc tc result recorded followUp.
  unfold LlmTools.complete_tool_call. rewrite Htc.
  fold tc. fold result.
  erewrite bind_ok
    by apply (record_tool_call_run cfg now taskId tc result w).
  erewrite bind_ok by reflexivity.
  erewrite bind_ok by reflexivity.
  reflexivity.
Qed.

End CompletedInvocation.

(** X7.  A completed invocation.  The deltas [pre0] carry no invocation, the
    delta [c] carries its first fragment [d], the deltas [pre1] continue
    it and the delta [fin] completes it.  The invocation that is executed
    and recorded has the identifier, the type and the name of the first
    fragment, the empty string standing for what that fragment does not
    give, whatever the later fragments say; its arguments are the
    argument texts read in the deltas, in order.  The continuation
    request carries the context after the recording, followed by the
    invocation and its result. *)
Theorem invocation_is_named_by_its_first_fragment
    (cfg : config) (env : environment) (now : Z) (taskId : option string)
    (model : string) (contextData : loc) (w : world)
    (pre0 pre1 : list chunk) (c fin : chunk) (d : tool_call_delta)
    (ds : list tool_call_delta) (rest : list stream_event) :
  unusable (sse w) = false →
  str_truthy model = true →
  let primary :=
    stream_request model (messages_at contextData (manager w)) true in
  let pre := pre0 ++ c :: pre1 in
  create_stream env primary = map Delta pre ++ Delta fin :: rest →
  forallb plain_delta pre = true →
  existsb has_tool_calls pre0 = false →
  chunk_tool_calls c = Some (d :: ds) →
  chunk_tool_calls fin = None →
  finishes_tool_call fin = true →
  let tc := LlmTools.with_arguments
              (concat_strings (map first_fragment pre)) (started_by d) in
  let result := LlmTools.handleFunctionCall env (tc_function tc) in
  let recorded := recorded_store cfg now taskId tc result (manager w) in
  requests (LlmTools.handleStreamingRequest cfg env now taskId model
              contextData w)
  = requests w
    ++ [primary;
        stream_request model
          (messages_at contextData recorded
           ++ [tool_call_message tc; tool_result_message tc result])
          false].
Proof.
  intros Hu Hmodel primary pre Hstream Hplain Hpre0 Hc Hfin Hfinish
    tc result recorded.
  destruct (absorb_invocation pre0 c d ds pre1 Hpre0 Hc)
    as (Hcol & Hdata & Hargs).
  fold pre in Hcol, Hdata, Hargs.
  rewrite tools_handler_run by assumption. fold primary. rewrite Hstream.
  rewrite (try_catch_bind_keeps requests).
  2: { intros st. apply keeps_bind.
       - apply keeps_when, save_response_keeps_requests.
       - intros u. apply finish_stream_keeps; intros; intros x; reflexivity. }
  2: { intros msg. apply report_error_keeps; intros; intros x; reflexivity. }
  rewrite tools_relay_open by (try exact Hplain; apply usable_open, Hu).
  rewrite relay_step_complete
    by (try exact Hfin; rewrite Hcol, Hfinish; reflexivity).
  pose proof (complete_tool_call_request cfg env now taskId model contextData
                _ _ (logged (tools_forwarded pre) (requested primary w))
                Hdata) as Hreq.
  cbv zeta in Hreq. rewrite Hreq, Hargs.
  rewrite record_tool_call_run. simpl.
  rewrite <- app_assoc. reflexivity.
Qed.

Lemma invocation_is_named_by_its_first_fragment_witness :
  unusable (sse sample_world) = false
  ∧ str_truthy "m" = true
  ∧ forallb plain_delta
      ([] ++ fragment_chunk (Some "call_1") (Some "get_weather") "{"
          :: [fragment_chunk (Some "call_2") (Some "get_time") "}"]) = true
  ∧ map (fun r => map tool_call_id (req_messages r))
      (requests
         (LlmTools.handleStreamingRequest (sample_config 10)
            (with_streams sample_environment
               (map Delta
                  ([] ++ fragment_chunk (Some "call_1") (Some "get_weather")
                           "{"
                      :: [fragment_chunk (Some "call_2") (Some "get_time")
                            "}"])
                ++ Delta (finish_chunk "tool_calls") :: [])
               [])
            0 None "m" 0%nat sample_world))
    = [[]; [None; Some "call_1"]].
Proof.
  split; [reflexivity|]. split; [reflexivity|]. split; [reflexivity|].
  rewrite (invocation_is_named_by_its_first_fragment (sample_config 10)
             (with_streams sample_environment
                (map Delta
                   ([] ++ fragment_chunk (Some "call_1") (Some "get_weather")
                            "{"
                       :: [fragment_chunk (Some "call_2") (Some "get_time")
                             "}"])
                 ++ Delta (finish_chunk "tool_calls") :: [])
                [])
             0 None "m" 0%nat sample_world []
             [fragment_chunk (Some "call_2") (Some "get_time") "}"]
             (fragment_chunk (Some "call_1") (Some "get_weather") "{")
             (finish_chunk "tool_calls")
             {| tcd_id := Some "call_1"; tcd_type := Some "function";
                tcd_function :=
                  Some {| fd_name := Some "get_weather";
                          fd_arguments := Some "{" |} |}
             [] []
             eq_refl eq_refl eq_refl eq_refl eq_refl eq_refl eq_refl
             eq_refl).
  reflexivity.
Defined.

(** X8.  A continuation that fails.  When the stream of the continuation
    request fails after the deltas [pre2], the client has received the
    text of both streams and gets one error frame; the invocation and
    its result stay recorded in the session, and no assistant message is
    stored after them. *)
Theorem continuation_failure_keeps_the_invocation
    (cfg : config) (env : environment) (now : Z) (taskId : option string)
    (model : string) (contextData : loc) (w : world)
    (pre0 pre1 pre2 : list chunk) (c fin : chunk) (d : tool_call_delta)
    (ds : list tool_call_delta) (rest rest2 : list stream_event)
    (msg : string) :
  unusable (sse w) = false →
  str_truthy model = true →
  let primary :=
    stream_request model (messages_at contextData (manager w)) true in
  let pre := pre0 ++ c :: pre1 in
  create_stream env primary = map Delta pre ++ Delta fin :: rest →
  forallb plain_delta pre = true →
  existsb has_tool_calls pre0 = false →
  chunk_tool_calls c = Some (d :: ds) →
  chunk_tool_calls fin = None →
  finishes_tool_call fin = true →
  let tc := LlmTools.with_arguments
              (concat_strings (map first_fragment pre)) (started_by d) in
  let result := LlmTools.handleFunctionCall env (tc_function tc) in
  let recorded := recorded_store cfg now taskId tc result (manager w) in
  let followUp :=
    stream_request model
      (messages_at contextData recorded
       ++ [tool_call_message tc; tool_result_message tc result]) false in
  create_stream env followUp = map Delta pre2 ++ Fail msg :: rest2 →
  let w' := LlmTools.handleStreamingRequest cfg env now taskId model
              contextData w in
  sse w'
  = closed_with (tools_forwarded pre ++ forwarded pre2
                 ++ [Send (FError (error_text msg)); End]) (sse w)
  ∧ manager w' = recorded.
Proof.
  intros Hu Hmodel primary pre Hstream Hplain Hpre0 Hc Hfin Hfinish
    tc result recorded followUp Hfollow w'. subst w'.
  destruct (absorb_invocation pre0 c d ds pre1 Hpre0 Hc)
    as (Hcol & Hdata & Hargs).
  fold pre in Hcol, Hdata, Hargs.
  rewrite tools_handler_run by assumption. fold primary. rewrite Hstream.
  assert (closed (sse (requested primary w)) = false) as Hopen
    by (apply usable_open, Hu).
  erewrite try_catch_bind_throw.
  2: { rewrite tools_relay_open by (try exact Hplain; exact Hopen).
       rewrite relay_step_complete
         by (try exact Hfin; rewrite Hcol, Hfinish; reflexivity).
       rewrite (complete_tool_call_run cfg env now taskId model contextData
                  _ _ _ Hdata).
       rewrite Hargs. fold tc. fold result. simpl manager.
       fold recorded. fold followUp. rewrite Hfollow.
       unfold bind at 1.
       rewrite relay_content_open by exact Hopen.
       reflexivity. }
  rewrite report_error_open by exact Hopen.
  simpl. unfold closed_with. simpl.
  rewrite <- !app_assoc. auto.
Qed.

Lemma continuation_failure_keeps_the_invocation_witness :
  unusable (sse sample_world) = false
  ∧ str_truthy "m" = true
  ∧ history_of "s1"
      (manager (LlmTools.handleStreamingRequest (sample_config 10)
                  failing_continuation 0 (Some "s1") "m" 0%nat
                  sample_world))
    = Some [system_message "You are a helpful assistant";
            tool_call_message weather_call;
            tool_result_message weather_call
              (LlmTools.JSON_stringify beijing_weather)].
Proof.
  split; [reflexivity|]. split; [reflexivity|].
  rewrite (proj2
    (continuation_failure_keeps_the_invocation (sample_config 10)
       failing_continuation 0 (Some "s1") "m" 0%nat sample_world
       []
       [fragment_chunk None None
          ("ation" +:+ dquote +:+ ":" +:+ dquote);
        fragment_chunk None None ("Beijing" +:+ dquote +:+ "}")]
       []
       (fragment_chunk (Some "call_1") (Some "get_weather")
          ("{" +:+ dquote +:+ "loc"))
       (finish_chunk "tool_calls")
       {| tcd_id := Some "call_1"; tcd_type := Some "function";
          tcd_function :=
            Some {| fd_name := Some "get_weather";
                    fd_arguments := Some ("{" +:+ dquote +:+ "loc") |} |}
       [] [] [] "overloaded"
       eq_refl eq_refl eq_refl eq_refl eq_refl eq_refl eq_refl eq_refl
       eq_refl)).
  vm_compute. reflexivity.
Defined.

(** X9.  A delta whose [tool_calls] is an empty array.  The loop reads the
    first entry of the array, which is missing: the request ends with one
    error frame after what was forwarded, no tool is executed and nothing
    is stored. *)
Theorem empty_tool_calls_fail_the_request
    (cfg : config) (env : environment) (now : Z) (taskId : option string)
    (model : string) (contextData : loc) (w : world) (pre : list chunk)
    (c : chunk) (rest : list stream_event) :
  unusable (sse w) = false →
  str_truthy model = true →
  let primary :=
    stream_request model (messages_at contextData (manager w)) true in
  create_stream env primary = map Delta pre ++ Delta c :: rest →
  forallb plain_delta pre = true →
  empty_tool_calls c = true →
  let w' := LlmTools.handleStreamingRequest cfg env now taskId model
              contextData w in
  (∃ msg, msg ≠ ""
          ∧ sse w' = closed_with (tools_forwarded pre
                                  ++ [Send (FError msg); End]) (sse w))
  ∧ requests w' = requests w ++ [primary]
  ∧ manager w' = manager w.
Proof.
  intros Hu Hmodel primary Hstream Hplain Hc w'. subst w'.
  rewrite tools_handler_run by assumption. fold primary. rewrite Hstream.
  assert (closed (sse (requested primary w)) = false) as Hopen
    by (apply usable_open, Hu).
  assert (chunk_tool_calls c = Some []) as Htc.
  { unfold empty_tool_calls in Hc.
    destruct (chunk_tool_calls c) as [[|d ds]|]; try discriminate.
    reflexivity. }
  set (st := fold_left absorb pre LlmTools.initial_state).
  set (msg := if LlmTools.collectingToolCall st
              then "Cannot read properties of undefined (reading 'function')"
              else "Cannot read properties of undefined (reading 'id')").
  erewrite (try_catch_bind_throw _ _ _ _ msg).
  2: { rewrite tools_relay_open by (try exact Hplain; exact Hopen).
       fold st. simpl LlmTools.relay. rewrite Htc. reflexivity. }
  rewrite report_error_open by exact Hopen.
  assert (str_truthy msg = true) as Hmsg
    by (subst msg; destruct (LlmTools.collectingToolCall st); reflexivity).
  simpl. unfold closed_with. simpl. rewrite <- app_assoc.
  split; [|auto].
  exists msg. split.
  - apply str_truthy_nonempty, Hmsg.
  - unfold error_text. rewrite Hmsg. reflexivity.
Qed.

Lemma empty_tool_calls_fail_the_request_witness :
  unusable (sse sample_world) = false
  ∧ str_truthy "m" = true
  ∧ empty_tool_calls
      {| choices :=
           [ {| choice_delta :=
                  Some {| delta_content := Some "Hi";
                          delta_tool_calls := Some [] |};
                finish_reason := None |} ] |} = true
  ∧ requests
      (LlmTools.handleStreamingRequest (sample_config 10)
         (with_stream sample_environment
            (map Delta [] ++
             Delta {| choices :=
                        [ {| choice_delta :=
                               Some {| delta_content := Some "Hi";
                                       delta_tool_calls := Some [] |};
                             finish_reason := None |} ] |} :: []))
         0 (Some "s1") "m" 0%nat sample_world)
    = requests sample_world
      ++ [stream_request "m" (messages_at 0 (manager sample_world)) true].
Proof.
  split; [reflexivity|]. split; [reflexivity|]. split; [reflexivity|].
  exact (proj1 (proj2
    (empty_tool_calls_fail_the_request (sample_config 10)
       (with_stream sample_environment
          (map Delta [] ++
           Delta {| choices :=
                      [ {| choice_delta :=
                             Some {| delta_content := Some "Hi";
                                     delta_tool_calls := Some [] |};
                           finish_reason := None |} ] |} :: []))
       0 (Some "s1") "m" 0%nat sample_world []
       {| choices :=
            [ {| choice_delta :=
                   Some {| delta_content := Some "Hi";
                           delta_tool_calls := Some [] |};
                 finish_reason := None |} ] |}
       [] eq_refl eq_refl eq_refl eq_refl eq_refl))).
Defined.

Lemma absorb_response pre st :
  forallb plain_delta pre = true →
  LlmTools.assistantResponse (fold_left absorb pre st)
  = LlmTools.assistantResponse st +:+ plain_text pre.
Proof.
  revert st. induction pre as [|c pre IH]; intros st Hplain.
  - simpl. unfold plain_text, text_of. simpl. rewrite append_empty_r.
    reflexivity.
  - simpl in Hplain. apply andb_true_iff in Hplain as [Hc Hplain].
    simpl fold_left. rewrite IH by exact Hplain.
    unfold plain_text, absorb, no_tool_calls.
    unfold plain_delta, empty_tool_calls in Hc.
    destruct (chunk_tool_calls c) as [[|d ds]|] eqn:Htc; try discriminate.
    + rewrite filter_cons_False
        by (unfold no_tool_calls; rewrite Htc, andb_false_r; discriminate).
      f_equal. unfold LlmTools.tool_call_fragment.
      destruct (LlmTools.collectingToolCall st);
        unfold LlmTools.collect_arguments;
        destruct (LlmTools.delta_function_arguments d) as [a|];
        try destruct (str_truthy a); reflexivity.
    + destruct (has_content c) eqn:Hcont.
      * rewrite filter_cons_True
          by (unfold no_tool_calls; rewrite Htc, Hcont; reflexivity).
        rewrite text_of_cons, <- append_assoc. destruct st; reflexivity.
      * rewrite filter_cons_False
          by (unfold no_tool_calls; rewrite Htc, Hcont; discriminate).
        reflexivity.
Qed.

(** X10.  A continuation that is answered.  When the stream of the
    continuation request delivers the deltas [pre2] and ends, the client
    has received the text of both streams and the sentinel.  What is
    stored after the invocation and its result is one assistant message:
    the text forwarded before the invocation immediately followed by the
    text of the continuation. *)
Theorem answer_after_invocation_joins_earlier_text
    (cfg : config) (env : environment) (now : Z) (taskId : option string)
    (model : string) (contextData : loc) (w : world)
    (pre0 pre1 pre2 : list chunk) (c fin : chunk) (d : tool_call_delta)
    (ds : list tool_call_delta) (rest : list stream_event) :
  unusable (sse w) = false →
  str_truthy model = true →
  let primary :=
    stream_request model (messages_at contextData (manager w)) true in
  let pre := pre0 ++ c :: pre1 in
  create_stream env primary = map Delta pre ++ Delta fin :: rest →
  forallb plain_delta pre = true →
  existsb has_tool_calls pre0 = false →
  chunk_tool_calls c = Some (d :: ds) →
  chunk_tool_calls fin = None →
  finishes_tool_call fin = true →
  let tc := LlmTools.with_arguments
              (concat_strings (map first_fragment pre)) (started_by d) in
  let result := LlmTools.handleFunctionCall env (tc_function tc) in
  let recorded := recorded_store cfg now taskId tc result (manager w) in
  let followUp :=
    stream_request model
      (messages_at contextData recorded
       ++ [tool_call_message tc; tool_result_message tc result]) false in
  create_stream env followUp = map Delta pre2 →
  let w' := LlmTools.handleStreamingRequest cfg env now taskId model
              contextData w in
  let text := plain_text pre +:+ text_of pre2 in
  sse w'
  = closed_with (tools_forwarded pre ++ forwarded pre2
                 ++ [Send FDone; End]) (sse w)
  ∧ requests w' = requests w ++ [primary; followUp]
  ∧ manager w'
    = if str_truthy text && truthy taskId
      then snd (addMessage cfg taskId (plain_message "assistant" text) now
                  recorded)
      else recorded.
Proof.
  intros Hu Hmodel primary pre Hstream Hplain Hpre0 Hc Hfin Hfinish
    tc result recorded followUp Hfollow w' text. subst w'.
  destruct (absorb_invocation pre0 c d ds pre1 Hpre0 Hc)
    as (Hcol & Hdata & Hargs).
  fold pre in Hcol, Hdata, Hargs.
  pose proof (absorb_response pre LlmTools.initial_state Hplain) as Hresp.
  rewrite append_empty_l in Hresp.
  rewrite tools_handler_run by assumption. fold primary. rewrite Hstream.
  assert (closed (sse (requested primary w)) = false) as Hopen
    by (apply usable_open, Hu).
  erewrite try_catch_bind_ok.
  2: { rewrite tools_relay_open by (try exact Hplain; exact Hopen).
       rewrite relay_step_complete
         by (try exact Hfin; rewrite Hcol, Hfinish; reflexivity).
       rewrite (complete_tool_call_run cfg env now taskId model contextData
                  _ _ _ Hdata).
       rewrite Hargs, Hresp, Hcol. fold tc. fold result. simpl manager.
       fold recorded. fold followUp. rewrite Hfollow.
       erewrite bind_ok.
       2: { rewrite <- (app_nil_r (map Delta pre2)).
            rewrite relay_content_open by exact Hopen.
            rewrite text_of_fold. fold text. reflexivity. }
       erewrite bind_ok by apply save_response_run.
       reflexivity. }
  erewrite try_catch_bind_ok by reflexivity.
  erewrite try_catch_ok by (apply finish_stream_open; exact Hopen).
  simpl. unfold closed_with. simpl.
  rewrite <- !app_assoc. auto.
Qed.

Lemma answer_after_invocation_joins_earlier_text_witness :
  unusable (sse sample_world) = false
  ∧ str_truthy "m" = true
  ∧ history_of "s1"
      (manager
         (LlmTools.handleStreamingRequest (sample_config 10)
            (with_streams weather_environment
               (map Delta
                  ([content_chunk "Let me check."]
                   ++ fragment_chunk (Some "call_1") (Some "get_weather")
                        beijing_arguments
                      :: [])
                ++ Delta (finish_chunk "tool_calls") :: [])
               (map Delta [content_chunk "Sunny"]))
            0 (Some "s1") "m" 0%nat sample_world))
    = Some [system_message "You are a helpful assistant";
            tool_call_message weather_call;
            tool_result_message weather_call
              (LlmTools.JSON_stringify beijing_weather);
            plain_message "assistant" "Let me check.Sunny"].
Proof.
  split; [reflexivity|]. split; [reflexivity|].
  rewrite (proj2 (proj2
    (answer_after_invocation_joins_earlier_text (sample_config 10)
       (with_streams weather_environment
          (map Delta
             ([content_chunk "Let me check."]
              ++ fragment_chunk (Some "call_1") (Some "get_weather")
                   beijing_arguments
                 :: [])
           ++ Delta (finish_chunk "tool_calls") :: [])
          (map Delta [content_chunk "Sunny"]))
       0 (Some "s1") "m" 0%nat sample_world
       [content_chunk "Let me check."] [] [content_chunk "Sunny"]
       (fragment_chunk (Some "call_1") (Some "get_weather")
          beijing_arguments)
       (finish_chunk "tool_calls")
       {| tcd_id := Some "call_1"; tcd_type := Some "function";
          tcd_function :=
            Some {| fd_name := Some "get_weather";
                    fd_arguments := Some beijing_arguments |} |}
       [] []
       eq_refl eq_refl eq_refl eq_refl eq_refl eq_refl eq_refl eq_refl
       eq_refl))).
  vm_compute. reflexivity.
Defined.

(* ================================================================== *)
(** * Requests: what [main] makes of the supplied messages *)
(* ================================================================== *)

Lemma resolve_taskId_truthy header e id :
  resolve_taskId header e = Some id → str_truthy id = true.
Proof.
  unfold resolve_taskId.
  destruct (truthy header) eqn:Hh.
  - intros ->. exact Hh.
  - destruct (truthy (ev_taskId e)) eqn:He; [|discriminate].
    intros H. rewrite H in He. exact He.
Qed.

Lemma basic_handler_requests cfg env now taskId model contextData w :
  unusable (sse w) = false →
  str_truthy model = true →
  requests (LlmContextManager.handleStreamingRequest cfg env now taskId
              model contextData w)
  = requests w
    ++ [stream_request model (messages_at contextData (manager w)) false].
Proof.
  intros Hu Hmodel. rewrite basic_handler_run by assumption.
  rewrite (try_catch_bind_keeps requests).
  - apply relay_content_keeps_requests.
  - intros text. apply keeps_bind.
    + apply save_response_keeps_requests.
    + intros u. apply finish_stream_keeps; intros; intros x; reflexivity.
  - intros msg. apply report_error_keeps; intros; intros x; reflexivity.
Qed.

Section Folding.
Variable cfg : config.
Variable now : Z.

(** ** Without a session *)

Lemma fold_addMessage_anonymous taskId ms cm :
  truthy taskId = false →
  fold_left (fun cm m => snd (addMessage cfg taskId m now cm)) ms cm = cm.
Proof.
  intros Ht. revert cm. induction ms as [|m ms IH]; intros cm; [reflexivity|].
  simpl. unfold addMessage at 2. rewrite Ht. apply IH.
Qed.

Lemma fold_push_messages taskId l c ms cm :
  truthy taskId = false →
  heap cm !! l = Some c →
  messages_at l
    (fold_left
       (fun cm m =>
          if truthy taskId then snd (addMessage cfg taskId m now cm)
          else update_at (fun c => set_messages (messages c ++ [m]) c) l cm)
       ms cm)
  = messages c ++ ms.
Proof.
  intros Ht. rewrite Ht.
  revert c cm. induction ms as [|m ms IH]; intros c cm Hc.
  - simpl. unfold messages_at. rewrite Hc, app_nil_r. reflexivity.
  - simpl fold_left.
    erewrite IH.
    2: { unfold update_at. simpl. rewrite list_lookup_alter_eq, Hc.
         reflexivity. }
    simpl. rewrite <- app_assoc. reflexivity.
Qed.

Lemma fold_messages_anonymous taskId ms cm :
  truthy taskId = false →
  let r := fold_messages cfg now taskId ms cm in
  messages_at (fst r) (snd r) = anonymous_messages cfg ms.
Proof.
  intros Ht r. subst r. unfold fold_messages.
  pose proof (getContext_cases cfg taskId now cm) as H. cbv zeta in H.
  destruct H as [(id & -> & Hid & _)
                | [(id & -> & Hid & _) | (_ & Hfst & Hsnd)]];
    try (simpl in Ht; congruence).
  destruct (getContext cfg taskId now cm) as [l cm1]. simpl in Hfst, Hsnd.
  subst l cm1.
  assert (heap {| heap := heap cm ++ [new_context cfg now];
                  contexts := contexts cm |} !! length (heap cm)
          = Some (new_context cfg now)) as Hnew.
  { simpl. rewrite lookup_app_r by lia. rewrite Nat.sub_diag. reflexivity. }
  destruct ms as [|first rest].
  - simpl. unfold messages_at. rewrite Hnew. reflexivity.
  - unfold anonymous_messages.
    destruct (String.eqb (role first) "system").
    + cbn [fst snd]. rewrite fold_addMessage_anonymous by exact Ht.
      erewrite messages_at_update by exact Hnew. reflexivity.
    + cbn [fst snd].
      erewrite fold_push_messages by (try exact Ht; exact Hnew).
      reflexivity.
Qed.

(** ** With a session *)

Lemma fold_addMessage_session id l s t ms cm :
  1 <= MAX_CONTEXT_MESSAGES cfg →
  str_truthy id = true →
  session_at id l (s :: last_n (Z.to_nat (MAX_CONTEXT_MESSAGES cfg)) t) cm →
  session_at id l
    (s :: last_n (Z.to_nat (MAX_CONTEXT_MESSAGES cfg)) (t ++ ms))
    (fold_left (fun cm m => snd (addMessage cfg (Some id) m now cm)) ms cm).
Proof.
  intros HM Hid. revert t cm. induction ms as [|m ms IH]; intros t cm Hs.
  - simpl. rewrite app_nil_r. exact Hs.
  - simpl.
    replace (t ++ m :: ms) with ((t ++ [m]) ++ ms)
      by (rewrite <- app_assoc; reflexivity).
    apply IH.
    pose proof (addMessage_existing cfg id l _ m now cm Hid Hs) as H.
    change ((s :: last_n (Z.to_nat (MAX_CONTEXT_MESSAGES cfg)) t) ++ [m])
      with (s :: (last_n (Z.to_nat (MAX_CONTEXT_MESSAGES cfg)) t ++ [m]))
      in H.
    rewrite trim_cons in H by exact HM.
    rewrite last_n_snoc in H by lia. exact H.
Qed.

Lemma fold_choice_session id l ms cm :
  str_truthy id = true →
  fold_left
    (fun cm m =>
       if truthy (Some id) then snd (addMessage cfg (Some id) m now cm)
       else update_at (fun c => set_messages (messages c ++ [m]) c) l cm)
    ms cm
  = fold_left (fun cm m => snd (addMessage cfg (Some id) m now cm)) ms cm.
Proof.
  intros Hid. revert cm. induction ms as [|m ms IH]; intros cm; [reflexivity|].
  simpl fold_left. rewrite IH. simpl truthy. rewrite Hid. reflexivity.
Qed.

Lemma getContext_session id cm :
  str_truthy id = true →
  registered_in_heap cm →
  let r := getContext cfg (Some id) now cm in
  session_at id (fst r) (opening_history cfg id cm) (snd r).
Proof.
  intros Hid Hr r. subst r. unfold getContext, opening_history, history_of.
  rewrite Hid. destruct (contexts cm !! id) as [l|] eqn:Hl.
  - destruct (lookup_lt_is_Some_2 (heap cm) l (Hr id l Hl)) as [c Hc].
    split; [exact Hl|]. simpl.
    rewrite list_lookup_alter_eq, Hc. simpl.
    eexists. split; [reflexivity|]. simpl.
    unfold messages_at. rewrite Hc. reflexivity.
  - split; simpl.
    + apply lookup_insert_eq.
    + rewrite lookup_app_r by lia. rewrite Nat.sub_diag. simpl.
      eexists. split; reflexivity.
Qed.

Lemma session_at_set0 id l s t first cm :
  session_at id l (s :: t) cm →
  session_at id l (first :: t)
    (update_at (fun c => set_messages (js_set0 first (messages c)) c) l cm).
Proof.
  intros [Hl [c [Hc Hm]]]. split; [exact Hl|].
  unfold update_at. simpl. rewrite list_lookup_alter_eq, Hc. simpl.
  eexists. split; [reflexivity|]. simpl. rewrite Hm. reflexivity.
Qed.

Lemma fold_messages_session id s t ms cm :
  1 <= MAX_CONTEXT_MESSAGES cfg →
  str_truthy id = true →
  registered_in_heap cm →
  opening_history cfg id cm = s :: t →
  (length t <= Z.to_nat (MAX_CONTEXT_MESSAGES cfg))%nat →
  let r := fold_messages cfg now (Some id) ms cm in
  session_at id (fst r) (folded cfg (s :: t) ms) (snd r).
Proof.
  intros HM Hid Hr Hopen Hlen r. subst r. unfold fold_messages.
  pose proof (getContext_session id cm Hid Hr) as Hs. cbv zeta in Hs.
  rewrite Hopen in Hs.
  destruct (getContext cfg (Some id) now cm) as [l cm1]. simpl in Hs.
  destruct ms as [|first rest]; [exact Hs|].
  unfold folded.
  destruct (String.eqb (role first) "system").
  - cbn [fst snd]. apply fold_addMessage_session; try assumption.
    rewrite (last_n_all _ t) by exact Hlen.
    apply (session_at_set0 id l s t first cm1 Hs).
  - cbn [fst snd]. rewrite fold_choice_session by exact Hid.
    apply fold_addMessage_session; try assumption.
    rewrite (last_n_all _ t) by exact Hlen. exact Hs.
Qed.

End Folding.

(** ** Store properties that the handlers keep *)

Lemma stable_run {A} (Q : world → Prop) (c : M A) w :
  stable Q c → Q w → Q (snd (c w)).
Proof.
  intros Hs Hw. specialize (Hs w Hw).
  destruct (c w) as [[a|msg] w']; exact Hs.
Qed.

Lemma keeps_manager_sse_closed : keeps manager sse_closed.
Proof. intros w. reflexivity. Qed.

Lemma keeps_manager_sse_send f : keeps manager (sse_send f).
Proof. intros w. reflexivity. Qed.

Lemma keeps_manager_sendSSEContent content isChunk :
  keeps manager (LlmFastReply.sendSSEContent content isChunk).
Proof.
  intros w. unfold LlmFastReply.sendSSEContent, bind, sse_closed.
  destruct (negb (str_truthy content) || closed (sse w)); [reflexivity|].
  destruct isChunk; reflexivity.
Qed.

Lemma keeps_manager_complete env r : keeps manager (LlmFastReply.complete env r).
Proof.
  intros w. unfold LlmFastReply.complete.
  destruct (disconnected_meanwhile (create_completion env r));
    destruct (completion_outcome (create_completion env r)); reflexivity.
Qed.

Lemma keeps_manager_getSmallModelResponse pc env userContent :
  keeps manager (LlmFastReply.getSmallModelResponse pc env userContent).
Proof.
  apply keeps_try_catch.
  - apply keeps_bind; [apply keeps_manager_complete|]. intros c.
    apply keeps_bind; [apply keeps_manager_sendSSEContent|].
    intros u. apply keeps_ret.
  - intros msg. apply keeps_ret.
Qed.

Lemma keeps_manager_rag_sendSSEContent content isChunk :
  keeps manager (LlmRag.sendSSEContent content isChunk).
Proof.
  intros w. unfold LlmRag.sendSSEContent, bind, sse_closed.
  destruct (negb (str_truthy content) || closed (sse w)); [reflexivity|].
  destruct isChunk; reflexivity.
Qed.

Section StoreProperty.
Variable cfg : config.
Variable env : environment.
Variable now : Z.
Variable taskId : option string.
Variable P : ContextManager → Prop.
Hypothesis P_appends : kept_by_appends cfg now taskId P.

Lemma of_store_keeps {A} (c : M A) :
  keeps manager c → stable (of_store P) c.
Proof.
  intros Hk w Hw. specialize (Hk w). unfold of_store in *.
  destruct (c w) as [[a|msg] w']; simpl in Hk; rewrite Hk; exact Hw.
Qed.

Lemma of_store_add m : stable (of_store P) (add_message cfg now taskId m).
Proof. intros w Hw. simpl. apply P_appends, Hw. Qed.

Lemma of_store_save text :
  stable (of_store P) (save_response cfg now taskId text).
Proof. apply stable_when, of_store_add. Qed.

Lemma of_store_relay_content stream r :
  stable (of_store P) (relay_content stream r).
Proof. apply of_store_keeps, relay_content_keeps_manager. Qed.

Lemma of_store_complete model contextData st :
  stable (of_store P)
    (LlmTools.complete_tool_call cfg env now taskId model contextData st).
Proof.
  unfold LlmTools.complete_tool_call.
  destruct (LlmTools.toolCallData st) as [tc0|]; [|apply stable_throw].
  apply stable_bind.
  { apply stable_when, stable_bind; [|intros u]; apply of_store_add. }
  intros u. apply stable_bind.
  { apply of_store_keeps. intros w. reflexivity. }
  intros ms. apply stable_bind.
  { apply of_store_keeps. intros w. reflexivity. }
  intros followUp. apply stable_bind; [apply of_store_relay_content|].
  intros r. apply stable_bind; [apply of_store_save|].
  intros u'. apply stable_ret.
Qed.

Lemma of_store_tools_relay model contextData stream st :
  stable (of_store P)
    (LlmTools.relay cfg env now taskId model contextData stream st).
Proof.
  revert st. induction stream as [|ev stream IH]; intros st; simpl.
  - apply stable_ret.
  - destruct ev as [c| |msg].
    + destruct (chunk_tool_calls c) as [[|d ds]|].
      * apply stable_throw.
      * apply IH.
      * destruct (LlmTools.collectingToolCall st
                  && bool_decide (chunk_finish_reason c = Some "tool_calls")).
        -- apply of_store_complete.
        -- destruct (str_truthy (chunk_content c)); [|apply IH].
           apply stable_bind.
           { apply of_store_keeps. intros w. reflexivity. }
           intros cl. destruct cl; [apply stable_ret|].
           apply stable_bind.
           { apply of_store_keeps. intros w. reflexivity. }
           intros u. apply IH.
    + apply stable_bind.
      { apply of_store_keeps. intros w. reflexivity. }
      intros u. apply IH.
    + apply stable_throw.
Qed.

Lemma of_store_require_model model :
  stable (of_store P) (require_model model).
Proof.
  apply of_store_keeps. intros w. unfold require_model.
  destruct (str_truthy model); reflexivity.
Qed.

(** The steps that the four handlers share after the provider call. *)
Lemma of_store_basic_tail model contextData :
  stable (of_store P)
    (require_model model ;;
     ms <- context_messages contextData ;;
     stream <- open_stream env (stream_request model ms false) ;;
     assistantResponse <- relay_content stream "" ;;
     save_response cfg now taskId assistantResponse ;;
     finish_stream).
Proof.
  apply stable_bind; [apply of_store_require_model|].
  intros u. apply stable_bind.
  { apply of_store_keeps. intros x. reflexivity. }
  intros ms. apply stable_bind.
  { apply of_store_keeps. intros x. reflexivity. }
  intros stream. apply stable_bind; [apply of_store_relay_content|].
  intros text. apply stable_bind; [apply of_store_save|].
  intros u'. apply of_store_keeps, finish_stream_keeps_manager.
Qed.

Lemma basic_handler_of_store model contextData w :
  P (manager w) →
  P (manager (LlmContextManager.handleStreamingRequest cfg env now taskId
                model contextData w)).
Proof.
  intros Hw. unfold LlmContextManager.handleStreamingRequest.
  destruct (unusable (sse w)); [exact Hw|].
  apply (stable_run (of_store P)); [|exact Hw].
  apply stable_try_catch; [apply of_store_basic_tail|].
  intros msg. apply of_store_keeps, report_error_keeps_manager.
Qed.

Lemma tools_handler_of_store model contextData w :
  P (manager w) →
  P (manager (LlmTools.handleStreamingRequest cfg env now taskId model
                contextData w)).
Proof.
  intros Hw. unfold LlmTools.handleStreamingRequest.
  destruct (unusable (sse w)); [exact Hw|].
  apply (stable_run (of_store P)); [|exact Hw].
  apply stable_try_catch.
  - apply stable_bind; [apply of_store_require_model|].
    intros u. apply stable_bind.
    { apply of_store_keeps. intros x. reflexivity. }
    intros ms. apply stable_bind.
    { apply of_store_keeps. intros x. reflexivity. }
    intros stream. apply stable_bind; [apply of_store_tools_relay|].
    intros st. apply stable_bind; [apply stable_when, of_store_save|].
    intros u'. apply of_store_keeps, finish_stream_keeps_manager.
  - intros msg. apply of_store_keeps, report_error_keeps_manager.
Qed.

Lemma fast_handler_of_store pc model contextData e w :
  P (manager w) →
  P (manager (LlmFastReply.handleStreamingRequest cfg pc env now taskId
                model contextData e w)).
Proof.
  intros Hw. unfold LlmFastReply.handleStreamingRequest.
  destruct (unusable (sse w)); [exact Hw|].
  apply (stable_run (of_store P)); [|exact Hw].
  apply stable_try_catch.
  - apply stable_bind.
    { apply of_store_keeps. intros x. unfold LlmFastReply.lastMessage.
      destruct (ev_messages e); reflexivity. }
    intros last_message. apply stable_bind.
    { apply stable_when, of_store_keeps, keeps_bind.
      - apply keeps_manager_getSmallModelResponse.
      - intros b. apply keeps_ret. }
    intros u. apply of_store_basic_tail.
  - intros msg. apply of_store_keeps, report_error_keeps_manager.
Qed.

Section Retrieval.
Context {vector num : Type}.
Variable num_leb : num → num → bool.
Variable rc : LlmRag.rag_config num.
Variable sc : LlmRag.scoring vector num.
Variable documents : list (LlmRag.document vector).
Variable contextData : loc.
Hypothesis P_instruction : kept_by_instruction contextData P.

Lemma of_store_enhance_context userQuery :
  stable (of_store P)
    (LlmRag.enhance_context num_leb rc sc documents contextData userQuery).
Proof.
  unfold LlmRag.enhance_context. apply stable_when, stable_bind.
  { apply of_store_keeps. intros x. reflexivity. }
  intros ms. destruct ms as [|m0 ms]; [apply stable_throw|].
  intros w Hw. simpl. apply P_instruction, Hw.
Qed.

Lemma keeps_manager_append_references text :
  keeps manager (LlmRag.append_references rc contextData text).
Proof.
  unfold LlmRag.append_references.
  destruct (LlmRag.rag_enabled rc); [|apply keeps_ret].
  apply keeps_bind; [intros x; reflexivity|].
  intros ms. destruct ms as [|m0 ms]; [apply keeps_throw|].
  destruct (sources m0) as [[|s rest]|]; try apply keeps_ret.
  apply keeps_bind; [apply keeps_manager_sse_closed|]. intros cl.
  apply keeps_bind.
  - apply keeps_when, keeps_manager_rag_sendSSEContent.
  - intros u. apply keeps_ret.
Qed.

(** The handler of llm-rag after the instruction has been enhanced. *)
Lemma of_store_rag_tail model userQuery :
  stable (of_store P)
    (require_model model ;;
     when (LlmRag.rag_enabled rc && truthy userQuery)
          (LlmRag.sendSSEContent LlmRag.retrieval_notice true) ;;
     ms <- context_messages contextData ;;
     stream <- open_stream env (stream_request model ms false) ;;
     assistantResponse <- relay_content stream "" ;;
     assistantResponse <-
       LlmRag.append_references rc contextData assistantResponse ;;
     save_response cfg now taskId assistantResponse ;;
     finish_stream).
Proof.
  apply stable_bind; [apply of_store_require_model|].
  intros u1. apply stable_bind.
  { apply stable_when, of_store_keeps, keeps_manager_rag_sendSSEContent. }
  intros u2. apply stable_bind.
  { apply of_store_keeps. intros x. reflexivity. }
  intros ms'. apply stable_bind.
  { apply of_store_keeps. intros x. reflexivity. }
  intros stream. apply stable_bind; [apply of_store_relay_content|].
  intros text. apply stable_bind.
  { apply of_store_keeps, keeps_manager_append_references. }
  intros text'. apply stable_bind; [apply of_store_save|].
  intros u'. apply of_store_keeps, finish_stream_keeps_manager.
Qed.

Lemma rag_handler_of_store model w :
  P (manager w) →
  P (manager (LlmRag.handleStreamingRequest num_leb cfg rc sc documents env
                now taskId model contextData w)).
Proof.
  intros Hw. unfold LlmRag.handleStreamingRequest.
  destruct (unusable (sse w)); [exact Hw|].
  apply (stable_run (of_store P)); [|exact Hw].
  apply stable_try_catch.
  - apply stable_bind.
    { apply of_store_keeps. intros x. reflexivity. }
    intros ms. apply stable_bind; [apply of_store_enhance_context|].
    intros u. apply of_store_rag_tail.
  - intros msg. apply of_store_keeps, report_error_keeps_manager.
Qed.

End Retrieval.

End StoreProperty.

(** ** The size of the stored histories *)

Section Sized.
Variable cfg : config.
Hypothesis limit_positive : 1 <= MAX_CONTEXT_MESSAGES cfg.

Lemma sized_store_registered cm :
  sized_store cfg cm → registered_in_heap cm.
Proof.
  intros Hs id l Hl. destruct (Hs id l Hl) as (c & Hc & _).
  apply lookup_lt_Some in Hc. exact Hc.
Qed.

Lemma sized_store_empty : sized_store cfg empty_manager.
Proof. intros id l H. simpl in H. rewrite lookup_empty in H. discriminate. Qed.

(** A change of the messages of one context object that keeps their
    number within the bound. *)
Lemma update_at_sized f l cm :
  (∀ c, (1 <= length (messages c))%nat →
        Z.of_nat (length (messages c)) <= MAX_CONTEXT_MESSAGES cfg + 1 →
        (1 <= length (messages (f c)))%nat
        ∧ Z.of_nat (length (messages (f c)))
          <= MAX_CONTEXT_MESSAGES cfg + 1) →
  sized_store cfg cm → sized_store cfg (update_at f l cm).
Proof.
  intros Hf Hs id l' Hl'. destruct (Hs id l' Hl') as (c & Hc & H1 & H2).
  unfold update_at. simpl.
  destruct (decide (l = l')) as [<-|Hne].
  - rewrite list_lookup_alter_eq, Hc. simpl. eexists. split; [reflexivity|].
    apply Hf; assumption.
  - rewrite list_lookup_alter_ne by exact Hne. eauto.
Qed.

(** A change of a context object that no session holds. *)
Lemma update_at_unregistered_sized f l cm :
  unregistered l cm →
  sized_store cfg cm → sized_store cfg (update_at f l cm).
Proof.
  intros Hun Hs id l' Hl'. destruct (Hs id l' Hl') as (c & Hc & H1 & H2).
  unfold update_at. simpl.
  rewrite list_lookup_alter_ne by (intros <-; exact (Hun id Hl')). eauto.
Qed.

Lemma getContext_sized taskId now cm :
  sized_store cfg cm → sized_store cfg (snd (getContext cfg taskId now cm)).
Proof.
  intros Hs.
  pose proof (sized_store_registered cm Hs) as Hr.
  pose proof (getContext_cases cfg taskId now cm) as H. cbv zeta in H.
  destruct H as [(id & -> & Hid & Hl & ->)
                | [(id & -> & Hid & Hnone & Hfst & ->) | (Hno & Hfst & ->)]].
  - apply update_at_sized; [|exact Hs]. intros c H1 H2. simpl. auto.
  - intros id0 l0. simpl.
    destruct (decide (id = id0)) as [E|Hne].
    + rewrite <- E, lookup_insert_eq. intros [= <-].
      rewrite lookup_app_r by lia. rewrite Nat.sub_diag. simpl.
      eexists. split; [reflexivity|]. simpl. lia.
    + rewrite lookup_insert_ne by exact Hne. intros Hl0.
      destruct (Hs id0 l0 Hl0) as (c & Hc & H1 & H2).
      rewrite lookup_app_l by (apply lookup_lt_Some in Hc; exact Hc). eauto.
  - intros id0 l0 Hl0. simpl in *.
    destruct (Hs id0 l0 Hl0) as (c & Hc & H1 & H2).
    rewrite lookup_app_l by (apply lookup_lt_Some in Hc; exact Hc). eauto.
Qed.

Lemma trim_sized (ms : list message) (m : message) :
  (1 <= length ms)%nat →
  (1 <= length (trim cfg (ms ++ [m])))%nat
  ∧ Z.of_nat (length (trim cfg (ms ++ [m]))) <= MAX_CONTEXT_MESSAGES cfg + 1.
Proof.
  intros H1. destruct ms as [|s t]; [simpl in H1; lia|].
  simpl app. rewrite trim_cons by exact limit_positive.
  simpl length. rewrite last_n_length. lia.
Qed.

Lemma addMessage_sized taskId m now cm :
  sized_store cfg cm →
  sized_store cfg (snd (addMessage cfg taskId m now cm)).
Proof.
  intros Hs. unfold addMessage. destruct (truthy taskId); [|exact Hs].
  pose proof (getContext_sized taskId now cm Hs) as Hs1.
  destruct (getContext cfg taskId now cm) as [l cm1]. simpl in *.
  apply update_at_sized; [|exact Hs1].
  intros c H1 H2. simpl. apply trim_sized, H1.
Qed.

Lemma set0_sized m l cm :
  sized_store cfg cm →
  sized_store cfg
    (update_at (fun c => set_messages (js_set0 m (messages c)) c) l cm).
Proof.
  apply update_at_sized. intros c H1 H2. simpl.
  destruct (messages c); simpl in *; lia.
Qed.

Lemma cleanExpiredContexts_sized now cm :
  sized_store cfg cm → sized_store cfg (cleanExpiredContexts cfg now cm).
Proof.
  intros Hs id l H. simpl in *.
  apply map_lookup_filter_Some in H as [H _]. exact (Hs id l H).
Qed.

Lemma fold_addMessage_sized taskId now ms cm :
  sized_store cfg cm →
  sized_store cfg
    (fold_left (fun cm m => snd (addMessage cfg taskId m now cm)) ms cm).
Proof.
  revert cm. induction ms as [|m ms IH]; intros cm Hs; [exact Hs|].
  simpl. apply IH, addMessage_sized, Hs.
Qed.

Lemma fold_push_sized l ms cm :
  unregistered l cm →
  sized_store cfg cm →
  sized_store cfg
    (fold_left
       (fun cm m =>
          update_at (fun c => set_messages (messages c ++ [m]) c) l cm)
       ms cm).
Proof.
  revert cm. induction ms as [|m ms IH]; intros cm Hun Hs; [exact Hs|].
  simpl. apply IH.
  - exact Hun.
  - apply update_at_unregistered_sized; assumption.
Qed.

Lemma fold_messages_sized now taskId ms cm :
  sized_store cfg cm →
  sized_store cfg (snd (fold_messages cfg now taskId ms cm)).
Proof.
  intros Hs. unfold fold_messages.
  pose proof (getContext_sized taskId now cm Hs) as Hs1.
  pose proof (getContext_anonymous cfg taskId now cm) as Hanon.
  cbv zeta in Hanon.
  destruct (getContext cfg taskId now cm) as [l cm1]. simpl in Hs1, Hanon.
  destruct ms as [|first rest]; [exact Hs1|].
  destruct (String.eqb (role first) "system"); cbn [snd].
  - apply fold_addMessage_sized, set0_sized, Hs1.
  - destruct (truthy taskId) eqn:Ht; cbv beta iota.
    + apply fold_addMessage_sized, Hs1.
    + destruct (Hanon eq_refl (sized_store_registered cm Hs))
        as (_ & _ & _ & Hpriv).
      apply fold_push_sized; [apply Hpriv|exact Hs1].
Qed.

End Sized.

(** ** The sessions that a request does not name *)

Section Untouched.
Variable cfg : config.
Variable now : Z.
Variable taskId : option string.
Variable id' : string.
Hypothesis other_session : taskId ≠ Some id'.

Lemma getContext_not_held cm :
  well_formed cm →
  contexts (snd (getContext cfg taskId now cm)) !! id'
  ≠ Some (fst (getContext cfg taskId now cm)).
Proof.
  intros [Hr Hd].
  pose proof (getContext_cases cfg taskId now cm) as H. cbv zeta in H.
  destruct H as [(id & E & Hid & Hl & ->)
                | [(id & E & Hid & Hnone & -> & ->) | (Hno & -> & ->)]].
  - simpl. intros Hl'. apply other_session. rewrite E. f_equal.
    exact (Hd id id' _ Hl Hl').
  - simpl. rewrite lookup_insert_ne by congruence.
    intros Hl'. specialize (Hr id' _ Hl'). lia.
  - simpl. intros Hl'. specialize (Hr id' _ Hl'). lia.
Qed.

Lemma untouched_update_at f before l cm :
  untouched id' before l cm → untouched id' before l (update_at f l cm).
Proof.
  intros (Hwf & Hc & Hh & Hl). split; [|split; [|split]].
  - apply update_at_well_formed, Hwf.
  - exact Hc.
  - rewrite <- Hh. apply history_of_update_at. left. exact Hl.
  - exact Hl.
Qed.

Lemma untouched_appends before l :
  kept_by_appends cfg now taskId (untouched id' before l).
Proof.
  intros m cm (Hwf & Hc & Hh & Hl).
  destruct (addMessage_other cfg taskId m now cm id' Hwf other_session)
    as [Hh' Hc'].
  split; [|split; [|split]].
  - apply addMessage_well_formed, Hwf.
  - rewrite Hc'. exact Hc.
  - rewrite Hh'. exact Hh.
  - rewrite Hc'. exact Hl.
Qed.

Lemma untouched_instruction before l :
  kept_by_instruction l (untouched id' before l).
Proof. intros m cm H. apply untouched_update_at, H. Qed.

Lemma fold_addMessage_untouched before l ms cm :
  untouched id' before l cm →
  untouched id' before l
    (fold_left (fun cm m => snd (addMessage cfg taskId m now cm)) ms cm).
Proof.
  revert cm. induction ms as [|m ms IH]; intros cm H; [exact H|].
  simpl. apply IH, untouched_appends, H.
Qed.

Lemma fold_push_untouched before l ms cm :
  untouched id' before l cm →
  untouched id' before l
    (fold_left
       (fun cm m =>
          update_at (fun c => set_messages (messages c ++ [m]) c) l cm)
       ms cm).
Proof.
  revert cm. induction ms as [|m ms IH]; intros cm H; [exact H|].
  simpl. apply IH, untouched_update_at, H.
Qed.

Lemma fold_messages_untouched ms cm :
  well_formed cm →
  untouched id' cm (fst (fold_messages cfg now taskId ms cm))
    (snd (fold_messages cfg now taskId ms cm)).
Proof.
  intros Hwf. unfold fold_messages.
  pose proof (getContext_well_formed cfg taskId now cm Hwf) as Hwf1.
  pose proof (getContext_not_held cm Hwf) as Hl.
  destruct (getContext_history cfg taskId now cm id' (proj1 Hwf))
    as [Hh Hc]; [right; exact other_session|].
  destruct (getContext cfg taskId now cm) as [l cm1].
  simpl in Hwf1, Hl, Hh, Hc.
  assert (untouched id' cm l cm1) as H1 by (repeat split; assumption || apply Hwf1).
  destruct ms as [|first rest]; [exact H1|].
  destruct (String.eqb (role first) "system"); cbn [fst snd].
  - apply fold_addMessage_untouched, untouched_update_at, H1.
  - destruct (truthy taskId); cbv beta iota.
    + apply fold_addMessage_untouched, H1.
    + apply fold_push_untouched, H1.
Qed.

End Untouched.

Lemma tools_handler_first_request cfg env now taskId model contextData w :
  unusable (sse w) = false →
  str_truthy model = true →
  ∃ more,
    requests (LlmTools.handleStreamingRequest cfg env now taskId model
                contextData w)
    = requests w
      ++ stream_request model (messages_at contextData (manager w)) true
         :: more.
Proof.
  intros Hu Hmodel. rewrite tools_handler_run by assumption.
  rewrite (try_catch_bind_keeps requests).
  2: { intros st. apply keeps_bind.
       - apply keeps_when, save_response_keeps_requests.
       - intros u. apply finish_stream_keeps; intros; intros x; reflexivity. }
  2: { intros msg. apply report_error_keeps; intros; intros x; reflexivity. }
  match goal with
  | |- context [LlmTools.relay _ _ _ _ _ _ ?stream ?st ?w1] =>
      destruct (relay_requests cfg env now taskId model contextData
                  stream st w1) as [H|[ms H]]; cbv zeta in H; rewrite H
  end.
  - exists []. reflexivity.
  - eexists [_]. simpl. rewrite <- app_assoc. reflexivity.
Qed.

(** X11.  A request without session identifier.  The provider is sent the
    default instruction followed by all the supplied messages, however
    many they are; but when the first supplied message is an instruction
    message, the provider is sent that message alone: the messages that
    follow it in the request are dropped. *)
Theorem anonymous_request_messages
    (cfg : config) (env : environment) (now : Z) (header : option string)
    (e : event) (s : channel) (cm : ContextManager) :
  truthy (resolve_taskId header e) = false →
  unusable s = false →
  str_truthy (modelToUse cfg e) = true →
  requests (LlmContextManager.main cfg env now header e s cm)
  = [stream_request (modelToUse cfg e)
       (anonymous_messages cfg (event_messages e)) false]
  ∧ ∃ more,
      requests (LlmTools.main cfg env now header e s cm)
      = stream_request (modelToUse cfg e)
          (anonymous_messages cfg (event_messages e)) true :: more.
Proof.
  intros Ht Hu Hmodel.
  pose proof (fold_messages_anonymous cfg now _ (event_messages e) cm Ht)
    as Hms. cbv zeta in Hms.
  unfold LlmContextManager.main, LlmTools.main.
  destruct (fold_messages cfg now (resolve_taskId header e)
              (event_messages e) cm) as [l cm1].
  simpl in Hms. split.
  - rewrite basic_handler_requests by assumption.
    simpl. rewrite Hms. reflexivity.
  - destruct (tools_handler_first_request cfg env now
                (resolve_taskId header e) (modelToUse cfg e) l
                (initial_world cm1 s) Hu Hmodel) as [more H].
    exists more. rewrite H. simpl. rewrite Hms. reflexivity.
Qed.

Lemma anonymous_request_messages_witness :
  truthy (resolve_taskId None
            (request_with [system_message "Be brief";
                          plain_message "user" "hi"])) = false
  ∧ unusable open_channel = false
  ∧ str_truthy "gpt-4o" = true
  ∧ requests (LlmContextManager.main (sample_config 10) sample_environment
                0 None
                (request_with [system_message "Be brief";
                              plain_message "user" "hi"])
                open_channel empty_manager)
    = [stream_request "gpt-4o" [system_message "Be brief"] false].
Proof.
  split; [reflexivity|]. split; [reflexivity|]. split; [reflexivity|].
  exact (proj1
    (anonymous_request_messages (sample_config 10) sample_environment 0 None
       (request_with [system_message "Be brief"; plain_message "user" "hi"])
       open_channel empty_manager eq_refl eq_refl eq_refl)).
Defined.

Lemma opening_history_sized cfg id cm :
  0 <= MAX_CONTEXT_MESSAGES cfg →
  sized_store cfg cm →
  ∃ s t, opening_history cfg id cm = s :: t
         ∧ (length t <= Z.to_nat (MAX_CONTEXT_MESSAGES cfg))%nat.
Proof.
  intros HM Hs. unfold opening_history, history_of.
  destruct (contexts cm !! id) as [l|] eqn:Hl.
  - destruct (Hs id l Hl) as (c & Hc & H1 & H2).
    unfold messages_at. rewrite Hc. simpl.
    destruct (messages c) as [|s t]; [simpl in H1; lia|].
    exists s, t. split; [reflexivity|]. simpl in H2. lia.
  - simpl. eexists _, []. split; [reflexivity|]. simpl. lia.
Qed.

(** X12.  A request of the session [id].  The supplied messages are taken into
    the stored history: an instruction message that comes first replaces
    the stored instruction, the other messages are appended, and of the
    messages after the instruction only the last [MAX_CONTEXT_MESSAGES]
    are kept.  That history is what the provider is sent.  When the
    output channel is unusable the provider is not called and nothing is
    written, but the supplied messages have been stored all the same. *)
Theorem session_request_messages
    (cfg : config) (env : environment) (now : Z) (header : option string)
    (e : event) (s : channel) (cm : ContextManager) (id : string) :
  resolve_taskId header e = Some id →
  1 <= MAX_CONTEXT_MESSAGES cfg →
  sized_store cfg cm →
  str_truthy (modelToUse cfg e) = true →
  let h := folded cfg (opening_history cfg id cm) (event_messages e) in
  let w := LlmContextManager.main cfg env now header e s cm in
  history_of id
    (snd (fold_messages cfg now (Some id) (event_messages e) cm)) = Some h
  ∧ (unusable s = false →
     requests w = [stream_request (modelToUse cfg e) h false])
  ∧ (unusable s = true →
     requests w = [] ∧ sse w = s ∧ history_of id (manager w) = Some h).
Proof.
  intros Hres HM Hs Hmodel h w. subst h w.
  pose proof (resolve_taskId_truthy header e id Hres) as Hid.
  destruct (opening_history_sized cfg id cm ltac:(lia) Hs)
    as (s0 & t & Hopen & Hlen).
  pose proof (fold_messages_session cfg now id s0 t (event_messages e) cm
                HM Hid (sized_store_registered cfg cm Hs) Hopen Hlen) as Hf.
  cbv zeta in Hf. rewrite <- Hopen in Hf.
  unfold LlmContextManager.main. rewrite Hres.
  destruct (fold_messages cfg now (Some id) (event_messages e) cm)
    as [l cm1]. simpl in Hf. cbn [snd].
  split; [exact (session_at_history _ _ _ _ Hf)|]. split.
  - intros Hu. rewrite basic_handler_requests by assumption.
    simpl. rewrite (session_at_messages _ _ _ _ Hf). reflexivity.
  - intros Hu. unfold LlmContextManager.handleStreamingRequest.
    simpl sse. rewrite Hu. simpl.
    split; [reflexivity|]. split; [reflexivity|].
    exact (session_at_history _ _ _ _ Hf).
Qed.

Lemma session_request_messages_witness :
  resolve_taskId (Some "s1")
    (request_with [plain_message "user" "one"; plain_message "user" "two"])
  = Some "s1"
  ∧ 1 <= MAX_CONTEXT_MESSAGES (sample_config 1)
  ∧ sized_store (sample_config 1) empty_manager
  ∧ str_truthy (modelToUse (sample_config 1)
                  (request_with [plain_message "user" "one";
                                 plain_message "user" "two"])) = true
  ∧ history_of "s1"
      (snd (fold_messages (sample_config 1) 0 (Some "s1")
              [plain_message "user" "one"; plain_message "user" "two"]
              empty_manager))
    = Some [system_message "You are a helpful assistant";
            plain_message "user" "two"].
Proof.
  split; [reflexivity|]. split; [simpl; lia|].
  split; [apply sized_store_empty|]. split; [reflexivity|].
  exact (proj1
    (session_request_messages (sample_config 1) sample_environment 0
       (Some "s1")
       (request_with [plain_message "user" "one"; plain_message "user" "two"])
       open_channel empty_manager "s1" eq_refl ltac:(simpl; lia)
       (sized_store_empty (sample_config 1)) eq_refl)).
Defined.

(** X13.  With a positive limit, no request makes a stored history longer than
    [MAX_CONTEXT_MESSAGES + 1] messages or empty, whichever of the four
    functions handles it and however it ends; nor does the sweep. *)
Theorem stored_histories_stay_sized
    {vector num : Type} (num_leb : num → num → bool) (cfg : config)
    (pc : LlmFastReply.progressive_config) (rc : LlmRag.rag_config num)
    (sc : LlmRag.scoring vector num)
    (documents : list (LlmRag.document vector)) (env : environment)
    (now : Z) (header : option string) (e : event) (s : channel)
    (cm : ContextManager) :
  1 <= MAX_CONTEXT_MESSAGES cfg →
  sized_store cfg cm →
  sized_store cfg
    (manager (LlmContextManager.main cfg env now header e s cm))
  ∧ sized_store cfg
      (manager (LlmFastReply.main cfg pc env now header e s cm))
  ∧ sized_store cfg (manager (LlmTools.main cfg env now header e s cm))
  ∧ sized_store cfg
      (manager (LlmRag.main num_leb cfg rc sc documents env now header e s
                  cm))
  ∧ sized_store cfg (cleanExpiredContexts cfg now cm).
Proof.
  intros HM Hs.
  pose proof (fold_messages_sized cfg HM now (resolve_taskId header e)
                (event_messages e) cm Hs) as Hf.
  assert (kept_by_appends cfg now (resolve_taskId header e)
            (sized_store cfg)) as Happ.
  { intros m cm0. apply addMessage_sized, HM. }
  unfold LlmContextManager.main, LlmFastReply.main, LlmTools.main,
    LlmRag.main.
  destruct (fold_messages cfg now (resolve_taskId header e)
              (event_messages e) cm) as [l cm1]. simpl in Hf.
  split; [|split; [|split; [|split]]].
  - apply basic_handler_of_store; assumption.
  - apply fast_handler_of_store; assumption.
  - apply tools_handler_of_store; assumption.
  - apply rag_handler_of_store; try assumption.
    intros m cm0. apply set0_sized.
  - apply cleanExpiredContexts_sized, Hs.
Qed.

Lemma stored_histories_stay_sized_witness :
  1 <= MAX_CONTEXT_MESSAGES (sample_config 10)
  ∧ sized_store (sample_config 10) empty_manager
  ∧ sized_store (sample_config 10)
      (manager (LlmTools.main (sample_config 10) weather_environment 0
                  (Some "s1") sample_event open_channel empty_manager)).
Proof.
  split; [simpl; lia|]. split; [apply sized_store_empty|].
  exact (proj1 (proj2 (proj2
    (stored_histories_stay_sized Z.leb (sample_config 10)
       (sample_progressive false) sample_rag_config sample_scoring
       sample_corpus weather_environment 0 (Some "s1") sample_event
       open_channel empty_manager ltac:(simpl; lia)
       (sized_store_empty (sample_config 10)))))).
Defined.

(** X14.  A request changes the history of no session but its own: for every
    session identifier other than the one of the request, the history is
    after the request what it was before, whichever of the four functions
    handles the request and however it ends. *)
Theorem requests_leave_other_sessions_alone
    {vector num : Type} (num_leb : num → num → bool) (cfg : config)
    (pc : LlmFastReply.progressive_config) (rc : LlmRag.rag_config num)
    (sc : LlmRag.scoring vector num)
    (documents : list (LlmRag.document vector)) (env : environment)
    (now : Z) (header : option string) (e : event) (s : channel)
    (cm : ContextManager) (id' : string) :
  well_formed cm →
  resolve_taskId header e ≠ Some id' →
  let basic := LlmContextManager.main cfg env now header e s cm in
  let fast := LlmFastReply.main cfg pc env now header e s cm in
  let tools := LlmTools.main cfg env now header e s cm in
  let rag := LlmRag.main num_leb cfg rc sc documents env now header e s cm in
  (history_of id' (manager basic) = history_of id' cm
   ∧ well_formed (manager basic))
  ∧ (history_of id' (manager fast) = history_of id' cm
     ∧ well_formed (manager fast))
  ∧ (history_of id' (manager tools) = history_of id' cm
     ∧ well_formed (manager tools))
  ∧ (history_of id' (manager rag) = history_of id' cm
     ∧ well_formed (manager rag)).
Proof.
  intros Hwf Hne basic fast tools rag. subst basic fast tools rag.
  pose proof (fold_messages_untouched cfg now (resolve_taskId header e) id'
                Hne (event_messages e) cm Hwf) as Hf.
  unfold LlmContextManager.main, LlmFastReply.main, LlmTools.main,
    LlmRag.main.
  destruct (fold_messages cfg now (resolve_taskId header e)
              (event_messages e) cm) as [l cm1]. simpl in Hf.
  pose proof (untouched_appends cfg now (resolve_taskId header e) id' Hne
                cm l) as Happ.
  assert (∀ cm2, untouched id' cm l cm2 →
            history_of id' cm2 = history_of id' cm ∧ well_formed cm2)
    as Hend.
  { intros cm2 (H1 & _ & H2 & _). auto. }
  split; [|split; [|split]]; apply Hend.
  - apply (basic_handler_of_store cfg env now _ _ Happ). exact Hf.
  - apply (fast_handler_of_store cfg env now _ _ Happ). exact Hf.
  - apply (tools_handler_of_store cfg env now _ _ Happ). exact Hf.
  - apply (rag_handler_of_store cfg env now _ _ Happ); [|exact Hf].
    apply untouched_instruction.
Qed.

Lemma requests_leave_other_sessions_alone_witness :
  well_formed
    (manager (LlmContextManager.main (sample_config 10) sample_environment
                0 (Some "s2") sample_event open_channel empty_manager))
  ∧ resolve_taskId (Some "s1") sample_event ≠ Some "s2"
  ∧ history_of "s2"
      (manager
         (LlmTools.main (sample_config 10) weather_environment 1
            (Some "s1") sample_event open_channel
            (manager (LlmContextManager.main (sample_config 10)
                        sample_environment 0 (Some "s2") sample_event
                        open_channel empty_manager))))
    = Some [system_message "You are a helpful assistant";
            plain_message "user" "hi"].
Proof.
  assert (well_formed
    (manager (LlmContextManager.main (sample_config 10) sample_environment
                0 (Some "s2") sample_event open_channel empty_manager)))
    as Hwf.
  { refine (proj2 (proj1
      (requests_leave_other_sessions_alone Z.leb (sample_config 10)
         (sample_progressive false) sample_rag_config sample_scoring
         sample_corpus sample_environment 0 (Some "s2") sample_event
         open_channel empty_manager "other" well_formed_empty _))).
    discriminate. }
  split; [exact Hwf|]. split; [discriminate|].
  rewrite (proj1 (proj1 (proj2 (proj2
    (requests_leave_other_sessions_alone Z.leb (sample_config 10)
       (sample_progressive false) sample_rag_config sample_scoring
       sample_corpus weather_environment 1 (Some "s1") sample_event
       open_channel _ "s2" Hwf ltac:(discriminate)))))).
  reflexivity.
Defined.

(** X15.  A request of the session [id] that the provider answers with the
    deltas [pre], of which some carry text.  The session holds afterwards
    the history that was sent to the provider followed by the answer as
    an assistant message, cut to the limit like every append: it is the
    history with which the next request of the session starts. *)
Theorem reply_joins_the_session
    (cfg : config) (env : environment) (now : Z) (header : option string)
    (e : event) (s : channel) (cm : ContextManager) (id : string)
    (pre : list chunk) :
  resolve_taskId header e = Some id →
  1 <= MAX_CONTEXT_MESSAGES cfg →
  sized_store cfg cm →
  unusable s = false →
  str_truthy (modelToUse cfg e) = true →
  let h := folded cfg (opening_history cfg id cm) (event_messages e) in
  create_stream env (stream_request (modelToUse cfg e) h false)
  = map Delta pre →
  text_of pre ≠ "" →
  let w := LlmContextManager.main cfg env now header e s cm in
  let after :=
    trim cfg (h ++ [plain_message "assistant" (text_of pre)]) in
  history_of id (manager w) = Some after
  ∧ opening_history cfg id (manager w) = after.
Proof.
  intros Hres HM Hs Hu Hmodel h Hstream Htext w after. subst w.
  pose proof (resolve_taskId_truthy header e id Hres) as Hid.
  destruct (opening_history_sized cfg id cm ltac:(lia) Hs)
    as (s0 & t & Hopen & Hlen).
  pose proof (fold_messages_session cfg now id s0 t (event_messages e) cm
                HM Hid (sized_store_registered cfg cm Hs) Hopen Hlen) as Hf.
  cbv zeta in Hf. rewrite <- Hopen in Hf. fold h in Hf.
  unfold LlmContextManager.main. rewrite Hres.
  destruct (fold_messages cfg now (Some id) (event_messages e) cm)
    as [l cm1]. simpl in Hf.
  assert (history_of id
            (manager
               (LlmContextManager.handleStreamingRequest cfg env now
                  (Some id) (modelToUse cfg e) l (initial_world cm1 s)))
          = Some after) as Hafter.
  { rewrite basic_handler_run by assumption.
    simpl manager. rewrite (session_at_messages _ _ _ _ Hf), Hstream.
    assert (closed (sse (requested
                           (stream_request (modelToUse cfg e) h false)
                           (initial_world cm1 s))) = false) as Hop
      by (apply usable_open, Hu).
    erewrite try_catch_bind_ok.
    2: { rewrite <- (app_nil_r (map Delta pre)).
         rewrite relay_content_open by exact Hop.
         rewrite text_of_fold, append_empty_l. reflexivity. }
    erewrite try_catch_bind_ok by apply save_response_run.
    erewrite try_catch_ok by (apply finish_stream_open; exact Hop).
    simpl manager. simpl truthy. rewrite Hid, andb_true_r.
    apply str_truthy_nonempty in Htext. rewrite Htext.
    apply (session_at_history id l).
    apply addMessage_existing; assumption. }
  split; [exact Hafter|].
  unfold opening_history. rewrite Hafter. reflexivity.
Qed.

Lemma reply_joins_the_session_witness :
  resolve_taskId (Some "s1") sample_event = Some "s1"
  ∧ 1 <= MAX_CONTEXT_MESSAGES (sample_config 10)
  ∧ sized_store (sample_config 10) empty_manager
  ∧ unusable open_channel = false
  ∧ str_truthy (modelToUse (sample_config 10) sample_event) = true
  ∧ text_of [content_chunk "Hello"] ≠ ""
  ∧ history_of "s1"
      (manager (LlmContextManager.main (sample_config 10)
                  (with_stream sample_environment
                     (map Delta [content_chunk "Hello"]))
                  0 (Some "s1") sample_event open_channel empty_manager))
    = Some [system_message "You are a helpful assistant";
            plain_message "user" "hi";
            plain_message "assistant" "Hello"].
Proof.
  split; [reflexivity|]. split; [simpl; lia|].
  split; [apply sized_store_empty|]. split; [reflexivity|].
  split; [reflexivity|]. split; [discriminate|].
  exact (proj1
    (reply_joins_the_session (sample_config 10)
       (with_stream sample_environment (map Delta [content_chunk "Hello"]))
       0 (Some "s1") sample_event open_channel empty_manager "s1"
       [content_chunk "Hello"] eq_refl ltac:(simpl; lia)
       (sized_store_empty (sample_config 10)) eq_refl eq_refl eq_refl
       ltac:(discriminate))).
Defined.

(* ================================================================== *)
(** * llm-fast-reply: the preamble and the main answer *)
(* ================================================================== *)

Lemma str_truthy_append_r a b :
  str_truthy b = true → str_truthy (a +:+ b) = true.
Proof.
  intros Hb. destruct a as [|x a]; [exact Hb|reflexivity].
Qed.

Lemma with_blank_line_truthy c :
  str_truthy (LlmFastReply.with_blank_line c) = true.
Proof.
  unfold LlmFastReply.with_blank_line.
  apply str_truthy_append_r. reflexivity.
Qed.

Lemma sendSSEContent_open content w :
  str_truthy content = true →
  closed (sse w) = false →
  LlmFastReply.sendSSEContent content true w
  = (Ok tt, logged [Send (FChunk (content_chunk content))] w).
Proof.
  intros Hc Hopen. unfold LlmFastReply.sendSSEContent, bind, sse_closed.
  rewrite Hc, Hopen. reflexivity.
Qed.

Lemma sendSSEContent_closed content isChunk w :
  closed (sse w) = true →
  LlmFastReply.sendSSEContent content isChunk w = (Ok tt, w).
Proof.
  intros Hclosed. unfold LlmFastReply.sendSSEContent, bind, sse_closed.
  rewrite Hclosed, orb_true_r. reflexivity.
Qed.

(** The call of the small model on an open channel, when the client
    stays: the request is sent, and its answer, if any, is forwarded with
    a blank line after it; a failure of the call is swallowed. *)
Lemma getSmallModelResponse_run pc env userContent w :
  closed (sse w) = false →
  let request := LlmFastReply.small_model_request pc userContent in
  disconnected_meanwhile (create_completion env request) = false →
  snd (LlmFastReply.getSmallModelResponse pc env userContent w)
  = logged (preamble_frames (create_completion env request))
      (requested request w)
  ∧ ∃ b, fst (LlmFastReply.getSmallModelResponse pc env userContent w)
         = Ok b.
Proof.
  intros Hopen request Hstay.
  unfold LlmFastReply.getSmallModelResponse, try_catch, bind at 1.
  unfold LlmFastReply.complete. fold request. rewrite Hstay.
  unfold preamble_frames.
  destruct (completion_outcome (create_completion env request)) as [msg|c].
  - simpl. rewrite logged_nil. split; [reflexivity|eauto].
  - unfold bind.
    rewrite sendSSEContent_open
      by (try apply with_blank_line_truthy; exact Hopen).
    simpl. split; [reflexivity|eauto].
Qed.

(** X16.  The handler of llm-fast-reply is the basic handler run after the
    preamble.  When the request is not eligible for a preamble it is the
    basic handler.  When it is, and the client stays during the call of
    the small model, it is the basic handler started after the request to
    the small model has been sent and its answer forwarded: the preamble
    is not part of the text that is stored, and a failed call of the
    small model changes nothing else. *)
Theorem preamble_then_basic_handler
    (cfg : config) (pc : LlmFastReply.progressive_config)
    (env : environment) (now : Z) (taskId : option string) (model : string)
    (contextData : loc) (e : event) (ms : list message) (w : world) :
  unusable (sse w) = false →
  ev_messages e = Some ms →
  let eligible :=
    LlmFastReply.enableProgressiveResponse pc e
    && LlmFastReply.is_user (last ms) in
  let request :=
    LlmFastReply.small_model_request pc
      (LlmFastReply.message_content (last ms)) in
  let answer := create_completion env request in
  (eligible = true → disconnected_meanwhile answer = false) →
  LlmFastReply.handleStreamingRequest cfg pc env now taskId model
    contextData e w
  = LlmContextManager.handleStreamingRequest cfg env now taskId model
      contextData
      (if eligible
       then logged (preamble_frames answer) (requested request w)
       else w).
Proof.
  intros Hu Hms eligible request answer Hstay.
  unfold LlmFastReply.handleStreamingRequest. rewrite Hu.
  erewrite try_catch_bind_ok
    by (unfold LlmFastReply.lastMessage; rewrite Hms; reflexivity).
  fold eligible. destruct eligible eqn:He.
  - pose proof (getSmallModelResponse_run pc env
                  (LlmFastReply.message_content (last ms)) w
                  (usable_open _ Hu) (Hstay eq_refl)) as [Hw [b Hb]].
    fold request answer in Hw.
    erewrite try_catch_bind_ok.
    2: { unfold when, bind.
         destruct (LlmFastReply.getSmallModelResponse pc env
                     (LlmFastReply.message_content (last ms)) w)
           as [r w1] eqn:Hrun.
         simpl in Hw, Hb. subst r w1. reflexivity. }
    unfold LlmContextManager.handleStreamingRequest.
    assert (unusable (sse (logged (preamble_frames answer)
                             (requested request w))) = false) as Hu'
      by exact Hu.
    rewrite Hu'. reflexivity.
  - erewrite try_catch_bind_ok by reflexivity.
    unfold LlmContextManager.handleStreamingRequest. rewrite Hu.
    reflexivity.
Qed.

Lemma preamble_then_basic_handler_witness :
  unusable (sse sample_world) = false
  ∧ ev_messages sample_event = Some [plain_message "user" "hi"]
  ∧ log (sse (LlmFastReply.handleStreamingRequest (sample_config 10)
                (sample_progressive true)
                (with_stream sample_environment
                   [Delta (content_chunk "Hello")])
                0 (Some "s1") "m" 0%nat sample_event sample_world))
    = [Send (FChunk (content_chunk
                       (LlmFastReply.with_blank_line (Some "OK"))));
       Send (FChunk (content_chunk "Hello")); Send FDone; End].
Proof.
  split; [reflexivity|]. split; [reflexivity|].
  rewrite (preamble_then_basic_handler (sample_config 10)
             (sample_progressive true)
             (with_stream sample_environment [Delta (content_chunk "Hello")])
             0 (Some "s1") "m" 0%nat sample_event
             [plain_message "user" "hi"] sample_world
             eq_refl eq_refl (fun _ => eq_refl)).
  reflexivity.
Defined.

(** X17.  A request without a [messages] field: the handler of llm-fast-reply
    reads the length of the missing field, so the request ends with one
    error frame; the provider is not called and nothing is stored. *)
Theorem request_without_messages_fails
    (cfg : config) (pc : LlmFastReply.progressive_config)
    (env : environment) (now : Z) (taskId : option string) (model : string)
    (contextData : loc) (e : event) (w : world) :
  unusable (sse w) = false →
  ev_messages e = None →
  let w' := LlmFastReply.handleStreamingRequest cfg pc env now taskId model
              contextData e w in
  (∃ msg, sse w' = closed_with [Send (FError msg); End] (sse w))
  ∧ requests w' = requests w
  ∧ manager w' = manager w.
Proof.
  intros Hu Hms w'. subst w'.
  unfold LlmFastReply.handleStreamingRequest. rewrite Hu.
  erewrite try_catch_bind_throw
    by (unfold LlmFastReply.lastMessage; rewrite Hms; reflexivity).
  rewrite report_error_open by (apply usable_open, Hu).
  simpl. eauto.
Qed.

Lemma request_without_messages_fails_witness :
  unusable (sse sample_world) = false
  ∧ ev_messages {| ev_taskId := None; ev_messages := None;
                   ev_model := Some "m";
                   ev_useProgressiveResponse := None |} = None
  ∧ requests (LlmFastReply.handleStreamingRequest (sample_config 10)
                (sample_progressive true) sample_environment 0 (Some "s1")
                "m" 0%nat
                {| ev_taskId := None; ev_messages := None;
                   ev_model := Some "m";
                   ev_useProgressiveResponse := None |}
                sample_world)
    = requests sample_world.
Proof.
  split; [reflexivity|]. split; [reflexivity|].
  exact (proj1 (proj2
    (request_without_messages_fails (sample_config 10)
       (sample_progressive true) sample_environment 0 (Some "s1") "m" 0%nat
       {| ev_taskId := None; ev_messages := None; ev_model := Some "m";
          ev_useProgressiveResponse := None |}
       sample_world eq_refl eq_refl))).
Defined.

(** On a closed channel the rest of the basic handler writes nothing. *)
Lemma basic_tail_closed cfg now taskId stream w :
  closed (sse w) = true →
  sse (snd (try_catch
              (text <- relay_content stream "" ;;
               save_response cfg now taskId text ;;
               finish_stream)
              report_error w))
  = sse w.
Proof.
  intros Hclosed.
  pose proof (frozen_try_catch (sse w) Hclosed
                (relay_content stream "")
                (fun a => save_response cfg now taskId a)
                (frozen_relay_content (sse w) Hclosed stream "")
                (fun a => frozen_keeps_channel (sse w)
                            (save_response cfg now taskId a)
                            (save_response_keeps_channel cfg now taskId a))
                w eq_refl) as H.
  destruct (try_catch _ report_error w) as [[u|msg] w']; [exact H|elim H].
Qed.

(** X18.  When the client goes away while the small model is called, nothing
    is written to the channel, not even the preamble; the request to the
    main model is sent to the provider all the same. *)
Theorem disconnect_during_preamble
    (cfg : config) (pc : LlmFastReply.progressive_config)
    (env : environment) (now : Z) (taskId : option string) (model : string)
    (contextData : loc) (e : event) (ms : list message) (w : world) :
  unusable (sse w) = false →
  str_truthy model = true →
  ev_messages e = Some ms →
  LlmFastReply.enableProgressiveResponse pc e
  && LlmFastReply.is_user (last ms) = true →
  let request :=
    LlmFastReply.small_model_request pc
      (LlmFastReply.message_content (last ms)) in
  disconnected_meanwhile (create_completion env request) = true →
  let w' := LlmFastReply.handleStreamingRequest cfg pc env now taskId model
              contextData e w in
  sse w' = {| available := available (sse w); closed := true;
              log := log (sse w) |}
  ∧ requests w'
    = requests w
      ++ [request;
          stream_request model (messages_at contextData (manager w)) false].
Proof.
  intros Hu Hmodel Hms He request Hgone w'. subst w'.
  unfold LlmFastReply.handleStreamingRequest. rewrite Hu.
  erewrite try_catch_bind_ok
    by (unfold LlmFastReply.lastMessage; rewrite Hms; reflexivity).
  rewrite He.
  assert (∃ b,
    LlmFastReply.getSmallModelResponse pc env
      (LlmFastReply.message_content (last ms)) w
    = (Ok b, disconnected (requested request w))) as [b Hrun].
  { unfold LlmFastReply.getSmallModelResponse, try_catch, bind at 1.
    unfold LlmFastReply.complete. fold request. rewrite Hgone.
    destruct (completion_outcome (create_completion env request))
      as [msg|c].
    - eexists. reflexivity.
    - unfold bind. rewrite sendSSEContent_closed by reflexivity.
      eexists. reflexivity. }
  erewrite try_catch_bind_ok
    by (unfold when, bind; rewrite Hrun; reflexivity).
  erewrite try_catch_bind_ok
    by (unfold require_model; rewrite Hmodel; reflexivity).
  erewrite try_catch_bind_ok by reflexivity.
  erewrite try_catch_bind_ok by reflexivity.
  split.
  - rewrite basic_tail_closed by reflexivity. reflexivity.
  - rewrite (try_catch_bind_keeps requests).
    + rewrite relay_content_keeps_requests. simpl.
      rewrite <- app_assoc. reflexivity.
    + intros text. apply keeps_bind.
      * apply save_response_keeps_requests.
      * intros u. apply finish_stream_keeps; intros; intros x; reflexivity.
    + intros msg. apply report_error_keeps; intros; intros x; reflexivity.
Qed.

Lemma disconnect_during_preamble_witness :
  unusable (sse sample_world) = false
  ∧ str_truthy "m" = true
  ∧ ev_messages sample_event = Some [plain_message "user" "hi"]
  ∧ log (sse (LlmFastReply.handleStreamingRequest (sample_config 10)
                (sample_progressive true)
                {| create_stream := fun _ => [Delta (content_chunk "Hello")];
                   create_completion :=
                     fun _ => {| disconnected_meanwhile := true;
                                 completion_outcome := inr (Some "OK") |};
                   JSON_parse := JSON_parse sample_environment;
                   getWeather := getWeather sample_environment |}
                0 (Some "s1") "m" 0%nat sample_event sample_world))
    = [].
Proof.
  split; [reflexivity|]. split; [reflexivity|]. split; [reflexivity|].
  rewrite (proj1
    (disconnect_during_preamble (sample_config 10) (sample_progressive true)
       {| create_stream := fun _ => [Delta (content_chunk "Hello")];
          create_completion :=
            fun _ => {| disconnected_meanwhile := true;
                        completion_outcome := inr (Some "OK") |};
          JSON_parse := JSON_parse sample_environment;
          getWeather := getWeather sample_environment |}
       0 (Some "s1") "m" 0%nat sample_event [plain_message "user" "hi"]
       sample_world eq_refl eq_refl eq_refl eq_refl eq_refl)).
  reflexivity.
Defined.

(* ================================================================== *)
(** * llm-rag: the query, the document store and the handler *)
(* ================================================================== *)

(** ** The latest query *)

Lemma findLatestUserQuery_rev_none l :
  no_query l = true → LlmRag.findLatestUserQuery_rev l = None.
Proof.
  induction l as [|m l IH]; intros H; [reflexivity|].
  simpl in *. apply andb_true_iff in H as [Hm Hl].
  unfold is_query in Hm. apply negb_true_iff in Hm. rewrite Hm.
  apply IH, Hl.
Qed.

Lemma findLatestUserQuery_rev_found a m b :
  no_query a = true → is_query m = true →
  LlmRag.findLatestUserQuery_rev (a ++ m :: b) = content m.
Proof.
  induction a as [|x a IH]; intros Ha Hm.
  - simpl. unfold is_query in Hm. rewrite Hm. reflexivity.
  - simpl in *. apply andb_true_iff in Ha as [Hx Ha].
    unfold is_query in Hx. apply negb_true_iff in Hx. rewrite Hx.
    apply IH; assumption.
Qed.

Lemma findLatestUserQuery_rev_cases l :
  no_query l = true
  ∨ ∃ a m b, l = a ++ m :: b ∧ no_query a = true ∧ is_query m = true.
Proof.
  induction l as [|x l IH]; [left; reflexivity|].
  destruct (is_query x) eqn:Hx.
  - right. exists [], x, l. auto.
  - destruct IH as [Hl|(a & m & b & -> & Ha & Hm)].
    + left. simpl. rewrite Hx, Hl. reflexivity.
    + right. exists (x :: a), m, b. simpl. rewrite Hx, Ha. auto.
Qed.

Lemma no_query_rev l : no_query (rev l) = no_query l.
Proof.
  unfold no_query. induction l as [|x l IH]; [reflexivity|].
  simpl. rewrite forallb_app, IH. simpl. rewrite andb_true_r.
  apply andb_comm.
Qed.

(** X19.  [findLatestUserQuery] returns the text of the last message that has
    the role of the user and a text that is not empty, and nothing when
    there is no such message; a user message without text is passed
    over. *)
Theorem latest_user_query (ms : list message) :
  (∀ q, LlmRag.findLatestUserQuery ms = Some q ↔
        ∃ pre m post, ms = pre ++ m :: post
                      ∧ is_query m = true ∧ content m = Some q
                      ∧ no_query post = true)
  ∧ (LlmRag.findLatestUserQuery ms = None ↔ no_query ms = true)
  ∧ (∀ q, LlmRag.findLatestUserQuery ms = Some q → q ≠ "").
Proof.
  unfold LlmRag.findLatestUserQuery.
  assert (∀ q, LlmRag.findLatestUserQuery_rev (rev ms) = Some q ↔
        ∃ pre m post, ms = pre ++ m :: post
                      ∧ is_query m = true ∧ content m = Some q
                      ∧ no_query post = true) as Hsome.
  { intros q. split.
    - intros Hq.
      destruct (findLatestUserQuery_rev_cases (rev ms))
        as [Hno|(a & m & b & Hl & Ha & Hm)].
      + rewrite (findLatestUserQuery_rev_none _ Hno) in Hq. discriminate.
      + rewrite Hl, (findLatestUserQuery_rev_found a m b Ha Hm) in Hq.
        exists (rev b), m, (rev a).
        split; [|split; [exact Hm|split; [exact Hq|]]].
        * rewrite <- (rev_involutive ms), Hl, rev_app_distr. simpl.
          rewrite <- app_assoc. reflexivity.
        * rewrite no_query_rev. exact Ha.
    - intros (pre & m & post & -> & Hm & Hq & Hpost).
      rewrite rev_app_distr. simpl. rewrite <- app_assoc. simpl.
      rewrite findLatestUserQuery_rev_found;
        [exact Hq|rewrite no_query_rev; exact Hpost|exact Hm]. }
  split; [exact Hsome|]. split.
  - split.
    + intros Hnone.
      destruct (findLatestUserQuery_rev_cases (rev ms))
        as [Hno|(a & m & b & Hl & Ha & Hm)].
      * rewrite no_query_rev in Hno. exact Hno.
      * rewrite Hl, (findLatestUserQuery_rev_found a m b Ha Hm) in Hnone.
        unfold is_query in Hm. apply andb_true_iff in Hm as [_ Hm].
        rewrite Hnone in Hm. discriminate.
    + intros Hno. apply findLatestUserQuery_rev_none.
      rewrite no_query_rev. exact Hno.
  - intros q Hq. apply Hsome in Hq as (pre & m & post & _ & Hm & Hc & _).
    unfold is_query in Hm. apply andb_true_iff in Hm as [_ Hm].
    rewrite Hc in Hm. simpl in Hm. apply str_truthy_nonempty, Hm.
Qed.

(** ** The document store *)

Lemma addDocument_all {vector num} (sc : LlmRag.scoring vector num) ds rs :
  let rs' := fold_left (fun rs d => snd (LlmRag.RAGSystem.addDocument sc d rs))
                       ds rs in
  LlmRag.RAGSystem.stored rs'
  = LlmRag.RAGSystem.stored rs ++ embedded sc ds
  ∧ LlmRag.RAGSystem.initialized rs' = LlmRag.RAGSystem.initialized rs.
Proof.
  revert rs. induction ds as [|d ds IH]; intros rs; cbv zeta.
  - simpl. rewrite app_nil_r. auto.
  - simpl fold_left. destruct (IH (snd (LlmRag.RAGSystem.addDocument sc d rs)))
      as [Hs Hi].
    rewrite Hs, Hi. unfold LlmRag.RAGSystem.addDocument, embedded.
    simpl omap.
    destruct (LlmRag.getEmbedding sc (LlmRag.RAGSystem.sd_content d)); simpl.
    + rewrite <- app_assoc. auto.
    + auto.
Qed.

Lemma omap_length {A B} (f : A → option B) (l : list A) :
  (length (omap f l) <= length l)%nat.
Proof.
  induction l as [|x l IH]; [reflexivity|].
  cbn in *. destruct (f x); cbn in *; lia.
Qed.

Lemma embedded_length {vector num} (sc : LlmRag.scoring vector num) ds :
  (length (embedded sc ds) <= length ds)%nat.
Proof. apply omap_length. Qed.

(** X20.  [initialize] stores, in their order, the sample documents whose
    embedding succeeds and leaves out the others; it marks the store as
    initialized in both cases, so that a second call changes nothing and
    a document that was left out is not tried again. *)
Theorem initialize_once
    {vector num : Type} (sc : LlmRag.scoring vector num)
    (rs : LlmRag.RAGSystem.state vector) :
  let rs' := LlmRag.RAGSystem.initialize sc rs in
  LlmRag.RAGSystem.initialized rs' = true
  ∧ LlmRag.RAGSystem.initialize sc rs' = rs'
  ∧ (LlmRag.RAGSystem.initialized rs = true → rs' = rs)
  ∧ (LlmRag.RAGSystem.initialized rs = false →
     LlmRag.RAGSystem.stored rs'
     = LlmRag.RAGSystem.stored rs
       ++ embedded sc LlmRag.RAGSystem.sampleDocuments)
  ∧ (length (LlmRag.RAGSystem.stored rs')
     <= length (LlmRag.RAGSystem.stored rs) + 5)%nat.
Proof.
  intros rs'. subst rs'. unfold LlmRag.RAGSystem.initialize.
  destruct (LlmRag.RAGSystem.initialized rs) eqn:Hi.
  - rewrite Hi. split; [reflexivity|]. split; [reflexivity|].
    split; [reflexivity|]. split; [discriminate|]. lia.
  - destruct (addDocument_all sc LlmRag.RAGSystem.sampleDocuments rs)
      as [Hs _].
    cbv zeta in Hs. cbn [LlmRag.RAGSystem.initialized
                         LlmRag.RAGSystem.stored].
    split; [reflexivity|]. split; [reflexivity|].
    split; [discriminate|]. split; [intros _; exact Hs|].
    rewrite Hs, length_app.
    apply Nat.add_le_mono_l.
    apply (embedded_length sc LlmRag.RAGSystem.sampleDocuments).
Qed.

(** ** The similarity of two vectors *)

Section CosineFacts.
Variable number : Type.
Variable zero : number.
Variables add mul div : number → number → number.
Variable sqrt : number → number.
Hypothesis mul_comm : ∀ x y, mul x y = mul y x.

Lemma accumulate_swap vecA vecB dotProduct normA normB :
  LlmRag.RAGSystem.accumulate number add mul vecA vecB
    (dotProduct, normA, normB)
  = let '(d, b, a) :=
      LlmRag.RAGSystem.accumulate number add mul vecB vecA
        (dotProduct, normB, normA) in
    (d, a, b).
Proof.
  revert vecB dotProduct normA normB.
  induction vecA as [|x vecA IH]; intros [|y vecB] d na nb;
    try reflexivity.
  simpl. rewrite IH, (mul_comm y x). reflexivity.
Qed.

Lemma accumulate_take vecA vecB sums :
  LlmRag.RAGSystem.accumulate number add mul vecA vecB sums
  = LlmRag.RAGSystem.accumulate number add mul
      (take (length vecB) vecA) (take (length vecA) vecB) sums.
Proof.
  revert vecB sums.
  induction vecA as [|x vecA IH]; intros [|y vecB] sums; try reflexivity.
  simpl. destruct sums as [[d na] nb]. apply IH.
Qed.

End CosineFacts.

(** X21.  [cosineSimilarity] reads the two vectors up to the length of the
    shorter one: the components beyond it are ignored, whatever they
    are.  With a commutative product of numbers, as that of JavaScript,
    the similarity of [vecA] and [vecB] is that of [vecB] and [vecA]. *)
Theorem cosine_similarity_of_common_prefix
    (number : Type) (zero : number) (add mul div : number → number → number)
    (sqrt : number → number) (vecA vecB : list number) :
  (∀ x y, mul x y = mul y x) →
  let cosine := LlmRag.RAGSystem.cosineSimilarity number zero add mul div
                  sqrt in
  cosine vecA vecB = cosine vecB vecA
  ∧ cosine vecA vecB
    = cosine (take (length vecB) vecA) (take (length vecA) vecB).
Proof.
  intros Hcomm cosine. subst cosine.
  unfold LlmRag.RAGSystem.cosineSimilarity. split.
  - rewrite (accumulate_swap number add mul Hcomm vecA vecB).
    destruct (LlmRag.RAGSystem.accumulate number add mul vecB vecA
                (zero, zero, zero)) as [[d b] a].
    rewrite (Hcomm (sqrt a) (sqrt b)). reflexivity.
  - rewrite <- accumulate_take. reflexivity.
Qed.

Lemma cosine_similarity_of_common_prefix_witness :
  (∀ x y : Z, x * y = y * x)
  ∧ LlmRag.RAGSystem.cosineSimilarity Z 0 Z.add Z.mul Z.div Z.sqrt
      [3; 4] [4; 3; 12]
    = LlmRag.RAGSystem.cosineSimilarity Z 0 Z.add Z.mul Z.div Z.sqrt
        [4; 3; 12] [3; 4].
Proof.
  split; [exact Z.mul_comm|].
  exact (proj1
    (cosine_similarity_of_common_prefix Z 0 Z.add Z.mul Z.div Z.sqrt
       [3; 4] [4; 3; 12] Z.mul_comm)).
Defined.

(** ** The handler *)

Lemma messages_at_first l cm m tl :
  messages_at l cm = m :: tl →
  ∃ c, heap cm !! l = Some c ∧ messages c = m :: tl.
Proof.
  unfold messages_at. destruct (heap cm !! l) as [c|]; [|discriminate].
  intros H. eauto.
Qed.

Lemma with_instruction_messages l m m0 tl cm :
  messages_at l cm = m0 :: tl →
  messages_at l (with_instruction l m cm) = m :: tl.
Proof.
  intros H. destruct (messages_at_first l cm m0 tl H) as (c & Hc & Hm).
  unfold with_instruction. erewrite messages_at_update by exact Hc.
  simpl. rewrite Hm. reflexivity.
Qed.

Lemma with_instruction_same l m0 tl cm :
  messages_at l cm = m0 :: tl → with_instruction l m0 cm = cm.
Proof.
  intros H. destruct (messages_at_first l cm m0 tl H) as (c & Hc & Hm).
  unfold with_instruction, update_at. destruct cm as [h cs]. simpl in *.
  f_equal. apply list_eq. intros i.
  destruct (decide (l = i)) as [<-|Hne].
  - rewrite list_lookup_alter_eq, Hc. simpl. f_equal.
    destruct c as [ms ca la]. simpl in *. subst ms. reflexivity.
  - rewrite list_lookup_alter_ne by exact Hne. reflexivity.
Qed.

Lemma findLatestUserQuery_truthy ms q :
  LlmRag.findLatestUserQuery ms = Some q → str_truthy q = true.
Proof.
  unfold LlmRag.findLatestUserQuery.
  induction (rev ms) as [|m l IH]; [discriminate|].
  simpl. destruct (String.eqb (role m) "user" && truthy (content m)) eqn:Hm.
  - intros Hq. apply andb_true_iff in Hm as [_ Hm].
    rewrite Hq in Hm. exact Hm.
  - exact IH.
Qed.

Lemma sourcesText_truthy srcs : str_truthy (LlmRag.sourcesText srcs) = true.
Proof. reflexivity. Qed.

Lemma rag_sendSSEContent_open content w :
  str_truthy content = true →
  closed (sse w) = false →
  LlmRag.sendSSEContent content true w
  = (Ok tt, logged [Send (FChunk (content_chunk content))] w).
Proof.
  intros Hc Hopen. unfold LlmRag.sendSSEContent, bind, sse_closed.
  rewrite Hc, Hopen. reflexivity.
Qed.

Section RetrievalHandler.
Context {vector num : Type}.
Variable num_leb : num → num → bool.
Variable cfg : config.
Variable rc : LlmRag.rag_config num.
Variable sc : LlmRag.scoring vector num.
Variable documents : list (LlmRag.document vector).
Variable env : environment.
Variable now : Z.
Variable taskId : option string.
Variable model : string.
Variable contextData : loc.

(** The replacement of the instruction, at the start of the handler. *)
Lemma enhance_context_run m0 tl w :
  messages_at contextData (manager w) = m0 :: tl →
  LlmRag.enhance_context num_leb rc sc documents contextData
    (LlmRag.findLatestUserQuery (m0 :: tl)) w
  = (Ok tt,
     with_manager
       (with_instruction contextData
          (instruction_sent num_leb rc sc documents m0 tl) (manager w))
       w).
Proof.
  intros Hms. unfold LlmRag.enhance_context, instruction_sent.
  rewrite rag_always_enabled. simpl andb.
  destruct (LlmRag.findLatestUserQuery (m0 :: tl)) as [q|] eqn:Hq.
  - simpl truthy. rewrite (findLatestUserQuery_truthy _ _ Hq).
    unfold when, bind, context_messages. rewrite Hms. reflexivity.
  - simpl. unfold ret, with_manager.
    rewrite (with_instruction_same _ _ _ _ Hms), world_eta. reflexivity.
Qed.

(** The handler up to the provider call. *)
Lemma rag_handler_run m0 tl w :
  unusable (sse w) = false →
  str_truthy model = true →
  messages_at contextData (manager w) = m0 :: tl →
  let m1 := instruction_sent num_leb rc sc documents m0 tl in
  let request := stream_request model (m1 :: tl) false in
  LlmRag.handleStreamingRequest num_leb cfg rc sc documents env now taskId
    model contextData w
  = snd (try_catch
           (text <- relay_content (create_stream env request) "" ;;
            text' <- LlmRag.append_references rc contextData text ;;
            save_response cfg now taskId text' ;;
            finish_stream)
           report_error
           (logged (notice_frames (LlmRag.findLatestUserQuery (m0 :: tl)))
              (requested request
                 (with_manager
                    (with_instruction contextData m1 (manager w)) w)))).
Proof.
  intros Hu Hmodel Hms m1 request.
  unfold LlmRag.handleStreamingRequest. rewrite Hu.
  erewrite try_catch_bind_ok by reflexivity.
  rewrite Hms. cbv zeta.
  erewrite try_catch_bind_ok by (apply enhance_context_run; exact Hms).
  fold m1.
  erewrite try_catch_bind_ok
    by (unfold require_model; rewrite Hmodel; reflexivity).
  erewrite try_catch_bind_ok.
  2: { rewrite rag_always_enabled. simpl andb.
       instantiate (1 := logged
                           (notice_frames
                              (LlmRag.findLatestUserQuery (m0 :: tl)))
                           (with_manager
                              (with_instruction contextData m1 (manager w))
                              w)).
       instantiate (1 := tt).
       destruct (LlmRag.findLatestUserQuery (m0 :: tl)) as [q|] eqn:Hq.
       - simpl truthy. rewrite (findLatestUserQuery_truthy _ _ Hq).
         simpl when. apply rag_sendSSEContent_open; [reflexivity|].
         apply usable_open, Hu.
       - simpl. rewrite logged_nil. reflexivity. }
  erewrite try_catch_bind_ok by reflexivity.
  erewrite try_catch_bind_ok by reflexivity.
  simpl manager.
  rewrite (with_instruction_messages _ m1 _ _ _ Hms).
  reflexivity.
Qed.

(** The references, on an open channel. *)
Lemma append_references_open m1 tl text w :
  closed (sse w) = false →
  messages_at contextData (manager w) = m1 :: tl →
  LlmRag.append_references rc contextData text w
  = (Ok (text +:+ references_of m1), logged (reference_frames m1) w).
Proof.
  intros Hopen Hms. unfold LlmRag.append_references.
  rewrite rag_always_enabled. unfold bind at 1, context_messages.
  rewrite Hms. unfold references_of, reference_frames.
  destruct (sources m1) as [[|s rest]|].
  - rewrite append_empty_r, logged_nil. reflexivity.
  - unfold bind, sse_closed. rewrite Hopen. simpl when.
    rewrite rag_sendSSEContent_open by (try exact Hopen; reflexivity).
    reflexivity.
  - rewrite append_empty_r, logged_nil. reflexivity.
Qed.

End RetrievalHandler.

Lemma bind_ext_keeps {X A B} (p : world → X) (c : M A) (k k' : A → M B) w :
  keeps p c →
  (∀ a w', p w' = p w → k a w' = k' a w') →
  bind c k w = bind c k' w.
Proof.
  intros Hk H. unfold bind. specialize (Hk w).
  destruct (c w) as [[a|msg] w']; [|reflexivity].
  apply H. exact Hk.
Qed.

(** X22.  When the context holds no query and its instruction message lists no
    sources, the handler of llm-rag is the basic handler: the same
    frames, the same request to the provider, the same change of the
    store, whatever the provider answers. *)
Theorem retrieval_handler_without_query
    {vector num : Type} (num_leb : num → num → bool) (cfg : config)
    (rc : LlmRag.rag_config num) (sc : LlmRag.scoring vector num)
    (documents : list (LlmRag.document vector)) (env : environment)
    (now : Z) (taskId : option string) (model : string) (contextData : loc)
    (m0 : message) (tl : list message) (w : world) :
  messages_at contextData (manager w) = m0 :: tl →
  no_query (m0 :: tl) = true →
  references_of m0 = "" →
  LlmRag.handleStreamingRequest num_leb cfg rc sc documents env now taskId
    model contextData w
  = LlmContextManager.handleStreamingRequest cfg env now taskId model
      contextData w.
Proof.
  intros Hms Hno Hrefs.
  assert (LlmRag.findLatestUserQuery (m0 :: tl) = None) as Hq.
  { unfold LlmRag.findLatestUserQuery.
    apply findLatestUserQuery_rev_none. rewrite no_query_rev. exact Hno. }
  destruct (unusable (sse w)) eqn:Hu.
  { unfold LlmRag.handleStreamingRequest,
      LlmContextManager.handleStreamingRequest. rewrite Hu. reflexivity. }
  destruct (str_truthy model) eqn:Hmodel.
  - rewrite (rag_handler_run num_leb cfg rc sc documents env now taskId
               model contextData m0 tl w Hu Hmodel Hms).
    rewrite basic_handler_run by assumption.
    unfold instruction_sent. rewrite Hq, Hms. simpl notice_frames.
    rewrite logged_nil, (with_instruction_same _ _ _ _ Hms).
    unfold with_manager. rewrite world_eta.
    f_equal. apply try_catch_ext.
    apply (bind_ext_keeps manager).
    + apply relay_content_keeps_manager.
    + intros text w2 Hw2.
      unfold bind at 1.
      unfold LlmRag.append_references. rewrite rag_always_enabled.
      unfold bind at 1, context_messages.
      rewrite Hw2. cbn [manager requested]. rewrite Hms.
      unfold references_of in Hrefs.
      destruct (sources m0) as [[|s rest]|]; try reflexivity.
      discriminate.
  - unfold LlmRag.handleStreamingRequest,
      LlmContextManager.handleStreamingRequest. rewrite Hu.
    erewrite try_catch_bind_ok by reflexivity.
    rewrite Hms. cbv zeta.
    erewrite try_catch_bind_ok by (apply enhance_context_run; exact Hms).
    unfold instruction_sent. rewrite Hq.
    rewrite (with_instruction_same _ _ _ _ Hms).
    unfold with_manager. rewrite world_eta.
    rewrite !(try_catch_bind_throw _ _ _ w
                "Model parameter is required but was not provided" w)
      by (unfold require_model; rewrite Hmodel; reflexivity).
    reflexivity.
Qed.

Lemma retrieval_handler_without_query_witness :
  messages_at 0 (manager anonymous_world)
  = [system_message "You are a helpful assistant"]
  ∧ no_query [system_message "You are a helpful assistant"] = true
  ∧ references_of (system_message "You are a helpful assistant") = ""
  ∧ LlmRag.handleStreamingRequest Z.leb (sample_config 10)
      sample_rag_config sample_scoring sample_corpus sample_environment 0
      None "m" 0%nat anonymous_world
    = LlmContextManager.handleStreamingRequest (sample_config 10)
        sample_environment 0 None "m" 0%nat anonymous_world.
Proof.
  split; [reflexivity|]. split; [reflexivity|]. split; [reflexivity|].
  exact (retrieval_handler_without_query Z.leb (sample_config 10)
           sample_rag_config sample_scoring sample_corpus sample_environment
           0 None "m" 0%nat (system_message "You are a helpful assistant")
           [] anonymous_world eq_refl eq_refl eq_refl).
Defined.

(** X23.  An answer of the provider made of the deltas [pre].  The client
    receives the notice (when the context holds a query), the deltas with
    text in order, one more delta with the references (when the
    instruction message lists sources), then the sentinel.  The provider
    is sent the context with the instruction enhanced for the query.  The
    instruction is replaced in the context object, and what is stored as
    the assistant message is the text of the deltas followed by the
    references: with references, an assistant message is stored even when
    the answer has no text. *)
Theorem retrieval_answer_with_references
    {vector num : Type} (num_leb : num → num → bool) (cfg : config)
    (rc : LlmRag.rag_config num) (sc : LlmRag.scoring vector num)
    (documents : list (LlmRag.document vector)) (env : environment)
    (now : Z) (taskId : option string) (model : string) (contextData : loc)
    (m0 : message) (tl : list message) (pre : list chunk) (w : world) :
  unusable (sse w) = false →
  str_truthy model = true →
  messages_at contextData (manager w) = m0 :: tl →
  let userQuery := LlmRag.findLatestUserQuery (m0 :: tl) in
  let m1 := instruction_sent num_leb rc sc documents m0 tl in
  let request := stream_request model (m1 :: tl) false in
  create_stream env request = map Delta pre →
  let w' := LlmRag.handleStreamingRequest num_leb cfg rc sc documents env
              now taskId model contextData w in
  let text := text_of pre +:+ references_of m1 in
  let enhanced := with_instruction contextData m1 (manager w) in
  sse w'
  = closed_with (notice_frames userQuery ++ forwarded pre
                 ++ reference_frames m1 ++ [Send FDone; End]) (sse w)
  ∧ requests w' = requests w ++ [request]
  ∧ manager w'
    = if str_truthy text && truthy taskId
      then snd (addMessage cfg taskId (plain_message "assistant" text) now
                  enhanced)
      else enhanced.
Proof.
  intros Hu Hmodel Hms userQuery m1 request Hstream w' text enhanced.
  subst w'.
  rewrite (rag_handler_run num_leb cfg rc sc documents env now taskId model
             contextData m0 tl w Hu Hmodel Hms).
  fold m1 request userQuery enhanced. rewrite Hstream.
  set (w1 := logged (notice_frames userQuery)
               (requested request (with_manager enhanced w))).
  assert (closed (sse w1) = false) as Hopen by (apply usable_open, Hu).
  erewrite try_catch_bind_ok.
  2: { rewrite <- (app_nil_r (map Delta pre)).
       rewrite relay_content_open by exact Hopen.
       rewrite text_of_fold, append_empty_l. reflexivity. }
  erewrite try_catch_bind_ok.
  2: { apply (append_references_open rc contextData m1 tl);
         [exact Hopen|].
       apply (with_instruction_messages _ m1 _ _ _ Hms). }
  fold text.
  erewrite try_catch_bind_ok by apply save_response_run.
  erewrite try_catch_ok by (apply finish_stream_open; exact Hopen).
  simpl. unfold closed_with. simpl.
  rewrite <- !app_assoc. auto.
Qed.

Lemma retrieval_answer_with_references_witness :
  unusable (sse query_world) = false
  ∧ str_truthy "m" = true
  ∧ messages_at 0 (manager query_world)
    = [system_message "You are a helpful assistant";
       plain_message "user" "hi"]
  ∧ (∃ h, history_of "s1"
            (manager
               (LlmRag.handleStreamingRequest Z.leb (sample_config 10)
                  sample_rag_config sample_scoring sample_corpus
                  (with_stream sample_environment (map Delta []))
                  0 (Some "s1") "m" 0%nat query_world))
          = Some (h ++ [plain_message "assistant"
                          (LlmRag.sourcesText ["Document 2"; "Document 3"])])).
Proof.
  split; [reflexivity|]. split; [reflexivity|]. split; [reflexivity|].
  rewrite (proj2 (proj2
    (retrieval_answer_with_references Z.leb (sample_config 10)
       sample_rag_config sample_scoring sample_corpus
       (with_stream sample_environment (map Delta []))
       0 (Some "s1") "m" 0%nat
       (system_message "You are a helpful assistant")
       [plain_message "user" "hi"] [] query_world
       eq_refl eq_refl eq_refl eq_refl))).
  eexists [_; _]. vm_compute. reflexivity.
Defined.

(** ** The enhanced instruction stays in the context *)

Lemma trim_first cfg s t : ∃ t', trim cfg (s :: t) = s :: t'.
Proof.
  unfold trim.
  destruct (Z.of_nat (length (s :: t)) >? MAX_CONTEXT_MESSAGES cfg + 1);
    eauto.
Qed.

Lemma getContext_messages_at cfg taskId now cm l m tl :
  messages_at l cm = m :: tl →
  messages_at l (snd (getContext cfg taskId now cm)) = m :: tl.
Proof.
  intros H. destruct (messages_at_first l cm m tl H) as (c & Hc & Hm).
  assert (l < length (heap cm))%nat as Hl
    by (apply lookup_lt_Some in Hc; exact Hc).
  pose proof (getContext_cases cfg taskId now cm) as Hcases.
  cbv zeta in Hcases.
  destruct Hcases as [(id & -> & Hid & Hreg & ->)
                     | [(id & -> & Hid & Hnone & Hfst & ->)
                       | (Hno & Hfst & ->)]].
  - rewrite messages_at_keeps by reflexivity. exact H.
  - rewrite messages_at_alloc by exact Hl. exact H.
  - rewrite messages_at_alloc by exact Hl. exact H.
Qed.

Lemma instruction_is_appends cfg now taskId l m :
  kept_by_appends cfg now taskId (instruction_is l m).
Proof.
  intros m' cm [tl H]. unfold addMessage.
  destruct (truthy taskId); [|exists tl; exact H].
  pose proof (getContext_messages_at cfg taskId now cm l m tl H) as H1.
  destruct (getContext cfg taskId now cm) as [l0 cm1]. simpl in *.
  destruct (decide (l0 = l)) as [->|Hne].
  - destruct (messages_at_first l cm1 m tl H1) as (c & Hc & Hm).
    destruct (trim_first cfg m (tl ++ [m'])) as [t' Ht].
    exists t'. erewrite messages_at_update by exact Hc.
    simpl. rewrite Hm. exact Ht.
  - exists tl. rewrite messages_at_update_ne by exact Hne. exact H1.
Qed.

(** X24.  When the context holds a query, the instruction enhanced for it
    replaces the instruction in the context object before anything else
    is done, and it stays there: whatever the model, the answer of the
    provider or the end of the request, the context object starts
    afterwards with the enhanced instruction.  In a session the next
    request is thus handled with the instruction left by this one. *)
Theorem enhancement_stays_in_the_context
    {vector num : Type} (num_leb : num → num → bool) (cfg : config)
    (rc : LlmRag.rag_config num) (sc : LlmRag.scoring vector num)
    (documents : list (LlmRag.document vector)) (env : environment)
    (now : Z) (taskId : option string) (model : string) (contextData : loc)
    (m0 : message) (tl : list message) (query : string) (w : world) :
  unusable (sse w) = false →
  messages_at contextData (manager w) = m0 :: tl →
  LlmRag.findLatestUserQuery (m0 :: tl) = Some query →
  instruction_is contextData
    (LlmRag.enhanceSystemMessage num_leb rc sc documents query m0)
    (manager (LlmRag.handleStreamingRequest num_leb cfg rc sc documents env
                now taskId model contextData w)).
Proof.
  intros Hu Hms Hq.
  unfold LlmRag.handleStreamingRequest. rewrite Hu.
  erewrite try_catch_bind_ok by reflexivity.
  rewrite Hms. cbv zeta.
  erewrite try_catch_bind_ok by (apply enhance_context_run; exact Hms).
  unfold instruction_sent. rewrite Hq.
  apply (stable_run
           (of_store
              (instruction_is contextData
                 (LlmRag.enhanceSystemMessage num_leb rc sc documents query
                    m0)))).
  - apply stable_try_catch.
    + apply of_store_rag_tail, instruction_is_appends.
    + intros msg. apply of_store_keeps, report_error_keeps_manager.
  - exists tl. apply (with_instruction_messages _ _ _ _ _ Hms).
Qed.

Lemma enhancement_stays_in_the_context_witness :
  unusable (sse query_world) = false
  ∧ messages_at 0 (manager query_world)
    = [system_message "You are a helpful assistant";
       plain_message "user" "hi"]
  ∧ LlmRag.findLatestUserQuery
      [system_message "You are a helpful assistant";
       plain_message "user" "hi"] = Some "hi"
  ∧ instruction_is 0
      (LlmRag.enhanceSystemMessage Z.leb sample_rag_config sample_scoring
         sample_corpus "hi" (system_message "You are a helpful assistant"))
      (manager (LlmRag.handleStreamingRequest Z.leb (sample_config 10)
                  sample_rag_config sample_scoring sample_corpus
                  (with_stream sample_environment [Fail "overloaded"])
                  0 (Some "s1") "" 0%nat query_world)).
Proof.
  split; [reflexivity|]. split; [reflexivity|]. split; [reflexivity|].
  exact (enhancement_stays_in_the_context Z.leb (sample_config 10)
           sample_rag_config sample_scoring sample_corpus
           (with_stream sample_environment [Fail "overloaded"])
           0 (Some "s1") "" 0%nat
           (system_message "You are a helpful assistant")
           [plain_message "user" "hi"] "hi" query_world
           eq_refl eq_refl eq_refl).
Defined.

(** ** The ends of the requests of llm-fast-reply and llm-rag *)

Section OtherEnds.
Variable before : list action.

Lemma streaming_same_log w w' :
  log (sse w') = log (sse w) → streaming before w → streaming before w'.
Proof. intros Heq [data H]. exists data. rewrite Heq. exact H. Qed.

Lemma streaming_complete env r :
  stable (streaming before) (LlmFastReply.complete env r).
Proof.
  intros w Hw. unfold LlmFastReply.complete.
  assert (streaming before
            (if disconnected_meanwhile (create_completion env r)
             then snd (client_disconnects
                         {| manager := manager w; sse := sse w;
                            requests := requests w ++ [r] |})
             else {| manager := manager w; sse := sse w;
                     requests := requests w ++ [r] |})) as H.
  { apply (streaming_same_log w); [|exact Hw].
    destruct (disconnected_meanwhile (create_completion env r)); reflexivity. }
  destruct (completion_outcome (create_completion env r)); exact H.
Qed.

Lemma streaming_sendSSEContent content isChunk :
  stable (streaming before) (LlmFastReply.sendSSEContent content isChunk).
Proof.
  unfold LlmFastReply.sendSSEContent.
  apply stable_bind.
  { apply streaming_keeps_channel. intros w. reflexivity. }
  intros cl. destruct (negb (str_truthy content) || cl); [apply stable_ret|].
  destruct isChunk; [apply streaming_send_chunk|apply streaming_send_raw].
Qed.

Lemma streaming_rag_sendSSEContent content isChunk :
  stable (streaming before) (LlmRag.sendSSEContent content isChunk).
Proof.
  unfold LlmRag.sendSSEContent.
  apply stable_bind.
  { apply streaming_keeps_channel. intros w. reflexivity. }
  intros cl. destruct (negb (str_truthy content) || cl); [apply stable_ret|].
  destruct isChunk; [apply streaming_send_chunk|apply streaming_send_raw].
Qed.

Lemma streaming_getSmallModelResponse pc env userContent :
  stable (streaming before)
    (LlmFastReply.getSmallModelResponse pc env userContent).
Proof.
  apply stable_try_catch.
  - apply stable_bind; [apply streaming_complete|]. intros c.
    apply stable_bind; [apply streaming_sendSSEContent|].
    intros u. apply stable_ret.
  - intros msg. apply stable_ret.
Qed.

Lemma fast_try_block cfg pc env now taskId model contextData e :
  hoare (streaming before)
    (last_message <- LlmFastReply.lastMessage e ;;
     when (LlmFastReply.enableProgressiveResponse pc e
           && LlmFastReply.is_user last_message)
          (LlmFastReply.getSmallModelResponse pc env
             (LlmFastReply.message_content last_message) ;; ret tt) ;;
     require_model model ;;
     ms <- context_messages contextData ;;
     stream <- open_stream env (stream_request model ms false) ;;
     assistantResponse <- relay_content stream "" ;;
     save_response cfg now taskId assistantResponse ;;
     finish_stream)
    (fun _ => ends_try before) (fun _ => streaming before).
Proof.
  eapply hoare_bind.
  { apply streaming_keeps_channel. intros w. unfold LlmFastReply.lastMessage.
    destruct (ev_messages e); reflexivity. }
  intros last_message. eapply hoare_bind.
  { apply stable_when, stable_bind;
      [apply streaming_getSmallModelResponse|].
    intros b. apply stable_ret. }
  intros u. apply basic_try_block.
Qed.

Lemma rag_try_block {vector num : Type} (num_leb : num → num → bool) cfg
    (rc : LlmRag.rag_config num) (sc : LlmRag.scoring vector num)
    (documents : list (LlmRag.document vector)) env now taskId model
    contextData :
  hoare (streaming before)
    (ms <- context_messages contextData ;;
     let userQuery := LlmRag.findLatestUserQuery ms in
     LlmRag.enhance_context num_leb rc sc documents contextData userQuery ;;
     require_model model ;;
     when (LlmRag.rag_enabled rc && truthy userQuery)
          (LlmRag.sendSSEContent LlmRag.retrieval_notice true) ;;
     ms <- context_messages contextData ;;
     stream <- open_stream env (stream_request model ms false) ;;
     assistantResponse <- relay_content stream "" ;;
     assistantResponse <-
       LlmRag.append_references rc contextData assistantResponse ;;
     save_response cfg now taskId assistantResponse ;;
     finish_stream)
    (fun _ => ends_try before) (fun _ => streaming before).
Proof.
  eapply hoare_bind.
  { apply streaming_keeps_channel, context_messages_keeps_channel. }
  intros ms. cbv zeta. eapply hoare_bind.
  { apply streaming_keeps_channel. unfold LlmRag.enhance_context.
    apply keeps_when, keeps_bind; [intros w; reflexivity|].
    intros ms'. destruct ms'; [apply keeps_throw|]. intros w. reflexivity. }
  intros u. eapply hoare_bind.
  { apply streaming_keeps_channel, require_model_keeps_channel. }
  intros u1. eapply hoare_bind.
  { apply stable_when, streaming_rag_sendSSEContent. }
  intros u2. eapply hoare_bind.
  { apply streaming_keeps_channel, context_messages_keeps_channel. }
  intros ms'. eapply hoare_bind.
  { apply streaming_keeps_channel, open_stream_keeps_channel. }
  intros stream. eapply hoare_bind; [apply streaming_relay_content|].
  intros text. eapply hoare_bind.
  { unfold LlmRag.append_references.
    destruct (LlmRag.rag_enabled rc); [|apply stable_ret].
    apply stable_bind.
    { apply streaming_keeps_channel, context_messages_keeps_channel. }
    intros ms''. destruct ms'' as [|m1 tl]; [apply stable_throw|].
    destruct (sources m1) as [[|s rest]|]; try apply stable_ret.
    apply stable_bind.
    { apply streaming_keeps_channel. intros w. reflexivity. }
    intros cl. apply stable_bind.
    { apply stable_when, streaming_rag_sendSSEContent. }
    intros u3. apply stable_ret. }
  intros text'. eapply hoare_bind.
  { apply streaming_keeps_channel, save_response_keeps_channel. }
  intros u'. eapply hoare_post; [apply finish_stream_ends|auto|].
  intros msg w [].
Qed.

End OtherEnds.

(** When no write throws, the requests of llm-fast-reply and llm-rag end
    like those of the other two functions: after the deltas, the preamble,
    the notice and the references being deltas too, exactly one of the
    sentinel with the closing of the channel, an error frame with the
    closing of the channel, or nothing on a channel that is closed or
    unavailable. *)
Lemma preamble_and_retrieval_end_once
    {vector num : Type} (num_leb : num → num → bool) (cfg : config)
    (pc : LlmFastReply.progressive_config) (rc : LlmRag.rag_config num)
    (sc : LlmRag.scoring vector num)
    (documents : list (LlmRag.document vector)) (env : environment)
    (now : Z) (taskId : option string) (model : string) (contextData : loc)
    (e : event) (w : world) :
  ended_once (log (sse w))
    (LlmFastReply.handleStreamingRequest cfg pc env now taskId model
       contextData e w)
  ∧ ended_once (log (sse w))
      (LlmRag.handleStreamingRequest num_leb cfg rc sc documents env now
         taskId model contextData w).
Proof.
  split.
  - unfold LlmFastReply.handleStreamingRequest.
    destruct (unusable (sse w)) eqn:Hu; [apply unusable_ended_once, Hu|].
    pose proof (try_catch_ended_once (log (sse w)) _
                  (fast_try_block (log (sse w)) cfg pc env now taskId model
                     contextData e) w (streaming_start w)) as H.
    destruct (try_catch _ report_error w) as [[u|msg] w']; [exact H|elim H].
  - unfold LlmRag.handleStreamingRequest.
    destruct (unusable (sse w)) eqn:Hu; [apply unusable_ended_once, Hu|].
    pose proof (try_catch_ended_once (log (sse w)) _
                  (rag_try_block (log (sse w)) num_leb cfg rc sc documents
                     env now taskId model contextData) w
                  (streaming_start w)) as H.
    destruct (try_catch _ report_error w) as [[u|msg] w']; [exact H|elim H].
Qed.

(** ** What the configuration switches *)

Lemma js_ge_NaN {num} (num_leb : num → num → bool) a :
  LlmRag.js_ge num_leb a None = false.
Proof. destruct a; reflexivity. Qed.

Lemma filter_none {A} (f : A → bool) (l : list A) :
  (∀ x, f x = false) → List.filter f l = [].
Proof.
  intros Hf. induction l as [|x l IH]; [reflexivity|].
  simpl. rewrite Hf. exact IH.
Qed.

Lemma select_relevant_off {vector num} (num_leb : num → num → bool)
    (rc : LlmRag.rag_config num)
    (scoredDocs : list (LlmRag.scored_document vector num)) :
  LlmRag.maxDocuments rc = 0 ∨ LlmRag.similarityThreshold rc = None →
  LlmRag.select_relevant num_leb rc scoredDocs = [].
Proof.
  intros [H|H]; unfold LlmRag.select_relevant; rewrite H.
  - rewrite js_slice_prefix by lia. reflexivity.
  - rewrite filter_none by (intros x; apply js_ge_NaN).
    simpl LlmRag.js_sort. unfold js_slice.
    rewrite drop_nil, take_nil. reflexivity.
Qed.

(** X26.  The switches of the retrieval.  [USE_RAG] is not one: the retrieval
    is enabled whatever its value, and the handler does the same for
    every value of it.  A maximum of zero documents or a threshold that
    is not a number do switch the retrieval off: no document is ever
    selected and the instruction message is returned as it is. *)
Theorem retrieval_switches
    {vector num : Type} (num_leb : num → num → bool) (cfg : config)
    (rc : LlmRag.rag_config num) (sc : LlmRag.scoring vector num)
    (documents : list (LlmRag.document vector)) (env : environment)
    (now : Z) (taskId : option string) (model : string) (contextData : loc)
    (w : world) :
  (∀ flag,
     LlmRag.rag_enabled (with_USE_RAG flag rc) = true
     ∧ LlmRag.handleStreamingRequest num_leb cfg (with_USE_RAG flag rc) sc
         documents env now taskId model contextData w
       = LlmRag.handleStreamingRequest num_leb cfg rc sc documents env now
           taskId model contextData w)
  ∧ (LlmRag.maxDocuments rc = 0 ∨ LlmRag.similarityThreshold rc = None →
     ∀ query systemMessage,
       LlmRag.retrieveRelevantDocuments num_leb rc sc documents query = None
       ∧ LlmRag.enhanceSystemMessage num_leb rc sc documents query
           systemMessage = systemMessage).
Proof.
  split.
  - intros flag. split; [apply rag_always_enabled|].
    unfold LlmRag.handleStreamingRequest, LlmRag.enhance_context,
      LlmRag.append_references, LlmRag.enhanceSystemMessage.
    rewrite !rag_always_enabled. reflexivity.
  - intros Hoff query systemMessage.
    assert (LlmRag.retrieveRelevantDocuments num_leb rc sc documents query
            = None) as Hnone.
    { unfold LlmRag.retrieveRelevantDocuments.
      destruct (LlmRag.getEmbedding sc query) as [queryEmbedding|msg];
        [|reflexivity].
      rewrite (select_relevant_off num_leb rc _ Hoff). reflexivity. }
    split; [exact Hnone|].
    apply enhance_without_documents, Hnone.
Qed.

(* ================================================================== *)
(** * The end of a request when writes can throw *)
(* ================================================================== *)

(** ** On the reliable transport the handlers are those studied above *)

(** The operations [sse_send], [sse_end], [finish_stream] and
    [report_error] are by definition those of [Transport] on the reliable
    transport; the loops and the handlers are defined apart, and proved
    equal. *)

Lemma bind_cong {A B} (c c' : M A) (k k' : A → M B) w :
  c w = c' w → (∀ a w', k a w' = k' a w') → bind c k w = bind c' k' w.
Proof.
  intros Hc Hk. unfold bind. rewrite Hc.
  destruct (c' w) as [[a|msg] w']; [apply Hk|reflexivity].
Qed.

Lemma try_catch_cong {A} (c c' : M A) (h h' : string → M A) w :
  c w = c' w → (∀ msg w', h msg w' = h' msg w') →
  try_catch c h w = try_catch c' h' w.
Proof.
  intros Hc Hh. unfold try_catch. rewrite Hc.
  destruct (c' w) as [[a|msg] w']; [reflexivity|apply Hh].
Qed.

Lemma reliable_relay_content stream r w :
  Throwing.relay_content reliable stream r w = relay_content stream r w.
Proof.
  revert r w. induction stream as [|ev stream IH]; intros r w; simpl.
  - reflexivity.
  - destruct ev as [c| |msg]; [|apply bind_cong; auto|reflexivity].
    destruct (str_truthy (chunk_content c)); [|apply IH].
    apply bind_cong; [reflexivity|]. intros cl w'.
    destruct cl; [reflexivity|]. apply bind_cong; [reflexivity|]. auto.
Qed.

Lemma reliable_sendSSEContent content isChunk w :
  Throwing.sendSSEContent reliable content isChunk w
  = LlmFastReply.sendSSEContent content isChunk w
  ∧ Throwing.sendSSEContent reliable content isChunk w
    = LlmRag.sendSSEContent content isChunk w.
Proof. split; reflexivity. Qed.

Lemma reliable_complete_tool_call cfg env now taskId model contextData st w :
  Throwing.LlmTools.complete_tool_call reliable cfg env now taskId model
    contextData st w
  = LlmTools.complete_tool_call cfg env now taskId model contextData st w.
Proof.
  unfold Throwing.LlmTools.complete_tool_call, LlmTools.complete_tool_call.
  destruct (LlmTools.toolCallData st) as [tc0|]; [|reflexivity].
  apply bind_cong; [reflexivity|]. intros u w1.
  apply bind_cong; [reflexivity|]. intros ms w2.
  apply bind_cong; [reflexivity|]. intros followUp w3.
  apply bind_cong; [apply reliable_relay_content|]. reflexivity.
Qed.

Lemma reliable_tools_relay cfg env now taskId model contextData stream st w :
  Throwing.LlmTools.relay reliable cfg env now taskId model contextData
    stream st w
  = LlmTools.relay cfg env now taskId model contextData stream st w.
Proof.
  revert st w. induction stream as [|ev stream IH]; intros st w; simpl.
  - reflexivity.
  - destruct ev as [c| |msg]; [|apply bind_cong; auto|reflexivity].
    destruct (chunk_tool_calls c) as [[|d ds]|]; [reflexivity|apply IH|].
    destruct (LlmTools.collectingToolCall st
              && bool_decide (chunk_finish_reason c = Some "tool_calls")).
    + apply reliable_complete_tool_call.
    + destruct (str_truthy (chunk_content c)); [|apply IH].
      apply bind_cong; [reflexivity|]. intros cl w'.
      destruct cl; [reflexivity|]. apply bind_cong; [reflexivity|]. auto.
Qed.

(** On a transport whose writes all succeed, the handlers are the ones of
    the sections above: what is proved there of a request is proved of a
    request during which no write throws. *)
Lemma reliable_handlers
    {vector num : Type} (num_leb : num → num → bool) (cfg : config)
    (pc : LlmFastReply.progressive_config) (rc : LlmRag.rag_config num)
    (sc : LlmRag.scoring vector num)
    (documents : list (LlmRag.document vector)) (env : environment)
    (now : Z) (taskId : option string) (model : string) (contextData : loc)
    (e : event) (w : world) :
  Throwing.LlmContextManager.handleStreamingRequest reliable cfg env now
    taskId model contextData w
  = LlmContextManager.handleStreamingRequest cfg env now taskId model
      contextData w
  ∧ Throwing.LlmTools.handleStreamingRequest reliable cfg env now taskId
      model contextData w
    = LlmTools.handleStreamingRequest cfg env now taskId model contextData w
  ∧ Throwing.LlmFastReply.handleStreamingRequest reliable cfg pc env now
      taskId model contextData e w
    = LlmFastReply.handleStreamingRequest cfg pc env now taskId model
        contextData e w
  ∧ Throwing.LlmRag.handleStreamingRequest reliable num_leb cfg rc sc
      documents env now taskId model contextData w
    = LlmRag.handleStreamingRequest num_leb cfg rc sc documents env now
        taskId model contextData w.
Proof.
  split; [|split; [|split]].
  - unfold Throwing.LlmContextManager.handleStreamingRequest,
      LlmContextManager.handleStreamingRequest.
    destruct (unusable (sse w)); [reflexivity|]. apply (f_equal snd).
    apply try_catch_cong; [|reflexivity].
    apply bind_cong; [reflexivity|]. intros u w1.
    apply bind_cong; [reflexivity|]. intros ms w2.
    apply bind_cong; [reflexivity|]. intros stream w3.
    apply bind_cong; [apply reliable_relay_content|]. reflexivity.
  - unfold Throwing.LlmTools.handleStreamingRequest,
      LlmTools.handleStreamingRequest.
    destruct (unusable (sse w)); [reflexivity|]. apply (f_equal snd).
    apply try_catch_cong; [|reflexivity].
    apply bind_cong; [reflexivity|]. intros u w1.
    apply bind_cong; [reflexivity|]. intros ms w2.
    apply bind_cong; [reflexivity|]. intros stream w3.
    apply bind_cong; [apply reliable_tools_relay|]. reflexivity.
  - unfold Throwing.LlmFastReply.handleStreamingRequest,
      LlmFastReply.handleStreamingRequest.
    destruct (unusable (sse w)); [reflexivity|]. apply (f_equal snd).
    apply try_catch_cong; [|reflexivity].
    apply bind_cong; [reflexivity|]. intros last_message w1.
    apply bind_cong; [reflexivity|]. intros u w2.
    apply bind_cong; [reflexivity|]. intros u' w3.
    apply bind_cong; [reflexivity|]. intros ms w4.
    apply bind_cong; [reflexivity|]. intros stream w5.
    apply bind_cong; [apply reliable_relay_content|]. reflexivity.
  - unfold Throwing.LlmRag.handleStreamingRequest,
      LlmRag.handleStreamingRequest.
    destruct (unusable (sse w)); [reflexivity|]. apply (f_equal snd).
    apply try_catch_cong; [|reflexivity].
    apply bind_cong; [reflexivity|]. intros ms w1. cbv zeta.
    apply bind_cong; [reflexivity|]. intros u w2.
    apply bind_cong; [reflexivity|]. intros u' w3.
    apply bind_cong; [reflexivity|]. intros u'' w4.
    apply bind_cong; [reflexivity|]. intros ms' w5.
    apply bind_cong; [reflexivity|]. intros stream w6.
    apply bind_cong; [apply reliable_relay_content|]. reflexivity.
Qed.

(** ** Streaming, with writes that can throw *)

Section ThrowingTermination.
Variable tr : transport.
Variable before : list action.

Lemma throwing_send_data f :
  is_data (Send f) = true →
  stable (streaming before) (Transport.sse_send tr f).
Proof.
  intros Hf w [data [Hd Hl]]. unfold Transport.sse_send.
  destruct (tr (sse w) (Send f)) as [msg|].
  - exists data. auto.
  - exists (data ++ [Send f]). split.
    + rewrite forallb_app, Hd. cbn [forallb andb]. rewrite Hf. reflexivity.
    + simpl. rewrite Hl, app_assoc. reflexivity.
Qed.

Lemma throwing_relay_content stream r :
  stable (streaming before) (Throwing.relay_content tr stream r).
Proof.
  revert r. induction stream as [|ev stream IH]; intros r; simpl.
  - apply stable_ret.
  - destruct ev as [c| |msg].
    + destruct (str_truthy (chunk_content c)); [|apply IH].
      eapply hoare_bind; [apply streaming_closed|].
      intros cl. destruct cl.
      * apply hoare_ret. tauto.
      * eapply hoare_bind.
        -- eapply hoare_pre; [|apply (throwing_send_data (FChunk c) eq_refl)].
           tauto.
        -- intros u. apply IH.
    + apply stable_bind; [apply streaming_disconnect|]. intros _. apply IH.
    + apply stable_throw.
Qed.

Lemma throwing_sendSSEContent content isChunk :
  stable (streaming before) (Throwing.sendSSEContent tr content isChunk).
Proof.
  unfold Throwing.sendSSEContent.
  apply stable_bind.
  { apply streaming_keeps_channel. intros w. reflexivity. }
  intros cl. destruct (negb (str_truthy content) || cl); [apply stable_ret|].
  destruct isChunk; apply throwing_send_data; reflexivity.
Qed.

(** The end of the [try] block: the sentinel and the closing, nothing on a
    closed channel, and a throw with nothing written when the sentinel
    cannot be written. *)
Lemma throwing_finish_stream_ends :
  closing_succeeds tr →
  hoare (streaming before) (Transport.finish_stream tr)
    (fun _ => ends_try before) (fun _ => streaming before).
Proof.
  intros Hend w [data [Hd Hl]].
  unfold Transport.finish_stream, bind, sse_closed. simpl.
  destruct (closed (sse w)) eqn:Hc; simpl.
  - right. split; [|exact Hc]. exists data. split; [exact Hd|].
    simpl. rewrite app_nil_r. exact Hl.
  - unfold Transport.sse_send.
    destruct (tr (sse w) (Send FDone)) as [msg|].
    + exists data. auto.
    + unfold Transport.sse_end. rewrite Hend. simpl.
      left. exists data. split; [exact Hd|]. simpl.
      rewrite Hl, <- !app_assoc. reflexivity.
Qed.

(** The [catch] block: the error frame and the closing, or nothing on a
    closed channel. *)
Lemma throwing_report_error_ends msg :
  closing_succeeds tr → error_frames_pass tr →
  hoare (streaming before) (Transport.report_error tr msg)
    (fun _ => ends_catch before) (fun _ _ => False).
Proof.
  intros Hend Herr w [data [Hd Hl]].
  unfold Transport.report_error, try_catch, bind, sse_closed. simpl.
  destruct (closed (sse w)) eqn:Hc; simpl.
  - right. split; [|exact Hc]. exists data. split; [exact Hd|].
    simpl. rewrite app_nil_r. exact Hl.
  - unfold Transport.sse_send. rewrite Herr.
    unfold Transport.sse_end. rewrite Hend. simpl.
    left. exists (error_text msg), data. split; [exact Hd|]. simpl.
    rewrite Hl, <- !app_assoc. reflexivity.
Qed.

Lemma throwing_try_catch_ended_once (body : M unit) :
  closing_succeeds tr → error_frames_pass tr →
  hoare (streaming before) body (fun _ => ends_try before)
        (fun _ => streaming before) →
  hoare (streaming before) (try_catch body (Transport.report_error tr))
        (fun _ => ended_once before) (fun _ _ => False).
Proof.
  intros Hend Herr Hbody. eapply hoare_try_catch.
  - eapply hoare_post; [exact Hbody| |intros msg w H; exact H].
    intros u w. apply ends_try_once.
  - intros msg.
    eapply hoare_post; [apply throwing_report_error_ends; assumption| |auto].
    intros u w. apply ends_catch_once.
Qed.

Lemma throwing_complete_tool_call cfg env now taskId model contextData st :
  stable (streaming before)
    (Throwing.LlmTools.complete_tool_call tr cfg env now taskId model
       contextData st).
Proof.
  unfold Throwing.LlmTools.complete_tool_call.
  destruct (LlmTools.toolCallData st) as [tc0|]; [|apply stable_throw].
  apply stable_bind.
  { apply stable_when, stable_bind; [|intros u];
      apply streaming_keeps_channel, add_message_keeps_channel. }
  intros u. apply stable_bind.
  { apply streaming_keeps_channel, context_messages_keeps_channel. }
  intros ms. apply stable_bind.
  { apply streaming_keeps_channel, open_stream_keeps_channel. }
  intros followUp. apply stable_bind; [apply throwing_relay_content|].
  intros r. apply stable_bind.
  { apply streaming_keeps_channel, save_response_keeps_channel. }
  intros u'. apply stable_ret.
Qed.

Lemma throwing_tools_relay cfg env now taskId model contextData stream st :
  stable (streaming before)
    (Throwing.LlmTools.relay tr cfg env now taskId model contextData
       stream st).
Proof.
  revert st. induction stream as [|ev stream IH]; intros st; simpl.
  - apply stable_ret.
  - destruct ev as [c| |msg].
    + destruct (chunk_tool_calls c) as [[|d ds]|].
      * apply stable_throw.
      * apply IH.
      * destruct (LlmTools.collectingToolCall st
                  && bool_decide (chunk_finish_reason c = Some "tool_calls")).
        -- apply throwing_complete_tool_call.
        -- destruct (str_truthy (chunk_content c)); [|apply IH].
           eapply hoare_bind; [apply streaming_closed|].
           intros cl. destruct cl.
           ++ apply hoare_ret. tauto.
           ++ eapply hoare_bind.
              ** eapply hoare_pre;
                   [|apply (throwing_send_data (FChunk c) eq_refl)].
                 tauto.
              ** intros u. apply IH.
    + apply stable_bind; [apply streaming_disconnect|]. intros u. apply IH.
    + apply stable_throw.
Qed.

Lemma throwing_basic_try_block cfg env now taskId model contextData :
  closing_succeeds tr →
  hoare (streaming before)
    (require_model model ;;
     ms <- context_messages contextData ;;
     stream <- open_stream env (stream_request model ms false) ;;
     assistantResponse <- Throwing.relay_content tr stream "" ;;
     save_response cfg now taskId assistantResponse ;;
     Transport.finish_stream tr)
    (fun _ => ends_try before) (fun _ => streaming before).
Proof.
  intros Hend. eapply hoare_bind.
  { apply streaming_keeps_channel, require_model_keeps_channel. }
  intros u. eapply hoare_bind.
  { apply streaming_keeps_channel, context_messages_keeps_channel. }
  intros ms. eapply hoare_bind.
  { apply streaming_keeps_channel, open_stream_keeps_channel. }
  intros stream. eapply hoare_bind; [apply throwing_relay_content|].
  intros r. eapply hoare_bind.
  { apply streaming_keeps_channel, save_response_keeps_channel. }
  intros u'. apply throwing_finish_stream_ends, Hend.
Qed.

Lemma throwing_tools_try_block cfg env now taskId model contextData :
  closing_succeeds tr →
  hoare (streaming before)
    (require_model model ;;
     ms <- context_messages contextData ;;
     stream <- open_stream env (stream_request model ms true) ;;
     st <- Throwing.LlmTools.relay tr cfg env now taskId model contextData
             stream LlmTools.initial_state ;;
     when (negb (LlmTools.collectingToolCall st))
          (save_response cfg now taskId (LlmTools.assistantResponse st)) ;;
     Transport.finish_stream tr)
    (fun _ => ends_try before) (fun _ => streaming before).
Proof.
  intros Hend. eapply hoare_bind.
  { apply streaming_keeps_channel, require_model_keeps_channel. }
  intros u. eapply hoare_bind.
  { apply streaming_keeps_channel, context_messages_keeps_channel. }
  intros ms. eapply hoare_bind.
  { apply streaming_keeps_channel, open_stream_keeps_channel. }
  intros stream. eapply hoare_bind; [apply throwing_tools_relay|].
  intros st. eapply hoare_bind.
  { apply stable_when, streaming_keeps_channel, save_response_keeps_channel. }
  intros u'. apply throwing_finish_stream_ends, Hend.
Qed.

Lemma throwing_getSmallModelResponse pc env userContent :
  stable (streaming before)
    (Throwing.LlmFastReply.getSmallModelResponse tr pc env userContent).
Proof.
  apply stable_try_catch.
  - apply stable_bind; [apply streaming_complete|]. intros c.
    apply stable_bind; [apply throwing_sendSSEContent|].
    intros u. apply stable_ret.
  - intros msg. apply stable_ret.
Qed.

Lemma throwing_fast_try_block cfg pc env now taskId model contextData e :
  closing_succeeds tr →
  hoare (streaming before)
    (last_message <- LlmFastReply.lastMessage e ;;
     when (LlmFastReply.enableProgressiveResponse pc e
           && LlmFastReply.is_user last_message)
          (Throwing.LlmFastReply.getSmallModelResponse tr pc env
             (LlmFastReply.message_content last_message) ;; ret tt) ;;
     require_model model ;;
     ms <- context_messages contextData ;;
     stream <- open_stream env (stream_request model ms false) ;;
     assistantResponse <- Throwing.relay_content tr stream "" ;;
     save_response cfg now taskId assistantResponse ;;
     Transport.finish_stream tr)
    (fun _ => ends_try before) (fun _ => streaming before).
Proof.
  intros Hend. eapply hoare_bind.
  { apply streaming_keeps_channel. intros w. unfold LlmFastReply.lastMessage.
    destruct (ev_messages e); reflexivity. }
  intros last_message. eapply hoare_bind.
  { apply stable_when, stable_bind;
      [apply throwing_getSmallModelResponse|].
    intros b. apply stable_ret. }
  intros u. apply throwing_basic_try_block, Hend.
Qed.

Lemma throwing_rag_try_block {vector num : Type}
    (num_leb : num → num → bool) cfg (rc : LlmRag.rag_config num)
    (sc : LlmRag.scoring vector num)
    (documents : list (LlmRag.document vector)) env now taskId model
    contextData :
  closing_succeeds tr →
  hoare (streaming before)
    (ms <- context_messages contextData ;;
     let userQuery := LlmRag.findLatestUserQuery ms in
     LlmRag.enhance_context num_leb rc sc documents contextData userQuery ;;
     require_model model ;;
     when (LlmRag.rag_enabled rc && truthy userQuery)
          (Throwing.sendSSEContent tr LlmRag.retrieval_notice true) ;;
     ms <- context_messages contextData ;;
     stream <- open_stream env (stream_request model ms false) ;;
     assistantResponse <- Throwing.relay_content tr stream "" ;;
     assistantResponse <-
       Throwing.LlmRag.append_references tr rc contextData
         assistantResponse ;;
     save_response cfg now taskId assistantResponse ;;
     Transport.finish_stream tr)
    (fun _ => ends_try before) (fun _ => streaming before).
Proof.
  intros Hend. eapply hoare_bind.
  { apply streaming_keeps_channel, context_messages_keeps_channel. }
  intros ms. cbv zeta. eapply hoare_bind.
  { apply streaming_keeps_channel. unfold LlmRag.enhance_context.
    apply keeps_when, keeps_bind; [intros w; reflexivity|].
    intros ms'. destruct ms'; [apply keeps_throw|]. intros w. reflexivity. }
  intros u. eapply hoare_bind.
  { apply streaming_keeps_channel, require_model_keeps_channel. }
  intros u1. eapply hoare_bind.
  { apply stable_when, throwing_sendSSEContent. }
  intros u2. eapply hoare_bind.
  { apply streaming_keeps_channel, context_messages_keeps_channel. }
  intros ms'. eapply hoare_bind.
  { apply streaming_keeps_channel, open_stream_keeps_channel. }
  intros stream. eapply hoare_bind; [apply throwing_relay_content|].
  intros text. eapply hoare_bind.
  { unfold Throwing.LlmRag.append_references.
    destruct (LlmRag.rag_enabled rc); [|apply stable_ret].
    apply stable_bind.
    { apply streaming_keeps_channel, context_messages_keeps_channel. }
    intros ms''. destruct ms'' as [|m1 tl]; [apply stable_throw|].
    destruct (sources m1) as [[|s rest]|]; try apply stable_ret.
    apply stable_bind.
    { apply streaming_keeps_channel. intros w. reflexivity. }
    intros cl. apply stable_bind.
    { apply stable_when, throwing_sendSSEContent. }
    intros u3. apply stable_ret. }
  intros text'. eapply hoare_bind.
  { apply streaming_keeps_channel, save_response_keeps_channel. }
  intros u'. apply throwing_finish_stream_ends, Hend.
Qed.

End ThrowingTermination.

(** A log that holds both the sentinel and an error frame, or that ends
    with a frame and no closing, is the log of no terminal action. *)
Lemma not_ended_with (acts : list action) (t : terminal_action) (w : world) :
  log (sse w) = acts →
  filter (fun a => negb (is_data a)) acts ≠ terminal_trace t →
  ¬ ended_with [] t w.
Proof.
  intros Hlog Hne [data [Hd Hl]]. apply Hne.
  rewrite <- Hlog, Hl. simpl.
  rewrite filter_app, (data_filtered data Hd), terminal_trace_not_data.
  reflexivity.
Qed.

(** C1, as stated, does not hold: the sentinel is written inside the [try]
    block, so a closing that throws after it reaches the [catch] block,
    which finds the channel open and writes an error frame after the
    sentinel.  And when the error frame cannot be written either, the
    request ends with no terminal action at all, on a channel that is
    still open. *)
Lemma sentinel_then_error_frame :
  let env := with_stream sample_environment [Delta (content_chunk "Hi")] in
  let both :=
    Throwing.LlmContextManager.handleStreamingRequest closing_throws
      (sample_config 10) env 0 (Some "s1") "m" 0%nat sample_world in
  let none :=
    Throwing.LlmContextManager.handleStreamingRequest nothing_passes
      (sample_config 10) env 0 (Some "s1") "m" 0%nat sample_world in
  (log (sse both)
   = [Send (FChunk (content_chunk "Hi")); Send FDone;
      Send (FError "write after end")]
   ∧ ¬ ended_once [] both)
  ∧ (sse none = open_channel ∧ ¬ ended_once [] none).
Proof.
  split.
  - split; [reflexivity|].
    intros [[t [Ht _]] _]. revert Ht.
    apply (not_ended_with
             [Send (FChunk (content_chunk "Hi")); Send FDone;
              Send (FError "write after end")]); [reflexivity|].
    destruct t; discriminate.
  - split; [reflexivity|].
    intros [_ Hab].
    assert (ended_with [] Abandoned
              (Throwing.LlmContextManager.handleStreamingRequest
                 nothing_passes (sample_config 10)
                 (with_stream sample_environment
                    [Delta (content_chunk "Hi")])
                 0 (Some "s1") "m" 0%nat sample_world)) as H
      by (exists []; split; reflexivity).
    specialize (Hab H). discriminate.
Qed.

(** C1, amended.  As long as the closing of the channel does not throw and
    error frames can be written, every request handled by the basic
    handler and by the tools handler ends on the output channel in exactly
    one of three ways, whatever the provider streams, whatever the client
    does and whichever writes of deltas or of the sentinel throw: deltas
    then the sentinel and the end of the channel; deltas then an error
    frame and the end of the channel; or deltas and nothing else, the
    channel being closed or unavailable.  The log then never holds two
    terminal frames, and never both a sentinel and an error frame. *)
Theorem one_terminal_action_when_closing_succeeds
    (tr : transport) (cfg : config) (env : environment) (now : Z)
    (taskId : option string) (model : string) (contextData : loc)
    (w : world) :
  closing_succeeds tr →
  error_frames_pass tr →
  ended_once (log (sse w))
    (Throwing.LlmContextManager.handleStreamingRequest tr cfg env now
       taskId model contextData w)
  ∧ ended_once (log (sse w))
      (Throwing.LlmTools.handleStreamingRequest tr cfg env now taskId model
         contextData w).
Proof.
  intros Hend Herr. split.
  - unfold Throwing.LlmContextManager.handleStreamingRequest.
    destruct (unusable (sse w)) eqn:Hu; [apply unusable_ended_once, Hu|].
    pose proof (throwing_try_catch_ended_once tr (log (sse w)) _ Hend Herr
                  (throwing_basic_try_block tr (log (sse w)) cfg env now
                     taskId model contextData Hend)
                  w (streaming_start w)) as H.
    destruct (try_catch _ (Transport.report_error tr) w) as [[u|msg] w'];
      [exact H|elim H].
  - unfold Throwing.LlmTools.handleStreamingRequest.
    destruct (unusable (sse w)) eqn:Hu; [apply unusable_ended_once, Hu|].
    pose proof (throwing_try_catch_ended_once tr (log (sse w)) _ Hend Herr
                  (throwing_tools_try_block tr (log (sse w)) cfg env now
                     taskId model contextData Hend)
                  w (streaming_start w)) as H.
    destruct (try_catch _ (Transport.report_error tr) w) as [[u|msg] w'];
      [exact H|elim H].
Qed.

Lemma one_terminal_action_when_closing_succeeds_witness :
  closing_succeeds only_errors_pass
  ∧ error_frames_pass only_errors_pass
  ∧ ended_once (log (sse sample_world))
      (Throwing.LlmContextManager.handleStreamingRequest only_errors_pass
         (sample_config 10)
         (with_stream sample_environment [Delta (content_chunk "Hi")])
         0 (Some "s1") "m" 0%nat sample_world).
Proof.
  split; [intros s; reflexivity|]. split; [intros s msg; reflexivity|].
  exact (proj1 (one_terminal_action_when_closing_succeeds only_errors_pass
                  (sample_config 10)
                  (with_stream sample_environment
                     [Delta (content_chunk "Hi")])
                  0 (Some "s1") "m" 0%nat sample_world
                  (fun s => eq_refl) (fun s msg => eq_refl))).
Defined.

(** On [only_errors_pass] the delta cannot be written: the request of the
    witness ends with the error frame alone. *)
Lemma rejected_delta_ends_with_error_frame :
  log (sse (Throwing.LlmContextManager.handleStreamingRequest
              only_errors_pass (sample_config 10)
              (with_stream sample_environment [Delta (content_chunk "Hi")])
              0 (Some "s1") "m" 0%nat sample_world))
  = [Send (FError "socket hang up"); End].
Proof. reflexivity. Qed.

(** X25.  As long as the closing of the channel does not throw and error
    frames can be written, the requests of llm-fast-reply and llm-rag end
    like those of the other two functions: after the deltas (the
    preamble, the notice and the references are deltas too), exactly one
    of the sentinel with the closing of the channel, an error frame with
    the closing of the channel, or nothing on a channel that is closed or
    unavailable, whatever the provider answers and whichever writes of
    deltas or of the sentinel throw. *)
Theorem preamble_and_retrieval_end_once_when_closing_succeeds
    {vector num : Type} (tr : transport) (num_leb : num → num → bool)
    (cfg : config) (pc : LlmFastReply.progressive_config)
    (rc : LlmRag.rag_config num) (sc : LlmRag.scoring vector num)
    (documents : list (LlmRag.document vector)) (env : environment)
    (now : Z) (taskId : option string) (model : string) (contextData : loc)
    (e : event) (w : world) :
  closing_succeeds tr →
  error_frames_pass tr →
  ended_once (log (sse w))
    (Throwing.LlmFastReply.handleStreamingRequest tr cfg pc env now taskId
       model contextData e w)
  ∧ ended_once (log (sse w))
      (Throwing.LlmRag.handleStreamingRequest tr num_leb cfg rc sc documents
         env now taskId model contextData w).
Proof.
  intros Hend Herr. split.
  - unfold Throwing.LlmFastReply.handleStreamingRequest.
    destruct (unusable (sse w)) eqn:Hu; [apply unusable_ended_once, Hu|].
    pose proof (throwing_try_catch_ended_once tr (log (sse w)) _ Hend Herr
                  (throwing_fast_try_block tr (log (sse w)) cfg pc env now
                     taskId model contextData e Hend)
                  w (streaming_start w)) as H.
    destruct (try_catch _ (Transport.report_error tr) w) as [[u|msg] w'];
      [exact H|elim H].
  - unfold Throwing.LlmRag.handleStreamingRequest.
    destruct (unusable (sse w)) eqn:Hu; [apply unusable_ended_once, Hu|].
    pose proof (throwing_try_catch_ended_once tr (log (sse w)) _ Hend Herr
                  (throwing_rag_try_block tr (log (sse w)) num_leb cfg rc sc
                     documents env now taskId model contextData Hend)
                  w (streaming_start w)) as H.
    destruct (try_catch _ (Transport.report_error tr) w) as [[u|msg] w'];
      [exact H|elim H].
Qed.

Lemma preamble_and_retrieval_end_once_when_closing_succeeds_witness :
  closing_succeeds only_errors_pass
  ∧ error_frames_pass only_errors_pass
  ∧ ended_once (log (sse query_world))
      (Throwing.LlmRag.handleStreamingRequest only_errors_pass Z.leb
         (sample_config 10) sample_rag_config sample_scoring sample_corpus
         (with_stream sample_environment [Delta (content_chunk "Hi")])
         0 (Some "s1") "m" 0%nat query_world).
Proof.
  split; [intros s; reflexivity|]. split; [intros s msg; reflexivity|].
  exact (proj2 (preamble_and_retrieval_end_once_when_closing_succeeds
                  only_errors_pass Z.leb (sample_config 10)
                  (sample_progressive true) sample_rag_config sample_scoring
                  sample_corpus
                  (with_stream sample_environment
                     [Delta (content_chunk "Hi")])
                  0 (Some "s1") "m" 0%nat sample_event query_world
                  (fun s => eq_refl) (fun s msg => eq_refl))).
Defined.

(** In the request of the witness the notice cannot be written: the
    request ends with the error frame alone, and on a transport on which
    only the closing throws it ends with the notice, the delta, the
    references, the sentinel and an error frame. *)
Lemma rejected_notice_ends_with_error_frame :
  log (sse (Throwing.LlmRag.handleStreamingRequest only_errors_pass Z.leb
              (sample_config 10) sample_rag_config sample_scoring
              sample_corpus
              (with_stream sample_environment [Delta (content_chunk "Hi")])
              0 (Some "s1") "m" 0%nat query_world))
  = [Send (FError "socket hang up"); End]
  ∧ filter (fun a => negb (is_data a))
      (log (sse (Throwing.LlmRag.handleStreamingRequest closing_throws Z.leb
                   (sample_config 10) sample_rag_config sample_scoring
                   sample_corpus
                   (with_stream sample_environment
                      [Delta (content_chunk "Hi")])
                   0 (Some "s1") "m" 0%nat query_world)))
    = [Send FDone; Send (FError "write after end")].
Proof. split; vm_compute; reflexivity. Qed.

(* ================================================================== *)
(** * The argument buffer of an invocation *)
(* ================================================================== *)

Lemma fragments_for_own id ds :
  forallb (fun d => negb (truthy (tcd_id d))
                    || bool_decide (tcd_id d = Some id)) ds = true →
  fragments_for id false ds = map fragment_text ds.
Proof.
  induction ds as [|d ds IH]; [reflexivity|].
  intros H. apply andb_true_iff in H. destruct H as [Hd Hds].
  cbn [fragments_for map].
  assert (Hother : (if truthy (tcd_id d)
                    then negb (bool_decide (tcd_id d = Some id))
                    else false) = false).
  { revert Hd. destruct (truthy (tcd_id d)); simpl; intros Hd;
      [rewrite Hd|]; reflexivity. }
  rewrite Hother. cbn [app]. rewrite (IH Hds). reflexivity.
Qed.

Lemma one_invocation_entries id pre :
  one_invocation id pre = true →
  forallb (fun d => negb (truthy (tcd_id d))
                    || bool_decide (tcd_id d = Some id)) (entries pre) = true
  ∧ concat_strings (map first_fragment pre)
    = concat_strings (map fragment_text (entries pre)).
Proof.
  unfold one_invocation, entries.
  induction pre as [|c pre IH]; [split; reflexivity|].
  intros H. apply andb_true_iff in H. destruct H as [Hc Hpre].
  destruct (IH Hpre) as [IH1 IH2].
  cbn [flat_map map]. rewrite forallb_app, map_app, concat_strings_app.
  rewrite concat_strings_cons, IH1, IH2. unfold first_fragment.
  destruct (chunk_tool_calls c) as [[|d [|d' ds]]|]; try discriminate;
    unfold default, from_option, Datatypes.id; cbn [forallb map];
    split; try reflexivity.
  - cbv beta. rewrite Hc. reflexivity.
  - rewrite concat_strings_cons. cbn [concat_strings fold_right].
    rewrite append_empty_r. reflexivity.
Qed.

(** In a turn that holds one invocation, what the loop reads is every
    fragment received for it. *)
Lemma buffer_of_one_invocation id pre :
  one_invocation id pre = true →
  concat_strings (map first_fragment pre)
  = concat_strings (received_for id pre).
Proof.
  intros H. destruct (one_invocation_entries id pre H) as [Hown Heq].
  unfold received_for. rewrite (fragments_for_own id _ Hown). exact Heq.
Qed.

(** C9, as stated, does not hold: the loop never looks at the invocation
    that a fragment is for.  When the provider streams a fragment of a
    second invocation before the turn completes, its text is appended to
    the buffer of the first: the invocation [call_1] is handed back with
    the arguments [{}], of which only [{] was received for it. *)
Lemma fragments_of_two_invocations_are_merged :
  let w' :=
    LlmTools.handleStreamingRequest (sample_config 10)
      (with_streams sample_environment
         (map Delta two_invocations ++ [Delta (finish_chunk "tool_calls")])
         [])
      0 None "m" 0%nat sample_world in
  concat_strings (received_for "call_1" two_invocations) = "{"
  ∧ ∃ tc, map invocations_of (requests w') = [[]; [tc]]
          ∧ tc_id tc = "call_1"
          ∧ fn_arguments (tc_function tc) = "{}"
          ∧ fn_arguments (tc_function tc)
            ≠ concat_strings (received_for (tc_id tc) two_invocations).
Proof.
  split; [reflexivity|].
  eexists. split; [reflexivity|]. split; [reflexivity|].
  split; [reflexivity|]. discriminate.
Qed.

(** C9, amended.  A completed invocation: the deltas [pre0] carry no
    fragment, the delta [c] carries the first one, the deltas [pre1]
    follow and the delta [fin] completes the turn.  The argument buffer
    is then the concatenation, in arrival order, of the argument text of
    the first fragment of every delta received, whatever invocation the
    fragment is for: it is with this buffer that the tool is executed and
    that the invocation is recorded and handed back to the provider.  In
    a turn that holds one invocation, the buffer is the concatenation, in
    arrival order, of every fragment received for it. *)
Theorem arguments_concatenated_in_arrival_order
    (cfg : config) (env : environment) (now : Z) (taskId : option string)
    (model : string) (contextData : loc) (w : world)
    (pre0 pre1 : list chunk) (c fin : chunk) (d : tool_call_delta)
    (ds : list tool_call_delta) (rest : list stream_event) :
  unusable (sse w) = false →
  str_truthy model = true →
  let primary :=
    stream_request model (messages_at contextData (manager w)) true in
  let pre := pre0 ++ c :: pre1 in
  create_stream env primary = map Delta pre ++ Delta fin :: rest →
  forallb plain_delta pre = true →
  existsb has_tool_calls pre0 = false →
  chunk_tool_calls c = Some (d :: ds) →
  chunk_tool_calls fin = None →
  finishes_tool_call fin = true →
  let buffer := concat_strings (map first_fragment pre) in
  let tc := LlmTools.with_arguments buffer (started_by d) in
  let result := LlmTools.handleFunctionCall env (tc_function tc) in
  let recorded := recorded_store cfg now taskId tc result (manager w) in
  let w' := LlmTools.handleStreamingRequest cfg env now taskId model
              contextData w in
  LlmTools.accumulatedArguments
    (fold_left absorb pre LlmTools.initial_state) = buffer
  ∧ requests w'
    = requests w
      ++ [primary;
          stream_request model
            (messages_at contextData recorded
             ++ [tool_call_message tc; tool_result_message tc result])
            false]
  ∧ (one_invocation (tc_id tc) pre = true →
     fn_arguments (tc_function tc)
     = concat_strings (received_for (tc_id tc) pre)).
Proof.
  intros Hu Hmodel primary pre Hstream Hplain Hpre0 Hc Hfin Hfinish
    buffer tc result recorded w'.
  destruct (absorb_invocation pre0 c d ds pre1 Hpre0 Hc)
    as (Hcol & Hdata & Hargs).
  fold pre in Hcol, Hdata, Hargs. fold buffer in Hargs.
  split; [exact Hargs|]. split.
  - subst w'.
    rewrite tools_handler_run by assumption. fold primary. rewrite Hstream.
    rewrite (try_catch_bind_keeps requests).
    2: { intros st. apply keeps_bind.
         - apply keeps_when, save_response_keeps_requests.
         - intros u. apply finish_stream_keeps; intros; intros x; reflexivity. }
    2: { intros msg. apply report_error_keeps; intros; intros x; reflexivity. }
    rewrite tools_relay_open by (try exact Hplain; apply usable_open, Hu).
    rewrite relay_step_complete
      by (try exact Hfin; rewrite Hcol, Hfinish; reflexivity).
    pose proof (complete_tool_call_request cfg env now taskId model
                  contextData _ _
                  (logged (tools_forwarded pre) (requested primary w))
                  Hdata) as Hreq.
    cbv zeta in Hreq. rewrite Hreq, Hargs.
    rewrite record_tool_call_run. simpl.
    rewrite <- app_assoc. reflexivity.
  - intros Hone. apply buffer_of_one_invocation, Hone.
Qed.

Lemma arguments_concatenated_in_arrival_order_witness :
  let pre := [fragment_chunk (Some "call_1") (Some "get_weather")
                ("{" +:+ dquote +:+ "loc");
              fragment_chunk None None ("ation" +:+ dquote +:+ ":" +:+ dquote);
              fragment_chunk None None ("Beijing" +:+ dquote +:+ "}")] in
  unusable (sse sample_world) = false
  ∧ str_truthy "m" = true
  ∧ one_invocation "call_1" pre = true
  ∧ received_for "call_1" pre = beijing_fragments
  ∧ map invocations_of
      (requests (LlmTools.handleStreamingRequest (sample_config 10)
                   weather_environment 0 (Some "s1") "m" 0%nat sample_world))
    = [[]; [weather_call; weather_call]].
Proof.
  intros pre.
  split; [reflexivity|]. split; [reflexivity|]. split; [reflexivity|].
  split; [reflexivity|].
  rewrite (proj1 (proj2
             (arguments_concatenated_in_arrival_order (sample_config 10)
                weather_environment 0 (Some "s1") "m" 0%nat sample_world
                [] (tl pre) (hd (finish_chunk "") pre)
                (finish_chunk "tool_calls")
                {| tcd_id := Some "call_1"; tcd_type := Some "function";
                   tcd_function :=
                     Some {| fd_name := Some "get_weather";
                             fd_arguments :=
                               Some ("{" +:+ dquote +:+ "loc") |} |}
                [] []
                eq_refl eq_refl eq_refl eq_refl eq_refl eq_refl eq_refl
                eq_refl))).
  reflexivity.
Defined.

(* ================================================================== *)
(** * After the client has gone away *)
(* ================================================================== *)




Section ToolsAfterClose.
Variable cfg : config.
Variable env : environment.
Variable now : Z.
Variable taskId : option string.
Variable model : string.
Variable contextData : loc.



End ToolsAfterClose.







(** In the request of the witness, the text [llo] arrives after the
    client has gone: it is not written, and it is stored; and a weather
    invocation that arrives whole after the client has gone is executed
    and recorded, and the answer of the continuation stored. *)
Lemma text_after_close_is_stored :
  history_of "s1"
    (manager (LlmContextManager.handleStreamingRequest (sample_config 10)
                (with_stream sample_environment
                   (map Delta [content_chunk "He"]
                    ++ Disconnect
                       :: [Delta (content_chunk "llo"); Fail "reset"]))
                0 (Some "s1") "m" 0%nat sample_world))
  = Some [system_message "You are a helpful assistant";
          plain_message "assistant" "Hello"]
  ∧ (let w' := LlmTools.handleStreamingRequest (sample_config 10)
                 (with_streams weather_environment
                    (Disconnect :: weather_stream)
                    [Delta (content_chunk "Sunny")])
                 0 (Some "s1") "m" 0%nat sample_world in
     log (sse w') = []
     ∧ history_of "s1" (manager w')
       = Some [system_message "You are a helpful assistant";
               tool_call_message weather_call;
               tool_result_message weather_call
                 (LlmTools.JSON_stringify beijing_weather);
               plain_message "assistant" "Sunny"]).
Proof. split; [|split]; vm_compute; reflexivity. Qed.
